(** * FixedSizeAllocator (src/execution/index/fixed_size_allocator.cpp)

    A shallow embedding of DuckDB's fixed-size segment allocator and the
    properties of its bit-scan ladders, constructor, [New], [Free],
    [Merge], buffer-id allocation, (de)serialisation and vacuum. *)

From Stdlib Require Import ZArith Lia List Bool String.
From Stdlib Require Floats.
From stdpp Require Import base option list gmap sets.

Local Open Scope Z_scope.

(** ** Machine words

    [idx_t] and [validity_t] are unsigned 64-bit integers, [uint32_t] is an
    unsigned 32-bit integer.  They are embedded as [Z] with the wrap-around
    written out. *)

Module Word.

Definition bits : Z := 64.
Definition modulus : Z := 2 ^ 64.
Definition MAX_ENTRY : Z := 2 ^ 64 - 1.

Definition wrap (x : Z) : Z := x mod modulus.
Definition add (x y : Z) : Z := wrap (x + y).
Definition sub (x y : Z) : Z := wrap (x - y).
Definition mul (x y : Z) : Z := wrap (x * y).
Definition shl (x n : Z) : Z := wrap (Z.shiftl x n).
Definition not (x : Z) : Z := Z.lxor x MAX_ENTRY.
Definition u32 (x : Z) : Z := x mod 2 ^ 32.

Definition ok (x : Z) : Prop := 0 <= x < modulus.

End Word.

(** ** Bit-scan ladders *)

(** Modelled from the spec: the tables [SHIFT] and [BASE] of
    fixed_size_allocator.hpp (section 4.1: SHIFT = [32, 16, 8, 4, 2, 1];
    BASE[i] isolates the lower half of every sub-word at level i, that is
    0x00000000FFFFFFFF, 0x0000FFFF0000FFFF, ..., 0x5555...55). *)
Definition SHIFT : list Z := [32; 16; 8; 4; 2; 1].

Definition BASE : list Z :=
  [ 0x00000000FFFFFFFF; 0x0000FFFF0000FFFF; 0x00FF00FF00FF00FF;
    0x0F0F0F0F0F0F0F0F; 0x3333333333333333; 0x5555555555555555 ].

(** The other table that meets the same contract: only the low
    [SHIFT[i]] bits set. *)
Definition BASE_low : list Z := [ 0xFFFFFFFF; 0xFFFF; 0xFF; 0xF; 0x3; 0x1 ].

(** One level of the ladder of [GetOffset] (lines 318-330):
    [if (entry & BASE[i]) entry &= BASE[i];
     else { entry >>= SHIFT[i]; first_valid_bit += SHIFT[i]; }]. *)
Definition rightmost_level (st : Z * Z) (bs : Z * Z) : Z * Z :=
  let '(entry, first_valid_bit) := st in
  let '(b, s) := bs in
  if Z.land entry b =? 0
  then (Z.shiftr entry s, Word.add first_valid_bit s)
  else (Z.land entry b, first_valid_bit).

Definition rightmost_ladder (base : list Z) (entry : Z) : Z * Z :=
  fold_left rightmost_level (combine base SHIFT) (entry, 0).

(** [find_rightmost_set x]: the value of [first_valid_bit] after the loop. *)
Definition find_rightmost_set (x : Z) : Z := snd (rightmost_ladder BASE x).

(** One level of the ladder of [GetMaxOffset] (lines 372-385):
    [if (entry_inv & ~BASE[level]) { entry_inv >>= SHIFT[level];
       first_valid_bit += SHIFT[level]; }
     else entry_inv &= BASE[level];]. *)
Definition leftmost_level (st : Z * Z) (bs : Z * Z) : Z * Z :=
  let '(entry_inv, first_valid_bit) := st in
  let '(b, s) := bs in
  if Z.land entry_inv (Word.not b) =? 0
  then (Z.land entry_inv b, first_valid_bit)
  else (Z.shiftr entry_inv s, Word.add first_valid_bit s).

Definition leftmost_ladder (base : list Z) (entry_inv : Z) : Z * Z :=
  fold_left leftmost_level (combine base SHIFT) (entry_inv, 0).

Definition find_leftmost_set (x : Z) : Z := snd (leftmost_ladder BASE x).

(** [n] is the index of the rightmost (lowest) set bit of [x]. *)
Definition is_rightmost_set (x n : Z) : Prop :=
  0 <= n /\ Z.testbit x n = true /\
  forall m, 0 <= m < n -> Z.testbit x m = false.

(** [n] is the index of the leftmost (highest) set bit of [x]. *)
Definition is_leftmost_set (x n : Z) : Prop :=
  0 <= n /\ Z.testbit x n = true /\
  forall m, n < m -> Z.testbit x m = false.

(** The contract a mask of level [s] has to meet on a value of [2 * s]
    bits: its low [s] bits are set and the next [s] bits are clear. *)
Definition isolates_low_half (b s : Z) : Prop :=
  0 <= b < Word.modulus /\
  forall k, 0 <= k < 2 * s -> Z.testbit b k = (k <? s).

(** A decidable form of the contract, to check explicit tables. *)
Definition isolates_low_halfb (b s : Z) : bool :=
  (0 <=? b) && (b <? Word.modulus) &&
  forallb (fun k => Bool.eqb (Z.testbit b (Z.of_nat k)) (Z.of_nat k <? s))
          (seq 0 (Z.to_nat (2 * s))).

Definition table_ok (base : list Z) : Prop :=
  Forall2 isolates_low_half base SHIFT.

(** ** Outcomes

    A call returns normally, throws ([throw InternalException(...)], or a
    violated [D_ASSERT]), or leaves the behaviour this development models
    (a read outside the bitmap words of a block, a buffer that first has
    to be loaded by the buffer manager, a division by zero). *)

Inductive outcome (A : Type) : Type :=
  | Ok (a : A)
  | InternalException (msg : string)
  | Undefined.
Arguments Ok {A} a.
Arguments InternalException {A} msg.
Arguments Undefined {A}.

#[global] Instance outcome_ret : MRet outcome := fun A a => Ok a.

#[global] Instance outcome_bind : MBind outcome := fun A B f m =>
  match m with
  | Ok a => f a
  | InternalException msg => InternalException msg
  | Undefined => Undefined
  end.

Definition is_Ok {A} (m : outcome A) : Prop := exists a, m = Ok a.

Definition throws {A} (m : outcome A) : Prop := exists msg, m = InternalException msg.

(** Modelled from the spec: the [D_ASSERT] macro (assertion.hpp).  The
    spec reads an assertion as a check whose violation is a fatal internal
    error (sections 3 and 7). *)
Definition D_ASSERT (condition : bool) (text : string) : outcome unit :=
  if condition then Ok tt else InternalException text.

Definition of_option {A} (o : option A) : outcome A :=
  match o with Some a => Ok a | None => Undefined end.

(** ** Validity bitmap view *)

(** Modelled from the spec: [ValidityMask] (validity_mask.hpp), section
    4.2.  The view addresses the bitmap words at the head of a block; bit
    [i] lives in word [i / 64] at position [i mod 64]. *)
Module ValidityMask.

Definition BITS_PER_VALUE : Z := 64.

Definition t := list Z.

Definition GetEntry (mask : list Z) (entry_idx : Z) : outcome Z :=
  if entry_idx <? 0 then Undefined
  else of_option (mask !! Z.to_nat entry_idx).

Definition SetEntry (mask : list Z) (entry_idx : Z) (entry : Z) : outcome (list Z) :=
  if (0 <=? entry_idx) && (entry_idx <? Z.of_nat (length mask))
  then Ok (<[Z.to_nat entry_idx := entry]> mask)
  else Undefined.

(** [test(i)]: is bit [i] set (slot free)? *)
Definition RowIsValid (mask : list Z) (row_idx : Z) : outcome bool :=
  entry ← GetEntry mask (row_idx / BITS_PER_VALUE);
  Ok (Z.testbit entry (row_idx mod BITS_PER_VALUE)).

(** [set(i)]: mark slot [i] free. *)
Definition SetValid (mask : list Z) (row_idx : Z) : outcome (list Z) :=
  entry ← GetEntry mask (row_idx / BITS_PER_VALUE);
  SetEntry mask (row_idx / BITS_PER_VALUE)
           (Z.lor entry (Z.shiftl 1 (row_idx mod BITS_PER_VALUE))).

(** [clear(i)]: mark slot [i] used. *)
Definition SetInvalid (mask : list Z) (row_idx : Z) : outcome (list Z) :=
  entry ← GetEntry mask (row_idx / BITS_PER_VALUE);
  SetEntry mask (row_idx / BITS_PER_VALUE)
           (Z.land entry (Word.not (Z.shiftl 1 (row_idx mod BITS_PER_VALUE)))).

(** The word of index [entry_idx] after [set_all_valid(count)]. *)
Definition all_valid_entry (count : Z) (entry_idx : Z) : Z :=
  Z.ones (Z.max 0 (Z.min BITS_PER_VALUE (count - entry_idx * BITS_PER_VALUE))).

(** [set_all_valid(M)]: set bits [0..M-1], clear the rest. *)
Definition SetAllValid (mask : list Z) (count : Z) : list Z :=
  imap (fun i _ => all_valid_entry count (Z.of_nat i)) mask.

End ValidityMask.

(** ** Pointers and buffers *)

(** Modelled from the spec: [Storage::BLOCK_SIZE] (storage_info.hpp); the
    spec's scenarios take 262144. *)
Definition BLOCK_SIZE : Z := 262144.

(** [sizeof(validity_t)]. *)
Definition sizeof_validity_t : Z := 8.

(** Modelled from the spec: [IndexPointer] (index_pointer.hpp), section 3:
    a 32-bit buffer id and a 32-bit offset counted in segments; the handle
    with all bits zero is the null pointer. *)
Record IndexPointer : Type := MkIndexPointer {
  GetBufferId : Z;
  GetOffsetOf : Z
}.

(** [IndexPointer(uint32_t buffer_id, uint32_t offset)]. *)
Definition IndexPointer_new (buffer_id offset : Z) : IndexPointer :=
  MkIndexPointer (Word.u32 buffer_id) (Word.u32 offset).

Definition null_pointer : IndexPointer := MkIndexPointer 0 0.

(** The pinned memory of a block: the bitmap words at its head and the
    bytes behind them, keyed by their byte offset in the block.  A byte
    that was never written has no entry. *)
Record Block : Type := MkBlock {
  bitmap : list Z;
  payload : gmap Z Z
}.

(** Modelled from the spec: [FixedSizeBuffer] (fixed_size_buffer.hpp),
    sections 3 and 4.3: the live segment count, the vacuum flag, the pinned
    memory (absent while the buffer is only on disk) and the on-disk
    location. *)
Record FixedSizeBuffer : Type := MkFixedSizeBuffer {
  segment_count : Z;
  vacuum : bool;
  memory : option Block;
  block_pointer : option Z;
  allocation_size : Z
}.

(** [FixedSizeBuffer(block_manager)]: a fresh in-memory buffer of
    [bitmask_count] bitmap words; its bitmap is rewritten by
    [SetAllValid] before it is read. *)
Definition FixedSizeBuffer_fresh (bitmask_count : Z) : FixedSizeBuffer :=
  MkFixedSizeBuffer 0 false
    (Some (MkBlock (replicate (Z.to_nat bitmask_count) 0) ∅)) None 0.

(** [FixedSizeBuffer(block_manager, segment_count, allocation_size,
    block_pointer)]: a restored buffer, not loaded yet. *)
Definition FixedSizeBuffer_restored (segment_count allocation_size block_pointer : Z)
  : FixedSizeBuffer :=
  MkFixedSizeBuffer segment_count false None (Some block_pointer) allocation_size.

Definition InMemory (buffer : FixedSizeBuffer) : bool :=
  match memory buffer with Some _ => true | None => false end.

(** [buffer.Get()] on a pinned buffer; loading a buffer from disk is the
    buffer manager's part. *)
Definition Get_block (buffer : FixedSizeBuffer) : outcome Block :=
  of_option (memory buffer).

Definition set_bitmap (buffer : FixedSizeBuffer) (mask : list Z) : FixedSizeBuffer :=
  match memory buffer with
  | Some blk =>
      MkFixedSizeBuffer (segment_count buffer) (vacuum buffer)
        (Some (MkBlock mask (payload blk)))
        (block_pointer buffer) (allocation_size buffer)
  | None => buffer
  end.

Definition set_segment_count (buffer : FixedSizeBuffer) (n : Z) : FixedSizeBuffer :=
  MkFixedSizeBuffer n (vacuum buffer) (memory buffer)
    (block_pointer buffer) (allocation_size buffer).

(** ** The allocator *)

Record FixedSizeAllocator : Type := MkFixedSizeAllocator {
  segment_size : Z;
  bitmask_count : Z;
  bitmask_offset : Z;
  available_segments_per_buffer : Z;
  total_segment_count : Z;
  buffers : gmap Z FixedSizeBuffer;
  buffers_with_free_space : gset Z;
  vacuum_buffers : gset Z
}.

Definition with_state (a : FixedSizeAllocator) (total : Z)
    (bufs : gmap Z FixedSizeBuffer) (free : gset Z) : FixedSizeAllocator :=
  MkFixedSizeAllocator (segment_size a) (bitmask_count a) (bitmask_offset a)
    (available_segments_per_buffer a) total bufs free (vacuum_buffers a).

(** *** Constructor (lines 10-47) *)

(** The loop variables [bitmask_count], [available_segments_per_buffer]
    and [byte_count]. *)
Record ctor_vars : Type := MkCtorVars {
  cv_bitmask_count : Z;
  cv_available : Z;
  cv_byte_count : Z
}.

Inductive ctor_flow : Type :=
  | Continue (v : ctor_vars)
  | Break (v : ctor_vars)
  | DivisionByZero.

Definition MinValue (a b : Z) : Z := if a <? b then a else b.

(** The body of the [while] loop (lines 28-43). *)
Definition ctor_body (segment_size : Z) (v : ctor_vars) : ctor_flow :=
  let bits_per_value := Word.mul sizeof_validity_t 8 in
  let bc := cv_bitmask_count v in
  let avail := cv_available v in
  let byte_count := cv_byte_count v in
  if (negb (bc =? 0)) && (avail =? 0) then DivisionByZero
  else
    let grow := (bc =? 0) || (Word.mul bc bits_per_value mod avail =? 0) in
    let bc := if grow then Word.add bc 1 else bc in
    let byte_count := if grow then Word.add byte_count sizeof_validity_t else byte_count in
    let remaining_bytes := Word.sub BLOCK_SIZE byte_count in
    if segment_size =? 0 then DivisionByZero
    else
      let remaining_segments := MinValue (remaining_bytes / segment_size) bits_per_value in
      if remaining_segments =? 0 then Break (MkCtorVars bc avail byte_count)
      else Continue (MkCtorVars bc (Word.add avail remaining_segments)
                       (Word.add byte_count (Word.mul remaining_segments segment_size))).

(** [while (byte_count < Storage::BLOCK_SIZE) { ... }]; [None] when the
    fuel does not suffice. *)
Fixpoint ctor_loop (fuel : nat) (segment_size : Z) (v : ctor_vars)
  : option (outcome ctor_vars) :=
  if cv_byte_count v <? BLOCK_SIZE then
    match fuel with
    | O => None
    | S fuel' =>
        match ctor_body segment_size v with
        | Continue v' => ctor_loop fuel' segment_size v'
        | Break v' => Some (Ok v')
        | DivisionByZero => Some Undefined
        end
    end
  else Some (Ok v).

Definition max_segment_size_msg : string :=
  "The maximum segment size of fixed-size allocators is 262136".

(** [FixedSizeAllocator::FixedSizeAllocator(segment_size, block_manager)].
    The byte count grows in every round of the loop, so [BLOCK_SIZE] rounds
    are enough ([FixedSizeAllocator_new_total]). *)
Definition FixedSizeAllocator_new (segment_size : Z) : outcome FixedSizeAllocator :=
  if segment_size >? Word.sub BLOCK_SIZE sizeof_validity_t
  then InternalException max_segment_size_msg
  else
    match ctor_loop (Z.to_nat BLOCK_SIZE) segment_size (MkCtorVars 0 0 0) with
    | None => Undefined
    | Some r =>
        v ← r;
        Ok (MkFixedSizeAllocator segment_size (cv_bitmask_count v)
              (Word.mul (cv_bitmask_count v) sizeof_validity_t)
              (cv_available v) 0 ∅ ∅ ∅)
    end.

(** *** Buffer ids (lines 396-403) *)

(** [while (buffers.find(buffer_id) != buffers.end()) {
       D_ASSERT(buffer_id > 0); buffer_id--; }] from [buffer_id]. *)
Fixpoint GetAvailableBufferId_from (bufs : gmap Z FixedSizeBuffer) (buffer_id : nat)
  : outcome Z :=
  match bufs !! Z.of_nat buffer_id with
  | None => Ok (Z.of_nat buffer_id)
  | Some _ =>
      match buffer_id with
      | O => InternalException "buffer_id > 0"
      | S buffer_id' => GetAvailableBufferId_from bufs buffer_id'
      end
  end.

Definition GetAvailableBufferId (bufs : gmap Z FixedSizeBuffer) : outcome Z :=
  GetAvailableBufferId_from bufs (size bufs).

(** *** Free slots (lines 296-340) *)

Definition invalid_bitmask_msg : string := "Invalid bitmask for FixedSizeAllocator".

(** The [for] loop over the bitmap words (lines 306-337), with [n] words
    left to visit from [entry_idx] on. *)
Fixpoint GetOffset_scan (mask : list Z) (n : nat) (entry_idx : Z)
  : outcome (list Z * Z) :=
  match n with
  | O => InternalException invalid_bitmask_msg
  | S n' =>
      entry ← ValidityMask.GetEntry mask entry_idx;
      if entry =? 0 then GetOffset_scan mask n' (Word.add entry_idx 1)
      else
        let '(entry', first_valid_bit) := rightmost_ladder BASE entry in
        _ ← D_ASSERT (negb (entry' =? 0)) "entry";
        let prev_bits := Word.mul (Word.mul entry_idx sizeof_validity_t) 8 in
        let row := Word.add prev_bits first_valid_bit in
        valid ← ValidityMask.RowIsValid mask row;
        _ ← D_ASSERT valid "mask.RowIsValid(prev_bits + first_valid_bit)";
        mask' ← ValidityMask.SetInvalid mask row;
        Ok (mask', Word.u32 row)
  end.

(** [GetOffset(mask, segment_count)]: the mask after the call and the
    offset returned. *)
Definition GetOffset (a : FixedSizeAllocator) (mask : list Z) (segment_count : Z)
  : outcome (list Z * Z) :=
  valid ← ValidityMask.RowIsValid mask segment_count;
  if valid : bool then
    mask' ← ValidityMask.SetInvalid mask segment_count;
    Ok (mask', Word.u32 segment_count)
  else GetOffset_scan mask (Z.to_nat (bitmask_count a)) 0.

(** *** Highest used slot (lines 342-394) *)

Definition empty_buffer_msg : string := "tried to serialize empty buffer".

(** The [for] loop of [GetMaxOffset], at [i] with [max_offset]. *)
Fixpoint GetMaxOffset_scan (a : FixedSizeAllocator) (mask : list Z)
    (i : nat) (max_offset : Z) : outcome Z :=
  match i with
  | O => InternalException empty_buffer_msg
  | S i' =>
      entry ← ValidityMask.GetEntry mask (Z.of_nat i');
      let bits_in_last_entry :=
        available_segments_per_buffer a mod Word.mul sizeof_validity_t 8 in
      let entry :=
        if Z.of_nat i =? bitmask_count a
        then Z.lor entry (Word.shl Word.MAX_ENTRY bits_in_last_entry)
        else entry in
      if entry =? Word.MAX_ENTRY
      then GetMaxOffset_scan a mask i' (Word.u32 (max_offset - sizeof_validity_t * 8))
      else
        let entry_inv := Word.not entry in
        let '(entry_inv', first_valid_bit) := leftmost_ladder BASE entry_inv in
        _ ← D_ASSERT (negb (entry_inv' =? 0)) "entry_inv";
        let max_offset :=
          Word.u32 (max_offset - Word.sub (Word.mul sizeof_validity_t 8) first_valid_bit) in
        valid ← ValidityMask.RowIsValid mask max_offset;
        _ ← D_ASSERT (negb valid) "!mask.RowIsValid(max_offset)";
        Ok (Word.u32 (max_offset + 1))
  end.

Definition GetMaxOffset (a : FixedSizeAllocator) (mask : list Z) : outcome Z :=
  let max_offset := Word.u32 (Word.mul (Word.mul (bitmask_count a) sizeof_validity_t) 8) in
  _ ← D_ASSERT (bitmask_count a >? 0) "bitmask_count > 0";
  GetMaxOffset_scan a mask (Z.to_nat (bitmask_count a)) max_offset.

(** *** New (lines 49-84) *)

Definition find_buffer (bufs : gmap Z FixedSizeBuffer) (buffer_id : Z)
  : outcome FixedSizeBuffer :=
  match bufs !! buffer_id with
  | Some buffer => Ok buffer
  | None => InternalException "buffers.find(buffer_id) != buffers.end()"
  end.

(** [std::map::insert(make_pair(k, v))] keeps an entry that is there. *)
Definition map_insert_new {V} (k : Z) (v : V) (m : gmap Z V) : gmap Z V :=
  match m !! k with
  | Some _ => m
  | None => <[k := v]> m
  end.

(** Lines 52-65: add a buffer when no buffer has free space. *)
Definition New_add_buffer (a : FixedSizeAllocator) : outcome FixedSizeAllocator :=
  if decide (buffers_with_free_space a = ∅) then
    buffer_id ← GetAvailableBufferId (buffers a);
    let new_buffer := FixedSizeBuffer_fresh (bitmask_count a) in
    let bufs := map_insert_new buffer_id new_buffer (buffers a) in
    let free := buffers_with_free_space a ∪ {[buffer_id]} in
    buffer ← find_buffer bufs buffer_id;
    blk ← Get_block buffer;
    let mask := ValidityMask.SetAllValid (bitmap blk) (available_segments_per_buffer a) in
    Ok (with_state a (total_segment_count a)
          (<[buffer_id := set_bitmap buffer mask]> bufs) free)
  else Ok a.

(** Lines 67-83, with [begin] the iterator [buffers_with_free_space.begin()]. *)
Definition New_pointer (begin : gset Z -> Z) (a : FixedSizeAllocator)
  : outcome (FixedSizeAllocator * IndexPointer) :=
  _ ← D_ASSERT (bool_decide (buffers_with_free_space a ≠ ∅))
        "!buffers_with_free_space.empty()";
  let buffer_id := Word.u32 (begin (buffers_with_free_space a)) in
  buffer ← find_buffer (buffers a) buffer_id;
  blk ← Get_block buffer;
  '(mask, offset) ← GetOffset a (bitmap blk) (segment_count buffer);
  let total := Word.add (total_segment_count a) 1 in
  let count := Word.add (segment_count buffer) 1 in
  let buffer := set_segment_count (set_bitmap buffer mask) count in
  let free :=
    if count =? available_segments_per_buffer a
    then buffers_with_free_space a ∖ {[buffer_id]}
    else buffers_with_free_space a in
  Ok (with_state a total (<[buffer_id := buffer]> (buffers a)) free,
      IndexPointer_new buffer_id offset).

Definition New (begin : gset Z -> Z) (a : FixedSizeAllocator)
  : outcome (FixedSizeAllocator * IndexPointer) :=
  a' ← New_add_buffer a;
  New_pointer begin a'.

(** The element [begin()] points to: any element of the set.  Section
    4.4 of the spec has the reference take the smallest id. *)
Definition begin_ok (begin : gset Z -> Z) : Prop :=
  forall X : gset Z, X ≠ ∅ -> begin X ∈ X.

Definition begin_min (X : gset Z) : Z :=
  match elements X with
  | [] => 0
  | x :: l => foldr Z.min x l
  end.

(** *** Free (lines 86-106) *)

Definition Free (ptr : IndexPointer) (a : FixedSizeAllocator)
  : outcome FixedSizeAllocator :=
  let buffer_id := GetBufferId ptr in
  let offset := GetOffsetOf ptr in
  buffer ← find_buffer (buffers a) buffer_id;
  blk ← Get_block buffer;
  valid ← ValidityMask.RowIsValid (bitmap blk) offset;
  _ ← D_ASSERT (negb valid) "!mask.RowIsValid(offset)";
  mask ← ValidityMask.SetValid (bitmap blk) offset;
  _ ← D_ASSERT (total_segment_count a >? 0) "total_segment_count > 0";
  _ ← D_ASSERT (segment_count buffer >? 0) "buffer.segment_count > 0";
  let buffer :=
    set_segment_count (set_bitmap buffer mask) (Word.sub (segment_count buffer) 1) in
  Ok (with_state a (Word.sub (total_segment_count a) 1)
        (<[buffer_id := buffer]> (buffers a))
        (buffers_with_free_space a ∪ {[buffer_id]})).

(** *** Segments *)

(** Modelled from the spec: [Get(ptr)] (fixed_size_allocator.hpp), section
    4.4: the segment of a pointer starts at
    [bitmask_offset + offset * segment_size] in the block of its buffer. *)
Definition segment_address (a : FixedSizeAllocator) (ptr : IndexPointer) : Z :=
  Word.add (bitmask_offset a) (Word.mul (GetOffsetOf ptr) (segment_size a)).

Fixpoint write_bytes (address : Z) (bytes : list Z) (m : gmap Z Z) : gmap Z Z :=
  match bytes with
  | [] => m
  | byte :: bytes' => write_bytes (address + 1) bytes' (<[address := byte]> m)
  end.

Definition set_payload (buffer : FixedSizeBuffer) (blk : Block) (m : gmap Z Z)
  : FixedSizeBuffer :=
  MkFixedSizeBuffer (segment_count buffer) (vacuum buffer)
    (Some (MkBlock (bitmap blk) m)) (block_pointer buffer) (allocation_size buffer).

(** What the owner of a pointer does with [Get(ptr)]: it writes at most
    [segment_size] bytes at that address of the pinned block.  A write
    that leaves the block is outside this development. *)
Definition Store (ptr : IndexPointer) (bytes : list Z) (a : FixedSizeAllocator)
  : outcome FixedSizeAllocator :=
  buffer ← find_buffer (buffers a) (GetBufferId ptr);
  blk ← Get_block buffer;
  let address := segment_address a ptr in
  if (Z.of_nat (length bytes) <=? segment_size a) &&
     (address + segment_size a <=? BLOCK_SIZE)
  then Ok (with_state a (total_segment_count a)
             (<[GetBufferId ptr :=
                  set_payload buffer blk (write_bytes address bytes (payload blk))]>
                (buffers a))
             (buffers_with_free_space a))
  else Undefined.

(** *** Reset (lines 108-115) *)

Definition Reset (a : FixedSizeAllocator) : FixedSizeAllocator :=
  with_state a 0 ∅ ∅.

(** *** Merge (lines 127-156) *)

(** [GetUpperBoundBufferId]: the loop over [buffers]. *)
Definition GetUpperBoundBufferId (bufs : gmap Z FixedSizeBuffer) : Z :=
  foldl (fun upper_bound_id entry =>
           if entry.1 >=? upper_bound_id then Word.add entry.1 1 else upper_bound_id)
        0 (map_to_list bufs).

(** [Merge(other)]: the allocator and [other] after the call. *)
Definition Merge (a other : FixedSizeAllocator)
  : outcome (FixedSizeAllocator * FixedSizeAllocator) :=
  _ ← D_ASSERT (segment_size a =? segment_size other)
        "segment_size == other.segment_size";
  let upper_bound_id := GetUpperBoundBufferId (buffers a) in
  let bufs :=
    foldl (fun m entry => map_insert_new (Word.add entry.1 upper_bound_id) entry.2 m)
          (buffers a) (map_to_list (buffers other)) in
  let free :=
    foldl (fun X buffer_id => X ∪ {[Word.add buffer_id upper_bound_id]})
          (buffers_with_free_space a) (elements (buffers_with_free_space other)) in
  Ok (with_state a (Word.add (total_segment_count a) (total_segment_count other)) bufs free,
      with_state other (total_segment_count other) ∅ ∅).

(** ** Storage *)

(** Modelled from the spec: the partial block manager and the metadata
    writer and reader (section 6).  What [partial_block_manager.write]
    persists is appended to [blocks], its block pointer being the
    position; the metadata stream is a sequence of values, a block pointer
    into it a position. *)
Record Storage : Type := MkStorage {
  blocks : list Block;
  metadata : list Z
}.

(** The first [used_bytes] bytes of a block. *)
Definition block_prefix (blk : Block) (used_bytes : Z) : Block :=
  MkBlock (take (Z.to_nat (used_bytes / sizeof_validity_t)) (bitmap blk))
          (filter (fun entry => entry.1 < used_bytes) (payload blk)).

(** Modelled from the spec: [FixedSizeBuffer::Serialize] (section 4.3):
    writes the first [used_bytes] bytes of the buffer to the block manager
    and records [block_pointer] and [allocation_size].  A prefix longer
    than the block is outside this development. *)
Definition FixedSizeBuffer_Serialize (st : Storage) (buffer : FixedSizeBuffer)
    (used_bytes : Z) : outcome (Storage * FixedSizeBuffer) :=
  blk ← Get_block buffer;
  if used_bytes <=? BLOCK_SIZE then
    Ok (MkStorage (blocks st ++ [block_prefix blk used_bytes]) (metadata st),
        MkFixedSizeBuffer (segment_count buffer) (vacuum buffer) (memory buffer)
          (Some (Z.of_nat (length (blocks st)))) used_bytes)
  else Undefined.

(** Modelled from the spec: [buffer.Get()] on a buffer that may be on
    disk (section 4.3): the pinned block, loaded from its block pointer if
    need be. *)
Definition Load (st : Storage) (buffer : FixedSizeBuffer) : outcome Block :=
  match memory buffer with
  | Some blk => Ok blk
  | None =>
      match block_pointer buffer with
      | Some pointer =>
          if pointer <? 0 then Undefined
          else of_option (blocks st !! Z.to_nat pointer)
      | None => Undefined
      end
  end.

(** The bytes of the segment of a pointer, [None] for a byte that was
    never written. *)
Definition segment_bytes (a : FixedSizeAllocator) (st : Storage) (ptr : IndexPointer)
  : outcome (list (option Z)) :=
  buffer ← find_buffer (buffers a) (GetBufferId ptr);
  blk ← Load st buffer;
  Ok (map (fun i => payload blk !! (segment_address a ptr + i))
          (seqZ 0 (segment_size a))).

(** *** Serialize (lines 246-271) *)

(** The body of the first loop (lines 248-253). *)
Definition Serialize_buffer (a : FixedSizeAllocator)
    (acc : Storage * gmap Z FixedSizeBuffer) (entry : Z * FixedSizeBuffer)
  : outcome (Storage * gmap Z FixedSizeBuffer) :=
  blk ← Get_block entry.2;
  max_offset ← GetMaxOffset a (bitmap blk);
  let allocation_size :=
    Word.add (Word.mul max_offset (segment_size a)) (bitmask_offset a) in
  '(st, buffer) ← FixedSizeBuffer_Serialize acc.1 entry.2 allocation_size;
  Ok (st, <[entry.1 := buffer]> acc.2).

Fixpoint Serialize_buffers (a : FixedSizeAllocator) (l : list (Z * FixedSizeBuffer))
    (acc : Storage * gmap Z FixedSizeBuffer)
  : outcome (Storage * gmap Z FixedSizeBuffer) :=
  match l with
  | [] => Ok acc
  | entry :: l' =>
      acc' ← Serialize_buffer a acc entry;
      Serialize_buffers a l' acc'
  end.

(** Modelled from the spec: the block pointer written for a buffer that
    was never persisted. *)
Definition INVALID_BLOCK : Z := -1.

(** What the second loop writes for a buffer (lines 261-264). *)
Definition directory_entry (entry : Z * FixedSizeBuffer) : list Z :=
  [ entry.1; default INVALID_BLOCK (block_pointer entry.2);
    segment_count entry.2; allocation_size entry.2 ].

(** [Serialize(partial_block_manager, writer)]: the allocator and the
    storage after the call, and the block pointer returned. *)
Definition Serialize (a : FixedSizeAllocator) (st : Storage)
  : outcome (FixedSizeAllocator * Storage * Z) :=
  '(st1, bufs) ← Serialize_buffers a (map_to_list (buffers a)) (st, buffers a);
  let block_pointer := Z.of_nat (length (metadata st1)) in
  let written :=
    [ segment_size a; Z.of_nat (size bufs);
      Z.of_nat (size (buffers_with_free_space a)) ]
    ++ flat_map directory_entry (map_to_list bufs)
    ++ elements (buffers_with_free_space a) in
  Ok (with_state a (total_segment_count a) bufs (buffers_with_free_space a),
      MkStorage (blocks st1) (metadata st1 ++ written),
      block_pointer).

(** *** Deserialize (lines 273-294) *)

(** [reader.Read<idx_t>()]. *)
Definition Read (stream : list Z) : outcome (Z * list Z) :=
  match stream with
  | value :: stream' => Ok (value, stream')
  | [] => InternalException "end of the metadata stream"
  end.

(** The first loop (lines 282-290), [n] buffers left to read. *)
Fixpoint Deserialize_buffers (n : nat) (stream : list Z)
    (bufs : gmap Z FixedSizeBuffer) (total : Z)
  : outcome (list Z * gmap Z FixedSizeBuffer * Z) :=
  match n with
  | O => Ok (stream, bufs, total)
  | S n' =>
      '(buffer_id, stream) ← Read stream;
      '(buffer_block_pointer, stream) ← Read stream;
      '(segment_count, stream) ← Read stream;
      '(allocation_size, stream) ← Read stream;
      let new_buffer :=
        FixedSizeBuffer_restored segment_count allocation_size buffer_block_pointer in
      Deserialize_buffers n' stream (map_insert_new buffer_id new_buffer bufs)
        (Word.add total segment_count)
  end.

(** The second loop (lines 291-293). *)
Fixpoint Deserialize_free (n : nat) (stream : list Z) (free : gset Z)
  : outcome (list Z * gset Z) :=
  match n with
  | O => Ok (stream, free)
  | S n' =>
      '(buffer_id, stream) ← Read stream;
      Deserialize_free n' stream (free ∪ {[buffer_id]})
  end.

(** [Deserialize(block_pointer)] on the storage [st]. *)
Definition Deserialize (a : FixedSizeAllocator) (st : Storage) (block_pointer : Z)
  : outcome FixedSizeAllocator :=
  let stream := drop (Z.to_nat block_pointer) (metadata st) in
  '(segment_size, stream) ← Read stream;
  '(buffer_count, stream) ← Read stream;
  '(buffers_with_free_space_count, stream) ← Read stream;
  '(stream, bufs, total) ←
     Deserialize_buffers (Z.to_nat buffer_count) stream (buffers a) 0;
  '(stream, free) ←
     Deserialize_free (Z.to_nat buffers_with_free_space_count) stream
       (buffers_with_free_space a);
  Ok (MkFixedSizeAllocator segment_size (bitmask_count a) (bitmask_offset a)
        (available_segments_per_buffer a) total bufs free (vacuum_buffers a)).

(** ** Vacuum *)

(** *** Memory usage (lines 117-125) *)

(** [GetMemoryUsage]: the loop over [buffers]. *)
Definition GetMemoryUsage (bufs : gmap Z FixedSizeBuffer) : Z :=
  foldl (fun memory_usage entry =>
           if InMemory entry.2 then Word.add memory_usage BLOCK_SIZE else memory_usage)
        0 (map_to_list bufs).

(** *** InitializeVacuum (lines 158-219) *)

(** Modelled from the spec: [VACUUM_THRESHOLD] of fixed_size_allocator.hpp,
    a percentage (section 4.4: the source uses 10). *)
Definition VACUUM_THRESHOLD : Z := 10.

(** [double(x)] for an unsigned integer [x]: the nearest binary64 value,
    ties to even. *)
Definition double (x : Z) : PrimFloat.float :=
  FloatOps.SF2Prim (SpecFloat.binary_normalize FloatOps.prec FloatOps.emax x 0 false).

(** [excess_percentage < threshold] (lines 190-194). *)
Definition below_threshold (excess_memory_usage memory_usage : Z) : bool :=
  let excess_percentage :=
    PrimFloat.div (double excess_memory_usage) (double memory_usage) in
  let threshold := PrimFloat.div (double VACUUM_THRESHOLD) (double 100) in
  PrimFloat.ltb excess_percentage threshold.

Definition set_vacuum (buffer : FixedSizeBuffer) (v : bool) : FixedSizeBuffer :=
  MkFixedSizeBuffer (segment_count buffer) v (memory buffer)
    (block_pointer buffer) (allocation_size buffer).

(** [multimap::emplace(key, value)]: the entries are kept in the order of
    their keys, a new entry behind the entries of the same key. *)
Fixpoint multimap_emplace (key value : Z) (l : list (Z * Z)) : list (Z * Z) :=
  match l with
  | [] => [(key, value)]
  | e :: l' =>
      if key <? e.1 then (key, value) :: l
      else e :: multimap_emplace key value l'
  end.

(** The order in which the entries of an [unordered_map] are visited is
    not fixed; it decides between buffers with equally many free slots. *)
Definition visit_ok (visit : gmap Z FixedSizeBuffer -> list (Z * FixedSizeBuffer)) : Prop :=
  forall bufs, visit bufs ≡ₚ map_to_list bufs.

(** The body of the first loop (lines 173-178), on the buffers, the sum
    [available_segments_in_memory] and [temporary_vacuum_buffers]. *)
Definition InitializeVacuum_visit (a : FixedSizeAllocator)
    (acc : gmap Z FixedSizeBuffer * Z * list (Z * Z)) (entry : Z * FixedSizeBuffer)
  : gmap Z FixedSizeBuffer * Z * list (Z * Z) :=
  let '(bufs, available_segments_in_memory, temporary_vacuum_buffers) := acc in
  let buffer := set_vacuum entry.2 false in
  let bufs := <[entry.1 := buffer]> bufs in
  if InMemory buffer then
    let available_segments_in_buffer :=
      Word.sub (available_segments_per_buffer a) (segment_count buffer) in
    (bufs, Word.add available_segments_in_memory available_segments_in_buffer,
     multimap_emplace available_segments_in_buffer entry.1 temporary_vacuum_buffers)
  else (bufs, available_segments_in_memory, temporary_vacuum_buffers).

(** [while (temporary_vacuum_buffers.size() != excess_buffer_count)
      temporary_vacuum_buffers.erase(temporary_vacuum_buffers.begin());]
    (lines 202-204).  Erasing [begin()] of an empty multimap is outside
    this development. *)
Fixpoint InitializeVacuum_trim (excess_buffer_count : Z) (l : list (Z * Z))
  : outcome (list (Z * Z)) :=
  if Z.of_nat (length l) =? excess_buffer_count then Ok l
  else match l with
       | [] => Undefined
       | _ :: l' => InitializeVacuum_trim excess_buffer_count l'
       end.

(** The body of the loop of lines 207-212. *)
Definition InitializeVacuum_mark
    (acc : outcome (gmap Z FixedSizeBuffer * gset Z)) (vacuum_buffer : Z * Z)
  : outcome (gmap Z FixedSizeBuffer * gset Z) :=
  '(bufs, free) ← acc;
  let buffer_id := vacuum_buffer.2 in
  buffer ← find_buffer bufs buffer_id;
  Ok (<[buffer_id := set_vacuum buffer true]> bufs, free ∖ {[buffer_id]}).

(** [InitializeVacuum()]: the allocator after the call and the value
    returned. *)
Definition InitializeVacuum
    (visit : gmap Z FixedSizeBuffer -> list (Z * FixedSizeBuffer))
    (a : FixedSizeAllocator) : outcome (FixedSizeAllocator * bool) :=
  if total_segment_count a =? 0 then Ok (Reset a, false)
  else
    _ ← D_ASSERT (bool_decide (vacuum_buffers a = ∅)) "vacuum_buffers.empty()";
    let '(bufs, available_segments_in_memory, temporary_vacuum_buffers) :=
      foldl (InitializeVacuum_visit a) (buffers a, 0, []) (visit (buffers a)) in
    let a1 :=
      MkFixedSizeAllocator (segment_size a) (bitmask_count a) (bitmask_offset a)
        (available_segments_per_buffer a) (total_segment_count a) bufs
        (buffers_with_free_space a) (vacuum_buffers a) in
    match temporary_vacuum_buffers with
    | [] => Ok (a1, false)
    | _ :: _ =>
        if available_segments_per_buffer a =? 0 then Undefined
        else
          let excess_buffer_count :=
            available_segments_in_memory / available_segments_per_buffer a in
          let size := Z.of_nat (length temporary_vacuum_buffers) in
          _ ← D_ASSERT (excess_buffer_count <? size)
                "excess_buffer_count < temporary_vacuum_buffers.size()";
          let memory_usage := GetMemoryUsage bufs in
          let excess_memory_usage := Word.mul excess_buffer_count BLOCK_SIZE in
          if below_threshold excess_memory_usage memory_usage then Ok (a1, false)
          else
            _ ← D_ASSERT (excess_buffer_count <=? size)
                  "excess_buffer_count <= temporary_vacuum_buffers.size()";
            _ ← D_ASSERT (size <=? Z.of_nat (base.size bufs))
                  "temporary_vacuum_buffers.size() <= buffers.size()";
            temporary_vacuum_buffers ←
              InitializeVacuum_trim excess_buffer_count temporary_vacuum_buffers;
            '(bufs, free) ←
              foldl InitializeVacuum_mark (Ok (bufs, buffers_with_free_space a))
                temporary_vacuum_buffers;
            let vacuum_buffers :=
              foldl (fun X vacuum_buffer => X ∪ {[vacuum_buffer.2]})
                (vacuum_buffers a) temporary_vacuum_buffers in
            Ok (MkFixedSizeAllocator (segment_size a) (bitmask_count a)
                  (bitmask_offset a) (available_segments_per_buffer a)
                  (total_segment_count a) bufs free vacuum_buffers,
                true)
    end.

(** *** FinalizeVacuum (lines 221-231) *)

(** The body of the loop. *)
Definition FinalizeVacuum_erase (acc : outcome (gmap Z FixedSizeBuffer)) (buffer_id : Z)
  : outcome (gmap Z FixedSizeBuffer) :=
  bufs ← acc;
  buffer ← find_buffer bufs buffer_id;
  _ ← D_ASSERT (InMemory buffer) "buffer.InMemory()";
  Ok (delete buffer_id bufs).

Definition FinalizeVacuum (a : FixedSizeAllocator) : outcome FixedSizeAllocator :=
  bufs ← foldl FinalizeVacuum_erase (Ok (buffers a)) (elements (vacuum_buffers a));
  Ok (MkFixedSizeAllocator (segment_size a) (bitmask_count a) (bitmask_offset a)
        (available_segments_per_buffer a) (total_segment_count a) bufs
        (buffers_with_free_space a) ∅).

(** *** VacuumPointer (lines 233-244) *)

(** The bytes [memcpy] moves: byte [i] of the source to byte [i] of the
    destination; a byte that was never written stays so. *)
Definition copy_bytes (src : gmap Z Z) (src_address dst_address : Z) (n : Z)
    (dst : gmap Z Z) : gmap Z Z :=
  foldl (fun m i =>
           match src !! (src_address + i) with
           | Some byte => <[dst_address + i := byte]> m
           | None => delete (dst_address + i) m
           end)
        dst (seqZ 0 n).

(** Modelled from the spec: [memcpy(Get(new_ptr), Get(ptr), segment_size)]
    with [Get] as in section 4.4.  Segments that leave their block or
    overlap are outside this development. *)
Definition memcpy_segment (a : FixedSizeAllocator) (new_ptr ptr : IndexPointer)
  : outcome FixedSizeAllocator :=
  new_buffer ← find_buffer (buffers a) (GetBufferId new_ptr);
  new_blk ← Get_block new_buffer;
  buffer ← find_buffer (buffers a) (GetBufferId ptr);
  blk ← Get_block buffer;
  let dst := segment_address a new_ptr in
  let src := segment_address a ptr in
  let n := segment_size a in
  let overlap :=
    (GetBufferId new_ptr =? GetBufferId ptr) && (src <? dst + n) && (dst <? src + n) in
  if (dst + n <=? BLOCK_SIZE) && (src + n <=? BLOCK_SIZE) && negb overlap
  then Ok (with_state a (total_segment_count a)
             (<[GetBufferId new_ptr :=
                  set_payload new_buffer new_blk
                    (copy_bytes (payload blk) src dst n (payload new_blk))]>
                (buffers a))
             (buffers_with_free_space a))
  else Undefined.

(** [VacuumPointer(ptr)]: the allocator after the call and the pointer
    returned. *)
Definition VacuumPointer (begin : gset Z -> Z) (ptr : IndexPointer)
    (a : FixedSizeAllocator) : outcome (FixedSizeAllocator * IndexPointer) :=
  '(a, new_ptr) ← New begin a;
  let a :=
    with_state a (Word.sub (total_segment_count a) 1) (buffers a)
      (buffers_with_free_space a) in
  a ← memcpy_segment a new_ptr ptr;
  Ok (a, new_ptr).

(** * Predicates and examples of the properties *)

(** ** The constructor's loop *)

(** What holds of the loop variables at the head of the loop after the
    first round: either the bitmap is full and the block holds whole
    groups of a bitmap word and 64 segments, or the last group is partial
    and no further segment fits. *)
Definition ctor_inv (s : Z) (v : ctor_vars) : Prop :=
  let bc := cv_bitmask_count v in
  let av := cv_available v in
  let byte := cv_byte_count v in
  1 <= bc /\ 1 <= av <= 64 * bc /\
  8 * bc <= byte /\ 8 * bc <= BLOCK_SIZE + 8 /\ byte <= 65 * BLOCK_SIZE /\
  (av = 64 * bc -> byte = bc * (8 + 64 * s) /\ byte <= BLOCK_SIZE) /\
  (av < 64 * bc -> BLOCK_SIZE - s < byte).

(** What holds of them when the loop is left. *)
Definition ctor_final (v : ctor_vars) : Prop :=
  let bc := cv_bitmask_count v in
  let av := cv_available v in
  1 <= bc /\ 1 <= av < 64 * bc /\ 8 * bc <= BLOCK_SIZE + 8.

(** ** Bitmaps *)

(** Bit [i] of a bitmap; clear outside the bitmap words. *)
Definition mask_bit (mask : list Z) (i : Z) : bool :=
  match mask !! Z.to_nat (i / 64) with
  | Some entry => Z.testbit entry (i mod 64)
  | None => false
  end.

(** The number of clear bits (used slots) among the first [n] bits. *)
Fixpoint count_clear (mask : list Z) (n : nat) : Z :=
  match n with
  | O => 0
  | S n' => count_clear mask n' + (if mask_bit mask (Z.of_nat n') then 0 else 1)
  end.

Definition used_slots (mask : list Z) (avail : Z) : Z :=
  count_clear mask (Z.to_nat avail).

(** ** Sums over the buffers and sizes of sets of ids *)

Definition sum_counts (bufs : gmap Z FixedSizeBuffer) : Z :=
  map_fold (fun _ buffer acc => segment_count buffer + acc) 0 bufs.

(** ** Consistent allocators *)

(** A buffer agrees with the allocator's layout: it is pinned, its bitmap
    has [bitmask_count] words, no bit from [avail] on is set, and its
    segment count is the number of clear bits below [avail]. *)
Definition buffer_ok (bc avail : Z) (buffer : FixedSizeBuffer) : Prop :=
  exists blk, memory buffer = Some blk /\
    Z.of_nat (length (bitmap blk)) = bc /\
    Forall Word.ok (bitmap blk) /\
    (forall j, avail <= j -> mask_bit (bitmap blk) j = false) /\
    segment_count buffer = used_slots (bitmap blk) avail.

Definition layout_ok (a : FixedSizeAllocator) : Prop :=
  1 <= bitmask_count a /\
  1 <= available_segments_per_buffer a < 64 * bitmask_count a /\
  8 * bitmask_count a <= BLOCK_SIZE + 8.

(** Invariants 1 and 2 of section 3 of the spec. *)
Record coherent (a : FixedSizeAllocator) : Prop := MkCoherent {
  coh_layout : layout_ok a;
  coh_buffers : forall b buffer, buffers a !! b = Some buffer ->
    buffer_ok (bitmask_count a) (available_segments_per_buffer a) buffer;
  coh_free : forall b, b ∈ buffers_with_free_space a <->
    exists buffer, buffers a !! b = Some buffer /\
      segment_count buffer < available_segments_per_buffer a
}.

(** Invariant 3 of section 3, and buffer ids that fit a pointer. *)
Record counted (a : FixedSizeAllocator) : Prop := MkCounted {
  cnt_ids : forall b, is_Some (buffers a !! b) -> 0 <= b < 2 ^ 32;
  cnt_total : total_segment_count a = sum_counts (buffers a)
}.

Definition consistent (a : FixedSizeAllocator) : Prop := coherent a /\ counted a.

(** ** Allocators reached by [New] and [Free] *)

(** The allocators a sequence of [New] and [Free] calls leads to from a
    fresh allocator of segment size [s].  [New] may take any buffer with
    free space; [Free] is given a pointer to a slot; between the calls the
    owner of the pointers may write to the segments. *)
Inductive reachable (s : Z) : FixedSizeAllocator -> Prop :=
  | reach_new a :
      0 <= s < Word.modulus -> FixedSizeAllocator_new s = Ok a -> reachable s a
  | reach_New begin a a' p :
      reachable s a -> begin_ok begin -> New begin a = Ok (a', p) ->
      reachable s a'
  | reach_Free ptr a a' :
      reachable s a ->
      0 <= GetOffsetOf ptr < available_segments_per_buffer a ->
      Free ptr a = Ok a' ->
      reachable s a'
  | reach_Store ptr bytes a a' :
      reachable s a ->
      0 <= GetOffsetOf ptr < available_segments_per_buffer a ->
      Store ptr bytes a = Ok a' ->
      reachable s a'.

(** The calls leave the layout of the allocator as the constructor set it. *)
Definition same_layout (a a' : FixedSizeAllocator) : Prop :=
  segment_size a' = segment_size a /\ bitmask_count a' = bitmask_count a /\
  bitmask_offset a' = bitmask_offset a /\
  available_segments_per_buffer a' = available_segments_per_buffer a.

(** ** Example allocators *)

Definition no_allocator : FixedSizeAllocator := MkFixedSizeAllocator 0 0 0 0 0 ∅ ∅ ∅.

Definition value_of {A} (default : A) (m : outcome A) : A :=
  match m with Ok a => a | _ => default end.

(** A fresh allocator of segment size 16, and the allocator after one [New]. *)
Definition fresh16 : FixedSizeAllocator :=
  Eval vm_compute in value_of no_allocator (FixedSizeAllocator_new 16).

Definition one16 : FixedSizeAllocator :=
  Eval vm_compute in
    match New begin_min fresh16 with Ok (a, _) => a | _ => no_allocator end.

(** The buffer of [one16]. *)
Definition one16_buffer : FixedSizeBuffer :=
  Eval vm_compute in value_of (FixedSizeBuffer_fresh 0) (find_buffer (buffers one16) 0).

(** ** Statements and scenarios *)

(** C9, as stated: the id returned is the smallest non-negative integer
    that is not a key of [buffers]. *)
Definition smallest_unused_id (bufs : gmap Z FixedSizeBuffer) (id : Z) : Prop :=
  0 <= id /\ bufs !! id = None /\
  forall j, 0 <= j < id -> is_Some (bufs !! j).

(** What the loop computes: the largest unused id that is at most
    [|buffers|]. *)
Definition largest_unused_id_upto_size (bufs : gmap Z FixedSizeBuffer) (id : Z) : Prop :=
  0 <= id <= Z.of_nat (size bufs) /\ bufs !! id = None /\
  forall j, id < j <= Z.of_nat (size bufs) -> is_Some (bufs !! j).

(** The buffers left when a vacuum has dropped buffers 0 and 1 of three. *)
Definition buffers_after_vacuum : gmap Z FixedSizeBuffer :=
  {[ 2 := FixedSizeBuffer_fresh 1 ]}.

(** [fits s avail]: [avail] segments of [s] bytes and their bitmap words
    fit one block. *)
Definition fits (s avail : Z) : Prop :=
  ((avail + 63) / 64) * 8 + avail * s <= BLOCK_SIZE.

(** [avail] is the largest number of segments that fit. *)
Definition is_max_fit (s avail : Z) : Prop :=
  0 <= avail /\ fits s avail /\ forall n, 0 <= n -> fits s n -> n <= avail.

(** [n] calls of [New], with the pointers they return. *)
Fixpoint New_times (begin : gset Z -> Z) (n : nat) (a : FixedSizeAllocator)
  : outcome (FixedSizeAllocator * list IndexPointer) :=
  match n with
  | O => Ok (a, [])
  | S n' =>
      '(a', p) ← New begin a;
      '(a'', ps) ← New_times begin n' a';
      Ok (a'', p :: ps)
  end.

(** Ten calls of [New] on a fresh allocator of segment size 16, [Free] of
    the pointer of offset 4 among the ten, and two more calls of [New].
    The result holds the ten pointers, the segment count of buffer 0 and
    the pointer returned at each of the two calls, and the number of
    buffers at the end. *)
Definition scenario_free_offset_4 (begin : gset Z -> Z)
  : outcome (list IndexPointer * (Z * IndexPointer) * (Z * IndexPointer) * nat) :=
  a0 ← FixedSizeAllocator_new 16;
  '(a1, ptrs) ← New_times begin 10 a0;
  ptr ← of_option (find (fun p => GetOffsetOf p =? 4) ptrs);
  a2 ← Free ptr a1;
  buffer2 ← find_buffer (buffers a2) 0;
  '(a3, p1) ← New begin a2;
  buffer3 ← find_buffer (buffers a3) 0;
  '(a4, p2) ← New begin a3;
  Ok (ptrs, (segment_count buffer2, p1), (segment_count buffer3, p2), size (buffers a4)).

Definition first_ten_pointers : list IndexPointer :=
  map (MkIndexPointer 0) [0; 1; 2; 3; 4; 5; 6; 7; 8; 9].

(** [j] is the largest used slot of a bitmap of [avail] slots. *)
Definition largest_used_slot (mask : list Z) (avail j : Z) : Prop :=
  0 <= j < avail /\ mask_bit mask j = false /\
  forall k, j < k < avail -> mask_bit mask k = true.

Definition no_used_slot (mask : list Z) (avail : Z) : Prop :=
  forall k, 0 <= k < avail -> mask_bit mask k = true.

Definition bits_from_to (mask : list Z) (lo n : nat) (v : bool) : bool :=
  forallb (fun k => Bool.eqb (mask_bit mask (Z.of_nat k)) v) (seq lo n).

(** The allocator of segment size 8191 after one [New], its buffer and
    the bitmap of the buffer. *)
Definition fresh8191 : FixedSizeAllocator :=
  Eval vm_compute in value_of no_allocator (FixedSizeAllocator_new 8191).

Definition one8191 : FixedSizeAllocator :=
  Eval vm_compute in
    match New begin_min fresh8191 with Ok (a, _) => a | _ => no_allocator end.

Definition one8191_bitmap : list Z :=
  Eval vm_compute in
    match buffers one8191 !! 0 with
    | Some buffer => match memory buffer with Some blk => bitmap blk | None => [] end
    | None => []
    end.

(** ** [Merge] *)

(** One more than the largest key, 0 without keys. *)
Definition max_key_plus_one (bufs : gmap Z FixedSizeBuffer) : Z :=
  foldr (fun entry acc => Z.max (entry.1 + 1) acc) 0 (map_to_list bufs).

(** The ids of [other], shifted by [upper], are 64-bit values. *)
Definition ids_fit (upper : Z) (other : FixedSizeAllocator) : Prop :=
  map_Forall (fun id _ => 0 <= id /\ id + upper < Word.modulus) (buffers other) /\
  set_Forall (fun id => 0 <= id /\ id + upper < Word.modulus)
             (buffers_with_free_space other).

(** An allocator that holds nothing: no buffers, no ids with free space
    and no segments, the state [Reset] leaves. *)
Definition allocator_empty (a : FixedSizeAllocator) : Prop :=
  buffers a = ∅ /\ buffers_with_free_space a = ∅ /\ total_segment_count a = 0.

(** What C7 says of [self]: each buffer of [other] is under its id plus
    [upper] (one more than the largest key of [a], 0 without keys), each
    id of [other.buffers_with_free_space] plus [upper] is in the free
    set, the counts are added, and the buffers [a] had are kept. *)
Definition Merge_moved (a other a' : FixedSizeAllocator) : Prop :=
  let upper := max_key_plus_one (buffers a) in
  (forall id buffer, buffers other !! id = Some buffer ->
     buffers a' !! (id + upper) = Some buffer) /\
  (forall id, id ∈ buffers_with_free_space other ->
     id + upper ∈ buffers_with_free_space a') /\
  total_segment_count a' =
    Word.add (total_segment_count a) (total_segment_count other) /\
  (forall k buffer, buffers a !! k = Some buffer -> buffers a' !! k = Some buffer).

(** C7, as stated, for the allocators [a'] and [other'] that
    [Merge a other] leaves. *)
Definition Merge_as_stated (a other a' other' : FixedSizeAllocator) : Prop :=
  Merge_moved a other a' /\ allocator_empty other'.

(** ** What [GetMaxOffset] returns *)

(** The bits [GetMaxOffset] forces: those of the last bitmap word from
    position [avail mod 64] on. *)
Definition forced_bit (a : FixedSizeAllocator) (j : Z) : bool :=
  (j / 64 =? bitmask_count a - 1) &&
  (available_segments_per_buffer a mod 64 <=? j mod 64).

(** Bit [j] of the bitmap as [GetMaxOffset] scans it. *)
Definition scanned_bit (a : FixedSizeAllocator) (mask : list Z) (j : Z) : bool :=
  mask_bit mask j || forced_bit a j.

(** The word [GetMaxOffset_scan] looks at in round [S i]. *)
Definition scanned_entry (a : FixedSizeAllocator) (i : nat) (entry : Z) : Z :=
  if Z.of_nat (S i) =? bitmask_count a
  then Z.lor entry
         (Word.shl Word.MAX_ENTRY
            (available_segments_per_buffer a mod Word.mul sizeof_validity_t 8))
  else entry.

(** ** Serialize and Deserialize *)

(** The layouts in which [GetMaxOffset] is exact and the slots lie in the
    block: the last bitmap word holds bit [avail - 1] or starts at bit
    [avail], and bitmap and slots take at most [BLOCK_SIZE] bytes. *)
Definition layout_tight (a : FixedSizeAllocator) : Prop :=
  64 * (bitmask_count a - 1) <= available_segments_per_buffer a /\
  8 * bitmask_count a + available_segments_per_buffer a * segment_size a <= BLOCK_SIZE.

(** [buffer'] is [buffer] after it was written to [st] with
    [allocation_size] bytes, a prefix that holds every used slot. *)
Definition persisted (a : FixedSizeAllocator) (st : Storage)
    (buffer buffer' : FixedSizeBuffer) : Prop :=
  exists blk m pointer,
    memory buffer = Some blk /\
    0 < m <= available_segments_per_buffer a /\
    (forall j, 0 <= j < available_segments_per_buffer a ->
               mask_bit (bitmap blk) j = false -> j < m) /\
    buffer' = MkFixedSizeBuffer (segment_count buffer) (vacuum buffer) (memory buffer)
                (Some (Z.of_nat pointer)) (m * segment_size a + bitmask_offset a) /\
    blocks st !! pointer =
      Some (block_prefix blk (m * segment_size a + bitmask_offset a)).

(** The buffer [Deserialize] makes of a directory entry. *)
Definition restored_of (buffer : FixedSizeBuffer) : FixedSizeBuffer :=
  FixedSizeBuffer_restored (segment_count buffer) (allocation_size buffer)
    (default INVALID_BLOCK (block_pointer buffer)).

(** [one16] after its owner has written three bytes to the segment. *)
Definition stored16 : FixedSizeAllocator :=
  Eval vm_compute in
    value_of no_allocator (Store (MkIndexPointer 0 0) [1; 2; 3] one16).

(** ** The layout the constructor computes *)

(** At the head of the loop, as long as no subtraction has wrapped
    around: the last bitmap word is in use and the byte count is the
    bitmap and the segments. *)
Definition ctor_exact (s : Z) (v : ctor_vars) : Prop :=
  let bc := cv_bitmask_count v in
  let av := cv_available v in
  let byte := cv_byte_count v in
  1 <= bc /\ 64 * (bc - 1) < av <= 64 * bc /\
  byte = 8 * bc + av * s /\ byte <= BLOCK_SIZE /\
  (av < 64 * bc -> BLOCK_SIZE - s < byte).

(** The head of the loop at which a bitmap word is added that no segment
    will use: one partial word, of a size that divides 64. *)
Definition ctor_spare (v : ctor_vars) : Prop :=
  cv_bitmask_count v = 1 /\ cv_available v < 64 /\
  64 mod cv_available v = 0 /\ cv_byte_count v < BLOCK_SIZE.

(** The loop is left with the largest number of segments that fit and a
    bitmap without a spare word. *)
Definition ctor_tight (s : Z) (v : ctor_vars) : Prop :=
  let bc := cv_bitmask_count v in
  let av := cv_available v in
  1 <= bc /\ is_max_fit s av /\ 64 * (bc - 1) <= av /\ 8 * bc + av * s <= BLOCK_SIZE.

(** The segment sizes at which the constructor adds a spare bitmap word,
    and those among them at which its byte count passes [BLOCK_SIZE]. *)
Definition spare_word (s : Z) : Prop :=
  let r := (BLOCK_SIZE - 8) / s in
  r < 64 /\ 64 mod r = 0 /\ 8 + r * s < BLOCK_SIZE.

Definition overcounts (s : Z) : Prop :=
  spare_word s /\ BLOCK_SIZE < 16 + (BLOCK_SIZE - 8) / s * s.

Definition overcounted_sizes : list Z :=
  [ 65533; 131065; 131066; 131067;
    262129; 262130; 262131; 262132; 262133; 262134; 262135 ].

(** ** The slot [GetOffset] takes *)

(** [j] is the lowest free slot of a bitmap: the lowest set bit. *)
Definition first_free_slot (mask : list Z) (j : Z) : Prop :=
  0 <= j /\ mask_bit mask j = true /\ forall k, 0 <= k < j -> mask_bit mask k = false.

Definition no_free_slot (mask : list Z) : Prop :=
  forall k, 0 <= k -> mask_bit mask k = false.

(** The bitmap [mask'] is [mask] with slot [j] taken. *)
Definition takes_slot (mask mask' : list Z) (j : Z) : Prop :=
  length mask' = length mask /\
  forall k, 0 <= k -> mask_bit mask' k = if decide (k = j) then false else mask_bit mask k.

(** ** The slot [New] hands out *)

(** The slot of a pointer is in use: its buffer is there and pinned, and
    the bit of the slot is clear. *)
Definition slot_used (a : FixedSizeAllocator) (p : IndexPointer) : Prop :=
  exists buffer blk,
    buffers a !! GetBufferId p = Some buffer /\ memory buffer = Some blk /\
    0 <= GetOffsetOf p < available_segments_per_buffer a /\
    mask_bit (bitmap blk) (GetOffsetOf p) = false.

(** The layout and the buffers agree: what [New], [Free] and the vacuum
    calls keep at every step. *)
Definition well_formed (a : FixedSizeAllocator) : Prop :=
  layout_ok a /\
  forall b buffer, buffers a !! b = Some buffer ->
    buffer_ok (bitmask_count a) (available_segments_per_buffer a) buffer.

(** ** A buffer is filled in order *)

(** The allocator holds buffer 0 alone, with its first [k] slots taken. *)
Definition filled_to (a : FixedSizeAllocator) (k : Z) : Prop :=
  exists buffer blk,
    buffers a = {[0 := buffer]} /\
    buffers_with_free_space a =
      (if k <? available_segments_per_buffer a then {[0]} else ∅) /\
    memory buffer = Some blk /\ segment_count buffer = k /\
    Z.of_nat (length (bitmap blk)) = bitmask_count a /\
    forall j, 0 <= j -> mask_bit (bitmap blk) j =
      (k <=? j) && (j <? available_segments_per_buffer a).

(** ** Vacuum marks stay clear without a vacuum *)

Definition no_vacuum (a : FixedSizeAllocator) : Prop :=
  vacuum_buffers a = ∅ /\
  forall b buffer, buffers a !! b = Some buffer -> vacuum buffer = false.

(** ** Sums over lists *)

Definition sumZ {A} (f : A -> Z) (l : list A) : Z :=
  foldr (fun x acc => f x + acc) 0 l.

(** ** The multimap of [InitializeVacuum] *)

(** The keys of the entries do not go down. *)
Fixpoint ascending (l : list (Z * Z)) : Prop :=
  match l with
  | [] => True
  | e :: l' => Forall (fun y => e.1 <= y.1) l' /\ ascending l'
  end.

(** ** The first loop of [InitializeVacuum] *)

(** The entry of a buffer in the multimap: its free slots and its id. *)
Definition vacuum_entry (a : FixedSizeAllocator) (e : Z * FixedSizeBuffer) : Z * Z :=
  (available_segments_per_buffer a - segment_count e.2, e.1).

Definition clear_flags (m : gmap Z FixedSizeBuffer) (l : list (Z * FixedSizeBuffer))
  : gmap Z FixedSizeBuffer :=
  foldl (fun m e => <[e.1 := set_vacuum e.2 false]> m) m l.

Definition emplace_all (a : FixedSizeAllocator) (t : list (Z * Z))
    (l : list (Z * FixedSizeBuffer)) : list (Z * Z) :=
  foldl (fun t e => multimap_emplace (vacuum_entry a e).1 (vacuum_entry a e).2 t) t l.

(** ** The marks *)

(** The buffers with the flag set on the ids of [V] and cleared on the
    others. *)
Definition flag_buffers (V : gset Z) (bufs : gmap Z FixedSizeBuffer)
  : gmap Z FixedSizeBuffer :=
  map_imap (fun k buffer => Some (set_vacuum buffer (bool_decide (k ∈ V)))) bufs.

(** The allocator with the buffers of [V] marked for the vacuum. *)
Definition vacuum_marked (a : FixedSizeAllocator) (V : gset Z) : FixedSizeAllocator :=
  MkFixedSizeAllocator (segment_size a) (bitmask_count a) (bitmask_offset a)
    (available_segments_per_buffer a) (total_segment_count a)
    (flag_buffers V (buffers a)) (buffers_with_free_space a ∖ V) V.

(** ** What [InitializeVacuum] computes *)

(** The number of buffers the free slots of all buffers would fill. *)
Definition excess_buffers (a : FixedSizeAllocator) : Z :=
  (Z.of_nat (size (buffers a)) * available_segments_per_buffer a - total_segment_count a)
  / available_segments_per_buffer a.

(** The entries the multimap holds after the first loop, and the ones the
    while loop leaves in it. *)
Definition vacuum_candidates (visit : gmap Z FixedSizeBuffer -> list (Z * FixedSizeBuffer))
    (a : FixedSizeAllocator) : list (Z * Z) :=
  emplace_all a [] (visit (buffers a)).

Definition vacuum_kept (visit : gmap Z FixedSizeBuffer -> list (Z * FixedSizeBuffer))
    (a : FixedSizeAllocator) : list (Z * Z) :=
  let temp := vacuum_candidates visit a in
  drop (length temp - Z.to_nat (excess_buffers a)) temp.

(** ** The buffers [InitializeVacuum] marks *)

(** The live segments of the buffers of [V], and the free slots of the
    other buffers. *)
Definition live_segments_in (V : gset Z) (bufs : gmap Z FixedSizeBuffer) : Z :=
  sumZ (fun e => if decide (e.1 ∈ V) then segment_count e.2 else 0) (map_to_list bufs).

Definition free_slots_outside (a : FixedSizeAllocator) (V : gset Z) : Z :=
  sumZ (fun e => if decide (e.1 ∈ V) then 0
                 else available_segments_per_buffer a - segment_count e.2)
       (map_to_list (buffers a)).

(** ** [FinalizeVacuum] *)

(** Every marked buffer exists and is in memory. *)
Definition marked_in_memory (a : FixedSizeAllocator) : Prop :=
  forall b, b ∈ vacuum_buffers a ->
    exists buffer, buffers a !! b = Some buffer /\ InMemory buffer = true.

(** The buffers that are not marked. *)
Definition unmarked_buffers (a : FixedSizeAllocator) : gmap Z FixedSizeBuffer :=
  filter (fun e => e.1 ∉ vacuum_buffers a) (buffers a).

(** ** While a vacuum runs *)

(** What holds between [InitializeVacuum] and [FinalizeVacuum]: the
    buffers agree with the layout, the free set holds the buffers with a
    free slot that are not marked, and the marked buffers exist. *)
Record vacuuming (a : FixedSizeAllocator) : Prop := MkVacuuming {
  vac_layout : layout_ok a;
  vac_buffers : forall b buffer, buffers a !! b = Some buffer ->
    buffer_ok (bitmask_count a) (available_segments_per_buffer a) buffer;
  vac_free : forall b, b ∈ buffers_with_free_space a <->
    (b ∉ vacuum_buffers a) /\
    exists buffer, buffers a !! b = Some buffer /\
      segment_count buffer < available_segments_per_buffer a;
  vac_ids : forall b, is_Some (buffers a !! b) -> 0 <= b < 2 ^ 32;
  vac_marked : vacuum_buffers a ⊆ dom (buffers a);
  vac_total : Word.ok (total_segment_count a)
}.

(** The segments of the layout lie inside a block. *)
Definition segments_in_block (a : FixedSizeAllocator) : Prop :=
  0 <= segment_size a /\ 0 <= bitmask_offset a /\
  bitmask_offset a + available_segments_per_buffer a * segment_size a <= BLOCK_SIZE.

(** ** From [InitializeVacuum] to [FinalizeVacuum] *)

(** [VacuumPointer] for each pointer of a list in turn. *)
Fixpoint VacuumPointer_all (begin : gset Z -> Z) (ptrs : list IndexPointer)
    (a : FixedSizeAllocator) : outcome (FixedSizeAllocator * list IndexPointer) :=
  match ptrs with
  | [] => Ok (a, [])
  | ptr :: ptrs' =>
      '(a, new_ptr) ← VacuumPointer begin ptr a;
      '(a, new_ptrs) ← VacuumPointer_all begin ptrs' a;
      Ok (a, new_ptr :: new_ptrs)
  end.

(** A pointer into a marked buffer. *)
Definition marked_pointer (a : FixedSizeAllocator) (ptr : IndexPointer) : Prop :=
  GetBufferId ptr ∈ vacuum_buffers a /\
  0 <= GetOffsetOf ptr < available_segments_per_buffer a.

(** ** [GetMemoryUsage] *)

(** The buffers that are in memory. *)
Definition buffers_in_memory (bufs : gmap Z FixedSizeBuffer) : gmap Z FixedSizeBuffer :=
  filter (fun e => InMemory e.2 = true) bufs.

(** ** Example allocators of the further properties *)

(** [one16] after its segment was freed. *)
Definition freed16 : FixedSizeAllocator :=
  Eval vm_compute in value_of no_allocator (Free (MkIndexPointer 0 0) one16).

(** The bitmap of the buffer of [one16]. *)
Definition one16_bitmap : list Z :=
  Eval vm_compute in
    match memory one16_buffer with Some blk => bitmap blk | None => [] end.

(** A fresh allocator of segment size 100000: two segments to a buffer. *)
Definition fresh100000 : FixedSizeAllocator :=
  Eval vm_compute in value_of no_allocator (FixedSizeAllocator_new 100000).

(** After three calls of [New]: buffer 0 is full, buffer 1 holds one
    segment. *)
Definition three100000 : FixedSizeAllocator :=
  Eval vm_compute in
    match New_times begin_min 3 fresh100000 with Ok (a, _) => a | _ => no_allocator end.

(** After the first segment was freed: two buffers, each half full. *)
Definition sparse100000 : FixedSizeAllocator :=
  Eval vm_compute in value_of no_allocator (Free (MkIndexPointer 0 0) three100000).

(** [sparse100000] after [InitializeVacuum] marked buffer 0. *)
Definition marked100000 : FixedSizeAllocator :=
  Eval vm_compute in
    match InitializeVacuum map_to_list sparse100000 with
    | Ok (a, _) => a
    | _ => no_allocator
    end.

(** [marked100000] after a [FinalizeVacuum] that follows at once: buffer
    0 is dropped with its live segment. *)
Definition dropped100000 : FixedSizeAllocator :=
  Eval vm_compute in value_of no_allocator (FinalizeVacuum marked100000).

(** [freed16], whose buffer 0 is in memory and empty, with a buffer 1 on
    disk that holds one segment. *)
Definition mixed16 : FixedSizeAllocator :=
  with_state freed16 1
    (<[ 1 := FixedSizeBuffer_restored 1 24 0 ]> (buffers freed16))
    (buffers_with_free_space freed16 ∪ {[ 1 ]}).

(** [one16] with its buffer as [Deserialize] leaves it: on disk only. *)
Definition disk16 : FixedSizeAllocator :=
  with_state one16 1 {[ 0 := FixedSizeBuffer_restored 1 24 0 ]} {[ 0 ]}.

(** * Properties *)

(** ** Bit-scan ladders *)

Section LadderLevel.

Variables (b s : Z).
Hypothesis s_pos : 0 < s.
Hypothesis s_small : 2 * s <= 64.
Hypothesis b_ok : isolates_low_half b s.

Lemma land_base_low x :
  0 <= x < 2 ^ (2 * s) -> Z.land x b = x mod 2 ^ s.
Proof.
  intros Hx. destruct b_ok as [_ Hb].
  apply Z.bits_inj'. intros k Hk.
  rewrite Z.land_spec.
  destruct (Z.ltb_spec k s) as [Hlt | Hge].
  - rewrite Z.mod_pow2_bits_low by lia.
    rewrite Hb by lia.
    destruct (Z.ltb_spec k s); [ apply andb_true_r | lia ].
  - rewrite Z.mod_pow2_bits_high by lia.
    destruct (Z.ltb_spec k (2 * s)) as [Hlt2 | Hge2].
    + rewrite Hb by lia.
      destruct (Z.ltb_spec k s); [ lia | apply andb_false_r ].
    + assert (Z.testbit x k = false) as ->; [ | reflexivity ].
      destruct (Z.eq_dec x 0) as [-> | Hne]; [ apply Z.bits_0 | ].
      apply Z.bits_above_log2; [ lia | ].
      apply Z.log2_lt_pow2; [ lia | ].
      assert (2 ^ (2 * s) <= 2 ^ k) by (apply Z.pow_le_mono_r; lia).
      lia.
Qed.

Lemma land_notbase_high x :
  0 <= x < 2 ^ (2 * s) ->
  Z.land x (Word.not b) = 2 ^ s * (x / 2 ^ s).
Proof.
  intros Hx. destruct b_ok as [Hbr Hb].
  assert (0 < 2 ^ s) by (apply Z.pow_pos_nonneg; lia).
  replace (2 ^ s * (x / 2 ^ s)) with (Z.shiftl (Z.shiftr x s) s).
  2:{ rewrite Z.shiftl_mul_pow2, Z.shiftr_div_pow2 by lia. lia. }
  apply Z.bits_inj'. intros k Hk.
  rewrite Z.land_spec. unfold Word.not. rewrite Z.lxor_spec.
  destruct (Z.ltb_spec k s) as [Hlt | Hge].
  - rewrite Z.shiftl_spec_low by lia.
    rewrite Hb by lia.
    destruct (Z.ltb_spec k s); [ | lia ].
    replace (Z.testbit Word.MAX_ENTRY k) with true.
    + apply andb_false_r.
    + symmetry. change Word.MAX_ENTRY with (Z.ones 64).
      apply Z.ones_spec_low. lia.
  - rewrite Z.shiftl_spec by lia. rewrite Z.shiftr_spec by lia.
    replace (k - s + s) with k by lia.
    destruct (Z.ltb_spec k (2 * s)) as [Hlt2 | Hge2].
    + rewrite Hb by lia.
      destruct (Z.ltb_spec k s); [ lia | ].
      replace (Z.testbit Word.MAX_ENTRY k) with true.
      * apply andb_true_r.
      * symmetry. change Word.MAX_ENTRY with (Z.ones 64).
        apply Z.ones_spec_low. lia.
    + assert (Z.testbit x k = false) as ->; [ | reflexivity ].
      destruct (Z.eq_dec x 0) as [-> | Hne]; [ apply Z.bits_0 | ].
      apply Z.bits_above_log2; [ lia | ].
      apply Z.log2_lt_pow2; [ lia | ].
      assert (2 ^ (2 * s) <= 2 ^ k) by (apply Z.pow_le_mono_r; lia).
      lia.
Qed.

Lemma pow_double : 2 ^ (2 * s) = 2 ^ s * 2 ^ s.
Proof. replace (2 * s) with (s + s) by lia. apply Z.pow_add_r; lia. Qed.

Lemma add_small pos d : 0 <= pos <= 64 -> 0 <= d <= 64 -> Word.add pos d = pos + d.
Proof.
  intros Hp Hd. unfold Word.add, Word.wrap, Word.modulus.
  apply Z.mod_small. lia.
Qed.

(** A level of the rightmost ladder halves the width and keeps track of
    the rightmost set bit. *)
Lemma rightmost_level_spec x pos :
  0 < x < 2 ^ (2 * s) -> 0 <= pos <= 64 ->
  exists x' d,
    rightmost_level (x, pos) (b, s) = (x', pos + d) /\
    0 < x' < 2 ^ s /\ (d = 0 \/ d = s) /\
    forall n, is_rightmost_set x' n -> is_rightmost_set x (n + d).
Proof.
  intros Hx Hpos.
  assert (0 < 2 ^ s) as Hp by (apply Z.pow_pos_nonneg; lia).
  pose proof pow_double as Hd.
  pose proof (Z.div_mod x (2 ^ s) ltac:(lia)) as Hdm.
  pose proof (Z.mod_pos_bound x (2 ^ s) Hp) as Hmb.
  unfold rightmost_level. rewrite land_base_low by lia.
  destruct (Z.eqb_spec (x mod 2 ^ s) 0) as [Hz | Hnz].
  - exists (Z.shiftr x s), s. split; [ by rewrite add_small by lia | ].
    rewrite Z.shiftr_div_pow2 by lia. rewrite Hz in Hdm.
    split; [ | split; [ by right | ] ].
    + split; [ nia | apply Z.div_lt_upper_bound; lia ].
    + intros n (Hn & Hset & Hlow). split; [ lia | split ].
      * rewrite <- Z.shiftr_div_pow2 in Hset by lia.
        rewrite Z.shiftr_spec in Hset by lia. exact Hset.
      * intros m Hm. destruct (Z.ltb_spec m s) as [Hlt | Hge].
        -- rewrite <- (Z.mod_pow2_bits_low x s m) by lia.
           rewrite Hz. apply Z.bits_0.
        -- specialize (Hlow (m - s) ltac:(lia)).
           rewrite <- Z.shiftr_div_pow2 in Hlow by lia.
           rewrite Z.shiftr_spec in Hlow by lia.
           replace (m - s + s) with m in Hlow by lia. exact Hlow.
  - exists (x mod 2 ^ s), 0. split; [ by rewrite Z.add_0_r | ].
    split; [ lia | split; [ by left | ] ].
    intros n (Hn & Hset & Hlow). rewrite Z.add_0_r.
    assert (n < s) as Hns.
    { destruct (Z.ltb_spec n s); [ done | ].
      rewrite Z.mod_pow2_bits_high in Hset by lia. discriminate. }
    split; [ lia | split ].
    + rewrite Z.mod_pow2_bits_low in Hset by lia. exact Hset.
    + intros m Hm. rewrite <- (Z.mod_pow2_bits_low x s m) by lia.
      apply Hlow. lia.
Qed.

(** A level of the leftmost ladder halves the width and keeps track of
    the leftmost set bit. *)
Lemma leftmost_level_spec x pos :
  0 < x < 2 ^ (2 * s) -> 0 <= pos <= 64 ->
  exists x' d,
    leftmost_level (x, pos) (b, s) = (x', pos + d) /\
    0 < x' < 2 ^ s /\ (d = 0 \/ d = s) /\
    forall n, is_leftmost_set x' n -> is_leftmost_set x (n + d).
Proof.
  intros Hx Hpos.
  assert (0 < 2 ^ s) as Hp by (apply Z.pow_pos_nonneg; lia).
  pose proof pow_double as Hd.
  pose proof (Z.div_mod x (2 ^ s) ltac:(lia)) as Hdm.
  pose proof (Z.mod_pos_bound x (2 ^ s) Hp) as Hmb.
  assert (0 <= x / 2 ^ s < 2 ^ s) as Hq.
  { split; [ apply Z.div_pos; lia | apply Z.div_lt_upper_bound; lia ]. }
  unfold leftmost_level. rewrite land_notbase_high by lia.
  rewrite land_base_low by lia.
  destruct (Z.eqb_spec (2 ^ s * (x / 2 ^ s)) 0) as [Hz | Hnz].
  - exists (x mod 2 ^ s), 0. split; [ by rewrite Z.add_0_r | ].
    assert (x / 2 ^ s = 0) as Hq0 by nia.
    assert (x mod 2 ^ s = x) as Hxm by lia.
    rewrite Hxm. split; [ lia | split; [ by left | ] ].
    intros n Hn. by rewrite Z.add_0_r.
  - exists (Z.shiftr x s), s. split; [ by rewrite add_small by lia | ].
    rewrite Z.shiftr_div_pow2 by lia.
    split; [ lia | split; [ by right | ] ].
    intros n (Hn & Hset & Hhigh).
    rewrite <- Z.shiftr_div_pow2 in Hset, Hhigh by lia.
    split; [ lia | split ].
    + rewrite Z.shiftr_spec in Hset by lia. exact Hset.
    + intros m Hm. specialize (Hhigh (m - s) ltac:(lia)).
      rewrite Z.shiftr_spec in Hhigh by lia.
      replace (m - s + s) with m in Hhigh by lia. exact Hhigh.
Qed.

End LadderLevel.

Lemma isolates_low_halfb_sound b s :
  isolates_low_halfb b s = true -> isolates_low_half b s.
Proof.
  unfold isolates_low_halfb. intros H.
  apply andb_prop in H as [H Hall]. apply andb_prop in H as [H1 H2].
  split; [ lia | ].
  intros k Hk. rewrite forallb_forall in Hall.
  specialize (Hall (Z.to_nat k)).
  rewrite Z2Nat.id in Hall by lia.
  apply Bool.eqb_prop, Hall, in_seq. lia.
Qed.

Lemma BASE_ok : table_ok BASE.
Proof.
  unfold table_ok, BASE, SHIFT.
  repeat (constructor 2;
          [ apply isolates_low_halfb_sound; vm_compute; reflexivity | ]).
  constructor 1.
Qed.

Lemma BASE_low_ok : table_ok BASE_low.
Proof.
  unfold table_ok, BASE_low, SHIFT.
  repeat (constructor 2;
          [ apply isolates_low_halfb_sound; vm_compute; reflexivity | ]).
  constructor 1.
Qed.

Lemma is_rightmost_set_one : is_rightmost_set 1 0.
Proof. split; [ lia | split; [ reflexivity | intros; lia ] ]. Qed.

Lemma is_leftmost_set_one : is_leftmost_set 1 0.
Proof.
  split; [ lia | split; [ reflexivity | ] ].
  intros m Hm. apply Z.bits_above_log2; simpl; lia.
Qed.

Lemma is_rightmost_set_unique x n m :
  is_rightmost_set x n -> is_rightmost_set x m -> n = m.
Proof.
  intros (Hn & Hsn & Hln) (Hm & Hsm & Hlm).
  destruct (Z.lt_trichotomy n m) as [Hlt | [Heq | Hgt]]; [ | done | ].
  - rewrite Hlm in Hsn by lia. discriminate.
  - rewrite Hln in Hsm by lia. discriminate.
Qed.

Lemma is_leftmost_set_unique x n m :
  is_leftmost_set x n -> is_leftmost_set x m -> n = m.
Proof.
  intros (Hn & Hsn & Hln) (Hm & Hsm & Hlm).
  destruct (Z.lt_trichotomy n m) as [Hlt | [Heq | Hgt]]; [ | done | ].
  - rewrite Hln in Hsm by lia. discriminate.
  - rewrite Hlm in Hsn by lia. discriminate.
Qed.

Lemma table_ok_inv base :
  table_ok base ->
  exists b0 b1 b2 b3 b4 b5,
    base = [b0; b1; b2; b3; b4; b5] /\
    isolates_low_half b0 32 /\ isolates_low_half b1 16 /\
    isolates_low_half b2 8 /\ isolates_low_half b3 4 /\
    isolates_low_half b4 2 /\ isolates_low_half b5 1.
Proof.
  unfold table_ok, SHIFT. intros H.
  apply Forall2_cons_inv_r in H as (b0 & l0 & H0 & H & ->).
  apply Forall2_cons_inv_r in H as (b1 & l1 & H1 & H & ->).
  apply Forall2_cons_inv_r in H as (b2 & l2 & H2 & H & ->).
  apply Forall2_cons_inv_r in H as (b3 & l3 & H3 & H & ->).
  apply Forall2_cons_inv_r in H as (b4 & l4 & H4 & H & ->).
  apply Forall2_cons_inv_r in H as (b5 & l5 & H5 & H & ->).
  apply Forall2_nil_inv_r in H as ->.
  exists b0, b1, b2, b3, b4, b5. tauto.
Qed.

(** Runs the innermost level of a ladder: [spec] is the level lemma
    applied to the level's mask and shift, [Hx] the bound on the current
    value. *)
Ltac ladder_level spec Hx x' d Heq Hx' Hd Hn :=
  match goal with
  | |- context [ _ (?x0, ?p0) (_, _) ] =>
      destruct (spec x0 p0 Hx) as (x' & d & Heq & Hx' & Hd & Hn);
      [ lia | rewrite Heq ]
  end.

Lemma rightmost_ladder_spec base x :
  table_ok base -> 0 < x < 2 ^ 64 ->
  exists e, rightmost_ladder base x = (e, snd (rightmost_ladder base x)) /\
            e = 1 /\
            0 <= snd (rightmost_ladder base x) < 64 /\
            is_rightmost_set x (snd (rightmost_ladder base x)).
Proof.
  intros Hb Hx.
  apply table_ok_inv in Hb
    as (b0 & b1 & b2 & b3 & b4 & b5 & -> & B0 & B1 & B2 & B3 & B4 & B5).
  unfold rightmost_ladder, SHIFT. cbn [combine fold_left].
  change (2 ^ 64) with (2 ^ (2 * 32)) in Hx.
  ladder_level (rightmost_level_spec _ 32 ltac:(lia) ltac:(lia) B0) Hx x1 d1 E1 Hx1 Hd1 Hn1.
  change (2 ^ 32) with (2 ^ (2 * 16)) in Hx1.
  ladder_level (rightmost_level_spec _ 16 ltac:(lia) ltac:(lia) B1) Hx1 x2 d2 E2 Hx2 Hd2 Hn2.
  change (2 ^ 16) with (2 ^ (2 * 8)) in Hx2.
  ladder_level (rightmost_level_spec _ 8 ltac:(lia) ltac:(lia) B2) Hx2 x3 d3 E3 Hx3 Hd3 Hn3.
  change (2 ^ 8) with (2 ^ (2 * 4)) in Hx3.
  ladder_level (rightmost_level_spec _ 4 ltac:(lia) ltac:(lia) B3) Hx3 x4 d4 E4 Hx4 Hd4 Hn4.
  change (2 ^ 4) with (2 ^ (2 * 2)) in Hx4.
  ladder_level (rightmost_level_spec _ 2 ltac:(lia) ltac:(lia) B4) Hx4 x5 d5 E5 Hx5 Hd5 Hn5.
  change (2 ^ 2) with (2 ^ (2 * 1)) in Hx5.
  ladder_level (rightmost_level_spec _ 1 ltac:(lia) ltac:(lia) B5) Hx5 x6 d6 E6 Hx6 Hd6 Hn6.
  cbn [snd]. exists x6.
  assert (x6 = 1) as -> by lia.
  split; [ done | split; [ done | split; [ lia | ] ] ].
  pose proof is_rightmost_set_one as R.
  apply Hn6, Hn5, Hn4, Hn3, Hn2, Hn1 in R.
  replace (0 + d1 + d2 + d3 + d4 + d5 + d6) with (0 + d6 + d5 + d4 + d3 + d2 + d1) by lia.
  exact R.
Qed.

Lemma leftmost_ladder_spec base x :
  table_ok base -> 0 < x < 2 ^ 64 ->
  fst (leftmost_ladder base x) = 1 /\
  0 <= snd (leftmost_ladder base x) < 64 /\
  is_leftmost_set x (snd (leftmost_ladder base x)).
Proof.
  intros Hb Hx.
  apply table_ok_inv in Hb
    as (b0 & b1 & b2 & b3 & b4 & b5 & -> & B0 & B1 & B2 & B3 & B4 & B5).
  unfold leftmost_ladder, SHIFT. cbn [combine fold_left].
  change (2 ^ 64) with (2 ^ (2 * 32)) in Hx.
  ladder_level (leftmost_level_spec _ 32 ltac:(lia) ltac:(lia) B0) Hx x1 d1 E1 Hx1 Hd1 Hn1.
  change (2 ^ 32) with (2 ^ (2 * 16)) in Hx1.
  ladder_level (leftmost_level_spec _ 16 ltac:(lia) ltac:(lia) B1) Hx1 x2 d2 E2 Hx2 Hd2 Hn2.
  change (2 ^ 16) with (2 ^ (2 * 8)) in Hx2.
  ladder_level (leftmost_level_spec _ 8 ltac:(lia) ltac:(lia) B2) Hx2 x3 d3 E3 Hx3 Hd3 Hn3.
  change (2 ^ 8) with (2 ^ (2 * 4)) in Hx3.
  ladder_level (leftmost_level_spec _ 4 ltac:(lia) ltac:(lia) B3) Hx3 x4 d4 E4 Hx4 Hd4 Hn4.
  change (2 ^ 4) with (2 ^ (2 * 2)) in Hx4.
  ladder_level (leftmost_level_spec _ 2 ltac:(lia) ltac:(lia) B4) Hx4 x5 d5 E5 Hx5 Hd5 Hn5.
  change (2 ^ 2) with (2 ^ (2 * 1)) in Hx5.
  ladder_level (leftmost_level_spec _ 1 ltac:(lia) ltac:(lia) B5) Hx5 x6 d6 E6 Hx6 Hd6 Hn6.
  cbn [fst snd].
  assert (x6 = 1) as -> by lia.
  split; [ done | ]. split; [ lia | ].
  pose proof is_leftmost_set_one as R.
  apply Hn6, Hn5, Hn4, Hn3, Hn2, Hn1 in R.
  replace (0 + d1 + d2 + d3 + d4 + d5 + d6) with (0 + d6 + d5 + d4 + d3 + d2 + d1) by lia.
  exact R.
Qed.

(** ** The constructor's loop *)

Section Constructor.

Variable s : Z.
Hypothesis s_valid : 1 <= s <= BLOCK_SIZE - 8.

Lemma wrap_small x : 0 <= x < Word.modulus -> Word.wrap x = x.
Proof. intros H. unfold Word.wrap. by apply Z.mod_small. Qed.

Lemma no_exact_fill_pow (n : nat) : forall b, 1 <= b -> b * (1 + 8 * s) <> 8 ^ Z.of_nat n.
Proof.
  induction n as [ | n IH ]; intros b Hb Heq.
  - change (8 ^ Z.of_nat 0) with 1 in Heq. nia.
  - rewrite Nat2Z.inj_succ, Z.pow_succ_r in Heq by lia.
    assert (0 < 8 ^ Z.of_nat n) as Hp by (apply Z.pow_pos_nonneg; lia).
    apply (IH (8 ^ Z.of_nat n - b * s)); nia.
Qed.

Lemma no_exact_fill bc : 1 <= bc -> bc * (8 + 64 * s) <> BLOCK_SIZE.
Proof.
  intros Hb Heq. apply (no_exact_fill_pow 5 bc Hb).
  change (8 ^ Z.of_nat 5) with 32768. unfold BLOCK_SIZE in Heq. lia.
Qed.

Lemma div_bounds x : 0 <= x -> (x / s) * s <= x < (x / s + 1) * s.
Proof.
  intros Hx. pose proof (Z.div_mod x s ltac:(lia)).
  pose proof (Z.mod_pos_bound x s ltac:(lia)). nia.
Qed.

Lemma ctor_body_first :
  exists v, ctor_body s (MkCtorVars 0 0 0) = Continue v /\ ctor_inv s v /\
            0 < cv_byte_count v.
Proof.
  unfold ctor_body. cbn [cv_bitmask_count cv_available cv_byte_count].
  pose proof s_valid as Hs. unfold BLOCK_SIZE in Hs.
  change (Word.mul sizeof_validity_t 8) with 64.
  change ((0 =? 0)) with true. cbn [negb andb orb].
  change (Word.add 0 1) with 1. change (Word.add 0 sizeof_validity_t) with 8.
  change (Word.sub BLOCK_SIZE 8) with 262136.
  destruct (Z.eqb_spec s 0) as [ | _ ]; [ lia | ].
  pose proof (div_bounds 262136 ltac:(lia)) as Hq.
  set (q := 262136 / s) in *.
  assert (1 <= q) as Hq1 by nia.
  unfold MinValue.
  destruct (Z.ltb_spec q 64) as [Hlt | Hge].
  - destruct (Z.eqb_spec q 0) as [ | _ ]; [ lia | ].
    eexists. split; [ reflexivity | ].
    unfold Word.add, Word.mul. rewrite !wrap_small; cycle 1.
    { unfold Word.modulus. nia. }
    { rewrite wrap_small; unfold Word.modulus; nia. }
    { unfold Word.modulus. nia. }
    unfold ctor_inv, BLOCK_SIZE; cbn. nia.
  - change (64 =? 0) with false. cbv iota.
    eexists. split; [ reflexivity | ].
    unfold Word.add, Word.mul. rewrite !wrap_small; cycle 1.
    { unfold Word.modulus. nia. }
    { rewrite wrap_small; unfold Word.modulus; nia. }
    { unfold Word.modulus. nia. }
    unfold ctor_inv, BLOCK_SIZE; cbn. nia.
Qed.

Lemma ctor_body_step v :
  ctor_inv s v -> cv_byte_count v < BLOCK_SIZE ->
  match ctor_body s v with
  | Continue v' => ctor_inv s v' /\ cv_byte_count v < cv_byte_count v'
  | Break v' => ctor_final v'
  | DivisionByZero => False
  end.
Proof.
  destruct v as [bc av byte]. unfold ctor_inv, ctor_final.
  cbn [cv_bitmask_count cv_available cv_byte_count].
  intros (Hbc & Hav & Hby & Hbc8 & Hby65 & Hfull & Hpart) Hlt.
  pose proof s_valid as Hs.
  unfold ctor_body. cbn [cv_bitmask_count cv_available cv_byte_count].
  unfold BLOCK_SIZE in *.
  change (Word.mul sizeof_validity_t 8) with 64.
  change sizeof_validity_t with 8.
  destruct (Z.eqb_spec bc 0) as [ | _ ]; [ lia | ].
  destruct (Z.eqb_spec av 0) as [ | _ ]; [ lia | ].
  destruct (Z.eqb_spec s 0) as [ | _ ]; [ lia | ].
  cbn [negb andb orb].
  assert (Word.mul bc 64 = bc * 64) as ->.
  { apply wrap_small. unfold Word.modulus. lia. }
  unfold MinValue.
  destruct (Z.eqb_spec ((bc * 64) mod av) 0) as [Hgrow | Hkeep].
  - (* another bitmap word is added *)
    assert (Word.add bc 1 = bc + 1) as ->.
    { apply wrap_small. unfold Word.modulus. lia. }
    assert (Word.add byte 8 = byte + 8) as ->.
    { apply wrap_small. unfold Word.modulus. lia. }
    destruct (Z.le_gt_cases (byte + 8) 262144) as [Hfit | Hover].
    + assert (Word.sub 262144 (byte + 8) = 262144 - (byte + 8)) as ->.
      { apply wrap_small. unfold Word.modulus. lia. }
      pose proof (div_bounds (262144 - (byte + 8)) ltac:(lia)) as Hq.
      set (q := (262144 - (byte + 8)) / s) in *.
      assert (0 <= q) as Hq0 by nia.
      destruct (Z.ltb_spec q 64) as [Hq64 | Hq64].
      * destruct (Z.eqb_spec q 0) as [Hz | Hnz].
        { cbn [cv_bitmask_count cv_available cv_byte_count]. lia. }
        unfold Word.add, Word.mul.
        rewrite (wrap_small (q * s)) by (unfold Word.modulus; nia).
        rewrite !wrap_small by (unfold Word.modulus; nia).
        cbn [cv_bitmask_count cv_available cv_byte_count].
        split; [ | nia ].
        repeat split; try nia.
      * change (64 =? 0) with false. cbv iota.
        unfold Word.add, Word.mul.
        rewrite (wrap_small (64 * s)) by (unfold Word.modulus; nia).
        rewrite !wrap_small by (unfold Word.modulus; nia).
        cbn [cv_bitmask_count cv_available cv_byte_count].
        assert (av = 64 * bc) as Hf by nia.
        destruct (Hfull Hf) as [Hb1 Hb2].
        split; [ | nia ].
        repeat split; try nia.
    + (* the subtraction wraps around *)
      assert (av < 64 * bc) as Hp.
      { destruct (Z.eq_dec av (64 * bc)) as [Hf | Hnf]; [ | lia ].
        destruct (Hfull Hf) as [Hb1 Hb2]. nia. }
      assert (Word.sub 262144 (byte + 8) = Word.modulus + 262144 - (byte + 8)) as ->.
      { unfold Word.sub, Word.wrap.
        replace (262144 - (byte + 8)) with ((Word.modulus + 262144 - (byte + 8)) + (-1) * Word.modulus) by lia.
        rewrite Z_mod_plus_full. apply Z.mod_small. unfold Word.modulus. lia. }
      pose proof (div_bounds (Word.modulus + 262144 - (byte + 8)) ltac:(unfold Word.modulus; lia)) as Hq.
      set (q := (Word.modulus + 262144 - (byte + 8)) / s) in *.
      unfold Word.modulus in Hq.
      destruct (Z.ltb_spec q 64) as [Hq64 | Hq64]; [ nia | ].
      change (64 =? 0) with false. cbv iota.
      unfold Word.add, Word.mul.
      rewrite (wrap_small (64 * s)) by (unfold Word.modulus; nia).
      rewrite !wrap_small by (unfold Word.modulus; nia).
      cbn [cv_bitmask_count cv_available cv_byte_count].
      split; [ | nia ].
      repeat split; try nia.
  - (* the bitmap is kept *)
    assert (av < 64 * bc) as Hp.
    { destruct (Z.eq_dec av (64 * bc)) as [Hf | Hnf]; [ | lia ].
      exfalso. apply Hkeep. rewrite Hf.
      replace (bc * 64) with (64 * bc) by lia. apply Z_mod_same_full. }
    specialize (Hpart Hp).
    assert (Word.sub 262144 byte = 262144 - byte) as ->.
    { apply wrap_small. unfold Word.modulus. lia. }
    pose proof (div_bounds (262144 - byte) ltac:(lia)) as Hq.
    set (q := (262144 - byte) / s) in *.
    assert (q = 0) as -> by nia.
    change (0 <? 64) with true. cbv iota. change (0 =? 0) with true. cbv iota.
    cbn [cv_bitmask_count cv_available cv_byte_count]. lia.
Qed.

(** The loop ends within the fuel, without a division by zero, and
    leaves a bitmap that is not full. *)
Lemma ctor_loop_total (fuel : nat) :
  forall v, ctor_inv s v -> BLOCK_SIZE - cv_byte_count v <= Z.of_nat fuel ->
  exists v', ctor_loop fuel s v = Some (Ok v') /\ ctor_final v'.
Proof.
  induction fuel as [ | fuel IH ]; intros v Hv Hfuel.
  - cbn [ctor_loop]. destruct (Z.ltb_spec (cv_byte_count v) BLOCK_SIZE); [ lia | ].
    exists v. split; [ done | ].
    destruct Hv as (Hbc & Hav & Hby & Hbc8 & Hby65 & Hfull & Hpart).
    repeat split; try lia.
    destruct (Z.eq_dec (cv_available v) (64 * cv_bitmask_count v)) as [Hf | ]; [ | lia ].
    destruct (Hfull Hf) as [Hb1 Hb2].
    exfalso. apply (no_exact_fill (cv_bitmask_count v) Hbc). lia.
  - cbn [ctor_loop]. destruct (Z.ltb_spec (cv_byte_count v) BLOCK_SIZE) as [Hlt | Hge].
    + pose proof (ctor_body_step v Hv Hlt) as Hstep.
      destruct (ctor_body s v) as [v' | v' | ]; [ | | done ].
      * destruct Hstep as [Hv' Hgrow]. apply IH; [ done | lia ].
      * by exists v'.
    + exists v. split; [ done | ].
      destruct Hv as (Hbc & Hav & Hby & Hbc8 & Hby65 & Hfull & Hpart).
      repeat split; try lia.
      destruct (Z.eq_dec (cv_available v) (64 * cv_bitmask_count v)) as [Hf | ]; [ | lia ].
      destruct (Hfull Hf) as [Hb1 Hb2].
      exfalso. apply (no_exact_fill (cv_bitmask_count v) Hbc). lia.
Qed.

(** Construction succeeds for every admissible segment size. *)
Lemma FixedSizeAllocator_new_total :
  exists a, FixedSizeAllocator_new s = Ok a /\
    segment_size a = s /\
    1 <= bitmask_count a /\
    1 <= available_segments_per_buffer a < 64 * bitmask_count a /\
    8 * bitmask_count a <= BLOCK_SIZE + 8 /\
    bitmask_offset a = 8 * bitmask_count a /\
    total_segment_count a = 0 /\
    buffers a = ∅ /\ buffers_with_free_space a = ∅ /\ vacuum_buffers a = ∅.
Proof.
  unfold FixedSizeAllocator_new.
  change (Word.sub BLOCK_SIZE sizeof_validity_t) with (BLOCK_SIZE - 8).
  destruct (Z.gtb_spec s (BLOCK_SIZE - 8)) as [Hgt | _]; [ pose proof s_valid; lia | ].
  destruct (Z.to_nat BLOCK_SIZE) as [ | fuel ] eqn:Hfuel.
  { unfold BLOCK_SIZE in Hfuel. lia. }
  cbn [ctor_loop cv_byte_count]. change (0 <? BLOCK_SIZE) with true. cbv iota.
  destruct ctor_body_first as (v1 & -> & Hv1 & Hpos).
  destruct (ctor_loop_total fuel v1 Hv1 ltac:(lia)) as (v' & -> & Hb & Ha & Hc).
  eexists. split; [ reflexivity | ].
  cbn [segment_size bitmask_count available_segments_per_buffer bitmask_offset
       total_segment_count buffers buffers_with_free_space vacuum_buffers].
  repeat split; try done; try lia.
  unfold Word.mul. change sizeof_validity_t with 8.
  rewrite wrap_small; [ lia | ]. unfold Word.modulus, BLOCK_SIZE in *. lia.
Qed.

End Constructor.

(** ** Bitmaps *)

Lemma count_clear_bounds mask n : 0 <= count_clear mask n <= Z.of_nat n.
Proof.
  induction n as [ | n IH ]; cbn [count_clear]; [ lia | ].
  destruct (mask_bit mask (Z.of_nat n)); lia.
Qed.

Lemma count_clear_ext mask mask' n :
  (forall j, 0 <= j < Z.of_nat n -> mask_bit mask' j = mask_bit mask j) ->
  count_clear mask' n = count_clear mask n.
Proof.
  induction n as [ | n IH ]; intros H; cbn [count_clear]; [ done | ].
  rewrite IH by (intros; apply H; lia). rewrite H by lia. done.
Qed.

(** Flipping one of the first [n] bits changes the count by one. *)
Lemma count_clear_flip mask mask' n i :
  0 <= i < Z.of_nat n ->
  (forall j, 0 <= j -> j <> i -> mask_bit mask' j = mask_bit mask j) ->
  mask_bit mask i = true -> mask_bit mask' i = false ->
  count_clear mask' n = count_clear mask n + 1.
Proof.
  induction n as [ | n IH ]; intros Hi Hother Hset Hclear; [ lia | ].
  cbn [count_clear].
  destruct (Z.eq_dec i (Z.of_nat n)) as [-> | Hne].
  - rewrite Hset, Hclear.
    rewrite (count_clear_ext mask mask' n) by (intros; apply Hother; lia). lia.
  - rewrite IH by (done || lia). rewrite Hother by lia. lia.
Qed.

Lemma count_clear_full mask n :
  count_clear mask n = Z.of_nat n ->
  forall j, 0 <= j < Z.of_nat n -> mask_bit mask j = false.
Proof.
  induction n as [ | n IH ]; intros Hc j Hj; [ lia | ].
  cbn [count_clear] in Hc. pose proof (count_clear_bounds mask n).
  destruct (mask_bit mask (Z.of_nat n)) eqn:E; [ lia | ].
  destruct (Z.eq_dec j (Z.of_nat n)) as [-> | ]; [ done | ].
  apply IH; lia.
Qed.

Lemma count_clear_none mask n :
  (forall j, 0 <= j < Z.of_nat n -> mask_bit mask j = true) ->
  count_clear mask n = 0.
Proof.
  induction n as [ | n IH ]; intros H; cbn [count_clear]; [ done | ].
  rewrite IH by (intros; apply H; lia). rewrite H by lia. done.
Qed.

Section MaskOps.

Import ValidityMask.

Lemma GetEntry_Ok mask e entry :
  GetEntry mask e = Ok entry -> 0 <= e /\ mask !! Z.to_nat e = Some entry.
Proof.
  unfold GetEntry. destruct (Z.ltb_spec e 0); [ done | ].
  destruct (mask !! Z.to_nat e); [ | done ]. intros [= ->]. split; [ lia | done ].
Qed.

Lemma RowIsValid_Ok mask row v :
  RowIsValid mask row = Ok v ->
  0 <= row < 64 * Z.of_nat (length mask) /\ mask_bit mask row = v.
Proof.
  unfold RowIsValid, BITS_PER_VALUE. cbn [mbind outcome_bind].
  destruct (GetEntry mask (row / 64)) as [entry | | ] eqn:E; try done.
  intros [= <-]. apply GetEntry_Ok in E as [Hnn Hl].
  pose proof (lookup_lt_Some _ _ _ Hl) as Hlen.
  unfold mask_bit. rewrite Hl. split; [ | done ].
  pose proof (Z.div_mod row 64 ltac:(lia)).
  pose proof (Z.mod_pos_bound row 64 ltac:(lia)). lia.
Qed.

Lemma RowIsValid_in_range mask row :
  0 <= row < 64 * Z.of_nat (length mask) ->
  RowIsValid mask row = Ok (mask_bit mask row).
Proof.
  intros Hr. unfold RowIsValid, GetEntry, mask_bit, BITS_PER_VALUE.
  assert (0 <= row / 64 < Z.of_nat (length mask)) as Hq.
  { split; [ apply Z.div_pos; lia | apply Z.div_lt_upper_bound; lia ]. }
  destruct (Z.ltb_spec (row / 64) 0); [ lia | ].
  destruct (lookup_lt_is_Some_2 mask (Z.to_nat (row / 64)) ltac:(lia)) as [entry ->].
  done.
Qed.

Lemma same_bit i j :
  0 <= i -> 0 <= j -> i / 64 = j / 64 -> i mod 64 = j mod 64 -> i = j.
Proof.
  intros Hi Hj Hq Hm.
  rewrite (Z.div_mod i 64), (Z.div_mod j 64) by lia. lia.
Qed.

Lemma testbit_MAX_ENTRY k : 0 <= k < 64 -> Z.testbit Word.MAX_ENTRY k = true.
Proof. intros Hk. change Word.MAX_ENTRY with (Z.ones 64). by apply Z.ones_spec_low. Qed.

(** The bits of a bitmap after one of its words is replaced. *)
Lemma mask_bit_SetEntry mask e entry entry' mask' :
  mask !! Z.to_nat e = Some entry -> 0 <= e ->
  SetEntry mask e entry' = Ok mask' ->
  length mask' = length mask /\
  forall j, 0 <= j ->
    mask_bit mask' j =
      if decide (j / 64 = e) then Z.testbit entry' (j mod 64) else mask_bit mask j.
Proof.
  intros Hl He. unfold SetEntry.
  pose proof (lookup_lt_Some _ _ _ Hl) as Hlen.
  destruct (Z.leb_spec 0 e); [ | lia ].
  destruct (Z.ltb_spec e (Z.of_nat (length mask))); [ | lia ].
  cbn [andb]. intros [= <-]. split; [ apply length_insert | ].
  intros j Hj. unfold mask_bit.
  assert (0 <= j / 64) by (apply Z.div_pos; lia).
  destruct (decide (j / 64 = e)) as [-> | Hne].
  - by rewrite list_lookup_insert_eq.
  - rewrite list_lookup_insert_ne by lia. done.
Qed.

Lemma SetInvalid_Ok mask row mask' :
  SetInvalid mask row = Ok mask' -> 0 <= row ->
  length mask' = length mask /\
  forall j, 0 <= j ->
    mask_bit mask' j = if decide (j = row) then false else mask_bit mask j.
Proof.
  unfold SetInvalid, BITS_PER_VALUE. cbn [mbind outcome_bind].
  destruct (GetEntry mask (row / 64)) as [entry | | ] eqn:E; try done.
  intros Hset Hrow. apply GetEntry_Ok in E as [Hnn Hl].
  destruct (mask_bit_SetEntry _ _ _ _ _ Hl Hnn Hset) as [Hlen Hbits].
  split; [ done | ]. intros j Hj. rewrite Hbits by done.
  pose proof (Z.mod_pos_bound row 64 ltac:(lia)) as Hrm.
  pose proof (Z.mod_pos_bound j 64 ltac:(lia)) as Hjm.
  rewrite Z.land_spec. unfold Word.not. rewrite Z.lxor_spec, Z.shiftl_1_l.
  rewrite Z.pow2_bits_eqb by lia. rewrite testbit_MAX_ENTRY by lia.
  destruct (decide (j / 64 = row / 64)) as [Hq | Hq].
  - destruct (Z.eqb_spec (row mod 64) (j mod 64)) as [Hm | Hm].
    + rewrite decide_True by (by apply same_bit). apply andb_false_r.
    + rewrite decide_False by congruence.
      unfold mask_bit. rewrite Hq, Hl. apply andb_true_r.
  - rewrite decide_False by congruence. done.
Qed.

Lemma SetValid_Ok mask row mask' :
  SetValid mask row = Ok mask' -> 0 <= row ->
  length mask' = length mask /\
  forall j, 0 <= j ->
    mask_bit mask' j = if decide (j = row) then true else mask_bit mask j.
Proof.
  unfold SetValid, BITS_PER_VALUE. cbn [mbind outcome_bind].
  destruct (GetEntry mask (row / 64)) as [entry | | ] eqn:E; try done.
  intros Hset Hrow. apply GetEntry_Ok in E as [Hnn Hl].
  destruct (mask_bit_SetEntry _ _ _ _ _ Hl Hnn Hset) as [Hlen Hbits].
  split; [ done | ]. intros j Hj. rewrite Hbits by done.
  pose proof (Z.mod_pos_bound row 64 ltac:(lia)) as Hrm.
  pose proof (Z.mod_pos_bound j 64 ltac:(lia)) as Hjm.
  rewrite Z.lor_spec, Z.shiftl_1_l.
  rewrite Z.pow2_bits_eqb by lia.
  destruct (decide (j / 64 = row / 64)) as [Hq | Hq].
  - destruct (Z.eqb_spec (row mod 64) (j mod 64)) as [Hm | Hm].
    + rewrite decide_True by (by apply same_bit). apply orb_true_r.
    + rewrite decide_False by congruence.
      unfold mask_bit. rewrite Hq, Hl. apply orb_false_r.
  - rewrite decide_False by congruence. done.
Qed.

Lemma SetInvalid_in_range mask row :
  0 <= row < 64 * Z.of_nat (length mask) -> exists mask', SetInvalid mask row = Ok mask'.
Proof.
  intros Hr. unfold SetInvalid, SetEntry, GetEntry, BITS_PER_VALUE.
  assert (0 <= row / 64 < Z.of_nat (length mask)) as Hq.
  { split; [ apply Z.div_pos; lia | apply Z.div_lt_upper_bound; lia ]. }
  destruct (Z.ltb_spec (row / 64) 0); [ lia | ].
  destruct (lookup_lt_is_Some_2 mask (Z.to_nat (row / 64)) ltac:(lia)) as [entry ->].
  cbn [of_option mbind outcome_bind].
  destruct (Z.leb_spec 0 (row / 64)); [ | lia ].
  destruct (Z.ltb_spec (row / 64) (Z.of_nat (length mask))); [ | lia ].
  cbn [andb]. by eexists.
Qed.

Lemma SetValid_in_range mask row :
  0 <= row < 64 * Z.of_nat (length mask) -> exists mask', SetValid mask row = Ok mask'.
Proof.
  intros Hr. unfold SetValid, SetEntry, GetEntry, BITS_PER_VALUE.
  assert (0 <= row / 64 < Z.of_nat (length mask)) as Hq.
  { split; [ apply Z.div_pos; lia | apply Z.div_lt_upper_bound; lia ]. }
  destruct (Z.ltb_spec (row / 64) 0); [ lia | ].
  destruct (lookup_lt_is_Some_2 mask (Z.to_nat (row / 64)) ltac:(lia)) as [entry ->].
  cbn [of_option mbind outcome_bind].
  destruct (Z.leb_spec 0 (row / 64)); [ | lia ].
  destruct (Z.ltb_spec (row / 64) (Z.of_nat (length mask))); [ | lia ].
  cbn [andb]. by eexists.
Qed.

Lemma word_ok_bits x :
  Word.ok x <-> 0 <= x /\ forall k, 64 <= k -> Z.testbit x k = false.
Proof.
  unfold Word.ok, Word.modulus. split.
  - intros Hx. split; [ lia | ]. intros k Hk.
    destruct (Z.eq_dec x 0) as [-> | Hnz]; [ apply Z.bits_0 | ].
    apply Z.bits_above_log2; [ lia | ].
    assert (Z.log2 x < 64) by (apply Z.log2_lt_pow2; lia). lia.
  - intros [Hnn Hhigh]. split; [ done | ].
    destruct (Z.lt_ge_cases x (2 ^ 64)) as [ | Hge ]; [ done | exfalso ].
    assert (64 <= Z.log2 x) as Hlog by (apply Z.log2_le_pow2; lia).
    specialize (Hhigh (Z.log2 x) Hlog).
    rewrite Z.bit_log2 in Hhigh by lia. discriminate.
Qed.

Lemma SetEntry_words mask e entry mask' :
  Forall Word.ok mask -> Word.ok entry ->
  SetEntry mask e entry = Ok mask' -> Forall Word.ok mask'.
Proof.
  intros Hm He. unfold SetEntry.
  destruct ((0 <=? e) && (e <? Z.of_nat (length mask))); [ | done ].
  intros [= <-]. by apply Forall_insert.
Qed.

Lemma GetEntry_word mask e entry :
  Forall Word.ok mask -> GetEntry mask e = Ok entry -> Word.ok entry.
Proof.
  intros Hm He. apply GetEntry_Ok in He as [_ He].
  rewrite Forall_lookup in Hm. by apply (Hm _ _ He).
Qed.

Lemma SetInvalid_words mask row mask' :
  Forall Word.ok mask -> SetInvalid mask row = Ok mask' -> Forall Word.ok mask'.
Proof.
  intros Hm. unfold SetInvalid. cbn [mbind outcome_bind].
  destruct (GetEntry mask (row / BITS_PER_VALUE)) as [entry | | ] eqn:E; try done.
  apply (SetEntry_words _ _ _ _ Hm).
  pose proof (GetEntry_word _ _ _ Hm E) as Hw.
  apply word_ok_bits in Hw as [Hnn Hhigh]. apply word_ok_bits. split.
  - apply Z.land_nonneg. by left.
  - intros k Hk. rewrite Z.land_spec, Hhigh by done. done.
Qed.

Lemma SetValid_words mask row mask' :
  Forall Word.ok mask -> SetValid mask row = Ok mask' -> Forall Word.ok mask'.
Proof.
  intros Hm. unfold SetValid, BITS_PER_VALUE. cbn [mbind outcome_bind].
  destruct (GetEntry mask (row / 64)) as [entry | | ] eqn:E; try done.
  apply (SetEntry_words _ _ _ _ Hm).
  pose proof (GetEntry_word _ _ _ Hm E) as Hw.
  apply word_ok_bits in Hw as [Hnn Hhigh]. apply word_ok_bits.
  pose proof (Z.mod_pos_bound row 64 ltac:(lia)) as Hrm.
  rewrite Z.shiftl_1_l. split.
  - apply Z.lor_nonneg. split; [ done | ]. apply Z.pow_nonneg. lia.
  - intros k Hk. rewrite Z.lor_spec, Hhigh by done.
    rewrite Z.pow2_bits_false by lia. done.
Qed.

Lemma SetAllValid_words mask count : Forall Word.ok (SetAllValid mask count).
Proof.
  apply Forall_forall. intros x Hx. unfold SetAllValid in Hx.
  apply elem_of_lookup_imap_1 in Hx as (i & y & -> & _).
  unfold all_valid_entry, BITS_PER_VALUE. apply word_ok_bits. split.
  - rewrite Z.ones_equiv. 
    assert (0 < 2 ^ Z.max 0 (Z.min 64 (count - Z.of_nat i * 64)))
      by (apply Z.pow_pos_nonneg; lia). lia.
  - intros k Hk. apply Z.ones_spec_high. lia.
Qed.

(** After [SetAllValid] exactly the first [count] bits are set. *)
Lemma mask_bit_SetAllValid mask count j :
  0 <= j -> 0 <= count <= 64 * Z.of_nat (length mask) ->
  mask_bit (SetAllValid mask count) j = (j <? count).
Proof.
  intros Hj Hc. unfold mask_bit, SetAllValid.
  rewrite list_lookup_imap.
  pose proof (Z.div_mod j 64 ltac:(lia)) as Hdm.
  pose proof (Z.mod_pos_bound j 64 ltac:(lia)) as Hm.
  assert (0 <= j / 64) as Hq by (apply Z.div_pos; lia).
  destruct (mask !! Z.to_nat (j / 64)) as [entry | ] eqn:E; cbn [fmap option_fmap option_map].
  - unfold all_valid_entry, BITS_PER_VALUE. rewrite Z2Nat.id by lia.
    rewrite Z.testbit_ones_nonneg by lia.
    destruct (Z.ltb_spec j count); destruct (Z.ltb_spec (j mod 64)
      (Z.max 0 (Z.min 64 (count - j / 64 * 64)))); lia.
  - apply lookup_ge_None in E.
    destruct (Z.ltb_spec j count); [ lia | done ].
Qed.

End MaskOps.

(** ** What [GetOffset] returns *)

Lemma GetOffset_scan_Ok mask n entry_idx mask' offset :
  GetOffset_scan mask n entry_idx = Ok (mask', offset) ->
  exists row,
    ValidityMask.RowIsValid mask row = Ok true /\
    ValidityMask.SetInvalid mask row = Ok mask' /\
    offset = Word.u32 row.
Proof.
  revert entry_idx. induction n as [ | n IH ]; intros entry_idx; cbn [GetOffset_scan]; [ done | ].
  destruct (ValidityMask.GetEntry mask entry_idx) as [entry | | ]; cbn [mbind outcome_bind]; try done.
  destruct (entry =? 0); [ apply IH | ].
  destruct (rightmost_ladder BASE entry) as [entry' first_valid_bit].
  destruct (D_ASSERT (negb (entry' =? 0)) "entry"); cbn [mbind outcome_bind]; try done.
  match goal with |- context [ ValidityMask.RowIsValid mask ?r ] => set (row := r) end.
  destruct (ValidityMask.RowIsValid mask row) as [[ | ] | | ] eqn:Hv;
    cbn [mbind outcome_bind D_ASSERT]; try done.
  destruct (ValidityMask.SetInvalid mask row) as [m | | ] eqn:Hs;
    cbn [mbind outcome_bind]; try done.
  intros [= <- <-]. by exists row.
Qed.

Lemma GetOffset_Ok a mask count mask' offset :
  GetOffset a mask count = Ok (mask', offset) ->
  exists row,
    ValidityMask.RowIsValid mask row = Ok true /\
    ValidityMask.SetInvalid mask row = Ok mask' /\
    offset = Word.u32 row.
Proof.
  unfold GetOffset.
  destruct (ValidityMask.RowIsValid mask count) as [[ | ] | | ] eqn:Hv;
    cbn [mbind outcome_bind]; try done.
  - destruct (ValidityMask.SetInvalid mask count) as [m | | ] eqn:Hs;
      cbn [mbind outcome_bind]; try done.
    intros [= <- <-]. by exists count.
  - apply GetOffset_scan_Ok.
Qed.

(** ** Sums over the buffers and sizes of sets of ids *)

Lemma sum_counts_empty : sum_counts ∅ = 0.
Proof. apply map_fold_empty. Qed.

Lemma sum_counts_insert_new bufs k buffer :
  bufs !! k = None ->
  sum_counts (<[k := buffer]> bufs) = segment_count buffer + sum_counts bufs.
Proof.
  intros Hk. unfold sum_counts.
  rewrite map_fold_insert_L; [ done | intros; lia | done ].
Qed.

Lemma sum_counts_insert bufs k buffer buffer' :
  bufs !! k = Some buffer ->
  sum_counts (<[k := buffer']> bufs) =
    sum_counts bufs - segment_count buffer + segment_count buffer'.
Proof.
  intros Hk.
  rewrite <- (insert_delete_eq bufs k buffer').
  rewrite <- (insert_id bufs k buffer Hk) at 2.
  rewrite <- (insert_delete_eq bufs k buffer).
  rewrite !sum_counts_insert_new by apply lookup_delete_eq. lia.
Qed.

Lemma sum_counts_bounds bufs bound :
  (forall k buffer, bufs !! k = Some buffer -> 0 <= segment_count buffer <= bound) ->
  0 <= sum_counts bufs <= Z.of_nat (size bufs) * bound.
Proof.
  induction bufs as [ | k buffer bufs Hk IH ] using map_ind; intros Hb.
  - rewrite sum_counts_empty, map_size_empty. lia.
  - rewrite sum_counts_insert_new, map_size_insert_None by done.
    pose proof (Hb k buffer (lookup_insert_eq _ _ _)).
    assert (0 <= sum_counts bufs <= Z.of_nat (size bufs) * bound).
    { apply IH. intros k' b' Hk'. apply (Hb k').
      rewrite lookup_insert_ne; [ done | ]. intros ->. congruence. }
    nia.
Qed.

Lemma sum_counts_nonneg bufs :
  (forall k buffer, bufs !! k = Some buffer -> 0 <= segment_count buffer) ->
  0 <= sum_counts bufs.
Proof.
  induction bufs as [ | k buffer bufs Hk IH ] using map_ind; intros Hb.
  - rewrite sum_counts_empty. lia.
  - rewrite sum_counts_insert_new by done.
    pose proof (Hb k buffer (lookup_insert_eq _ _ _)).
    assert (0 <= sum_counts bufs); [ | lia ].
    apply IH. intros k' b' Hk'. apply (Hb k').
    rewrite lookup_insert_ne; [ done | ]. intros ->. congruence.
Qed.

Lemma sum_counts_member bufs k buffer :
  (forall k' b', bufs !! k' = Some b' -> 0 <= segment_count b') ->
  bufs !! k = Some buffer -> segment_count buffer <= sum_counts bufs.
Proof.
  intros Hnn Hk.
  rewrite <- (insert_id bufs k buffer Hk), <- (insert_delete_eq bufs k buffer).
  rewrite sum_counts_insert_new by apply lookup_delete_eq.
  assert (0 <= sum_counts (delete k bufs)); [ | lia ].
  apply sum_counts_nonneg. intros k' b' Hk'.
  apply lookup_delete_Some in Hk' as [_ Hk']. by apply (Hnn k').
Qed.

(** A set of ids below [n] has at most [n] elements. *)
Lemma size_ids_below (n : nat) (X : gset Z) :
  (forall x, x ∈ X -> 0 <= x < Z.of_nat n) -> (size X <= n)%nat.
Proof.
  revert X. induction n as [ | n IH ]; intros X HX.
  - assert (X = ∅) as ->; [ | by rewrite size_empty ].
    apply set_eq. intros x. split; [ intros Hx; pose proof (HX x Hx); lia | set_solver ].
  - assert (size (X ∖ {[Z.of_nat n]}) <= n)%nat as Hrest.
    { apply IH. intros x Hx. apply elem_of_difference in Hx as [Hx Hne].
      specialize (HX x Hx). rewrite elem_of_singleton in Hne. lia. }
    assert (X ⊆ (X ∖ {[Z.of_nat n]}) ∪ {[Z.of_nat n]}) as Hsub.
    { intros x Hx. apply elem_of_union.
      destruct (decide (x = Z.of_nat n)) as [-> | Hne].
      - right. by apply elem_of_singleton.
      - left. apply elem_of_difference. split; [ done | ].
        by rewrite elem_of_singleton. }
    apply subseteq_size in Hsub.
    pose proof (size_union_alt (X ∖ {[Z.of_nat n]}) {[Z.of_nat n]}) as Hu.
    assert (size ({[Z.of_nat n]} ∖ (X ∖ {[Z.of_nat n]}) : gset Z) <= 1)%nat.
    { etrans; [ apply subseteq_size, subseteq_difference_l; reflexivity | ].
      by rewrite size_singleton. }
    lia.
Qed.

(** A set that holds every id up to [n] has more than [n] elements. *)
Lemma size_ids_upto (n : nat) (X : gset Z) :
  (forall x, 0 <= x <= Z.of_nat n -> x ∈ X) -> (n < size X)%nat.
Proof.
  revert X. induction n as [ | n IH ]; intros X HX.
  - assert (({[0]} : gset Z) ⊆ X) as Hsub.
    { intros x Hx. apply elem_of_singleton in Hx as ->. apply HX. lia. }
    apply subseteq_size in Hsub. rewrite size_singleton in Hsub. lia.
  - assert (n < size (X ∖ {[Z.of_nat (S n)]}))%nat as Hrest.
    { apply IH. intros x Hx. apply elem_of_difference. split.
      - apply HX. lia.
      - rewrite elem_of_singleton. lia. }
    assert (Z.of_nat (S n) ∈ X) as Hin by (apply HX; lia).
    pose proof (size_difference X {[Z.of_nat (S n)]}) as Hd.
    rewrite size_singleton in Hd.
    assert (({[Z.of_nat (S n)]} : gset Z) ⊆ X) as Hsub by set_solver.
    specialize (Hd Hsub).
    assert (1 <= size X)%nat.
    { apply subseteq_size in Hsub. by rewrite size_singleton in Hsub. }
    lia.
Qed.

(** ** Buffer ids *)

Lemma GetAvailableBufferId_from_spec bufs (n : nat) :
  ~ (forall j, 0 <= j <= Z.of_nat n -> is_Some (bufs !! j)) ->
  exists id, GetAvailableBufferId_from bufs n = Ok id /\
    0 <= id <= Z.of_nat n /\ bufs !! id = None /\
    forall j, id < j <= Z.of_nat n -> is_Some (bufs !! j).
Proof.
  induction n as [ | n IH ]; intros Hfree; cbn [GetAvailableBufferId_from].
  - destruct (bufs !! Z.of_nat 0) as [buffer | ] eqn:E.
    + exfalso. apply Hfree. intros j Hj. replace j with (Z.of_nat 0) by lia. by rewrite E.
    + exists (Z.of_nat 0). repeat split; try done; try lia; intros j Hj; lia.
  - destruct (bufs !! Z.of_nat (S n)) as [buffer | ] eqn:E.
    + destruct IH as (id & Hid & Hr & Hnone & Habove).
      { intros Hall. apply Hfree. intros j Hj.
        destruct (decide (j = Z.of_nat (S n))) as [-> | Hne]; [ by rewrite E | ].
        apply Hall. lia. }
      exists id. split; [ done | ]. split; [ lia | ]. split; [ done | ].
      intros j Hj. destruct (decide (j = Z.of_nat (S n))) as [-> | Hne]; [ by rewrite E | ].
      apply Habove. lia.
    + exists (Z.of_nat (S n)). repeat split; try done; try lia; intros j Hj; lia.
Qed.

Lemma GetAvailableBufferId_spec (bufs : gmap Z FixedSizeBuffer) :
  exists id, GetAvailableBufferId bufs = Ok id /\
    0 <= id <= Z.of_nat (size bufs) /\ bufs !! id = None /\
    forall j, id < j <= Z.of_nat (size bufs) -> is_Some (bufs !! j).
Proof.
  apply GetAvailableBufferId_from_spec. intros Hall.
  assert (size bufs < size (dom bufs))%nat as Hlt.
  { apply size_ids_upto. intros x Hx. apply elem_of_dom. by apply Hall. }
  rewrite size_dom in Hlt. lia.
Qed.

(** ** Consistent allocators *)

Lemma buffer_ok_count bc avail buffer :
  0 <= avail -> buffer_ok bc avail buffer -> 0 <= segment_count buffer <= avail.
Proof.
  intros Ha (blk & _ & _ & _ & _ & ->). unfold used_slots.
  pose proof (count_clear_bounds (bitmap blk) (Z.to_nat avail)). lia.
Qed.

Lemma consistent_total_bounds a :
  consistent a -> 0 <= total_segment_count a < 2 ^ 54.
Proof.
  intros [[(Hbc & Hav & Hbc8) Hbufs _] [Hids Htot]]. rewrite Htot.
  pose proof (sum_counts_bounds (buffers a) (available_segments_per_buffer a)) as Hb.
  assert (size (buffers a) <= Z.to_nat (2 ^ 32))%nat as Hsize.
  { rewrite <- size_dom. apply size_ids_below. intros x Hx.
    rewrite Z2Nat.id by lia. apply Hids. by apply elem_of_dom. }
  destruct Hb as [Hb1 Hb2].
  { intros k buffer Hk. eapply buffer_ok_count; [ lia | by eapply Hbufs ]. }
  unfold BLOCK_SIZE in Hbc8.
  assert (Z.of_nat (size (buffers a)) <= 2 ^ 32) by lia.
  change (2 ^ 54) with (2 ^ 32 * 2 ^ 22). change (2 ^ 22) with 4194304. nia.
Qed.

(** ** [New] keeps the allocator consistent *)

Lemma fresh_buffer_ok bc avail :
  1 <= bc -> 1 <= avail < 64 * bc ->
  let buffer := FixedSizeBuffer_fresh bc in
  forall blk, memory buffer = Some blk ->
  let buffer' := set_bitmap buffer (ValidityMask.SetAllValid (bitmap blk) avail) in
  buffer_ok bc avail buffer' /\ segment_count buffer' = 0 /\
  forall j, 0 <= j -> match memory buffer' with
                      | Some blk' => mask_bit (bitmap blk') j = (j <? avail)
                      | None => False
                      end.
Proof.
  intros Hbc Hav buffer blk Hblk buffer'.
  unfold buffer, FixedSizeBuffer_fresh in Hblk. cbn [memory] in Hblk.
  injection Hblk as <-. subst buffer buffer'.
  unfold set_bitmap, FixedSizeBuffer_fresh. cbn [memory bitmap payload segment_count vacuum].
  set (mask0 := replicate (Z.to_nat bc) 0).
  assert (Z.of_nat (length mask0) = bc) as Hlen.
  { unfold mask0. rewrite length_replicate. lia. }
  assert (forall j, 0 <= j ->
    mask_bit (ValidityMask.SetAllValid mask0 avail) j = (j <? avail)) as Hbits.
  { intros j Hj. apply mask_bit_SetAllValid; lia. }
  split; [ | split; [ done | done ] ].
  eexists. split; [ reflexivity | ]. cbn [bitmap].
  split; [ unfold ValidityMask.SetAllValid; by rewrite length_imap | ].
  split; [ apply SetAllValid_words | ].
  split.
  - intros j Hj. rewrite Hbits by lia. destruct (Z.ltb_spec j avail); [ lia | done ].
  - symmetry. apply count_clear_none. intros j Hj. rewrite Hbits by lia.
    destruct (Z.ltb_spec j avail); [ done | lia ].
Qed.

Lemma New_add_buffer_Ok a a' :
  coherent a -> New_add_buffer a = Ok a' ->
  coherent a' /\
  total_segment_count a' = total_segment_count a /\
  (buffers_with_free_space a <> ∅ /\ a' = a \/
   buffers_with_free_space a = ∅ /\
   exists id buffer,
     buffers a !! id = None /\ 0 <= id <= Z.of_nat (size (buffers a)) /\
     (forall j, id < j <= Z.of_nat (size (buffers a)) -> is_Some (buffers a !! j)) /\
     segment_count buffer = 0 /\
     a' = with_state a (total_segment_count a) (<[id := buffer]> (buffers a)) {[id]}).
Proof.
  intros [Hlay Hbufs Hfree]. unfold New_add_buffer.
  destruct (decide (buffers_with_free_space a = ∅)) as [Hempty | Hne].
  2:{ intros [= <-]. split; [ done | ]. split; [ done | ]. by left. }
  destruct (GetAvailableBufferId_spec (buffers a)) as (id & -> & Hid & Hnone & Habove).
  cbn [mbind outcome_bind]. unfold map_insert_new. rewrite Hnone.
  unfold find_buffer. rewrite lookup_insert_eq. cbn [mbind outcome_bind].
  destruct Hlay as (Hbc & Hav & Hbc8).
  unfold Get_block.
  destruct (memory (FixedSizeBuffer_fresh (bitmask_count a))) as [blk | ] eqn:Hblk; [ | done ].
  cbn [of_option mbind outcome_bind].
  destruct (fresh_buffer_ok _ _ Hbc Hav blk Hblk) as (Hok & Hcount & _).
  set (buffer := set_bitmap _ _) in *.
  rewrite insert_insert_eq, Hempty, (left_id_L ∅ (∪)).
  intros [= <-]. split; [ | split; [ done | right ] ].
  - split; cbn.
    + done.
    + intros b buffer0 Hb. destruct (decide (b = id)) as [-> | Hbid].
      * rewrite lookup_insert_eq in Hb. by injection Hb as <-.
      * rewrite lookup_insert_ne in Hb by done. by eapply Hbufs.
    + intros b. rewrite elem_of_singleton. split.
      * intros ->. exists buffer. rewrite lookup_insert_eq. split; [ done | lia ].
      * intros (buffer0 & Hb & Hlt). destruct (decide (b = id)) as [-> | Hbid]; [ done | ].
        rewrite lookup_insert_ne in Hb by done.
        assert (b ∈ buffers_with_free_space a) as Hin by (apply Hfree; eauto).
        rewrite Hempty in Hin. by apply not_elem_of_empty in Hin.
  - split; [ done | ]. exists id, buffer. done.
Qed.

(** Clearing a set bit below [avail] keeps a buffer in line with the
    layout and adds one used slot. *)
Lemma buffer_ok_allocate bc avail buffer blk row mask' :
  0 <= avail ->
  buffer_ok bc avail buffer -> memory buffer = Some blk ->
  ValidityMask.RowIsValid (bitmap blk) row = Ok true ->
  ValidityMask.SetInvalid (bitmap blk) row = Ok mask' ->
  0 <= row < avail /\ segment_count buffer < avail /\
  buffer_ok bc avail
    (set_segment_count (set_bitmap buffer mask') (segment_count buffer + 1)).
Proof.
  intros Hav (blk0 & Hmem & Hlen & Hwords & Hhigh & Hcount) Hblk Hvalid Hset.
  rewrite Hmem in Hblk. injection Hblk as ->.
  apply RowIsValid_Ok in Hvalid as [Hrow Hbit].
  destruct (SetInvalid_Ok _ _ _ Hset ltac:(lia)) as [Hlen' Hbits].
  assert (row < avail) as Hlt.
  { destruct (Z.lt_ge_cases row avail) as [ | Hge ]; [ done | ].
    rewrite Hhigh in Hbit by lia. done. }
  assert (used_slots mask' avail = used_slots (bitmap blk) avail + 1) as Hused.
  { unfold used_slots. apply (count_clear_flip _ _ _ row); [ lia | | done | ].
    - intros j Hj Hne. rewrite Hbits by done. by rewrite decide_False.
    - rewrite Hbits by lia. by rewrite decide_True. }
  pose proof (count_clear_bounds mask' (Z.to_nat avail)) as Hb.
  fold (used_slots mask' avail) in Hb.
  split; [ lia | ]. split; [ lia | ].
  unfold set_bitmap. rewrite Hmem. unfold set_segment_count. cbn.
  eexists. split; [ reflexivity | ]. cbn [bitmap segment_count].
  split; [ lia | ]. split; [ by eapply SetInvalid_words | ]. split; [ | lia ].
  intros j Hj. rewrite Hbits by lia. rewrite decide_False by lia. by apply Hhigh.
Qed.

Lemma New_pointer_Ok begin a a' p :
  coherent a -> New_pointer begin a = Ok (a', p) ->
  exists b buffer buffer' row,
    b = Word.u32 (begin (buffers_with_free_space a)) /\
    buffers a !! b = Some buffer /\
    segment_count buffer < available_segments_per_buffer a /\
    segment_count buffer' = segment_count buffer + 1 /\
    0 <= row < available_segments_per_buffer a /\
    p = IndexPointer_new b row /\
    a' = with_state a (Word.add (total_segment_count a) 1)
           (<[b := buffer']> (buffers a))
           (if segment_count buffer + 1 =? available_segments_per_buffer a
            then buffers_with_free_space a ∖ {[b]}
            else buffers_with_free_space a) /\
    coherent a'.
Proof.
  intros [Hlay Hbufs Hfree]. unfold New_pointer.
  destruct (bool_decide (buffers_with_free_space a ≠ ∅)); cbn [D_ASSERT mbind outcome_bind]; [ | done ].
  set (b := Word.u32 (begin (buffers_with_free_space a))).
  unfold find_buffer. destruct (buffers a !! b) as [buffer | ] eqn:Hb; cbn [mbind outcome_bind]; [ | done ].
  pose proof (Hbufs b buffer Hb) as Hok.
  pose proof Hok as (blk & Hmem & Hlen & Hwords & Hhigh & Hcount).
  unfold Get_block. rewrite Hmem. cbn [of_option mbind outcome_bind].
  destruct (GetOffset a (bitmap blk) (segment_count buffer)) as [[mask offset] | | ] eqn:Hoff;
    cbn [mbind outcome_bind]; try done.
  apply GetOffset_Ok in Hoff as (row & Hvalid & Hset & ->).
  destruct Hlay as (Hbc & Hav & Hbc8).
  assert (0 <= available_segments_per_buffer a) as Hav0 by lia.
  destruct (buffer_ok_allocate _ _ _ _ _ _ Hav0 Hok Hmem Hvalid Hset)
    as (Hrow & Hlt & Hok').
  pose proof (buffer_ok_count _ _ _ Hav0 Hok) as Hcb.
  assert (Word.add (segment_count buffer) 1 = segment_count buffer + 1) as Hadd.
  { apply wrap_small. unfold Word.modulus, BLOCK_SIZE in *. lia. }
  rewrite Hadd.
  set (buffer' := set_segment_count (set_bitmap buffer mask) (segment_count buffer + 1)) in *.
  intros [= <- <-].
  exists b, buffer, buffer', row.
  split; [ done | ]. split; [ done | ]. split; [ done | ]. split; [ done | ].
  split; [ done | ]. split.
  { unfold IndexPointer_new. f_equal. unfold Word.u32. by rewrite Z.mod_mod. }
  split; [ done | ].
  split; cbn.
  - done.
  - intros b0 buffer0 Hb0. destruct (decide (b0 = b)) as [-> | Hne].
    + rewrite lookup_insert_eq in Hb0. by injection Hb0 as <-.
    + rewrite lookup_insert_ne in Hb0 by done. by eapply Hbufs.
  - intros b0. destruct (decide (b0 = b)) as [-> | Hne].
    + rewrite lookup_insert_eq.
      destruct (Z.eqb_spec (segment_count buffer + 1) (available_segments_per_buffer a)) as [Hfull | Hnf].
      * split.
        -- intros Hin. apply elem_of_difference in Hin as [_ Hin].
           exfalso. apply Hin. by apply elem_of_singleton.
        -- intros (buffer0 & [= <-] & Hlt0). unfold buffer' in Hlt0. cbn in Hlt0. lia.
      * split.
        -- intros _. exists buffer'. split; [ done | ]. unfold buffer'. cbn. lia.
        -- intros _. apply Hfree. exists buffer. done.
    + rewrite lookup_insert_ne by done. rewrite <- Hfree.
      destruct (segment_count buffer + 1 =? available_segments_per_buffer a); [ | done ].
      rewrite elem_of_difference, elem_of_singleton. tauto.
Qed.

Lemma New_Ok begin a a' p :
  consistent a -> begin_ok begin -> New begin a = Ok (a', p) ->
  consistent a' /\ total_segment_count a' = total_segment_count a + 1.
Proof.
  intros [Hcoh [Hids Htot]] Hbegin. unfold New.
  destruct (New_add_buffer a) as [a1 | | ] eqn:Hadd; cbn [mbind outcome_bind]; try done.
  intros Hptr.
  pose proof (consistent_total_bounds a (conj Hcoh (MkCounted a Hids Htot))) as Htb.
  destruct (New_add_buffer_Ok _ _ Hcoh Hadd) as (Hcoh1 & Htot1 & Hcase).
  destruct (New_pointer_Ok _ _ _ _ Hcoh1 Hptr)
    as (b & buffer & buffer' & row & Hb & Hlook & Hlt & Hcount & Hrow & Hp & Ha' & Hcoh').
  assert (Word.add (total_segment_count a1) 1 = total_segment_count a + 1) as Hadd1.
  { rewrite Htot1. apply wrap_small. unfold Word.modulus. lia. }
  assert (total_segment_count a' = total_segment_count a + 1) as Htot'.
  { rewrite Ha'. cbn. done. }
  split; [ | done ]. split; [ done | ].
  destruct Hcase as [[Hne ->] | (Hempty & id & fresh & Hnone & Hid & _ & Hfresh & ->)].
  - (* a buffer had free space *)
    split.
    + intros x. rewrite Ha'. cbn. intros Hx.
      apply Hids. destruct (decide (x = b)) as [-> | Hxb]; [ by rewrite Hlook | ].
      by rewrite lookup_insert_ne in Hx.
    + rewrite Htot', Ha'. cbn.
      rewrite (sum_counts_insert _ _ _ _ Hlook). lia.
  - (* a buffer was added *)
    cbn in Hb, Hlook, Ha'.
    assert (begin {[id]} = id) as Hpick.
    { assert (begin ({[id]} : gset Z) ∈ ({[id]} : gset Z)) as Hin.
      { apply Hbegin. apply non_empty_singleton_L. }
      by apply elem_of_singleton in Hin. }
    rewrite Hpick in Hb.
    assert (b = id) as ->.
    { destruct (decide (b = id)) as [ | Hbid ]; [ done | exfalso ].
      rewrite lookup_insert_ne in Hlook by done.
      assert (b ∈ buffers_with_free_space a) as Hin.
      { apply (coh_free a Hcoh). eauto. }
      rewrite Hempty in Hin. by apply not_elem_of_empty in Hin. }
    assert (0 <= id < 2 ^ 32) as Hid32.
    { rewrite Hb at 1 2. unfold Word.u32. apply Z.mod_pos_bound. lia. }
    rewrite lookup_insert_eq in Hlook. injection Hlook as <-.
    split.
    + intros x. rewrite Ha'. cbn. rewrite insert_insert_eq. intros Hx.
      destruct (decide (x = id)) as [-> | Hxb]; [ done | ].
      apply Hids. by rewrite lookup_insert_ne in Hx.
    + rewrite Htot', Ha'. cbn. rewrite insert_insert_eq.
      rewrite sum_counts_insert_new by done. lia.
Qed.

(** ** [Free] *)

(** Freeing a live slot: the call succeeds and the state it leaves. *)
Lemma Free_live a b offset buffer blk :
  consistent a ->
  buffers a !! b = Some buffer -> memory buffer = Some blk ->
  0 <= offset < available_segments_per_buffer a ->
  mask_bit (bitmap blk) offset = false ->
  exists mask',
    ValidityMask.SetValid (bitmap blk) offset = Ok mask' /\
    1 <= segment_count buffer /\ 1 <= total_segment_count a /\
    let a' := with_state a (total_segment_count a - 1)
                (<[b := set_segment_count (set_bitmap buffer mask')
                          (segment_count buffer - 1)]> (buffers a))
                (buffers_with_free_space a ∪ {[b]}) in
    Free (MkIndexPointer b offset) a = Ok a' /\ consistent a'.
Proof.
  intros Hcons Hb Hmem Hoff Hclear.
  pose proof (consistent_total_bounds a Hcons) as Htb.
  destruct Hcons as [[Hlay Hbufs Hfree] [Hids Htot]].
  pose proof Hlay as (Hbc & Hav & Hbc8).
  pose proof (Hbufs b buffer Hb) as Hok.
  pose proof Hok as (blk0 & Hmem0 & Hlen & Hwords & Hhigh & Hcount).
  rewrite Hmem in Hmem0. injection Hmem0 as <-.
  assert (0 <= offset < 64 * Z.of_nat (length (bitmap blk))) as Hrange by lia.
  destruct (SetValid_in_range _ _ Hrange) as [mask' Hset].
  destruct (SetValid_Ok _ _ _ Hset ltac:(lia)) as [Hlen' Hbits].
  assert (used_slots (bitmap blk) (available_segments_per_buffer a) =
          used_slots mask' (available_segments_per_buffer a) + 1) as Hused.
  { unfold used_slots. apply (count_clear_flip _ _ _ offset); [ lia | | | done ].
    - intros j Hj Hne. rewrite Hbits by done. by rewrite decide_False.
    - rewrite Hbits by lia. by rewrite decide_True. }
  pose proof (count_clear_bounds mask' (Z.to_nat (available_segments_per_buffer a))) as Hb'.
  fold (used_slots mask' (available_segments_per_buffer a)) in Hb'.
  assert (1 <= segment_count buffer) as Hc1 by lia.
  assert (0 <= available_segments_per_buffer a) as Hav0 by lia.
  pose proof (buffer_ok_count _ _ _ Hav0 Hok) as Hcb.
  assert (segment_count buffer <= total_segment_count a) as Hle.
  { rewrite Htot. apply (sum_counts_member _ b); [ | done ].
    intros k' b' Hk'. eapply buffer_ok_count; [ | by eapply Hbufs ]. lia. }
  exists mask'. split; [ done | ]. split; [ done | ]. split; [ lia | ].
  cbv zeta. split.
  - unfold Free. cbn [GetBufferId GetOffsetOf]. unfold find_buffer. rewrite Hb.
    cbn [mbind outcome_bind]. unfold Get_block. rewrite Hmem.
    cbn [of_option mbind outcome_bind].
    rewrite RowIsValid_in_range by done. rewrite Hclear.
    cbn [mbind outcome_bind negb D_ASSERT]. rewrite Hset. cbn [mbind outcome_bind].
    destruct (Z.gtb_spec (total_segment_count a) 0); [ | lia ].
    destruct (Z.gtb_spec (segment_count buffer) 0); [ | lia ].
    cbn [mbind outcome_bind D_ASSERT].
    unfold Word.sub. rewrite !wrap_small by (unfold Word.modulus; lia). done.
  - split; split; cbn.
    + done.
    + intros b0 buffer0 Hb0. destruct (decide (b0 = b)) as [-> | Hne].
      * rewrite lookup_insert_eq in Hb0. injection Hb0 as <-.
        unfold set_bitmap. rewrite Hmem. unfold set_segment_count. cbn.
        eexists. split; [ reflexivity | ]. cbn [bitmap segment_count].
        split; [ lia | ]. split; [ by eapply SetValid_words | ]. split; [ | lia ].
        intros j Hj. rewrite Hbits by lia. rewrite decide_False by lia. by apply Hhigh.
      * rewrite lookup_insert_ne in Hb0 by done. by eapply Hbufs.
    + intros b0. rewrite elem_of_union, elem_of_singleton.
      destruct (decide (b0 = b)) as [-> | Hne].
      * rewrite lookup_insert_eq. split; [ | by right ].
        intros _. eexists. split; [ reflexivity | ]. cbn. lia.
      * rewrite lookup_insert_ne by done. rewrite <- Hfree. tauto.
    + intros x Hx. apply Hids.
      destruct (decide (x = b)) as [-> | Hxb]; [ by rewrite Hb | ].
      by rewrite lookup_insert_ne in Hx.
    + rewrite (sum_counts_insert _ _ _ _ Hb). cbn. lia.
Qed.

(** What a successful [Free] has checked. *)
Lemma Free_Ok_inv ptr a a' :
  Free ptr a = Ok a' ->
  exists buffer blk,
    buffers a !! GetBufferId ptr = Some buffer /\ memory buffer = Some blk /\
    ValidityMask.RowIsValid (bitmap blk) (GetOffsetOf ptr) = Ok false.
Proof.
  unfold Free, find_buffer.
  destruct (buffers a !! GetBufferId ptr) as [buffer | ]; cbn [mbind outcome_bind]; [ | done ].
  unfold Get_block.
  destruct (memory buffer) as [blk | ] eqn:Hmem; cbn [of_option mbind outcome_bind]; [ | done ].
  destruct (ValidityMask.RowIsValid (bitmap blk) (GetOffsetOf ptr)) as [[ | ] | | ] eqn:Hv;
    cbn [mbind outcome_bind negb D_ASSERT]; try done.
  intros _. by exists buffer, blk.
Qed.

Lemma Free_Ok ptr a a' :
  consistent a ->
  0 <= GetOffsetOf ptr < available_segments_per_buffer a ->
  Free ptr a = Ok a' ->
  consistent a' /\ total_segment_count a' = total_segment_count a - 1.
Proof.
  intros Hcons Hoff Hfree.
  destruct (Free_Ok_inv _ _ _ Hfree) as (buffer & blk & Hb & Hmem & Hvalid).
  apply RowIsValid_Ok in Hvalid as [_ Hclear].
  destruct (Free_live a _ _ _ _ Hcons Hb Hmem Hoff Hclear)
    as (mask' & _ & _ & _ & Heq & Hcons').
  destruct ptr as [b offset]. cbn [GetBufferId GetOffsetOf] in *.
  rewrite Hfree in Heq. injection Heq as ->. split; [ done | ]. done.
Qed.

(** ** Stores *)

Lemma Store_Ok ptr bytes a a' :
  consistent a -> Store ptr bytes a = Ok a' ->
  consistent a' /\ total_segment_count a' = total_segment_count a.
Proof.
  intros [[Hlay Hbufs Hfree] [Hids Htot]]. unfold Store, find_buffer.
  destruct (buffers a !! GetBufferId ptr) as [buffer | ] eqn:Hb;
    cbn [mbind outcome_bind]; [ | done ].
  unfold Get_block.
  destruct (memory buffer) as [blk | ] eqn:Hmem; cbn [of_option mbind outcome_bind]; [ | done ].
  destruct (_ && _); [ | done ]. intros [= <-].
  set (buffer' := set_payload _ _ _).
  assert (segment_count buffer' = segment_count buffer) as Hcount by done.
  split; [ | done ]. split; split; cbn.
  - done.
  - intros b0 buffer0 Hb0. destruct (decide (b0 = GetBufferId ptr)) as [-> | Hne].
    + rewrite lookup_insert_eq in Hb0. injection Hb0 as <-.
      destruct (Hbufs _ _ Hb) as (blk0 & Hmem0 & Hrest).
      rewrite Hmem in Hmem0. injection Hmem0 as <-.
      eexists. split; [ reflexivity | ]. exact Hrest.
    + rewrite lookup_insert_ne in Hb0 by done. by eapply Hbufs.
  - intros b0. rewrite Hfree. destruct (decide (b0 = GetBufferId ptr)) as [-> | Hne].
    + rewrite lookup_insert_eq. split.
      * intros (buffer0 & Hb0 & Hlt). rewrite Hb in Hb0. injection Hb0 as <-.
        exists buffer'. split; [ done | ]. by rewrite Hcount.
      * intros (buffer0 & [= <-] & Hlt). exists buffer. split; [ done | ].
        by rewrite <- Hcount.
    + by rewrite lookup_insert_ne.
  - intros x Hx. apply Hids.
    destruct (decide (x = GetBufferId ptr)) as [-> | Hxb]; [ by rewrite Hb | ].
    by rewrite lookup_insert_ne in Hx.
  - rewrite (sum_counts_insert _ _ _ _ Hb), Hcount. lia.
Qed.

(** ** Allocators reached by [New] and [Free] *)

Lemma FixedSizeAllocator_new_Ok s a :
  0 <= s -> FixedSizeAllocator_new s = Ok a ->
  1 <= s <= BLOCK_SIZE - 8 /\ consistent a /\ segment_size a = s /\
  total_segment_count a = 0 /\ buffers a = ∅ /\ buffers_with_free_space a = ∅.
Proof.
  intros Hs Hnew.
  assert (1 <= s <= BLOCK_SIZE - 8) as Hvalid.
  { revert Hnew. unfold FixedSizeAllocator_new.
    change (Word.sub BLOCK_SIZE sizeof_validity_t) with (BLOCK_SIZE - 8).
    destruct (Z.gtb_spec s (BLOCK_SIZE - 8)) as [ | Hle ]; [ done | ].
    destruct (Z.eq_dec s 0) as [-> | Hnz]; [ | lia ].
    destruct (Z.to_nat BLOCK_SIZE) as [ | fuel ] eqn:Hfuel.
    { unfold BLOCK_SIZE in Hfuel. lia. }
    cbn [ctor_loop cv_byte_count]. change (0 <? BLOCK_SIZE) with true. cbv iota.
    unfold ctor_body. cbn [cv_bitmask_count cv_available cv_byte_count].
    change (0 =? 0) with true. cbn [negb andb orb]. done. }
  split; [ done | ].
  destruct (FixedSizeAllocator_new_total s Hvalid)
    as (a0 & Heq & Hsize & Hbc & Hav & Hbc8 & Hoff & Htot & Hbufs & Hfree & Hvac).
  rewrite Hnew in Heq. injection Heq as <-.
  split; [ | done ].
  split; split.
  - done.
  - intros b buffer. rewrite Hbufs, lookup_empty. done.
  - intros b. rewrite Hfree, Hbufs. split.
    + intros Hin. by apply not_elem_of_empty in Hin.
    + intros (buffer & Hb & _). by rewrite lookup_empty in Hb.
  - intros b. rewrite Hbufs, lookup_empty. by intros [? ?].
  - by rewrite Htot, Hbufs, sum_counts_empty.
Qed.

Lemma reachable_consistent s a : reachable s a -> consistent a.
Proof.
  induction 1 as [ a Hs Hnew | begin a a' p _ IH Hb Hn | ptr a a' _ IH Hoff Hf
                 | ptr bytes a a' _ IH Hoff Hst ].
  - by apply (FixedSizeAllocator_new_Ok s a) in Hnew as (_ & ? & _); [ | lia ].
  - by destruct (New_Ok _ _ _ _ IH Hb Hn).
  - by destruct (Free_Ok _ _ _ IH Hoff Hf).
  - by destruct (Store_Ok _ _ _ _ IH Hst).
Qed.

(** Takes the first call of a sequence of calls that ends well. *)
Ltac step_bind :=
  match goal with
  | |- (?m ≫= _) = Ok _ -> _ =>
      destruct m; cbn [mbind outcome_bind]; [ | discriminate | discriminate ]
  | |- (let '(_, _) := ?p in _) = Ok _ -> _ => destruct p
  | |- (if ?c then _ else _) = Ok _ -> _ => destruct c; [ | discriminate ]
  end.

Lemma New_pointer_same_layout begin a a' p :
  New_pointer begin a = Ok (a', p) -> same_layout a a'.
Proof. unfold New_pointer. repeat step_bind. by intros [= <- _]. Qed.

Lemma New_same_layout begin a a' p : New begin a = Ok (a', p) -> same_layout a a'.
Proof.
  unfold New. destruct (New_add_buffer a) as [a1 | | ] eqn:Hadd;
    cbn [mbind outcome_bind]; try done.
  intros Hptr. apply New_pointer_same_layout in Hptr as (H1 & H2 & H3 & H4).
  assert (same_layout a a1) as (G1 & G2 & G3 & G4).
  { revert Hadd. unfold New_add_buffer.
    destruct (decide (buffers_with_free_space a = ∅)); [ | by intros [= <-] ].
    repeat step_bind. by intros [= <-]. }
  repeat split; congruence.
Qed.

Lemma Free_same_layout ptr a a' : Free ptr a = Ok a' -> same_layout a a'.
Proof. unfold Free. repeat step_bind. by intros [= <-]. Qed.

Lemma Store_same_layout ptr bytes a a' : Store ptr bytes a = Ok a' -> same_layout a a'.
Proof. unfold Store. repeat step_bind. by intros [= <-]. Qed.

Lemma reachable_layout s a a0 :
  reachable s a -> FixedSizeAllocator_new s = Ok a0 -> same_layout a0 a.
Proof.
  induction 1 as [ a Hs Hnew | begin a a' p _ IH Hb Hn | ptr a a' _ IH Hoff Hf
                 | ptr bytes a a' _ IH Hoff Hst ]; intros Hnew0.
  - rewrite Hnew in Hnew0. injection Hnew0 as <-. by repeat split.
  - destruct (IH Hnew0) as (? & ? & ? & ?).
    destruct (New_same_layout _ _ _ _ Hn) as (? & ? & ? & ?).
    repeat split; congruence.
  - destruct (IH Hnew0) as (? & ? & ? & ?).
    destruct (Free_same_layout _ _ _ Hf) as (? & ? & ? & ?).
    repeat split; congruence.
  - destruct (IH Hnew0) as (? & ? & ? & ?).
    destruct (Store_same_layout _ _ _ _ Hst) as (? & ? & ? & ?).
    repeat split; congruence.
Qed.

Lemma reachable_fresh s a :
  reachable s a -> exists a0, FixedSizeAllocator_new s = Ok a0.
Proof. induction 1; eauto. Qed.

Lemma begin_min_ok : begin_ok begin_min.
Proof.
  intros X HX. unfold begin_min.
  destruct (elements X) as [ | x l ] eqn:E.
  - apply elements_empty_inv in E. by apply leibniz_equiv in E.
  - assert (forall y, y ∈ x :: l -> y ∈ X) as Hsub.
    { intros y Hy. apply elem_of_elements. by rewrite E. }
    clear E. revert x Hsub. induction l as [ | z l IH ]; intros x Hsub; cbn [foldr].
    + apply Hsub. by left.
    + destruct (Z.min_spec z (foldr Z.min x l)) as [[_ ->] | [_ ->]].
      * apply Hsub. right. by left.
      * apply IH. intros y Hy. apply Hsub.
        apply elem_of_cons in Hy as [-> | Hy]; [ by left | right; by right ].
Qed.

(** ** Example allocators *)

(** [one16] is reached by one call of [New]. *)
Lemma reachable_one16 : reachable 16 one16.
Proof.
  apply (reach_New 16 begin_min fresh16 one16 (MkIndexPointer 0 0)).
  - apply reach_new; [ unfold Word.modulus; lia | vm_compute; reflexivity ].
  - apply begin_min_ok.
  - vm_compute; reflexivity.
Defined.

(** ** [Merge] *)

Lemma max_key_plus_one_spec (bufs : gmap Z FixedSizeBuffer) :
  0 <= max_key_plus_one bufs /\
  (forall k, is_Some (bufs !! k) -> k < max_key_plus_one bufs) /\
  (max_key_plus_one bufs = 0 \/ is_Some (bufs !! (max_key_plus_one bufs - 1))).
Proof.
  unfold max_key_plus_one.
  assert (forall l : list (Z * FixedSizeBuffer),
    let r := foldr (fun entry acc => Z.max (entry.1 + 1) acc) 0 l in
    0 <= r /\ (forall e, e ∈ l -> e.1 < r) /\
    (r = 0 \/ exists e, e ∈ l /\ r = e.1 + 1)) as Hfold.
  { induction l as [ | e l (IH0 & IH1 & IH2) ]; cbn [foldr].
    - split; [ lia | ]. split; [ | by left ]. intros e He. by apply elem_of_nil in He.
    - split; [ lia | ]. split.
      + intros e' He'. apply elem_of_cons in He' as [-> | He']; [ lia | ].
        specialize (IH1 e' He'). lia.
      + destruct (Z.max_spec (e.1 + 1) (foldr (fun entry acc => Z.max (entry.1 + 1) acc) 0 l))
          as [[Hlt ->] | [Hle ->]].
        * destruct IH2 as [IH2 | (e' & He' & IH2)]; [ left; done | ].
          right. exists e'. split; [ by right | done ].
        * right. exists e. split; [ by left | done ]. }
  destruct (Hfold (map_to_list bufs)) as (H0 & H1 & H2).
  split; [ done | ]. split.
  - intros k [v Hk]. apply (H1 (k, v)). by apply elem_of_map_to_list.
  - destruct H2 as [H2 | ([k v] & He & H2)]; [ by left | right ].
    apply elem_of_map_to_list in He. cbn [fst] in H2. rewrite H2.
    replace (k + 1 - 1) with k by lia. by exists v.
Qed.

(** Without wrap-around the loop of [GetUpperBoundBufferId] computes one
    more than the largest key. *)
Lemma GetUpperBoundBufferId_spec (bufs : gmap Z FixedSizeBuffer) :
  map_Forall (fun k _ => 0 <= k < Word.modulus - 1) bufs ->
  GetUpperBoundBufferId bufs = max_key_plus_one bufs.
Proof.
  intros Hkeys.
  destruct (max_key_plus_one_spec bufs) as (H0 & Hub & Hlub).
  unfold GetUpperBoundBufferId.
  assert (forall (l : list (Z * FixedSizeBuffer)) acc,
    (forall e, e ∈ l -> 0 <= e.1 < Word.modulus - 1) -> 0 <= acc ->
    let r := foldl (fun upper_bound_id entry =>
                 if entry.1 >=? upper_bound_id then Word.add entry.1 1 else upper_bound_id)
               acc l in
    acc <= r /\ (forall e, e ∈ l -> e.1 < r) /\
    (r = acc \/ exists e, e ∈ l /\ r = e.1 + 1)) as Hfold.
  { induction l as [ | e l IH ]; intros acc Hl Hacc; cbn [foldl].
    - split; [ lia | ]. split; [ | by left ]. intros e He. by apply elem_of_nil in He.
    - pose proof (Hl e ltac:(by left)) as He.
      assert (Word.add e.1 1 = e.1 + 1) as Hadd.
      { apply wrap_small. unfold Word.modulus in *. lia. }
      rewrite Hadd.
      destruct (Z.geb_spec e.1 acc) as [Hge | Hlt].
      + destruct (IH (e.1 + 1)) as (I0 & I1 & I2); [ intros; apply Hl; by right | lia | ].
        split; [ lia | ]. split.
        * intros e' He'. apply elem_of_cons in He' as [-> | He']; [ lia | by apply I1 ].
        * right. destruct I2 as [-> | (e' & He' & ->)].
          -- exists e. split; [ by left | done ].
          -- exists e'. split; [ by right | done ].
      + destruct (IH acc) as (I0 & I1 & I2); [ intros; apply Hl; by right | lia | ].
        split; [ lia | ]. split.
        * intros e' He'. apply elem_of_cons in He' as [-> | He']; [ lia | by apply I1 ].
        * destruct I2 as [-> | (e' & He' & ->)]; [ by left | right ].
          exists e'. split; [ by right | done ]. }
  destruct (Hfold (map_to_list bufs) 0) as (I0 & I1 & I2); [ | lia | ].
  { intros [k v] He. apply elem_of_map_to_list in He. by apply (Hkeys k v). }
  set (r := foldl _ 0 (map_to_list bufs)) in *.
  assert (forall k, is_Some (bufs !! k) -> k < r) as Hr.
  { intros k [v Hk]. apply (I1 (k, v)). by apply elem_of_map_to_list. }
  assert (r = 0 \/ is_Some (bufs !! (r - 1))) as Hr'.
  { destruct I2 as [ | ([k v] & He & ->) ]; [ by left | right ].
    apply elem_of_map_to_list in He. cbn [fst].
    replace (k + 1 - 1) with k by lia. by exists v. }
  destruct Hlub as [Hz | Hs]; destruct Hr' as [Hz' | Hs'].
  - lia.
  - specialize (Hub _ Hs'). lia.
  - specialize (Hr _ Hs). lia.
  - specialize (Hub _ Hs'). specialize (Hr _ Hs). lia.
Qed.

(** The buffers of [other] go to their shifted keys. *)
Lemma Merge_buffers_fold (upper : Z) (l : list (Z * FixedSizeBuffer)) :
  forall m : gmap Z FixedSizeBuffer,
  NoDup l.*1 ->
  (forall e, e ∈ l -> 0 <= e.1 /\ e.1 + upper < Word.modulus) -> 0 <= upper ->
  (forall e, e ∈ l -> m !! (e.1 + upper) = None) ->
  forall k,
    foldl (fun m entry => map_insert_new (Word.add entry.1 upper) entry.2 m) m l !! k =
    match (list_to_map l : gmap Z FixedSizeBuffer) !! (k - upper) with
    | Some buffer => Some buffer
    | None => m !! k
    end.
Proof.
  induction l as [ | [id buffer] l IH ]; intros m Hnd Hl Hup Hfree k; cbn [foldl].
  - rewrite list_to_map_nil. by rewrite lookup_empty.
  - cbn [fmap list_fmap fst] in Hnd. apply NoDup_cons in Hnd as [Hnotin Hnd].
    pose proof (Hl (id, buffer) ltac:(by left)) as Hid. cbn [fst] in Hid.
    assert (Word.add id upper = id + upper) as Hadd.
    { apply wrap_small. lia. }
    cbn [fst snd]. rewrite Hadd. unfold map_insert_new at 2.
    pose proof (Hfree (id, buffer) ltac:(by left)) as Hf0. cbn [fst] in Hf0.
    rewrite Hf0.
    rewrite IH; [ | done | intros; apply Hl; by right | done | ].
    + rewrite list_to_map_cons.
      destruct (decide (k - upper = id)) as [Heq | Hne].
      * rewrite Heq. rewrite (not_elem_of_list_to_map_1 _ _ Hnotin).
        rewrite lookup_insert_eq. replace k with (id + upper) by lia.
        by rewrite lookup_insert_eq.
      * rewrite (lookup_insert_ne _ id) by done.
        destruct (list_to_map l !! (k - upper)); [ done | ].
        rewrite lookup_insert_ne by lia. done.
    + intros e He. rewrite lookup_insert_ne.
      * apply Hfree. by right.
      * intros Heq. apply Hnotin. apply list_elem_of_fmap. exists e.
        split; [ lia | done ].
Qed.

(** The ids of [other] with free space go to their shifted values. *)
Lemma Merge_free_fold (upper : Z) (l : list Z) :
  forall X : gset Z,
  (forall id, id ∈ l -> 0 <= id /\ id + upper < Word.modulus) -> 0 <= upper ->
  forall k,
    k ∈ foldl (fun X buffer_id => X ∪ {[Word.add buffer_id upper]}) X l <->
    k ∈ X \/ exists id, id ∈ l /\ k = id + upper.
Proof.
  induction l as [ | id l IH ]; intros X Hl Hup k; cbn [foldl].
  - split; [ by left | ]. intros [ | (id & Hid & _) ]; [ done | ].
    by apply elem_of_nil in Hid.
  - pose proof (Hl id ltac:(by left)) as Hid.
    assert (Word.add id upper = id + upper) as -> by (apply wrap_small; lia).
    rewrite IH by (done || intros; apply Hl; by right).
    rewrite elem_of_union, elem_of_singleton. split.
    + intros [[ | ->] | (id' & Hid' & ->)].
      * by left.
      * right. exists id. split; [ by left | done ].
      * right. exists id'. split; [ by right | done ].
    + intros [ | (id' & Hid' & ->)]; [ left; by left | ].
      apply elem_of_cons in Hid' as [-> | Hid'].
      * left. by right.
      * right. by exists id'.
Qed.

(** [Merge] leaves [other] with the count it had. *)
Lemma Merge_other (a other a' other' : FixedSizeAllocator) :
  Merge a other = Ok (a', other') ->
  other' = with_state other (total_segment_count other) ∅ ∅.
Proof.
  unfold Merge. destruct (segment_size a =? segment_size other);
    cbn [D_ASSERT mbind outcome_bind]; [ | done ].
  by intros [= _ <-].
Qed.

(** So [other] is not left empty when it held a segment, while [Reset]
    leaves every allocator empty. *)
Lemma Merge_other_not_empty (a other a' other' : FixedSizeAllocator) :
  Merge a other = Ok (a', other') -> total_segment_count other <> 0 ->
  ~ allocator_empty other' /\ ~ Merge_as_stated a other a' other'.
Proof.
  intros Hmerge Hne. rewrite (Merge_other _ _ _ _ Hmerge).
  assert (~ allocator_empty (with_state other (total_segment_count other) ∅ ∅)) as Hnot.
  { intros (_ & _ & Htotal). cbn in Htotal. done. }
  split; [ done | ]. intros [_ Hempty]. done.
Qed.

Lemma Reset_empty (a : FixedSizeAllocator) : allocator_empty (Reset a).
Proof. done. Qed.

(** For allocators of equal segment size whose ids are 64-bit values,
    those of [other] staying so when shifted by [upper]: [Merge] does to
    [self] what C7 says, inserts nothing else, and leaves [other] without
    buffers and without ids with free space. *)
Lemma Merge_shifts (a other : FixedSizeAllocator) :
  segment_size a = segment_size other ->
  map_Forall (fun k _ => 0 <= k < Word.modulus - 1) (buffers a) ->
  ids_fit (max_key_plus_one (buffers a)) other ->
  exists a' other',
    Merge a other = Ok (a', other') /\
    Merge_moved a other a' /\
    (forall k buffer, buffers a' !! k = Some buffer ->
       buffers a !! k = Some buffer \/
       exists id, k = id + max_key_plus_one (buffers a) /\
                  buffers other !! id = Some buffer) /\
    (forall k, k ∈ buffers_with_free_space a' ->
       k ∈ buffers_with_free_space a \/
       exists id, id ∈ buffers_with_free_space other /\
                  k = id + max_key_plus_one (buffers a)) /\
    buffers_with_free_space a ⊆ buffers_with_free_space a' /\
    buffers other' = ∅ /\ buffers_with_free_space other' = ∅.
Proof.
  intros Hsize Hkeys [Hfit_bufs Hfit_free].
  destruct (max_key_plus_one_spec (buffers a)) as (Hup0 & Hub & _).
  unfold Merge. rewrite Hsize, Z.eqb_refl. cbn [D_ASSERT mbind outcome_bind].
  rewrite (GetUpperBoundBufferId_spec _ Hkeys).
  set (upper := max_key_plus_one (buffers a)) in *.
  eexists _, _. split; [ reflexivity | ].
  assert (forall k,
    foldl (fun m entry => map_insert_new (Word.add entry.1 upper) entry.2 m)
      (buffers a) (map_to_list (buffers other)) !! k =
    match buffers other !! (k - upper) with
    | Some buffer => Some buffer
    | None => buffers a !! k
    end) as Hbufs.
  { intros k. rewrite Merge_buffers_fold.
    - by rewrite list_to_map_to_list.
    - apply NoDup_fst_map_to_list.
    - intros [id buffer] He. apply elem_of_map_to_list in He.
      apply (Hfit_bufs id buffer He).
    - done.
    - intros [id buffer] He. apply elem_of_map_to_list in He.
      destruct (Hfit_bufs id buffer He) as [Hid _]. cbn [fst] in *.
      destruct (buffers a !! (id + upper)) as [b' | ] eqn:E; [ | done ].
      specialize (Hub (id + upper) ltac:(by rewrite E)). lia. }
  assert (forall k,
    k ∈ foldl (fun X buffer_id => X ∪ {[Word.add buffer_id upper]})
          (buffers_with_free_space a) (elements (buffers_with_free_space other)) <->
    k ∈ buffers_with_free_space a \/
    exists id, id ∈ buffers_with_free_space other /\ k = id + upper) as Hfree.
  { intros k. rewrite Merge_free_fold.
    - split; (intros [ | (id & Hid & ->) ]; [ by left | right; exists id ]);
        (split; [ by apply elem_of_elements | done ]).
    - intros id Hid. apply elem_of_elements in Hid. by apply Hfit_free.
    - done. }
  split; [ | split; [ | split; [ | split; [ | done ] ] ] ].
  - unfold Merge_moved. fold upper. cbn.
    split; [ | split; [ | split; [ done | ] ] ].
    + intros id buffer Hid. rewrite Hbufs.
      replace (id + upper - upper) with id by lia. by rewrite Hid.
    + intros id Hid. apply Hfree. right. by exists id.
    + intros k buffer Hk. rewrite Hbufs.
      destruct (buffers other !! (k - upper)) as [b' | ] eqn:E; [ | done ].
      destruct (Hfit_bufs _ _ E) as [Hnn _].
      specialize (Hub k ltac:(by rewrite Hk)). lia.
  - cbn. intros k buffer. rewrite Hbufs.
    destruct (buffers other !! (k - upper)) as [b' | ] eqn:E.
    + intros [= ->]. right. exists (k - upper). split; [ lia | done ].
    + by left.
  - cbn. intros k Hk. by apply Hfree.
  - cbn. intros k Hk. apply Hfree. by left.
Qed.

(** Consistent allocators have ids below [2^32]: the shifted ids fit. *)
Lemma Merge_moved_consistent (a other : FixedSizeAllocator) :
  consistent a -> consistent other -> segment_size a = segment_size other ->
  exists a',
    Merge a other = Ok (a', with_state other (total_segment_count other) ∅ ∅) /\
    Merge_moved a other a'.
Proof.
  intros [_ [Hids _]] [[_ _ Hfree] [Hids' _]] Hsize.
  destruct (max_key_plus_one_spec (buffers a)) as (Hup0 & _ & Hlub).
  assert (max_key_plus_one (buffers a) <= 2 ^ 32) as Hup.
  { destruct Hlub as [-> | Hsome]; [ lia | ]. apply Hids in Hsome. lia. }
  destruct (Merge_shifts a other Hsize) as (a' & other' & Hmerge & Hmoved & _).
  - intros k buffer Hk. specialize (Hids k ltac:(by rewrite Hk)).
    unfold Word.modulus. lia.
  - split.
    + intros id buffer Hid. specialize (Hids' id ltac:(by rewrite Hid)).
      cbn. unfold Word.modulus. lia.
    + intros id Hid. apply Hfree in Hid as (buffer & Hid & _).
      specialize (Hids' id ltac:(by rewrite Hid)).
      cbn. unfold Word.modulus. lia.
  - exists a'. split; [ | done ].
    by rewrite <- (Merge_other _ _ _ _ Hmerge).
Qed.

(** ** What [GetMaxOffset] returns *)

Lemma testbit_shl_MAX r k :
  0 <= r < 64 -> 0 <= k < 64 ->
  Z.testbit (Word.shl Word.MAX_ENTRY r) k = (r <=? k).
Proof.
  intros Hr Hk. unfold Word.shl, Word.wrap, Word.modulus.
  rewrite Z.mod_pow2_bits_low by lia.
  destruct (Z.leb_spec r k) as [Hle | Hlt].
  - rewrite Z.shiftl_spec by lia. apply testbit_MAX_ENTRY. lia.
  - apply Z.shiftl_spec_low. lia.
Qed.

Lemma word_ok_shl x r : Word.ok (Word.shl x r).
Proof. unfold Word.shl, Word.wrap, Word.ok. apply Z.mod_pos_bound. by unfold Word.modulus. Qed.

Lemma word_ok_lor x y : Word.ok x -> Word.ok y -> Word.ok (Z.lor x y).
Proof.
  rewrite !word_ok_bits. intros [Hx Hxh] [Hy Hyh]. split.
  - by apply Z.lor_nonneg.
  - intros k Hk. by rewrite Z.lor_spec, Hxh, Hyh.
Qed.

Lemma word_not_bits x k :
  Word.ok x -> 0 <= k -> Z.testbit (Word.not x) k = (k <? 64) && negb (Z.testbit x k).
Proof.
  intros Hx Hk. unfold Word.not. rewrite Z.lxor_spec.
  apply word_ok_bits in Hx as [_ Hhigh].
  destruct (Z.ltb_spec k 64) as [Hlt | Hge].
  - rewrite testbit_MAX_ENTRY by lia. by destruct (Z.testbit x k).
  - rewrite Hhigh by done. change Word.MAX_ENTRY with (Z.ones 64).
    rewrite Z.ones_spec_high by lia. done.
Qed.

Lemma word_ok_not x : Word.ok x -> Word.ok (Word.not x).
Proof.
  intros Hx. apply word_ok_bits. split.
  - unfold Word.not. apply Z.lxor_nonneg.
    destruct Hx as [Hx _]. unfold Word.MAX_ENTRY. lia.
  - intros k Hk. rewrite word_not_bits by (done || lia).
    destruct (Z.ltb_spec k 64); [ lia | done ].
Qed.

Lemma word_not_zero x : Word.ok x -> Word.not x = 0 -> x = Word.MAX_ENTRY.
Proof. intros _ H. unfold Word.not in H. by apply Z.lxor_eq in H. Qed.

Lemma word_MAX_bits x :
  x = Word.MAX_ENTRY -> forall k, 0 <= k < 64 -> Z.testbit x k = true.
Proof. intros -> k Hk. by apply testbit_MAX_ENTRY. Qed.

Section GetMaxOffset.

Variable a : FixedSizeAllocator.
Variable mask : list Z.

Hypothesis bc_pos : 1 <= bitmask_count a.
Hypothesis bc_small : 64 * bitmask_count a < 2 ^ 32.
Hypothesis mask_length : Z.of_nat (length mask) = bitmask_count a.
Hypothesis mask_words : Forall Word.ok mask.

Lemma scanned_entry_bits (i : nat) entry k :
  mask !! i = Some entry -> 0 <= k < 64 ->
  Z.testbit (scanned_entry a i entry) k = scanned_bit a mask (64 * Z.of_nat i + k).
Proof.
  intros Hi Hk. unfold scanned_bit, forced_bit, mask_bit, scanned_entry.
  change (Word.mul sizeof_validity_t 8) with 64.
  replace ((64 * Z.of_nat i + k) / 64) with (Z.of_nat i).
  2:{ apply (Z.div_unique _ _ _ k); lia. }
  replace ((64 * Z.of_nat i + k) mod 64) with k.
  2:{ apply (Z.mod_unique _ _ (Z.of_nat i) k); lia. }
  rewrite Nat2Z.id, Hi.
  pose proof (Z.mod_pos_bound (available_segments_per_buffer a) 64 ltac:(lia)) as Hr.
  destruct (Z.eqb_spec (Z.of_nat (S i)) (bitmask_count a)) as [Heq | Hne].
  - destruct (Z.eqb_spec (Z.of_nat i) (bitmask_count a - 1)); [ | lia ].
    rewrite Z.lor_spec, testbit_shl_MAX by lia. done.
  - destruct (Z.eqb_spec (Z.of_nat i) (bitmask_count a - 1)); [ lia | ].
    cbn [andb]. by rewrite orb_false_r.
Qed.

Lemma scanned_entry_ok (i : nat) entry : Word.ok entry -> Word.ok (scanned_entry a i entry).
Proof.
  intros He. unfold scanned_entry.
  destruct (_ =? _); [ | done ]. apply word_ok_lor; [ done | apply word_ok_shl ].
Qed.

(** The scan from word [i] down either finds every scanned bit below
    [64 * i] set and throws, or returns one more than the largest clear
    one. *)
Lemma GetMaxOffset_scan_spec (i : nat) :
  Z.of_nat i <= bitmask_count a ->
  (GetMaxOffset_scan a mask i (64 * Z.of_nat i) = InternalException empty_buffer_msg /\
   forall j, 0 <= j < 64 * Z.of_nat i -> scanned_bit a mask j = true) \/
  (exists J, GetMaxOffset_scan a mask i (64 * Z.of_nat i) = Ok (J + 1) /\
     0 <= J < 64 * Z.of_nat i /\ scanned_bit a mask J = false /\
     forall k, J < k < 64 * Z.of_nat i -> scanned_bit a mask k = true).
Proof.
  induction i as [ | i IH ]; intros Hi; cbn [GetMaxOffset_scan].
  - left. split; [ done | ]. intros j Hj. lia.
  - destruct (lookup_lt_is_Some_2 mask i ltac:(lia)) as [entry Hentry].
    unfold ValidityMask.GetEntry.
    destruct (Z.ltb_spec (Z.of_nat i) 0); [ lia | ].
    rewrite Nat2Z.id, Hentry. cbn [of_option mbind outcome_bind].
    fold (scanned_entry a i entry).
    assert (Word.ok entry) as Hok.
    { rewrite Forall_lookup in mask_words. by apply (mask_words i). }
    pose proof (scanned_entry_ok i entry Hok) as Hsok.
    pose proof (scanned_entry_bits i entry) as Hbits.
    set (e := scanned_entry a i entry) in *.
    assert (Word.u32 (64 * Z.of_nat (S i) - sizeof_validity_t * 8) = 64 * Z.of_nat i) as Hnext.
    { unfold Word.u32. change (sizeof_validity_t * 8) with 64.
      rewrite Z.mod_small; lia. }
    destruct (Z.eqb_spec e Word.MAX_ENTRY) as [Hmax | Hnmax].
    + (* the word has no clear bit *)
      rewrite Hnext.
      assert (forall j, 64 * Z.of_nat i <= j < 64 * Z.of_nat (S i) ->
                scanned_bit a mask j = true) as Hword.
      { intros j Hj. replace j with (64 * Z.of_nat i + (j - 64 * Z.of_nat i)) by lia.
        rewrite <- Hbits by (done || lia). apply word_MAX_bits; [ done | lia ]. }
      destruct (IH ltac:(lia)) as [[Hthrow Hall] | (J & Hret & HJ & Hclear & Habove)].
      * left. split; [ done | ]. intros j Hj.
        destruct (Z.lt_ge_cases j (64 * Z.of_nat i)); [ apply Hall | apply Hword ]; lia.
      * right. exists J. split; [ done | ]. split; [ lia | ]. split; [ done | ].
        intros k Hk.
        destruct (Z.lt_ge_cases k (64 * Z.of_nat i)); [ apply Habove | apply Hword ]; lia.
    + (* the leftmost clear bit of the word *)
      right.
      assert (0 < Word.not e < 2 ^ 64) as Hinv.
      { pose proof (word_ok_not e Hsok) as [H0 H1]. unfold Word.modulus in H1.
        split; [ | done ].
        destruct (Z.eq_dec (Word.not e) 0) as [Hz | ]; [ | lia ].
        by apply word_not_zero in Hz. }
      destruct (leftmost_ladder_spec BASE (Word.not e) BASE_ok Hinv)
        as (Hone & Hpos & (_ & Hset & Hhigh)).
      destruct (leftmost_ladder BASE (Word.not e)) as [e' p]. cbn [fst snd] in *.
      subst e'. cbn [D_ASSERT negb Z.eqb mbind outcome_bind].
      assert (Word.u32 (64 * Z.of_nat (S i) -
                Word.sub (Word.mul sizeof_validity_t 8) p) = 64 * Z.of_nat i + p) as Hmo.
      { change (Word.mul sizeof_validity_t 8) with 64.
        unfold Word.sub, Word.wrap, Word.u32, Word.modulus.
        rewrite (Z.mod_small (64 - p)) by lia. rewrite Z.mod_small; lia. }
      rewrite Hmo.
      rewrite word_not_bits in Hset by (done || lia).
      apply andb_prop in Hset as [_ Hclear]. apply negb_true_iff in Hclear.
      rewrite Hbits in Hclear by (done || lia).
      assert (mask_bit mask (64 * Z.of_nat i + p) = false) as Hreal.
      { unfold scanned_bit in Hclear. by apply orb_false_elim in Hclear as [? _]. }
      rewrite RowIsValid_in_range by lia. rewrite Hreal.
      cbn [D_ASSERT negb mbind outcome_bind].
      assert (Word.u32 (64 * Z.of_nat i + p + 1) = 64 * Z.of_nat i + p + 1) as ->.
      { unfold Word.u32. apply Z.mod_small. lia. }
      exists (64 * Z.of_nat i + p). split; [ done | ]. split; [ lia | ].
      split; [ done | ].
      intros k Hk. replace k with (64 * Z.of_nat i + (k - 64 * Z.of_nat i)) by lia.
      rewrite <- Hbits by (done || lia).
      specialize (Hhigh (k - 64 * Z.of_nat i) ltac:(lia)).
      rewrite word_not_bits in Hhigh by (done || lia).
      destruct (Z.ltb_spec (k - 64 * Z.of_nat i) 64); [ | lia ].
      cbn [andb] in Hhigh. by apply negb_false_iff in Hhigh.
Qed.

Lemma GetMaxOffset_unfold :
  GetMaxOffset a mask =
    GetMaxOffset_scan a mask (Z.to_nat (bitmask_count a))
      (64 * Z.of_nat (Z.to_nat (bitmask_count a))).
Proof.
  unfold GetMaxOffset.
  destruct (Z.gtb_spec (bitmask_count a) 0); [ | lia ].
  cbn [D_ASSERT mbind outcome_bind]. f_equal.
  change sizeof_validity_t with 8. unfold Word.mul, Word.wrap, Word.u32, Word.modulus.
  rewrite Z2Nat.id by lia.
  rewrite (Z.mod_small (bitmask_count a * 8)) by lia.
  rewrite (Z.mod_small (bitmask_count a * 8 * 8)) by lia.
  rewrite Z.mod_small; lia.
Qed.

(** A used slot is never a forced bit. *)
Lemma used_slot_scanned j :
  available_segments_per_buffer a < 64 * bitmask_count a ->
  0 <= j < available_segments_per_buffer a ->
  scanned_bit a mask j = mask_bit mask j.
Proof.
  intros Hav Hj. unfold scanned_bit, forced_bit.
  destruct (Z.eqb_spec (j / 64) (bitmask_count a - 1)) as [Hlast | ];
    [ | by rewrite orb_false_r ].
  pose proof (Z.div_mod j 64 ltac:(lia)) as Hdj.
  pose proof (Z.mod_pos_bound j 64 ltac:(lia)) as Hmj.
  assert (available_segments_per_buffer a mod 64 =
          available_segments_per_buffer a - 64 * (bitmask_count a - 1)) as Hr.
  { symmetry. apply (Z.mod_unique _ _ (bitmask_count a - 1)); lia. }
  destruct (Z.leb_spec (available_segments_per_buffer a mod 64) (j mod 64)); [ lia | ].
  by rewrite orb_false_r.
Qed.

(** [GetMaxOffset] succeeds on a buffer with a used slot, and its result
    lies above every used slot. *)
Lemma GetMaxOffset_covers j0 :
  available_segments_per_buffer a < 64 * bitmask_count a ->
  0 <= j0 < available_segments_per_buffer a -> mask_bit mask j0 = false ->
  exists m, GetMaxOffset a mask = Ok m /\ 0 < m <= 64 * bitmask_count a /\
    forall j, 0 <= j < available_segments_per_buffer a ->
              mask_bit mask j = false -> j < m.
Proof.
  intros Hav Hj0 Hclear0. rewrite GetMaxOffset_unfold.
  destruct (GetMaxOffset_scan_spec (Z.to_nat (bitmask_count a)) ltac:(lia))
    as [[_ Hall] | (J & -> & HJ & HclearJ & Habove)].
  - specialize (Hall j0 ltac:(lia)). rewrite used_slot_scanned in Hall by done. congruence.
  - exists (J + 1). split; [ done | ]. split; [ lia | ].
    intros j Hj Hclear.
    destruct (Z.lt_ge_cases j (J + 1)) as [ | Hge ]; [ done | exfalso ].
    specialize (Habove j ltac:(lia)). rewrite used_slot_scanned in Habove by done.
    congruence.
Qed.

(** When the bitmap has no word beyond the one that holds bit
    [avail - 1] or starts at bit [avail], [GetMaxOffset] is exact. *)
Lemma scanned_bit_tight j :
  64 * (bitmask_count a - 1) <= available_segments_per_buffer a < 64 * bitmask_count a ->
  (forall k, available_segments_per_buffer a <= k -> mask_bit mask k = false) ->
  0 <= j < 64 * bitmask_count a ->
  scanned_bit a mask j =
    if j <? available_segments_per_buffer a then mask_bit mask j else true.
Proof.
  intros Hav Hhigh Hj.
  destruct (Z.ltb_spec j (available_segments_per_buffer a)) as [Hlt | Hge].
  - apply used_slot_scanned; lia.
  - unfold scanned_bit, forced_bit. rewrite Hhigh by done. cbn [orb].
    pose proof (Z.div_mod j 64 ltac:(lia)) as Hdj.
    pose proof (Z.mod_pos_bound j 64 ltac:(lia)) as Hmj.
    assert (j / 64 = bitmask_count a - 1) as Hq.
    { symmetry. apply (Z.div_unique _ _ _ (j - 64 * (bitmask_count a - 1))); lia. }
    assert (available_segments_per_buffer a mod 64 =
            available_segments_per_buffer a - 64 * (bitmask_count a - 1)) as Hr.
    { symmetry. apply (Z.mod_unique _ _ (bitmask_count a - 1)); lia. }
    rewrite Hq, Z.eqb_refl. cbn [andb].
    destruct (Z.leb_spec (available_segments_per_buffer a mod 64) (j mod 64)); [ done | lia ].
Qed.

(** Without a spare bitmap word, [GetMaxOffset] returns one more than the
    largest used slot and throws when no slot is used. *)
Lemma GetMaxOffset_exact :
  64 * (bitmask_count a - 1) <= available_segments_per_buffer a < 64 * bitmask_count a ->
  (forall k, available_segments_per_buffer a <= k -> mask_bit mask k = false) ->
  (forall j, largest_used_slot mask (available_segments_per_buffer a) j ->
             GetMaxOffset a mask = Ok (j + 1)) /\
  (no_used_slot mask (available_segments_per_buffer a) ->
   GetMaxOffset a mask = InternalException empty_buffer_msg).
Proof.
  intros Hav Hhigh. rewrite GetMaxOffset_unfold.
  pose proof (scanned_bit_tight) as Htight.
  set (n := Z.to_nat (bitmask_count a)).
  assert (Z.of_nat n = bitmask_count a) as Hn by (unfold n; lia).
  destruct (GetMaxOffset_scan_spec n ltac:(lia))
    as [[Hthrow Hall] | (J & Hret & HJ & HclearJ & Habove)]; rewrite Hn in *.
  - split; [ | done ]. intros j (Hj & Hclear & _).
    specialize (Hall j ltac:(lia)). rewrite Htight in Hall by (done || lia).
    destruct (Z.ltb_spec j (available_segments_per_buffer a)); [ congruence | lia ].
  - rewrite Htight in HclearJ by done.
    destruct (Z.ltb_spec J (available_segments_per_buffer a)) as [HJa | ]; [ | done ].
    split.
    + intros j (Hj & Hclear & Hjabove).
      assert (j = J) as ->; [ | done ].
      destruct (Z.lt_trichotomy j J) as [Hlt | [ | Hgt]]; [ | done | ].
      * specialize (Hjabove J ltac:(lia)). congruence.
      * specialize (Habove j ltac:(lia)). rewrite Htight in Habove by (done || lia).
        destruct (Z.ltb_spec j (available_segments_per_buffer a)); [ congruence | lia ].
    + intros Hnone. specialize (Hnone J ltac:(lia)). congruence.
Qed.

(** In a tight layout the result is at most [avail]. *)
Lemma GetMaxOffset_tight (j0 : Z) :
  64 * (bitmask_count a - 1) <= available_segments_per_buffer a < 64 * bitmask_count a ->
  (forall k, available_segments_per_buffer a <= k -> mask_bit mask k = false) ->
  0 <= j0 < available_segments_per_buffer a -> mask_bit mask j0 = false ->
  exists m, GetMaxOffset a mask = Ok m /\
    0 < m <= available_segments_per_buffer a /\
    forall j, 0 <= j < available_segments_per_buffer a ->
              mask_bit mask j = false -> j < m.
Proof using All.
  intros Hav Hhigh Hj0 Hclear0.
  destruct (GetMaxOffset_covers j0 ltac:(lia) Hj0 Hclear0) as (m & Hm & Hrange & Hcov).
  exists m. split; [ done | ]. split; [ | done ]. split; [ lia | ].
  rewrite GetMaxOffset_unfold in Hm.
  destruct (GetMaxOffset_scan_spec (Z.to_nat (bitmask_count a)) ltac:(lia))
    as [[Hthrow _] | (J & Hret & HJ & HclearJ & _)]; [ congruence | ].
  rewrite Hret in Hm. injection Hm as <-.
  rewrite Z2Nat.id in HJ by lia.
  rewrite (scanned_bit_tight J Hav Hhigh HJ) in HclearJ.
  destruct (Z.ltb_spec J (available_segments_per_buffer a)); [ lia | done ].
Qed.

End GetMaxOffset.

(** ** Serialize and Deserialize *)

Lemma count_clear_pos mask n :
  1 <= count_clear mask n -> exists j, 0 <= j < Z.of_nat n /\ mask_bit mask j = false.
Proof.
  induction n as [ | n IH ]; cbn [count_clear]; intros H; [ lia | ].
  destruct (mask_bit mask (Z.of_nat n)) eqn:E.
  - destruct IH as (j & Hj & Hc); [ lia | ]. exists j. split; [ lia | done ].
  - exists (Z.of_nat n). split; [ lia | done ].
Qed.

Section Serialize.

Variable a : FixedSizeAllocator.
Hypothesis layout : layout_ok a.
Hypothesis tight : layout_tight a.
Hypothesis offset_eq : bitmask_offset a = 8 * bitmask_count a.
Hypothesis size_nonneg : 0 <= segment_size a.

Lemma Serialize_buffer_spec st bufs id buffer :
  buffer_ok (bitmask_count a) (available_segments_per_buffer a) buffer ->
  1 <= segment_count buffer ->
  exists st' buffer',
    Serialize_buffer a (st, bufs) (id, buffer) = Ok (st', <[id := buffer']> bufs) /\
    metadata st' = metadata st /\
    (exists block, blocks st' = blocks st ++ [block]) /\
    persisted a st' buffer buffer'.
Proof using All.
  intros (blk & Hmem & Hlen & Hwords & Hhigh & Hcount) Hone.
  destruct layout as (Hbc & Hav & Hbc8).
  destruct tight as (Htight & Hfit). pose proof offset_eq as Hoff.
  rewrite Hcount in Hone. unfold used_slots in Hone.
  apply count_clear_pos in Hone as (j0 & Hj0 & Hclear0).
  rewrite Z2Nat.id in Hj0 by lia.
  assert (64 * bitmask_count a < 2 ^ 32) as Hsmall by (unfold BLOCK_SIZE in Hbc8; lia).
  destruct (GetMaxOffset_tight a (bitmap blk) Hbc Hsmall Hlen Hwords j0
              ltac:(lia) Hhigh Hj0 Hclear0) as (m & Hm & Hrange & Hcov).
  unfold Serialize_buffer. cbn [fst snd]. unfold Get_block. rewrite Hmem.
  cbn [of_option mbind outcome_bind]. rewrite Hm. cbn [mbind outcome_bind].
  assert (Word.add (Word.mul m (segment_size a)) (bitmask_offset a) =
          m * segment_size a + bitmask_offset a) as ->.
  { unfold Word.add, Word.mul. unfold BLOCK_SIZE in *.
    rewrite (wrap_small (m * segment_size a)) by (unfold Word.modulus; nia).
    apply wrap_small. unfold Word.modulus. nia. }
  unfold FixedSizeBuffer_Serialize, Get_block. rewrite Hmem.
  cbn [of_option mbind outcome_bind].
  destruct (Z.leb_spec (m * segment_size a + bitmask_offset a) BLOCK_SIZE) as [ | Hgt ];
    [ | nia ].
  cbn [mbind outcome_bind]. eexists _, _. split; [ reflexivity | ].
  split; [ done | ]. split; [ by eexists | ].
  exists blk, m, (length (blocks st)). split; [ done | ]. split; [ done | ].
  split; [ done | ]. split; [ by rewrite Hmem | ].
  cbn [blocks]. rewrite lookup_app_r by lia. by rewrite Nat.sub_diag.
Qed.

Lemma persisted_later st st' buffer buffer' :
  (exists extra, blocks st' = blocks st ++ extra) ->
  persisted a st buffer buffer' -> persisted a st' buffer buffer'.
Proof.
  intros [extra Hext] (blk & m & pointer & Hmem & Hm & Hcov & Hb' & Hblock).
  exists blk, m, pointer.
  split; [ done | ]. split; [ done | ]. split; [ done | ]. split; [ done | ].
  rewrite Hext. by apply lookup_app_l_Some.
Qed.

Lemma Serialize_buffers_spec (l : list (Z * FixedSizeBuffer)) :
  forall st bufs,
  NoDup l.*1 ->
  (forall e, e ∈ l ->
     buffer_ok (bitmask_count a) (available_segments_per_buffer a) e.2 /\
     1 <= segment_count e.2) ->
  exists st' bufs',
    Serialize_buffers a l (st, bufs) = Ok (st', bufs') /\
    metadata st' = metadata st /\
    (exists extra, blocks st' = blocks st ++ extra) /\
    (forall k, k ∉ l.*1 -> bufs' !! k = bufs !! k) /\
    (forall k buffer, (k, buffer) ∈ l ->
       exists buffer', bufs' !! k = Some buffer' /\ persisted a st' buffer buffer').
Proof using All.
  induction l as [ | [id buffer] l IH ]; intros st bufs Hnd Hl; cbn [Serialize_buffers].
  - exists st, bufs. split; [ done | ]. split; [ done | ].
    split; [ exists []; by rewrite app_nil_r | ]. split; [ done | ].
    intros k buffer Hin. by apply elem_of_nil in Hin.
  - cbn [fmap list_fmap fst] in Hnd. apply NoDup_cons in Hnd as [Hnotin Hnd].
    destruct (Hl (id, buffer) ltac:(by left)) as [Hok Hone]. cbn [snd] in *.
    destruct (Serialize_buffer_spec st bufs id buffer Hok Hone)
      as (st1 & buffer1 & -> & Hmeta1 & [block Hblocks1] & Hper1).
    cbn [mbind outcome_bind].
    destruct (IH st1 (<[id := buffer1]> bufs) Hnd ltac:(intros; apply Hl; by right))
      as (st' & bufs' & -> & Hmeta & [extra Hblocks] & Hother & Hin).
    exists st', bufs'. split; [ done | ]. split; [ congruence | ].
    split; [ exists ([block] ++ extra); by rewrite Hblocks, Hblocks1, <- app_assoc | ].
    split.
    + intros k Hk. cbn [fmap list_fmap fst] in Hk.
      apply not_elem_of_cons in Hk as [Hne Hk].
      rewrite Hother by done. by rewrite lookup_insert_ne.
    + intros k buffer0 Hk. apply elem_of_cons in Hk as [[= -> ->] | Hk].
      * exists buffer1. split.
        -- rewrite Hother by done. by rewrite lookup_insert_eq.
        -- apply (persisted_later st1); [ by exists extra | done ].
      * by apply Hin.
Qed.

End Serialize.

(** What [Deserialize] reads back from the directory. *)
Lemma Deserialize_buffers_spec (l : list (Z * FixedSizeBuffer)) :
  forall rest (m : gmap Z FixedSizeBuffer) t,
  NoDup l.*1 -> (forall e, e ∈ l -> m !! e.1 = None) ->
  exists bufs,
    Deserialize_buffers (length l) (flat_map directory_entry l ++ rest) m (Word.wrap t) =
      Ok (rest, bufs,
          Word.wrap (t + foldr (fun e acc => segment_count e.2 + acc) 0 l)) /\
    forall k, bufs !! k =
      match (list_to_map l : gmap Z FixedSizeBuffer) !! k with
      | Some buffer => Some (restored_of buffer)
      | None => m !! k
      end.
Proof.
  induction l as [ | [id buffer] l IH ]; intros rest m t Hnd Hfree;
    cbn [length flat_map Deserialize_buffers foldr].
  - exists m. split; [ by rewrite Z.add_0_r | ].
    intros k. by rewrite list_to_map_nil, lookup_empty.
  - cbn [fmap list_fmap fst] in Hnd. apply NoDup_cons in Hnd as [Hnotin Hnd].
    cbn [directory_entry app Read mbind outcome_bind fst snd].
    pose proof (Hfree (id, buffer) ltac:(by left)) as Hid. cbn [fst] in Hid.
    unfold map_insert_new. rewrite Hid.
    assert (Word.add (Word.wrap t) (segment_count buffer) =
            Word.wrap (t + segment_count buffer)) as ->.
    { unfold Word.add, Word.wrap. by rewrite Zplus_mod_idemp_l. }
    fold (restored_of buffer).
    destruct (IH rest (<[id := restored_of buffer]> m) (t + segment_count buffer) Hnd)
      as (bufs & -> & Hbufs).
    { intros e He. rewrite lookup_insert_ne; [ apply Hfree; by right | ].
      intros ->. apply Hnotin. apply list_elem_of_fmap. by exists e. }
    exists bufs. split; [ do 3 f_equal; lia | ].
    intros k. rewrite Hbufs, list_to_map_cons. cbn [fst snd].
    destruct (decide (k = id)) as [-> | Hne].
    + rewrite (not_elem_of_list_to_map_1 _ _ Hnotin), !lookup_insert_eq. done.
    + rewrite !(lookup_insert_ne _ id) by done. done.
Qed.

Lemma Deserialize_free_spec (l : list Z) :
  forall rest (X : gset Z),
  Deserialize_free (length l) (l ++ rest) X = Ok (rest, X ∪ list_to_set l).
Proof.
  induction l as [ | id l IH ]; intros rest X; cbn [length app Deserialize_free].
  - f_equal. f_equal. symmetry. apply (right_id_L (∅ : gset Z) (∪)).
  - cbn [Read mbind outcome_bind]. rewrite IH. f_equal. f_equal.
    rewrite list_to_set_cons. symmetry. apply (assoc_L (∪)).
Qed.

Lemma sum_counts_foldr (bufs : gmap Z FixedSizeBuffer) :
  foldr (fun e acc => segment_count e.2 + acc) 0 (map_to_list bufs) = sum_counts bufs.
Proof.
  unfold sum_counts. rewrite map_fold_foldr.
  induction (map_to_list bufs) as [ | [k buffer] l IH ]; cbn [foldr]; [ done | ].
  by rewrite IH.
Qed.

Lemma Deserialize_spec (a0 : FixedSizeAllocator) (blks : list Block) (meta : list Z)
    (s : Z) (bufs : gmap Z FixedSizeBuffer) (free : gset Z) :
  buffers a0 = ∅ -> buffers_with_free_space a0 = ∅ ->
  Deserialize a0
    (MkStorage blks
       (meta ++ [ s; Z.of_nat (size bufs); Z.of_nat (size free) ]
             ++ flat_map directory_entry (map_to_list bufs) ++ elements free))
    (Z.of_nat (length meta)) =
  Ok (MkFixedSizeAllocator s (bitmask_count a0) (bitmask_offset a0)
        (available_segments_per_buffer a0) (Word.wrap (sum_counts bufs))
        (restored_of <$> bufs) free (vacuum_buffers a0)).
Proof.
  intros Hbufs0 Hfree0. unfold Deserialize. cbn [metadata].
  rewrite Nat2Z.id, drop_app_length.
  cbn [app Read mbind outcome_bind]. rewrite !Nat2Z.id.
  rewrite <- (length_map_to_list bufs).
  destruct (Deserialize_buffers_spec (map_to_list bufs) (elements free) (buffers a0) 0)
    as (bufs2 & Hread & Hlook).
  { apply NoDup_fst_map_to_list. }
  { intros e _. by rewrite Hbufs0, lookup_empty. }
  change (Word.wrap 0) with 0 in Hread. rewrite Hread. cbn [mbind outcome_bind].
  rewrite <- (app_nil_r (elements free)).
  change (size free) with (length (elements free)).
  rewrite Deserialize_free_spec. cbn [mbind outcome_bind].
  rewrite Hfree0, (left_id_L ∅ (∪)), list_to_set_elements_L.
  rewrite Z.add_0_l, sum_counts_foldr.
  do 2 f_equal. apply map_eq. intros k.
  rewrite Hlook, list_to_map_to_list, lookup_fmap, Hbufs0, lookup_empty.
  by destruct (bufs !! k).
Qed.

Lemma sum_counts_ext (m1 : gmap Z FixedSizeBuffer) :
  forall m2 : gmap Z FixedSizeBuffer,
  (forall k, segment_count <$> m1 !! k = segment_count <$> m2 !! k) ->
  sum_counts m1 = sum_counts m2.
Proof.
  induction m1 as [ | k buffer m1 Hk IH ] using map_ind; intros m2 Hcounts.
  - assert (m2 = ∅) as ->; [ | done ].
    apply map_empty. intros k. specialize (Hcounts k).
    rewrite lookup_empty in Hcounts. by destruct (m2 !! k).
  - pose proof (Hcounts k) as Hk2. rewrite lookup_insert_eq in Hk2.
    destruct (m2 !! k) as [buffer2 | ] eqn:E2; [ | done ].
    injection Hk2 as Hk2.
    rewrite sum_counts_insert_new by done.
    rewrite <- (insert_id m2 k buffer2 E2), <- (insert_delete_eq m2 k buffer2).
    rewrite sum_counts_insert_new by apply lookup_delete_eq.
    rewrite (IH (delete k m2)); [ lia | ].
    intros k'. destruct (decide (k' = k)) as [-> | Hne].
    + by rewrite Hk, lookup_delete_eq.
    + rewrite lookup_delete_ne by done. specialize (Hcounts k').
      by rewrite lookup_insert_ne in Hcounts.
Qed.

Lemma filter_lookup_below (m : gmap Z Z) (bound k : Z) :
  k < bound -> filter (fun entry => entry.1 < bound) m !! k = m !! k.
Proof.
  intros Hk. destruct (m !! k) as [x | ] eqn:E.
  - by apply map_lookup_filter_Some.
  - apply map_lookup_filter_None. by left.
Qed.

Lemma reachable_size s a : reachable s a -> 0 <= s < Word.modulus.
Proof. induction 1; done. Qed.

(** [stored16] is reached by a store to the segment of [one16]. *)
Lemma reachable_stored16 : reachable 16 stored16.
Proof.
  apply (reach_Store 16 (MkIndexPointer 0 0) [1; 2; 3] one16 stored16).
  - exact reachable_one16.
  - vm_compute. split; [ discriminate | reflexivity ].
  - vm_compute. reflexivity.
Defined.

(** ** The layout the constructor computes *)

Lemma fits_smaller s n m : 0 <= s -> 0 <= m <= n -> fits s n -> fits s m.
Proof.
  unfold fits. intros Hs Hm Hn.
  assert ((m + 63) / 64 <= (n + 63) / 64) by (apply Z.div_le_mono; lia).
  nia.
Qed.

Lemma ceil_words bc av : 64 * (bc - 1) < av <= 64 * bc -> (av + 63) / 64 = bc.
Proof.
  intros H. symmetry. apply (Z.div_unique _ _ _ (av + 63 - 64 * bc)); lia.
Qed.

Lemma mod_near n d : 0 < n - d < d -> n mod d <> 0.
Proof.
  intros H. rewrite <- (Z.mod_unique n d 1 (n - d)); lia.
Qed.

Section ConstructorLayout.

Variable s : Z.
Hypothesis s_valid : 1 <= s <= BLOCK_SIZE - 8.

Lemma exact_max_fit bc av :
  1 <= bc -> 64 * (bc - 1) < av <= 64 * bc ->
  8 * bc + av * s <= BLOCK_SIZE ->
  ~ fits s (av + 1) ->
  is_max_fit s av.
Proof.
  intros Hbc Hav Hfit Hnext. split; [ lia | ]. split.
  - unfold fits. rewrite (ceil_words bc av Hav). lia.
  - intros n Hn Hfitn.
    destruct (Z.le_gt_cases n av) as [ | Hgt ]; [ done | exfalso ].
    apply Hnext. apply (fits_smaller s n); [ lia | lia | done ].
Qed.

(** One more segment does not fit when fewer than [s] bytes are left. *)
Lemma exact_no_more bc av :
  1 <= bc -> 64 * (bc - 1) < av <= 64 * bc ->
  (av = 64 * bc -> BLOCK_SIZE < 8 * (bc + 1) + (av + 1) * s) ->
  (av < 64 * bc -> BLOCK_SIZE < 8 * bc + (av + 1) * s) ->
  ~ fits s (av + 1).
Proof.
  intros Hbc Hav Hfull Hpart. unfold fits.
  destruct (Z.eq_dec av (64 * bc)) as [Heq | Hne].
  - rewrite (ceil_words (bc + 1) (av + 1)) by lia. specialize (Hfull Heq). lia.
  - rewrite (ceil_words bc (av + 1)) by lia. specialize (Hpart ltac:(lia)). lia.
Qed.

Lemma ctor_exact_exit v :
  ctor_exact s v -> BLOCK_SIZE <= cv_byte_count v -> ctor_tight s v.
Proof.
  destruct v as [bc av byte]. unfold ctor_exact, ctor_tight.
  cbn [cv_bitmask_count cv_available cv_byte_count].
  intros (Hbc & Hav & Hbyte & Hle & Hpart) Hge.
  split; [ done | ]. split; [ | lia ].
  apply (exact_max_fit bc av); [ done | done | lia | ].
  apply (exact_no_more bc av); [ done | done | lia | lia ].
Qed.

Lemma ctor_exact_step v :
  ctor_exact s v -> ~ ctor_spare v -> cv_byte_count v < BLOCK_SIZE ->
  match ctor_body s v with
  | Continue v' =>
      ctor_exact s v' /\ ~ ctor_spare v' /\ cv_byte_count v < cv_byte_count v'
  | Break v' => ctor_tight s v'
  | DivisionByZero => False
  end.
Proof.
  destruct v as [bc av byte]. unfold ctor_exact, ctor_spare, ctor_tight.
  cbn [cv_bitmask_count cv_available cv_byte_count].
  intros (Hbc & Hav & Hbyte & Hle & Hpart) Hspare Hlt.
  pose proof s_valid as Hs.
  unfold ctor_body. cbn [cv_bitmask_count cv_available cv_byte_count].
  unfold BLOCK_SIZE in *.
  change (Word.mul sizeof_validity_t 8) with 64.
  change sizeof_validity_t with 8.
  destruct (Z.eqb_spec bc 0) as [ | _ ]; [ lia | ].
  destruct (Z.eqb_spec av 0) as [ | _ ]; [ lia | ].
  destruct (Z.eqb_spec s 0) as [ | _ ]; [ lia | ].
  cbn [negb andb orb].
  assert (0 <= av * s) as Hprod by nia.
  assert (Word.mul bc 64 = bc * 64) as ->.
  { apply wrap_small. unfold Word.modulus. lia. }
  unfold MinValue.
  destruct (Z.eqb_spec ((bc * 64) mod av) 0) as [Hgrow | Hkeep].
  - (* the bitmap is full: another word is added *)
    assert (av = 64 * bc) as Hfull.
    { destruct (Z.eq_dec av (64 * bc)) as [ | Hne ]; [ done | exfalso ].
      destruct (Z.eq_dec bc 1) as [-> | Hbc1].
      - apply Hspare. repeat split; [ lia | exact Hgrow | lia ].
      - apply (mod_near (bc * 64) av); [ lia | done ]. }
    assert (byte + 8 <= 262144) as Hfit.
    { subst av. replace (64 * bc * s) with (64 * (bc * s)) in Hbyte by ring. lia. }
    assert (Word.add bc 1 = bc + 1) as ->.
    { apply wrap_small. unfold Word.modulus. lia. }
    assert (Word.add byte 8 = byte + 8) as ->.
    { apply wrap_small. unfold Word.modulus. lia. }
    assert (Word.sub 262144 (byte + 8) = 262144 - (byte + 8)) as ->.
    { apply wrap_small. unfold Word.modulus. lia. }
    pose proof (div_bounds s s_valid (262144 - (byte + 8)) ltac:(lia)) as Hq.
    set (q := (262144 - (byte + 8)) / s) in *.
    assert (0 <= q) as Hq0 by nia.
    destruct (Z.ltb_spec q 64) as [Hq64 | Hq64].
    + destruct (Z.eqb_spec q 0) as [Hz | Hnz].
      * (* no further segment fits *)
        cbn [cv_bitmask_count cv_available cv_byte_count].
        split; [ lia | ]. split; [ | lia ].
        rewrite Hz in Hq.
        apply (exact_max_fit bc av); [ done | done | unfold BLOCK_SIZE; lia | ].
        apply (exact_no_more bc av); [ done | done | unfold BLOCK_SIZE; lia | lia ].
      * unfold Word.add, Word.mul.
        rewrite (wrap_small (q * s)) by (unfold Word.modulus; nia).
        rewrite !wrap_small by (unfold Word.modulus; nia).
        cbn [cv_bitmask_count cv_available cv_byte_count].
        split; [ | split; [ lia | nia ] ].
        repeat split; try nia.
    + change (64 =? 0) with false. cbv iota.
      unfold Word.add, Word.mul.
      rewrite (wrap_small (64 * s)) by (unfold Word.modulus; nia).
      rewrite !wrap_small by (unfold Word.modulus; nia).
      cbn [cv_bitmask_count cv_available cv_byte_count].
      split; [ | split; [ lia | nia ] ].
      repeat split; try nia.
  - (* the last word is partial: no further segment fits *)
    assert (av < 64 * bc) as Hp.
    { destruct (Z.eq_dec av (64 * bc)) as [Hf | Hnf]; [ | lia ].
      exfalso. apply Hkeep. rewrite Hf.
      replace (bc * 64) with (64 * bc) by lia. apply Z_mod_same_full. }
    specialize (Hpart Hp).
    assert (Word.sub 262144 byte = 262144 - byte) as ->.
    { apply wrap_small. unfold Word.modulus. lia. }
    pose proof (div_bounds s s_valid (262144 - byte) ltac:(lia)) as Hq.
    set (q := (262144 - byte) / s) in *.
    assert (q = 0) as -> by nia.
    change (0 <? 64) with true. cbv iota. change (0 =? 0) with true. cbv iota.
    cbn [cv_bitmask_count cv_available cv_byte_count].
    split; [ lia | ]. split; [ | lia ].
    apply (exact_max_fit bc av); [ done | lia | unfold BLOCK_SIZE; lia | ].
    apply (exact_no_more bc av); [ done | lia | lia | unfold BLOCK_SIZE; lia ].
Qed.

Lemma ctor_loop_exact (fuel : nat) :
  forall v, ctor_exact s v -> ~ ctor_spare v ->
  BLOCK_SIZE - cv_byte_count v <= Z.of_nat fuel ->
  exists v', ctor_loop fuel s v = Some (Ok v') /\ ctor_tight s v'.
Proof.
  induction fuel as [ | fuel IH ]; intros v Hv Hspare Hfuel.
  - cbn [ctor_loop]. destruct (Z.ltb_spec (cv_byte_count v) BLOCK_SIZE); [ lia | ].
    exists v. split; [ done | ]. by apply ctor_exact_exit.
  - cbn [ctor_loop]. destruct (Z.ltb_spec (cv_byte_count v) BLOCK_SIZE) as [Hlt | Hge].
    + pose proof (ctor_exact_step v Hv Hspare Hlt) as Hstep.
      destruct (ctor_body s v) as [v' | v' | ]; [ | | done ].
      * destruct Hstep as (Hv' & Hspare' & Hgrow). apply IH; [ done | done | lia ].
      * by exists v'.
    + exists v. split; [ done | ]. by apply ctor_exact_exit.
Qed.

(** The first round: as many segments as fit beside one bitmap word, 64
    at most. *)
Lemma ctor_first_round :
  exists v, ctor_body s (MkCtorVars 0 0 0) = Continue v /\ ctor_exact s v /\
    cv_bitmask_count v = 1 /\
    cv_available v = Z.min ((BLOCK_SIZE - 8) / s) 64 /\
    0 < cv_byte_count v.
Proof.
  unfold ctor_body. cbn [cv_bitmask_count cv_available cv_byte_count].
  pose proof s_valid as Hs. unfold BLOCK_SIZE in *.
  change (Word.mul sizeof_validity_t 8) with 64.
  change ((0 =? 0)) with true. cbn [negb andb orb].
  change (Word.add 0 1) with 1. change (Word.add 0 sizeof_validity_t) with 8.
  change (Word.sub 262144 8) with 262136. change (262144 - 8) with 262136.
  destruct (Z.eqb_spec s 0) as [ | _ ]; [ lia | ].
  pose proof (div_bounds s s_valid 262136 ltac:(lia)) as Hq.
  set (q := 262136 / s) in *.
  assert (1 <= q) as Hq1 by nia.
  unfold MinValue.
  destruct (Z.ltb_spec q 64) as [Hlt | Hge].
  - destruct (Z.eqb_spec q 0) as [ | _ ]; [ lia | ].
    eexists. split; [ reflexivity | ].
    unfold Word.add, Word.mul. rewrite !wrap_small; cycle 1.
    { unfold Word.modulus. nia. }
    { rewrite wrap_small; unfold Word.modulus; nia. }
    { unfold Word.modulus. nia. }
    unfold ctor_exact, BLOCK_SIZE; cbn [cv_bitmask_count cv_available cv_byte_count].
    repeat split; try lia.
  - change (64 =? 0) with false. cbv iota.
    eexists. split; [ reflexivity | ].
    unfold Word.add, Word.mul. rewrite !wrap_small; cycle 1.
    { unfold Word.modulus. nia. }
    { rewrite wrap_small; unfold Word.modulus; nia. }
    { unfold Word.modulus. nia. }
    unfold ctor_exact, BLOCK_SIZE; cbn [cv_bitmask_count cv_available cv_byte_count].
    repeat split; try lia.
Qed.

(** The round that adds the spare word.  When the word still fits, the
    loop is left with the segments of the first round; when it does not,
    [BLOCK_SIZE - byte_count] wraps around and 64 segments are added. *)
Lemma ctor_loop_spare (fuel : nat) (v : ctor_vars) :
  ctor_exact s v -> ctor_spare v ->
  exists v', ctor_loop (S (S fuel)) s v = Some (Ok v') /\
    cv_bitmask_count v' = 2 /\
    ((16 + cv_available v * s <= BLOCK_SIZE /\
      cv_available v' = cv_available v /\ is_max_fit s (cv_available v)) \/
     (BLOCK_SIZE < 16 + cv_available v * s /\
      cv_available v' = cv_available v + 64 /\ ~ fits s (cv_available v'))).
Proof.
  destruct v as [bc av byte]. unfold ctor_exact, ctor_spare.
  cbn [cv_bitmask_count cv_available cv_byte_count].
  intros (Hbc & Hav & Hbyte & Hle & Hpart) (-> & Hav64 & Hdiv & Hlt).
  pose proof s_valid as Hs.
  specialize (Hpart ltac:(lia)).
  assert (0 <= av * s) as Hprod by nia.
  cbn [ctor_loop cv_byte_count].
  destruct (Z.ltb_spec byte BLOCK_SIZE) as [ _ | ]; [ | lia ].
  unfold ctor_body. cbn [cv_bitmask_count cv_available cv_byte_count].
  unfold BLOCK_SIZE in *.
  change (Word.mul sizeof_validity_t 8) with 64.
  change sizeof_validity_t with 8.
  change (1 =? 0) with false.
  destruct (Z.eqb_spec av 0) as [ | _ ]; [ lia | ].
  destruct (Z.eqb_spec s 0) as [ | _ ]; [ lia | ].
  cbn [negb andb orb].
  change (Word.mul 1 64) with 64. rewrite Hdiv. change (0 =? 0) with true. cbv iota.
  change (Word.add 1 1) with 2.
  assert (Word.add byte 8 = byte + 8) as ->.
  { apply wrap_small. unfold Word.modulus. lia. }
  unfold MinValue.
  destruct (Z.le_gt_cases (byte + 8) 262144) as [Hfit | Hover].
  - assert (Word.sub 262144 (byte + 8) = 262144 - (byte + 8)) as ->.
    { apply wrap_small. unfold Word.modulus. lia. }
    pose proof (div_bounds s s_valid (262144 - (byte + 8)) ltac:(lia)) as Hq.
    set (q := (262144 - (byte + 8)) / s) in *.
    assert (q = 0) as -> by nia.
    change (0 <? 64) with true. cbv iota. change (0 =? 0) with true. cbv iota.
    eexists. split; [ reflexivity | ].
    cbn [cv_bitmask_count cv_available cv_byte_count].
    split; [ done | ]. left. split; [ lia | ]. split; [ done | ].
    apply (exact_max_fit 1 av); [ done | lia | unfold BLOCK_SIZE; lia | ].
    apply (exact_no_more 1 av); [ done | lia | lia | unfold BLOCK_SIZE; lia ].
  - assert (Word.sub 262144 (byte + 8) = Word.modulus + 262144 - (byte + 8)) as ->.
    { unfold Word.sub, Word.wrap.
      replace (262144 - (byte + 8)) with ((Word.modulus + 262144 - (byte + 8)) + (-1) * Word.modulus) by lia.
      rewrite Z_mod_plus_full. apply Z.mod_small. unfold Word.modulus. lia. }
    pose proof (div_bounds s s_valid (Word.modulus + 262144 - (byte + 8)) ltac:(unfold Word.modulus; lia)) as Hq.
    set (q := (Word.modulus + 262144 - (byte + 8)) / s) in *.
    unfold Word.modulus in Hq.
    destruct (Z.ltb_spec q 64) as [Hq64 | Hq64]; [ nia | ].
    change (64 =? 0) with false. cbv iota.
    unfold Word.add, Word.mul.
    rewrite (wrap_small (64 * s)) by (unfold Word.modulus; nia).
    rewrite !wrap_small by (unfold Word.modulus; nia).
    cbn [ctor_loop cv_byte_count].
    destruct (Z.ltb_spec (byte + 8 + 64 * s) 262144) as [Hlow | _ ]; [ lia | ].
    eexists. split; [ reflexivity | ].
    cbn [cv_bitmask_count cv_available cv_byte_count].
    split; [ done | ]. right. split; [ lia | ]. split; [ done | ].
    unfold fits. rewrite (ceil_words 2 (av + 64)) by lia. unfold BLOCK_SIZE. lia.
Qed.

End ConstructorLayout.

(** What the constructor leaves, for every admissible segment size. *)
Lemma constructor_layout (s : Z) :
  1 <= s <= BLOCK_SIZE - 8 ->
  exists a, FixedSizeAllocator_new s = Ok a /\ segment_size a = s /\
    ((~ spare_word s /\
      is_max_fit s (available_segments_per_buffer a) /\ layout_tight a) \/
     (spare_word s /\ ~ overcounts s /\ bitmask_count a = 2 /\
      available_segments_per_buffer a = (BLOCK_SIZE - 8) / s /\
      is_max_fit s (available_segments_per_buffer a)) \/
     (overcounts s /\ bitmask_count a = 2 /\
      available_segments_per_buffer a = (BLOCK_SIZE - 8) / s + 64 /\
      ~ fits s (available_segments_per_buffer a))).
Proof.
  intros Hs. unfold FixedSizeAllocator_new.
  change (Word.sub BLOCK_SIZE sizeof_validity_t) with (BLOCK_SIZE - 8).
  destruct (Z.gtb_spec s (BLOCK_SIZE - 8)) as [Hgt | _]; [ lia | ].
  destruct (Z.to_nat BLOCK_SIZE) as [ | fuel1 ] eqn:Hfuel;
    [ unfold BLOCK_SIZE in Hfuel; lia | ].
  cbn [ctor_loop cv_byte_count]. change (0 <? BLOCK_SIZE) with true. cbv iota.
  destruct (ctor_first_round s Hs) as (v1 & -> & Hv1 & Hbc1 & Hav1 & Hpos).
  destruct fuel1 as [ | [ | fuel ] ]; [ unfold BLOCK_SIZE in Hfuel; lia .. | ].
  assert (BLOCK_SIZE = Z.of_nat fuel + 3) as Hsize by lia.
  set (r := (BLOCK_SIZE - 8) / s) in *.
  assert (Hbyte1 := Hv1). destruct Hbyte1 as (_ & _ & Hbyte1 & _).
  rewrite Hbc1, Hav1 in Hbyte1. cbn zeta in Hbyte1.
  assert (spare_word s \/
          (~ spare_word s /\ ~ ctor_spare v1)) as [Hspare | [Hspare Hv1spare]].
  { unfold spare_word, ctor_spare. fold r. cbn zeta. rewrite Hbc1, Hav1, Hbyte1.
    destruct (Z_lt_dec r 64) as [Hr | Hr].
    - rewrite Z.min_l by lia.
      destruct (Z.eq_dec (64 mod r) 0) as [Hdiv | Hdiv]; [ | right; lia ].
      destruct (Z_lt_dec (8 + r * s) BLOCK_SIZE) as [Hleft | Hleft]; [ by left | right; lia ].
    - rewrite Z.min_r by lia. right. lia. }
  - (* a spare word is added *)
    assert (r < 64) as Hr by apply Hspare.
    rewrite Z.min_l in Hav1, Hbyte1 by lia.
    destruct (ctor_loop_spare s Hs fuel v1 Hv1) as (v' & Hloop & Hbc & Hcases).
    { destruct Hspare as (_ & Hdiv & Hleft). fold r in Hdiv, Hleft.
      unfold ctor_spare. rewrite Hbc1, Hav1, Hbyte1. repeat split; try done; lia. }
    rewrite Hloop. cbn [mbind outcome_bind].
    eexists. split; [ reflexivity | ].
    cbn [segment_size bitmask_count available_segments_per_buffer].
    split; [ done | ]. right.
    rewrite Hav1 in Hcases.
    destruct Hcases as [(Hfit & -> & Hmax) | (Hover & -> & Hnofit)].
    + left. split; [ done | ]. split; [ | done ].
      unfold overcounts. fold r. lia.
    + right. split; [ | done ]. split; [ done | ]. fold r. lia.
  - destruct (ctor_loop_exact s Hs (S (S fuel)) v1 Hv1 Hv1spare) as (v' & Hloop & Htight);
      [ lia | ].
    rewrite Hloop; cbn [mbind outcome_bind].
    eexists; split; [ reflexivity | ].
    cbn [segment_size bitmask_count available_segments_per_buffer].
    split; [ done | ]; left; split; [ done | ].
    destruct Htight as (Hbc & Hmax & Hlast & Hblock).
    split; [ done | ].
    unfold layout_tight;
      cbn [segment_size bitmask_count available_segments_per_buffer]; lia.
Qed.

Lemma divisors_of_64 (r : Z) :
  1 <= r < 64 -> 64 mod r = 0 ->
  r = 1 \/ r = 2 \/ r = 4 \/ r = 8 \/ r = 16 \/ r = 32.
Proof.
  intros Hr Hmod.
  assert (exists n, r = Z.of_nat n /\ (n < 64)%nat) as (n & -> & Hn)
    by (exists (Z.to_nat r); lia).
  do 64 (destruct n as [ | n ];
         [ first [ lia | vm_compute in Hmod; discriminate Hmod ] | ]).
  lia.
Qed.

(** The byte count passes [BLOCK_SIZE] at eleven segment sizes. *)
Lemma overcounts_sizes (s : Z) :
  1 <= s <= BLOCK_SIZE - 8 ->
  overcounts s <-> In s overcounted_sizes.
Proof.
  intros Hs. split.
  - intros ((Hr & Hdiv & Hleft) & Hover). cbn zeta in *.
    pose proof (div_bounds s Hs (BLOCK_SIZE - 8) ltac:(lia)) as Hq.
    set (r := (BLOCK_SIZE - 8) / s) in *.
    assert (1 <= r) as Hr1 by (unfold BLOCK_SIZE in *; nia).
    unfold overcounted_sizes. cbn [In]. unfold BLOCK_SIZE in *.
    destruct (divisors_of_64 r ltac:(lia) Hdiv) as [H | [H | [H | [H | [H | H]]]]];
      rewrite H in *; lia.
  - unfold overcounted_sizes. cbn [In]. intros Hin.
    repeat (destruct Hin as [<- | Hin]; [ vm_compute; repeat split; reflexivity | ]).
    done.
Qed.

(** Below 7944 bytes per segment no spare word is added. *)
Lemma spare_word_large (s : Z) :
  1 <= s <= BLOCK_SIZE - 8 -> spare_word s -> 7944 <= s.
Proof.
  intros Hs (Hr & Hdiv & Hleft). cbn zeta in *.
  pose proof (div_bounds s Hs (BLOCK_SIZE - 8) ltac:(lia)) as Hq.
  set (r := (BLOCK_SIZE - 8) / s) in *.
  assert (1 <= r) as Hr1 by (unfold BLOCK_SIZE in *; nia).
  unfold BLOCK_SIZE in *.
  destruct (divisors_of_64 r ltac:(lia) Hdiv) as [H | [H | [H | [H | [H | H]]]]];
    rewrite H in *; lia.
Qed.

(** Apart from the eleven sizes of [overcounted_sizes], the constructor
    sets the largest number of segments that fit the block. *)
Lemma constructor_max_fit (s : Z) :
  1 <= s <= BLOCK_SIZE - 8 -> ~ In s overcounted_sizes ->
  exists a, FixedSizeAllocator_new s = Ok a /\
    is_max_fit s (available_segments_per_buffer a).
Proof.
  intros Hs Hnot.
  destruct (constructor_layout s Hs) as (a & Hnew & _ & Hcases).
  exists a. split; [ done | ].
  destruct Hcases as [(_ & Hmax & _) | [(_ & _ & _ & _ & Hmax) | (Hover & _)]];
    [ done | done | ].
  exfalso. apply Hnot. by apply overcounts_sizes.
Qed.

(** At those eleven sizes it sets a number of segments that does not fit. *)
Lemma constructor_overcounted (s : Z) :
  In s overcounted_sizes ->
  exists a, FixedSizeAllocator_new s = Ok a /\
    ~ fits s (available_segments_per_buffer a).
Proof.
  intros Hin.
  assert (1 <= s <= BLOCK_SIZE - 8) as Hs.
  { unfold overcounted_sizes in Hin. cbn [In] in Hin. unfold BLOCK_SIZE. lia. }
  destruct (constructor_layout s Hs) as (a & Hnew & _ & Hcases).
  exists a. split; [ done | ].
  apply (overcounts_sizes s Hs) in Hin.
  destruct Hcases as [(Hspare & _) | [(_ & Hnot & _) | (_ & _ & _ & Hnofit)]];
    [ | done | done ].
  exfalso. apply Hspare, Hin.
Qed.

(** Below 7944 bytes per segment every layout is tight. *)
Lemma layout_tight_small (s : Z) :
  1 <= s < 7944 ->
  exists a, FixedSizeAllocator_new s = Ok a /\ segment_size a = s /\
    is_max_fit s (available_segments_per_buffer a) /\ layout_tight a.
Proof.
  intros Hs.
  assert (1 <= s <= BLOCK_SIZE - 8) as Hvalid by (unfold BLOCK_SIZE; lia).
  destruct (constructor_layout s Hvalid) as (a & Hnew & Hsize & Hcases).
  exists a. split; [ done | ]. split; [ done | ].
  destruct Hcases as [(_ & Hmax & Htight) | [(Hspare & _) | ((Hspare & _) & _)]];
    [ done | | ];
    pose proof (spare_word_large s Hvalid Hspare); lia.
Qed.

(** ** The slot [GetOffset] takes *)

Lemma mask_bit_outside mask k :
  64 * Z.of_nat (length mask) <= k -> mask_bit mask k = false.
Proof.
  intros Hk. unfold mask_bit.
  rewrite lookup_ge_None_2; [ done | ].
  assert (Z.of_nat (length mask) <= k / 64) by (apply Z.div_le_lower_bound; lia). lia.
Qed.

Lemma mask_bit_word mask i entry k :
  0 <= i -> mask !! Z.to_nat i = Some entry -> 0 <= k < 64 ->
  mask_bit mask (64 * i + k) = Z.testbit entry k.
Proof.
  intros Hi Hl Hk. unfold mask_bit.
  replace ((64 * i + k) / 64) with i
    by (apply (Z.div_unique _ _ _ k); lia).
  replace ((64 * i + k) mod 64) with k
    by (apply (Z.mod_unique _ _ i); lia).
  by rewrite Hl.
Qed.

Lemma SetInvalid_takes mask row :
  0 <= row < 64 * Z.of_nat (length mask) ->
  exists mask', ValidityMask.SetInvalid mask row = Ok mask' /\ takes_slot mask mask' row.
Proof.
  intros Hrow. destruct (SetInvalid_in_range mask row Hrow) as [mask' Hset].
  exists mask'. split; [ done | ]. apply (SetInvalid_Ok _ _ _ Hset). lia.
Qed.

Lemma GetOffset_scan_spec mask (n : nat) :
  Forall Word.ok mask -> 64 * Z.of_nat (length mask) <= 2 ^ 32 ->
  forall i, 0 <= i -> i + Z.of_nat n = Z.of_nat (length mask) ->
  (forall k, 0 <= k < 64 * i -> mask_bit mask k = false) ->
  (no_free_slot mask /\ GetOffset_scan mask n i = InternalException invalid_bitmask_msg) \/
  (exists j mask', first_free_slot mask j /\ takes_slot mask mask' j /\
     GetOffset_scan mask n i = Ok (mask', j)).
Proof.
  intros Hwords Hsmall. induction n as [ | n IH ]; intros i Hi Hlen Hbelow.
  - left. split; [ | done ]. intros k Hk.
    destruct (Z.lt_ge_cases k (64 * i)) as [ | Hge ]; [ apply Hbelow; lia | ].
    apply mask_bit_outside. lia.
  - cbn [GetOffset_scan]. unfold ValidityMask.GetEntry.
    destruct (Z.ltb_spec i 0); [ lia | ].
    destruct (lookup_lt_is_Some_2 mask (Z.to_nat i) ltac:(lia)) as [entry Hentry].
    rewrite Hentry. cbn [of_option mbind outcome_bind].
    assert (Word.ok entry) as Hok.
    { rewrite Forall_lookup in Hwords. by apply (Hwords (Z.to_nat i)). }
    destruct (Z.eqb_spec entry 0) as [-> | Hnz].
    + (* a word without free slots *)
      assert (Word.add i 1 = i + 1) as ->.
      { apply wrap_small. unfold Word.modulus. lia. }
      apply IH; [ lia | lia | ].
      intros k Hk. destruct (Z.lt_ge_cases k (64 * i)) as [ | Hge ]; [ apply Hbelow; lia | ].
      replace k with (64 * i + (k - 64 * i)) by lia.
      rewrite (mask_bit_word mask i 0) by (done || lia). apply Z.bits_0.
    + right.
      destruct (rightmost_ladder_spec BASE entry BASE_ok)
        as (e & Hladder & -> & Hrange & Hbit & Hset & Hlow).
      { unfold Word.ok, Word.modulus in Hok. lia. }
      rewrite Hladder. set (fvb := snd (rightmost_ladder BASE entry)) in *.
      change (negb (1 =? 0)) with true. cbn [D_ASSERT mbind outcome_bind].
      assert (Word.add (Word.mul (Word.mul i sizeof_validity_t) 8) fvb = 64 * i + fvb) as ->.
      { unfold Word.add, Word.mul. change sizeof_validity_t with 8.
        rewrite (wrap_small (i * 8)) by (unfold Word.modulus; lia).
        rewrite (wrap_small (i * 8 * 8)) by (unfold Word.modulus; lia).
        rewrite wrap_small by (unfold Word.modulus; lia). lia. }
      rewrite RowIsValid_in_range by lia.
      rewrite (mask_bit_word mask i entry) by (done || lia). rewrite Hset.
      cbn [negb D_ASSERT mbind outcome_bind].
      destruct (SetInvalid_takes mask (64 * i + fvb) ltac:(lia)) as (mask' & -> & Htakes).
      cbn [mbind outcome_bind].
      exists (64 * i + fvb), mask'. split; [ | split; [ done | ] ].
      * split; [ lia | ]. split.
        -- by rewrite (mask_bit_word mask i entry) by (done || lia).
        -- intros k Hk.
           destruct (Z.lt_ge_cases k (64 * i)) as [ | Hge ]; [ apply Hbelow; lia | ].
           replace k with (64 * i + (k - 64 * i)) by lia.
           rewrite (mask_bit_word mask i entry) by (done || lia).
           apply Hlow. lia.
      * f_equal. f_equal. unfold Word.u32. apply Z.mod_small. lia.
Qed.

(** [GetOffset] on a bitmap of [bitmask_count] words: the slot at
    [segment_count] when it is free, the lowest free slot otherwise; it
    throws when no slot is free. *)
Lemma GetOffset_spec a mask count :
  Forall Word.ok mask -> Z.of_nat (length mask) = bitmask_count a ->
  64 * bitmask_count a <= 2 ^ 32 -> 0 <= count < 64 * bitmask_count a ->
  if mask_bit mask count
  then exists mask', takes_slot mask mask' count /\
         GetOffset a mask count = Ok (mask', count)
  else (no_free_slot mask /\
        GetOffset a mask count = InternalException invalid_bitmask_msg) \/
       (exists j mask', first_free_slot mask j /\ takes_slot mask mask' j /\
          GetOffset a mask count = Ok (mask', j)).
Proof.
  intros Hwords Hlen Hsmall Hcount. unfold GetOffset.
  rewrite RowIsValid_in_range by lia.
  destruct (mask_bit mask count) eqn:Hbit; cbn [mbind outcome_bind].
  - destruct (SetInvalid_takes mask count ltac:(lia)) as (mask' & -> & Htakes).
    cbn [mbind outcome_bind]. exists mask'. split; [ done | ].
    f_equal. f_equal. unfold Word.u32. apply Z.mod_small. lia.
  - apply GetOffset_scan_spec; try done; try lia.
Qed.

(** ** The slot [New] hands out *)

Lemma u32_small x : 0 <= x < 2 ^ 32 -> Word.u32 x = x.
Proof. intros H. unfold Word.u32. by apply Z.mod_small. Qed.

Lemma u32_range x : 0 <= Word.u32 x < 2 ^ 32.
Proof. unfold Word.u32. apply Z.mod_pos_bound. lia. Qed.

Lemma count_clear_zero mask n :
  count_clear mask n = 0 ->
  forall j, 0 <= j < Z.of_nat n -> mask_bit mask j = true.
Proof.
  induction n as [ | n IH ]; intros Hc j Hj; [ lia | ].
  cbn [count_clear] in Hc. pose proof (count_clear_bounds mask n).
  destruct (mask_bit mask (Z.of_nat n)) eqn:E; [ | lia ].
  destruct (Z.eq_dec j (Z.of_nat n)) as [-> | ]; [ done | ].
  apply IH; lia.
Qed.

Lemma count_clear_lt mask n :
  count_clear mask n < Z.of_nat n ->
  exists j, 0 <= j < Z.of_nat n /\ mask_bit mask j = true.
Proof.
  induction n as [ | n IH ]; cbn [count_clear]; intros H; [ lia | ].
  destruct (mask_bit mask (Z.of_nat n)) eqn:E.
  - exists (Z.of_nat n). split; [ lia | done ].
  - destruct IH as (j & Hj & Hset); [ lia | ]. exists j. split; [ lia | done ].
Qed.

(** What a successful [New_pointer] did. *)
Lemma New_pointer_inv begin a a' p :
  New_pointer begin a = Ok (a', p) ->
  exists buffer blk mask' row,
    let b := Word.u32 (begin (buffers_with_free_space a)) in
    buffers a !! b = Some buffer /\ memory buffer = Some blk /\
    ValidityMask.RowIsValid (bitmap blk) row = Ok true /\
    ValidityMask.SetInvalid (bitmap blk) row = Ok mask' /\
    p = MkIndexPointer b (Word.u32 row) /\
    a' = with_state a (Word.add (total_segment_count a) 1)
           (<[b := set_segment_count (set_bitmap buffer mask')
                     (Word.add (segment_count buffer) 1)]> (buffers a))
           (if Word.add (segment_count buffer) 1 =? available_segments_per_buffer a
            then buffers_with_free_space a ∖ {[b]}
            else buffers_with_free_space a).
Proof.
  unfold New_pointer.
  destruct (bool_decide (buffers_with_free_space a ≠ ∅));
    cbn [D_ASSERT mbind outcome_bind]; [ | done ].
  set (b := Word.u32 (begin (buffers_with_free_space a))).
  unfold find_buffer.
  destruct (buffers a !! b) as [buffer | ] eqn:Hb; cbn [mbind outcome_bind]; [ | done ].
  unfold Get_block. destruct (memory buffer) as [blk | ] eqn:Hmem;
    cbn [of_option mbind outcome_bind]; [ | done ].
  destruct (GetOffset a (bitmap blk) (segment_count buffer)) as [[mask offset] | | ] eqn:Hoff;
    cbn [mbind outcome_bind]; try done.
  apply GetOffset_Ok in Hoff as (row & Hvalid & Hset & ->).
  intros [= <- <-]. exists buffer, blk, mask, row.
  repeat split; try done.
  unfold IndexPointer_new. f_equal; unfold Word.u32; unfold b, Word.u32; by rewrite Z.mod_mod.
Qed.

Lemma set_bitmap_memory buffer blk mask :
  memory buffer = Some blk ->
  memory (set_bitmap buffer mask) = Some (MkBlock mask (payload blk)).
Proof. intros H. unfold set_bitmap. by rewrite H. Qed.

(** What a successful [New_add_buffer] did. *)
Lemma New_add_buffer_inv a a1 :
  New_add_buffer a = Ok a1 ->
  a1 = a \/
  exists id blk,
    buffers a !! id = None /\
    memory (FixedSizeBuffer_fresh (bitmask_count a)) = Some blk /\
    a1 = with_state a (total_segment_count a)
           (<[id := set_bitmap (FixedSizeBuffer_fresh (bitmask_count a))
                      (ValidityMask.SetAllValid (bitmap blk)
                         (available_segments_per_buffer a))]> (buffers a))
           (buffers_with_free_space a ∪ {[id]}).
Proof.
  unfold New_add_buffer.
  destruct (decide (buffers_with_free_space a = ∅)); [ | intros [= <-]; by left ].
  destruct (GetAvailableBufferId_spec (buffers a)) as (id & -> & _ & Hnone & _).
  cbn [mbind outcome_bind]. unfold map_insert_new. rewrite Hnone.
  unfold find_buffer. rewrite lookup_insert_eq. cbn [mbind outcome_bind].
  unfold Get_block.
  destruct (memory (FixedSizeBuffer_fresh (bitmask_count a))) as [blk | ] eqn:Hblk; [ | done ].
  cbn [of_option mbind outcome_bind]. intros [= <-]. right.
  exists id, blk. split; [ done | ]. split; [ done | ].
  by rewrite insert_insert_eq.
Qed.

Lemma coherent_well_formed a : coherent a -> well_formed a.
Proof. intros [Hlay Hbufs _]. by split. Qed.

Lemma well_formed_insert a total b buffer free :
  well_formed a ->
  buffer_ok (bitmask_count a) (available_segments_per_buffer a) buffer ->
  well_formed (with_state a total (<[b := buffer]> (buffers a)) free).
Proof.
  intros [Hlay Hbufs] Hok. split; [ done | ].
  cbn [with_state buffers bitmask_count available_segments_per_buffer].
  intros b0 buffer0 Hb0. destruct (decide (b0 = b)) as [-> | Hne].
  - rewrite lookup_insert_eq in Hb0. by injection Hb0 as <-.
  - rewrite lookup_insert_ne in Hb0 by done. by eapply Hbufs.
Qed.

(** Adding a buffer leaves every slot as it was: the slots of the new
    buffer are free. *)
Lemma New_add_buffer_slots a a1 :
  well_formed a -> New_add_buffer a = Ok a1 ->
  well_formed a1 /\ forall q, slot_used a1 q <-> slot_used a q.
Proof.
  intros Hwf Hadd.
  destruct (New_add_buffer_inv _ _ Hadd) as [-> | (id & blk & Hnone & Hblk & ->)]; [ done | ].
  pose proof Hwf as [(Hbc & Hav & Hbc8) Hbufs].
  destruct (fresh_buffer_ok _ _ Hbc Hav blk Hblk) as (Hok & Hzero & _).
  split; [ by apply well_formed_insert | ].
  intros q. unfold slot_used. cbn [with_state buffers available_segments_per_buffer].
  destruct (decide (GetBufferId q = id)) as [Hq | Hq].
  - rewrite Hq, lookup_insert_eq, Hnone. split.
    + intros (buffer & blk1 & [= <-] & Hmem & Hoff & Hclear). exfalso.
      destruct Hok as (blk' & Hmem' & _ & _ & _ & Hcount).
      rewrite Hmem in Hmem'. injection Hmem' as <-.
      rewrite Hzero in Hcount. symmetry in Hcount.
      rewrite (count_clear_zero _ _ Hcount) in Hclear by lia. done.
    + intros (buffer & blk1 & Hb & _). done.
  - by rewrite lookup_insert_ne.
Qed.

(** [New_pointer] takes a slot that was free and leaves the others. *)
Lemma New_pointer_slots begin a a' p :
  well_formed a -> New_pointer begin a = Ok (a', p) ->
  well_formed a' /\
  ~ slot_used a p /\ slot_used a' p /\
  (forall q, q <> p -> slot_used a' q <-> slot_used a q).
Proof.
  intros Hwf Hnew.
  destruct (New_pointer_inv _ _ _ _ Hnew)
    as (buffer & blk & mask' & row & Hb & Hmem & Hvalid & Hset & -> & ->).
  set (b := Word.u32 (begin (buffers_with_free_space a))) in *.
  pose proof Hwf as [(Hbc & Hav & Hbc8) Hbufs].
  pose proof (Hbufs b buffer Hb) as Hok.
  assert (0 <= available_segments_per_buffer a) as Hav0 by lia.
  destruct (buffer_ok_allocate _ _ _ _ _ _ Hav0 Hok Hmem Hvalid Hset)
    as (Hrow & Hlt & Hok').
  pose proof (buffer_ok_count _ _ _ Hav0 Hok) as Hcount.
  assert (Word.add (segment_count buffer) 1 = segment_count buffer + 1) as Hadd.
  { apply wrap_small. unfold Word.modulus, BLOCK_SIZE in *. lia. }
  apply RowIsValid_Ok in Hvalid as [_ Hbit].
  destruct (SetInvalid_Ok _ _ _ Hset ltac:(lia)) as [_ Hbits].
  assert (Word.u32 row = row) as Hu.
  { apply u32_small. unfold BLOCK_SIZE in Hbc8. lia. }
  rewrite Hu.
  split; [ apply well_formed_insert; [ done | by rewrite Hadd ] | ].
  unfold slot_used.
  cbn [GetBufferId GetOffsetOf with_state buffers available_segments_per_buffer].
  split; [ | split ].
  - intros (buffer0 & blk0 & Hb0 & Hmem0 & _ & Hclear).
    rewrite Hb in Hb0. injection Hb0 as <-.
    rewrite Hmem in Hmem0. injection Hmem0 as <-. congruence.
  - rewrite lookup_insert_eq. eexists _, _. split; [ reflexivity | ].
    split; [ cbn; by apply set_bitmap_memory | ].
    split; [ done | ]. cbn [bitmap]. rewrite Hbits by lia. by rewrite decide_True.
  - intros [bq oq] Hq. cbn [GetBufferId GetOffsetOf].
    destruct (decide (bq = b)) as [-> | Hne].
    + rewrite lookup_insert_eq, Hb.
      assert (oq <> row) as Hoq by congruence.
      split.
      * intros (buffer0 & blk0 & [= <-] & Hmem0 & Hoff & Hclear).
        cbn in Hmem0. rewrite (set_bitmap_memory _ _ _ Hmem) in Hmem0.
        injection Hmem0 as <-. cbn [bitmap] in Hclear.
        rewrite Hbits in Hclear by lia. rewrite decide_False in Hclear by done.
        by exists buffer, blk.
      * intros (buffer0 & blk0 & [= <-] & Hmem0 & Hoff & Hclear).
        rewrite Hmem in Hmem0. injection Hmem0 as <-.
        eexists _, _. split; [ reflexivity | ].
        split; [ cbn; by apply set_bitmap_memory | ].
        split; [ done | ]. cbn [bitmap].
        rewrite Hbits by lia. by rewrite decide_False.
    + by rewrite lookup_insert_ne.
Qed.

(** [New] hands out a slot that was not in use, marks it used and leaves
    every other slot as it was. *)
Lemma New_slots begin a a' p :
  well_formed a -> New begin a = Ok (a', p) ->
  well_formed a' /\
  ~ slot_used a p /\ slot_used a' p /\
  (forall q, q <> p -> slot_used a' q <-> slot_used a q).
Proof.
  intros Hwf Hnew. unfold New in Hnew.
  destruct (New_add_buffer a) as [a1 | | ] eqn:Hadd; cbn [mbind outcome_bind] in Hnew; try done.
  destruct (New_add_buffer_slots _ _ Hwf Hadd) as [Hwf1 Hsame].
  destruct (New_pointer_slots _ _ _ _ Hwf1 Hnew) as (Hwf' & Hfree & Hused & Hframe).
  split; [ done | ]. split; [ by rewrite <- Hsame | ]. split; [ done | ].
  intros q Hq. by rewrite Hframe, Hsame.
Qed.

(** ** [New] succeeds *)

Lemma New_add_buffer_total a :
  exists a1, New_add_buffer a = Ok a1.
Proof.
  unfold New_add_buffer.
  destruct (decide (buffers_with_free_space a = ∅)); [ | by eexists ].
  destruct (GetAvailableBufferId_spec (buffers a)) as (id & -> & _ & Hnone & _).
  cbn [mbind outcome_bind]. unfold map_insert_new. rewrite Hnone.
  unfold find_buffer. rewrite lookup_insert_eq. cbn [mbind outcome_bind].
  unfold Get_block, FixedSizeBuffer_fresh. cbn [memory of_option mbind outcome_bind].
  by eexists.
Qed.

Lemma GetOffset_total a buffer blk :
  layout_ok a ->
  buffer_ok (bitmask_count a) (available_segments_per_buffer a) buffer ->
  memory buffer = Some blk ->
  segment_count buffer < available_segments_per_buffer a ->
  exists mask' offset, GetOffset a (bitmap blk) (segment_count buffer) = Ok (mask', offset).
Proof.
  intros (Hbc & Hav & Hbc8) Hok Hmem Hlt.
  assert (0 <= available_segments_per_buffer a) as Hav0 by lia.
  pose proof (buffer_ok_count _ _ _ Hav0 Hok) as Hcount.
  destruct Hok as (blk' & Hmem' & Hlen & Hwords & Hhigh & Hused).
  rewrite Hmem in Hmem'. injection Hmem' as <-.
  unfold BLOCK_SIZE in Hbc8.
  pose proof (GetOffset_spec a (bitmap blk) (segment_count buffer) Hwords Hlen
                ltac:(lia) ltac:(lia)) as Hspec.
  destruct (mask_bit (bitmap blk) (segment_count buffer)).
  - destruct Hspec as (mask' & _ & ->). by eexists _, _.
  - destruct Hspec as [[Hnone _] | (j & mask' & _ & _ & ->)]; [ exfalso | by eexists _, _ ].
    unfold used_slots in Hused.
    destruct (count_clear_lt (bitmap blk) (Z.to_nat (available_segments_per_buffer a)))
      as (j & Hj & Hset); [ lia | ].
    rewrite Hnone in Hset by lia. done.
Qed.

Lemma New_pointer_total begin a :
  coherent a -> begin_ok begin -> buffers_with_free_space a <> ∅ ->
  (forall b, b ∈ buffers_with_free_space a -> 0 <= b < 2 ^ 32) ->
  exists a' p, New_pointer begin a = Ok (a', p).
Proof.
  intros Hcoh Hbegin Hne Hids. unfold New_pointer.
  rewrite bool_decide_true by done. cbn [D_ASSERT mbind outcome_bind].
  pose proof (Hbegin _ Hne) as Hin.
  rewrite (u32_small _ (Hids _ Hin)).
  apply (coh_free _ Hcoh) in Hin as (buffer & Hb & Hlt).
  unfold find_buffer. rewrite Hb. cbn [mbind outcome_bind].
  pose proof (coh_buffers _ Hcoh _ _ Hb) as Hok.
  pose proof Hok as (blk & Hmem & _).
  unfold Get_block. rewrite Hmem. cbn [of_option mbind outcome_bind].
  destruct (GetOffset_total a buffer blk (coh_layout _ Hcoh) Hok Hmem Hlt)
    as (mask' & offset & ->).
  cbn [mbind outcome_bind]. by eexists _, _.
Qed.

(** ** The slot [Free] releases *)

(** What a successful [Free] did. *)
Lemma Free_inv ptr a a' :
  Free ptr a = Ok a' ->
  exists buffer blk mask',
    buffers a !! GetBufferId ptr = Some buffer /\ memory buffer = Some blk /\
    ValidityMask.RowIsValid (bitmap blk) (GetOffsetOf ptr) = Ok false /\
    ValidityMask.SetValid (bitmap blk) (GetOffsetOf ptr) = Ok mask' /\
    a' = with_state a (Word.sub (total_segment_count a) 1)
           (<[GetBufferId ptr :=
                set_segment_count (set_bitmap buffer mask')
                  (Word.sub (segment_count buffer) 1)]> (buffers a))
           (buffers_with_free_space a ∪ {[GetBufferId ptr]}).
Proof.
  unfold Free, find_buffer.
  destruct (buffers a !! GetBufferId ptr) as [buffer | ]; cbn [mbind outcome_bind]; [ | done ].
  unfold Get_block.
  destruct (memory buffer) as [blk | ] eqn:Hmem; cbn [of_option mbind outcome_bind]; [ | done ].
  destruct (ValidityMask.RowIsValid (bitmap blk) (GetOffsetOf ptr)) as [[ | ] | | ] eqn:Hv;
    cbn [mbind outcome_bind negb D_ASSERT]; try done.
  destruct (ValidityMask.SetValid (bitmap blk) (GetOffsetOf ptr)) as [mask' | | ] eqn:Hs;
    cbn [mbind outcome_bind]; try done.
  destruct (total_segment_count a >? 0); cbn [mbind outcome_bind D_ASSERT]; [ | done ].
  destruct (segment_count buffer >? 0); cbn [mbind outcome_bind D_ASSERT]; [ | done ].
  intros [= <-]. by exists buffer, blk, mask'.
Qed.

(** [Free] releases the slot of the pointer and leaves every other slot
    as it was. *)
Lemma Free_slots ptr a a' :
  0 <= GetOffsetOf ptr < available_segments_per_buffer a ->
  Free ptr a = Ok a' ->
  slot_used a ptr /\ ~ slot_used a' ptr /\
  (forall q, q <> ptr -> slot_used a' q <-> slot_used a q).
Proof.
  intros Hoff Hfree.
  destruct (Free_inv _ _ _ Hfree) as (buffer & blk & mask' & Hb & Hmem & Hvalid & Hset & ->).
  apply RowIsValid_Ok in Hvalid as [Hrange Hclear].
  destruct (SetValid_Ok _ _ _ Hset ltac:(lia)) as [Hlen Hbits].
  unfold slot_used. cbn [with_state buffers available_segments_per_buffer].
  split; [ | split ].
  - by exists buffer, blk.
  - rewrite lookup_insert_eq.
    intros (buffer0 & blk0 & [= <-] & Hmem0 & _ & Hclear0).
    cbn in Hmem0. rewrite (set_bitmap_memory _ _ _ Hmem) in Hmem0.
    injection Hmem0 as <-. cbn [bitmap] in Hclear0.
    rewrite Hbits in Hclear0 by lia. by rewrite decide_True in Hclear0.
  - intros q Hq.
    destruct (decide (GetBufferId q = GetBufferId ptr)) as [Heq | Hne].
    + rewrite Heq, lookup_insert_eq, Hb.
      assert (GetOffsetOf q <> GetOffsetOf ptr) as Hoq.
      { intros Ho. apply Hq. destruct q, ptr. cbn in *. congruence. }
      split.
      * intros (buffer0 & blk0 & [= <-] & Hmem0 & Hoff0 & Hclear0).
        cbn in Hmem0. rewrite (set_bitmap_memory _ _ _ Hmem) in Hmem0.
        injection Hmem0 as <-. cbn [bitmap] in Hclear0.
        rewrite Hbits in Hclear0 by lia. rewrite decide_False in Hclear0 by done.
        by exists buffer, blk.
      * intros (buffer0 & blk0 & [= <-] & Hmem0 & Hoff0 & Hclear0).
        rewrite Hmem in Hmem0. injection Hmem0 as <-.
        eexists _, _. split; [ reflexivity | ].
        split; [ cbn; by apply set_bitmap_memory | ].
        split; [ done | ]. cbn [bitmap].
        rewrite Hbits by lia. by rewrite decide_False.
    + by rewrite lookup_insert_ne.
Qed.

(** ** A buffer is filled in order *)

Lemma same_layout_ok a a' : same_layout a a' -> layout_ok a -> layout_ok a'.
Proof. intros (_ & Hbc & _ & Hav). unfold layout_ok. by rewrite Hbc, Hav. Qed.

(** The fast path: the slot at [segment_count] is free. *)
Lemma New_pointer_fast begin a b buffer blk :
  buffers_with_free_space a <> ∅ -> begin (buffers_with_free_space a) = b ->
  0 <= b < 2 ^ 32 ->
  buffers a !! b = Some buffer -> memory buffer = Some blk ->
  0 <= segment_count buffer < 64 * Z.of_nat (length (bitmap blk)) ->
  segment_count buffer < 2 ^ 32 ->
  mask_bit (bitmap blk) (segment_count buffer) = true ->
  exists mask', takes_slot (bitmap blk) mask' (segment_count buffer) /\
    New_pointer begin a =
      Ok (with_state a (Word.add (total_segment_count a) 1)
            (<[b := set_segment_count (set_bitmap buffer mask')
                      (segment_count buffer + 1)]> (buffers a))
            (if segment_count buffer + 1 =? available_segments_per_buffer a
             then buffers_with_free_space a ∖ {[b]}
             else buffers_with_free_space a),
          MkIndexPointer b (segment_count buffer)).
Proof.
  intros Hne Hpick Hb32 Hb Hmem Hrange Hsmall Hbit.
  destruct (SetInvalid_takes (bitmap blk) (segment_count buffer) Hrange) as (mask' & Hset & Htakes).
  exists mask'. split; [ done | ].
  unfold New_pointer. rewrite bool_decide_true by done.
  cbn [D_ASSERT mbind outcome_bind]. rewrite Hpick, (u32_small b Hb32).
  unfold find_buffer. rewrite Hb. cbn [mbind outcome_bind].
  unfold Get_block. rewrite Hmem. cbn [of_option mbind outcome_bind].
  unfold GetOffset. rewrite RowIsValid_in_range by done. rewrite Hbit.
  cbn [mbind outcome_bind]. rewrite Hset. cbn [mbind outcome_bind].
  assert (Word.add (segment_count buffer) 1 = segment_count buffer + 1) as ->.
  { apply wrap_small. unfold Word.modulus. lia. }
  unfold IndexPointer_new.
  rewrite (u32_small b Hb32), !(u32_small (segment_count buffer)) by lia.
  reflexivity.
Qed.

Lemma New_add_buffer_first a :
  layout_ok a -> buffers a = ∅ -> buffers_with_free_space a = ∅ ->
  exists a1, New_add_buffer a = Ok a1 /\ filled_to a1 0 /\ same_layout a a1 /\
             total_segment_count a1 = total_segment_count a.
Proof.
  intros (Hbc & Hav & Hbc8) Hbufs Hfree. unfold New_add_buffer.
  rewrite decide_True by done.
  unfold GetAvailableBufferId. rewrite Hbufs, map_size_empty.
  cbn [GetAvailableBufferId_from]. rewrite lookup_empty.
  cbn [mbind outcome_bind]. unfold map_insert_new. rewrite lookup_empty.
  unfold find_buffer. rewrite lookup_insert_eq. cbn [mbind outcome_bind].
  unfold Get_block.
  destruct (memory (FixedSizeBuffer_fresh (bitmask_count a))) as [blk | ] eqn:Hblk; [ | done ].
  cbn [of_option mbind outcome_bind].
  destruct (fresh_buffer_ok _ _ Hbc Hav blk Hblk) as (Hok & Hcount & Hbits).
  eexists. split; [ reflexivity | ]. split; [ | done ].
  destruct Hok as (blk' & Hmem' & Hlen & _).
  eexists _, blk'. cbn [with_state buffers buffers_with_free_space
    available_segments_per_buffer bitmask_count].
  split; [ by rewrite insert_insert_eq, insert_empty | ].
  split.
  { rewrite Hfree, (left_id_L ∅ (∪)).
    destruct (Z.ltb_spec 0 (available_segments_per_buffer a)); [ done | lia ]. }
  split; [ done | ]. split; [ done | ]. split; [ done | ].
  intros j Hj. specialize (Hbits j Hj). rewrite Hmem' in Hbits. rewrite Hbits.
  destruct (Z.leb_spec 0 j); [ done | lia ].
Qed.

Lemma New_pointer_filled begin a k :
  layout_ok a -> begin_ok begin -> filled_to a k ->
  0 <= k < available_segments_per_buffer a ->
  exists a', New_pointer begin a = Ok (a', MkIndexPointer 0 k) /\
    filled_to a' (k + 1) /\ same_layout a a'.
Proof.
  intros (Hbc & Hav & Hbc8) Hbegin (buffer & blk & Hbufs & Hfree & Hmem & Hcount & Hlen & Hbits) Hk.
  unfold BLOCK_SIZE in Hbc8.
  destruct (Z.ltb_spec k (available_segments_per_buffer a)) as [ _ | ]; [ | lia ].
  assert (begin (buffers_with_free_space a) = 0) as Hpick.
  { assert (begin ({[0]} : gset Z) ∈ ({[0]} : gset Z)) as Hin
      by apply Hbegin, non_empty_singleton_L.
    rewrite Hfree. by apply elem_of_singleton in Hin. }
  destruct (New_pointer_fast begin a 0 buffer blk) as (mask' & [Hlen' Htakes] & Hnew).
  { rewrite Hfree. apply non_empty_singleton_L. }
  { done. }
  { lia. }
  { rewrite Hbufs. apply lookup_singleton_eq. }
  { done. }
  { lia. }
  { lia. }
  { rewrite Hcount, Hbits by lia.
    destruct (Z.leb_spec k k); [ | lia ].
    destruct (Z.ltb_spec k (available_segments_per_buffer a)); [ done | lia ]. }
  rewrite Hcount in *. eexists. split; [ exact Hnew | ]. split; [ | done ].
  eexists _, _. cbn [with_state buffers buffers_with_free_space
    available_segments_per_buffer bitmask_count].
  split; [ rewrite Hbufs, <- insert_empty; apply insert_insert_eq | ]. split.
  { rewrite Hfree.
    destruct (Z.eqb_spec (k + 1) (available_segments_per_buffer a)),
             (Z.ltb_spec (k + 1) (available_segments_per_buffer a)); try lia.
    - apply difference_diag_L.
    - done. }
  split; [ cbn; by apply set_bitmap_memory | ].
  split; [ done | ]. cbn [bitmap]. split; [ lia | ].
  intros j Hj. rewrite Htakes, Hbits by done.
  destruct (decide (j = k)) as [-> | Hne].
  - destruct (Z.leb_spec (k + 1) k); [ lia | done ].
  - destruct (Z.leb_spec k j), (Z.leb_spec (k + 1) j); try lia; done.
Qed.

Lemma New_filled begin a k :
  layout_ok a -> begin_ok begin -> filled_to a k ->
  0 <= k < available_segments_per_buffer a ->
  exists a', New begin a = Ok (a', MkIndexPointer 0 k) /\
    filled_to a' (k + 1) /\ same_layout a a'.
Proof.
  intros Hlay Hbegin Hfill Hk. unfold New, New_add_buffer.
  destruct Hfill as (buffer & blk & Hbufs & Hfree & Hrest).
  rewrite decide_False.
  - cbn [mbind outcome_bind]. apply New_pointer_filled; try done.
    by exists buffer, blk.
  - rewrite Hfree.
    destruct (Z.ltb_spec k (available_segments_per_buffer a)); [ | lia ].
    apply non_empty_singleton_L.
Qed.

Lemma New_times_filled begin (m : nat) :
  begin_ok begin ->
  forall a k, layout_ok a -> filled_to a k -> 0 <= k ->
  k + Z.of_nat m <= available_segments_per_buffer a ->
  exists a', New_times begin m a =
               Ok (a', map (MkIndexPointer 0) (seqZ k (Z.of_nat m))) /\
    filled_to a' (k + Z.of_nat m) /\ same_layout a a'.
Proof.
  intros Hbegin. induction m as [ | m IH ]; intros a k Hlay Hfill Hk Hle.
  - cbn [New_times]. exists a. split; [ done | ].
    split; [ by rewrite Z.add_0_r | done ].
  - cbn [New_times].
    destruct (New_filled begin a k Hlay Hbegin Hfill ltac:(lia)) as (a1 & -> & Hfill1 & Hsame1).
    cbn [mbind outcome_bind].
    pose proof (same_layout_ok _ _ Hsame1 Hlay) as Hlay1.
    destruct Hsame1 as (Hs1 & Hb1 & Ho1 & Hav1).
    destruct (IH a1 (k + 1) Hlay1 Hfill1 ltac:(lia) ltac:(lia)) as (a' & -> & Hfill' & Hsame').
    cbn [mbind outcome_bind].
    exists a'. split.
    + rewrite (seqZ_cons k (Z.of_nat (S m))) by lia. cbn [map].
      replace (Z.succ k) with (k + 1) by lia.
      replace (Z.pred (Z.of_nat (S m))) with (Z.of_nat m) by lia. done.
    + replace (k + Z.of_nat (S m)) with (k + 1 + Z.of_nat m) by lia.
      split; [ done | ].
      destruct Hsame' as (Hs' & Hb' & Ho' & Hav').
      repeat split; congruence.
Qed.

(** When buffer 0 is full, [New] opens buffer 1 and takes its slot 0. *)
Lemma New_next_buffer begin a :
  layout_ok a -> begin_ok begin ->
  filled_to a (available_segments_per_buffer a) ->
  exists a', New begin a = Ok (a', MkIndexPointer 1 0).
Proof.
  intros (Hbc & Hav & Hbc8) Hbegin (buffer & blk & Hbufs & Hfree & _).
  rewrite Z.ltb_irrefl in Hfree. unfold BLOCK_SIZE in Hbc8.
  unfold New, New_add_buffer. rewrite decide_True by done.
  unfold GetAvailableBufferId. rewrite Hbufs, map_size_singleton.
  cbn [GetAvailableBufferId_from]. change (Z.of_nat 1) with 1.
  rewrite lookup_singleton_ne by lia.
  cbn [mbind outcome_bind]. unfold map_insert_new. rewrite lookup_singleton_ne by lia.
  unfold find_buffer. rewrite lookup_insert_eq. cbn [mbind outcome_bind].
  unfold Get_block.
  destruct (memory (FixedSizeBuffer_fresh (bitmask_count a))) as [blk0 | ] eqn:Hblk; [ | done ].
  cbn [of_option mbind outcome_bind].
  destruct (fresh_buffer_ok _ _ Hbc Hav blk0 Hblk) as (Hok & Hcount & Hbits).
  destruct Hok as (blk1 & Hmem1 & Hlen1 & _).
  specialize (Hbits 0 ltac:(lia)). rewrite Hmem1 in Hbits.
  set (buffer1 := set_bitmap (FixedSizeBuffer_fresh (bitmask_count a))
                    (ValidityMask.SetAllValid (bitmap blk0)
                       (available_segments_per_buffer a))) in *.
  match goal with
  | |- context [ New_pointer begin ?a1 ] =>
      destruct (New_pointer_fast begin a1 1 buffer1 blk1) as (mask' & _ & Hnew)
  end.
  - cbn. rewrite Hfree, (left_id_L ∅ (∪)). apply non_empty_singleton_L.
  - cbn. rewrite Hfree, (left_id_L ∅ (∪)).
    assert (begin ({[1]} : gset Z) ∈ ({[1]} : gset Z)) as Hin
      by apply Hbegin, non_empty_singleton_L.
    by apply elem_of_singleton in Hin.
  - lia.
  - cbn. apply lookup_insert_eq.
  - exact Hmem1.
  - rewrite Hcount. lia.
  - rewrite Hcount. lia.
  - rewrite Hcount, Hbits.
    destruct (Z.ltb_spec 0 (available_segments_per_buffer a)); [ done | lia ].
  - rewrite Hcount in Hnew. rewrite Hnew. by eexists.
Qed.

(** ** Vacuum marks stay clear without a vacuum *)

Lemma set_bitmap_vacuum buffer mask : vacuum (set_bitmap buffer mask) = vacuum buffer.
Proof. unfold set_bitmap. by destruct (memory buffer). Qed.

Lemma no_vacuum_insert a total b buffer free :
  no_vacuum a -> vacuum buffer = false ->
  no_vacuum (with_state a total (<[b := buffer]> (buffers a)) free).
Proof.
  intros [Hvac Hflags] Hflag. split; [ done | ]. cbn [with_state buffers].
  intros b0 buffer0 Hb0. destruct (decide (b0 = b)) as [-> | Hne].
  - rewrite lookup_insert_eq in Hb0. by injection Hb0 as <-.
  - rewrite lookup_insert_ne in Hb0 by done. by eapply Hflags.
Qed.

Lemma New_no_vacuum begin a a' p :
  New begin a = Ok (a', p) -> no_vacuum a -> no_vacuum a'.
Proof.
  unfold New. destruct (New_add_buffer a) as [a1 | | ] eqn:Hadd;
    cbn [mbind outcome_bind]; try done.
  intros Hptr Hno.
  assert (no_vacuum a1) as Hno1.
  { destruct (New_add_buffer_inv _ _ Hadd) as [-> | (id & blk & _ & _ & ->)]; [ done | ].
    apply no_vacuum_insert; [ done | ]. by rewrite set_bitmap_vacuum. }
  destruct (New_pointer_inv _ _ _ _ Hptr)
    as (buffer & blk & mask' & row & Hb & _ & _ & _ & _ & ->).
  apply no_vacuum_insert; [ done | ].
  cbn [vacuum set_segment_count]. rewrite set_bitmap_vacuum.
  destruct Hno1 as [_ Hflags]. by eapply Hflags.
Qed.

Lemma Free_no_vacuum ptr a a' :
  Free ptr a = Ok a' -> no_vacuum a -> no_vacuum a'.
Proof.
  intros Hfree Hno.
  destruct (Free_inv _ _ _ Hfree) as (buffer & blk & mask' & Hb & _ & _ & _ & ->).
  apply no_vacuum_insert; [ done | ].
  cbn [vacuum set_segment_count]. rewrite set_bitmap_vacuum.
  destruct Hno as [_ Hflags]. by eapply Hflags.
Qed.

Lemma Store_no_vacuum ptr bytes a a' :
  Store ptr bytes a = Ok a' -> no_vacuum a -> no_vacuum a'.
Proof.
  unfold Store, find_buffer.
  destruct (buffers a !! GetBufferId ptr) as [buffer | ] eqn:Hb;
    cbn [mbind outcome_bind]; [ | done ].
  unfold Get_block. destruct (memory buffer) as [blk | ];
    cbn [of_option mbind outcome_bind]; [ | done ].
  destruct (_ && _); [ | done ]. intros [= <-] Hno.
  apply no_vacuum_insert; [ done | ]. cbn [vacuum set_payload].
  destruct Hno as [_ Hflags]. by eapply Hflags.
Qed.

Lemma reachable_no_vacuum s a : reachable s a -> no_vacuum a.
Proof.
  induction 1 as [ a Hs Hnew | begin a a' p _ IH Hb Hn | ptr a a' _ IH Hoff Hf
                 | ptr bytes a a' _ IH Hoff Hst ].
  - destruct (FixedSizeAllocator_new_Ok s a ltac:(lia) Hnew) as (Hvalid & _ & _ & _ & Hbufs & _).
    destruct (FixedSizeAllocator_new_total s Hvalid)
      as (a0 & Heq & _ & _ & _ & _ & _ & _ & _ & _ & Hvac).
    rewrite Hnew in Heq. injection Heq as <-.
    split; [ done | ]. intros b buffer. by rewrite Hbufs, lookup_empty.
  - by eapply New_no_vacuum.
  - by eapply Free_no_vacuum.
  - by eapply Store_no_vacuum.
Qed.

(** ** [Merge] keeps the allocator consistent *)

Lemma Merge_sum_fold (upper : Z) (l : list (Z * FixedSizeBuffer)) :
  forall m : gmap Z FixedSizeBuffer,
  NoDup l.*1 ->
  (forall e, e ∈ l -> 0 <= e.1 /\ e.1 + upper < Word.modulus) -> 0 <= upper ->
  (forall e, e ∈ l -> m !! (e.1 + upper) = None) ->
  sum_counts (foldl (fun m entry => map_insert_new (Word.add entry.1 upper) entry.2 m) m l) =
    sum_counts m + foldr (fun e acc => segment_count e.2 + acc) 0 l.
Proof.
  induction l as [ | [id buffer] l IH ]; intros m Hnd Hl Hup Hfree; cbn [foldl foldr].
  - lia.
  - cbn [fmap list_fmap fst] in Hnd. apply NoDup_cons in Hnd as [Hnotin Hnd].
    pose proof (Hl (id, buffer) ltac:(by left)) as Hid. cbn [fst] in Hid.
    assert (Word.add id upper = id + upper) as Hadd by (apply wrap_small; lia).
    cbn [fst snd]. rewrite Hadd. unfold map_insert_new at 2.
    pose proof (Hfree (id, buffer) ltac:(by left)) as Hf0. cbn [fst] in Hf0.
    rewrite Hf0.
    rewrite IH; [ | done | intros; apply Hl; by right | done | ].
    + rewrite sum_counts_insert_new by done. lia.
    + intros e He. rewrite lookup_insert_ne.
      * apply Hfree. by right.
      * intros Heq. apply Hnotin. apply list_elem_of_fmap. exists e.
        split; [ lia | done ].
Qed.

(** The buffers and the ids with free space [Merge] leaves, when no id
    wraps around. *)
Lemma Merge_Ok (a other : FixedSizeAllocator) :
  segment_size a = segment_size other ->
  map_Forall (fun k _ => 0 <= k < Word.modulus - 1) (buffers a) ->
  ids_fit (max_key_plus_one (buffers a)) other ->
  exists a',
    Merge a other = Ok (a', with_state other (total_segment_count other) ∅ ∅) /\
    same_layout a a' /\
    total_segment_count a' =
      Word.add (total_segment_count a) (total_segment_count other) /\
    (forall k, buffers a' !! k =
       match buffers other !! (k - max_key_plus_one (buffers a)) with
       | Some buffer => Some buffer
       | None => buffers a !! k
       end) /\
    (forall k, k ∈ buffers_with_free_space a' <->
       k ∈ buffers_with_free_space a \/
       exists id, id ∈ buffers_with_free_space other /\
                  k = id + max_key_plus_one (buffers a)) /\
    sum_counts (buffers a') = sum_counts (buffers a) + sum_counts (buffers other).
Proof.
  intros Hsize Hkeys [Hfit_bufs Hfit_free].
  destruct (max_key_plus_one_spec (buffers a)) as (Hup0 & Hub & _).
  unfold Merge. rewrite Hsize, Z.eqb_refl. cbn [D_ASSERT mbind outcome_bind].
  rewrite (GetUpperBoundBufferId_spec _ Hkeys).
  set (upper := max_key_plus_one (buffers a)) in *.
  assert (forall e : Z * FixedSizeBuffer, e ∈ map_to_list (buffers other) ->
            0 <= e.1 /\ e.1 + upper < Word.modulus) as Hl.
  { intros [id buffer] He. apply elem_of_map_to_list in He.
    apply (Hfit_bufs id buffer He). }
  assert (forall e : Z * FixedSizeBuffer, e ∈ map_to_list (buffers other) ->
            buffers a !! (e.1 + upper) = None) as Hfresh.
  { intros [id buffer] He. apply elem_of_map_to_list in He.
    destruct (Hfit_bufs id buffer He) as [Hid _]. cbn [fst] in *.
    destruct (buffers a !! (id + upper)) as [b' | ] eqn:E; [ | done ].
    specialize (Hub (id + upper) ltac:(by rewrite E)). lia. }
  eexists. split; [ reflexivity | ].
  split; [ done | ]. split; [ done | ].
  cbn [with_state buffers buffers_with_free_space].
  split; [ | split ].
  - intros k. rewrite Merge_buffers_fold; try done.
    + by rewrite list_to_map_to_list.
    + apply NoDup_fst_map_to_list.
  - intros k. rewrite Merge_free_fold.
    + split; (intros [ | (id & Hid & ->) ]; [ by left | right; exists id ]);
        (split; [ by apply elem_of_elements | done ]).
    + intros id Hid. apply elem_of_elements in Hid. by apply Hfit_free.
    + done.
  - rewrite Merge_sum_fold; try done.
    + by rewrite sum_counts_foldr.
    + apply NoDup_fst_map_to_list.
Qed.

(** ** Sums over lists *)

Lemma sumZ_app {A} (f : A -> Z) l1 l2 : sumZ f (l1 ++ l2) = sumZ f l1 + sumZ f l2.
Proof. induction l1 as [ | x l1 IH ]; cbn; [ done | ]. unfold sumZ in *. lia. Qed.

Lemma sumZ_perm {A} (f : A -> Z) l1 l2 : l1 ≡ₚ l2 -> sumZ f l1 = sumZ f l2.
Proof.
  induction 1 as [ | x l1 l2 _ IH | x y l | l1 l2 l3 _ IH1 _ IH2 ]; cbn; unfold sumZ in *; lia.
Qed.

Lemma sumZ_map {A B} (g : A -> B) (f : B -> Z) l : sumZ f (map g l) = sumZ (fun x => f (g x)) l.
Proof. induction l as [ | x l IH ]; cbn; [ done | ]. unfold sumZ in *. by rewrite IH. Qed.

Lemma sumZ_ext {A} (f g : A -> Z) l :
  (forall x, x ∈ l -> f x = g x) -> sumZ f l = sumZ g l.
Proof.
  induction l as [ | x l IH ]; intros H; cbn; [ done | ].
  unfold sumZ in *. rewrite IH by (intros; apply H; by right).
  rewrite (H x) by (by left). done.
Qed.

Lemma sumZ_zero {A} (f : A -> Z) l : (forall x, x ∈ l -> f x = 0) -> sumZ f l = 0.
Proof.
  induction l as [ | x l IH ]; intros H; cbn; [ done | ].
  unfold sumZ in *. rewrite IH by (intros; apply H; by right).
  rewrite (H x) by (by left). done.
Qed.

Lemma sumZ_plus {A} (f g : A -> Z) l :
  sumZ (fun x => f x + g x) l = sumZ f l + sumZ g l.
Proof. induction l as [ | x l IH ]; cbn; [ done | ]. unfold sumZ in *. lia. Qed.

Lemma sumZ_const {A} (c : Z) (l : list A) : sumZ (fun _ => c) l = Z.of_nat (length l) * c.
Proof. induction l as [ | x l IH ]; cbn [length]; [ done | ]. unfold sumZ in *. cbn. lia. Qed.

Lemma sumZ_bounds {A} (f : A -> Z) l lo hi :
  (forall x, x ∈ l -> lo <= f x <= hi) ->
  Z.of_nat (length l) * lo <= sumZ f l <= Z.of_nat (length l) * hi.
Proof.
  induction l as [ | x l IH ]; intros H; cbn [length]; [ cbn; lia | ].
  pose proof (H x ltac:(by left)).
  assert (Z.of_nat (length l) * lo <= sumZ f l <= Z.of_nat (length l) * hi) as IH'
    by (apply IH; intros; apply H; by right).
  unfold sumZ in *. cbn. lia.
Qed.

Lemma sum_counts_sumZ (bufs : gmap Z FixedSizeBuffer) :
  sum_counts bufs = sumZ (fun e => segment_count e.2) (map_to_list bufs).
Proof. symmetry. apply sum_counts_foldr. Qed.

(** ** The multimap of [InitializeVacuum] *)

Lemma multimap_emplace_perm key value l :
  multimap_emplace key value l ≡ₚ (key, value) :: l.
Proof.
  induction l as [ | e l IH ]; cbn [multimap_emplace]; [ done | ].
  destruct (key <? e.1); [ done | ].
  rewrite IH. apply perm_swap.
Qed.

Lemma multimap_emplace_ascending key value l :
  ascending l -> ascending (multimap_emplace key value l).
Proof.
  induction l as [ | e l IH ]; cbn [multimap_emplace ascending]; intros Hl.
  - done.
  - destruct Hl as [He Hl].
    destruct (Z.ltb_spec key e.1) as [Hlt | Hge]; cbn [ascending].
    + split; [ | done ]. constructor 2; [ cbn; lia | ].
      eapply Forall_impl; [ exact He | ]. cbn. intros y Hy. lia.
    + split; [ | by apply IH ].
      rewrite multimap_emplace_perm. constructor 2; [ cbn; lia | done ].
Qed.

Lemma ascending_app l1 l2 :
  ascending (l1 ++ l2) ->
  forall x y, x ∈ l1 -> y ∈ l2 -> x.1 <= y.1.
Proof.
  induction l1 as [ | e l1 IH ]; cbn [app ascending]; intros Hl x y Hx Hy.
  - by apply elem_of_nil in Hx.
  - destruct Hl as [He Hl]. apply elem_of_cons in Hx as [-> | Hx].
    + rewrite Forall_forall in He. apply He. apply elem_of_app. by right.
    + by apply IH.
Qed.

Lemma InitializeVacuum_trim_spec (k : Z) (l : list (Z * Z)) :
  0 <= k <= Z.of_nat (length l) ->
  InitializeVacuum_trim k l = Ok (drop (length l - Z.to_nat k) l).
Proof.
  induction l as [ | e l IH ]; intros Hk; cbn [InitializeVacuum_trim length].
  - cbn [length] in Hk. destruct (Z.eqb_spec (Z.of_nat 0) k); [ done | lia ].
  - destruct (Z.eqb_spec (Z.of_nat (S (length l))) k) as [Heq | Hne].
    + replace (S (length l) - Z.to_nat k)%nat with 0%nat by lia. done.
    + cbn [length] in Hk. rewrite IH by lia.
      replace (S (length l) - Z.to_nat k)%nat with (S (length l - Z.to_nat k)) by lia.
      done.
Qed.

(** ** The first loop of [InitializeVacuum] *)

Lemma InitializeVacuum_visit_fold a l :
  0 <= available_segments_per_buffer a ->
  forall m s t,
  (forall e, e ∈ l -> InMemory e.2 = true /\
                      0 <= segment_count e.2 <= available_segments_per_buffer a) ->
  0 <= s -> s + Z.of_nat (length l) * available_segments_per_buffer a < Word.modulus ->
  foldl (InitializeVacuum_visit a) (m, s, t) l =
    (clear_flags m l,
     s + sumZ (fun e => available_segments_per_buffer a - segment_count e.2) l,
     emplace_all a t l).
Proof.
  intros Hav. induction l as [ | e l IH ]; intros m s t Hl Hs Hbound.
  - cbn. by rewrite Z.add_0_r.
  - cbn [foldl length] in *.
    destruct (Hl e ltac:(by left)) as [Hmem Hcount].
    unfold InitializeVacuum_visit at 2.
    replace (InMemory (set_vacuum e.2 false)) with true.
    cbn [set_vacuum segment_count].
    assert (Word.sub (available_segments_per_buffer a) (segment_count e.2) =
            available_segments_per_buffer a - segment_count e.2) as ->.
    { apply wrap_small. nia. }
    assert (Word.add s (available_segments_per_buffer a - segment_count e.2) =
            s + (available_segments_per_buffer a - segment_count e.2)) as ->.
    { apply wrap_small. nia. }
    rewrite IH; [ | intros; apply Hl; by right | lia | nia ].
    unfold clear_flags, emplace_all, sumZ. cbn [foldl foldr vacuum_entry fst snd].
    f_equal. f_equal. lia.
Qed.

Lemma emplace_all_perm a l : forall t, emplace_all a t l ≡ₚ t ++ map (vacuum_entry a) l.
Proof.
  induction l as [ | e l IH ]; intros t; unfold emplace_all in *; cbn [foldl map].
  - by rewrite app_nil_r.
  - rewrite IH, multimap_emplace_perm. cbn [app].
    destruct (vacuum_entry a e) as [k v]. cbn [fst snd].
    apply Permutation_middle.
Qed.

Lemma emplace_all_ascending a l : forall t, ascending t -> ascending (emplace_all a t l).
Proof.
  induction l as [ | e l IH ]; intros t Ht; unfold emplace_all in *; cbn [foldl]; [ done | ].
  apply IH. by apply multimap_emplace_ascending.
Qed.

Lemma clear_flags_lookup l : forall (m : gmap Z FixedSizeBuffer) k,
  NoDup l.*1 ->
  clear_flags m l !! k =
    match (list_to_map l : gmap Z FixedSizeBuffer) !! k with
    | Some buffer => Some (set_vacuum buffer false)
    | None => m !! k
    end.
Proof.
  induction l as [ | [id buffer] l IH ]; intros m k Hnd; unfold clear_flags in *; cbn [foldl].
  - by rewrite list_to_map_nil, lookup_empty.
  - cbn [fmap list_fmap fst] in Hnd. apply NoDup_cons in Hnd as [Hnotin Hnd].
    rewrite IH by done. rewrite list_to_map_cons. cbn [fst snd].
    destruct (decide (k = id)) as [-> | Hne].
    + rewrite (not_elem_of_list_to_map_1 _ _ Hnotin). by rewrite !lookup_insert_eq.
    + by rewrite !lookup_insert_ne.
Qed.

(** ** The marks *)

Lemma flag_buffers_lookup V bufs k :
  flag_buffers V bufs !! k =
    (fun buffer => set_vacuum buffer (bool_decide (k ∈ V))) <$> bufs !! k.
Proof.
  unfold flag_buffers. rewrite map_lookup_imap.
  by destruct (bufs !! k).
Qed.

Lemma InitializeVacuum_mark_fold (kept : list (Z * Z)) :
  forall (m : gmap Z FixedSizeBuffer) (free : gset Z),
  (forall e, e ∈ kept -> is_Some (m !! e.2)) ->
  exists m',
    foldl InitializeVacuum_mark (Ok (m, free)) kept =
      Ok (m', free ∖ list_to_set kept.*2) /\
    forall k, m' !! k =
      if decide (k ∈ kept.*2)
      then (fun buffer => set_vacuum buffer true) <$> m !! k
      else m !! k.
Proof.
  induction kept as [ | e kept IH ]; intros m free Hin; cbn [foldl].
  - exists m. split.
    + cbn. by rewrite difference_empty_L.
    + intros k. rewrite decide_False; [ done | ]. cbn. apply not_elem_of_nil.
  - destruct (Hin e ltac:(by left)) as [buffer Hb].
    unfold InitializeVacuum_mark at 2. cbn [mbind outcome_bind].
    unfold find_buffer. rewrite Hb. cbn [mbind outcome_bind].
    destruct (IH (<[e.2 := set_vacuum buffer true]> m) (free ∖ {[e.2]})) as (m' & -> & Hlook).
    { intros e' He'. destruct (decide (e'.2 = e.2)) as [-> | Hne].
      - by rewrite lookup_insert_eq.
      - rewrite lookup_insert_ne by done. apply Hin. by right. }
    exists m'. split.
    + f_equal. f_equal. cbn [fmap list_fmap list_to_set].
      by rewrite difference_difference_l_L.
    + intros k. rewrite Hlook. cbn [fmap list_fmap].
      destruct (decide (k = e.2)) as [-> | Hne].
      * rewrite lookup_insert_eq, Hb. rewrite (decide_True (P := e.2 ∈ e.2 :: _)) by (by left).
        by destruct (decide (e.2 ∈ kept.*2)).
      * rewrite lookup_insert_ne by done.
        destruct (decide (k ∈ kept.*2)) as [Hk | Hk].
        -- rewrite decide_True; [ done | by right ].
        -- rewrite decide_False; [ done | ].
           intros Hk'. apply elem_of_cons in Hk' as [ | ]; done.
Qed.

Lemma vacuum_buffers_fold (kept : list (Z * Z)) : forall X : gset Z,
  foldl (fun X vacuum_buffer => X ∪ {[vacuum_buffer.2]}) X kept =
    X ∪ list_to_set kept.*2.
Proof.
  induction kept as [ | e kept IH ]; intros X; cbn [foldl fmap list_fmap list_to_set].
  - by rewrite (right_id_L ∅ (∪)).
  - rewrite IH. by rewrite (assoc_L (∪)).
Qed.

(** ** What [InitializeVacuum] computes *)

Lemma sumZ_free_slots (avail : Z) (l : list (Z * FixedSizeBuffer)) :
  sumZ (fun e => avail - segment_count e.2) l =
    Z.of_nat (length l) * avail - sumZ (fun e => segment_count e.2) l.
Proof.
  induction l as [ | e l IH ]; cbn [length]; [ done | ].
  unfold sumZ in *. cbn [foldr]. rewrite IH. lia.
Qed.

Lemma consistent_size a : consistent a -> Z.of_nat (size (buffers a)) <= 2 ^ 32.
Proof.
  intros [_ [Hids _]].
  assert (size (buffers a) <= Z.to_nat (2 ^ 32))%nat as Hsize.
  { rewrite <- size_dom. apply size_ids_below. intros x Hx.
    rewrite Z2Nat.id by lia. apply Hids. by apply elem_of_dom. }
  lia.
Qed.

Lemma visit_entries visit a e :
  consistent a -> visit_ok visit -> e ∈ visit (buffers a) ->
  buffers a !! e.1 = Some e.2 /\ InMemory e.2 = true /\
  0 <= segment_count e.2 <= available_segments_per_buffer a.
Proof.
  intros [[(Hbc & Hav & Hbc8) Hbufs _] _] Hvisit He.
  rewrite (Hvisit (buffers a)) in He. destruct e as [k buffer].
  apply elem_of_map_to_list in He. cbn [fst snd]. split; [ done | ].
  pose proof (Hbufs _ _ He) as Hok. split.
  - destruct Hok as (blk & Hmem & _). unfold InMemory. by rewrite Hmem.
  - eapply buffer_ok_count; [ lia | done ].
Qed.

Lemma clear_flags_visit visit a :
  visit_ok visit ->
  clear_flags (buffers a) (visit (buffers a)) = flag_buffers ∅ (buffers a).
Proof.
  intros Hvisit. apply map_eq. intros k.
  assert (NoDup (visit (buffers a)).*1) as Hnd.
  { rewrite (Hvisit (buffers a)). apply NoDup_fst_map_to_list. }
  rewrite clear_flags_lookup by done.
  rewrite (list_to_map_proper _ (map_to_list (buffers a))), list_to_map_to_list;
    [ | done | apply Hvisit ].
  rewrite flag_buffers_lookup.
  destruct (buffers a !! k) as [buffer | ]; cbn; [ | done ].
  rewrite bool_decide_eq_false_2; [ done | set_solver ].
Qed.

Lemma flag_buffers_size V bufs : size (flag_buffers V bufs) = size bufs.
Proof.
  rewrite <- !size_dom. f_equal. apply set_eq. intros k.
  rewrite !elem_of_dom, flag_buffers_lookup, fmap_is_Some. done.
Qed.

Lemma vacuum_candidates_perm visit a :
  visit_ok visit ->
  vacuum_candidates visit a ≡ₚ map (vacuum_entry a) (map_to_list (buffers a)).
Proof.
  intros Hvisit. unfold vacuum_candidates.
  rewrite emplace_all_perm. cbn [app]. by rewrite (Hvisit (buffers a)).
Qed.

Lemma vacuum_candidates_length visit a :
  visit_ok visit -> length (vacuum_candidates visit a) = size (buffers a).
Proof.
  intros Hvisit. rewrite (vacuum_candidates_perm visit a Hvisit).
  by rewrite length_map, length_map_to_list.
Qed.

Lemma excess_buffers_bounds a :
  consistent a -> total_segment_count a <> 0 ->
  0 <= excess_buffers a < Z.of_nat (size (buffers a)).
Proof.
  intros Hcons Hne. pose proof (consistent_total_bounds a Hcons) as Htot.
  destruct Hcons as [[(Hbc & Hav & Hbc8) Hbufs _] [Hids Hsum]].
  pose proof (sum_counts_bounds (buffers a) (available_segments_per_buffer a)) as [_ Hb].
  { intros k buffer Hk. eapply buffer_ok_count; [ lia | by eapply Hbufs ]. }
  unfold excess_buffers. rewrite <- Hsum in Hb. split.
  - apply Z.div_pos; lia.
  - apply Z.div_lt_upper_bound; nia.
Qed.

Lemma InitializeVacuum_run visit a :
  consistent a -> vacuum_buffers a = ∅ -> visit_ok visit ->
  total_segment_count a <> 0 ->
  InitializeVacuum visit a =
    if below_threshold (Word.mul (excess_buffers a) BLOCK_SIZE)
         (GetMemoryUsage (flag_buffers ∅ (buffers a)))
    then Ok (vacuum_marked a ∅, false)
    else Ok (vacuum_marked a (list_to_set (vacuum_kept visit a).*2), true).
Proof.
  intros Hcons Hvac Hvisit Hne.
  pose proof (excess_buffers_bounds a Hcons Hne) as Hex.
  pose proof (consistent_size a Hcons) as Hsize.
  pose proof (vacuum_candidates_length visit a Hvisit) as Hlen.
  pose proof (vacuum_candidates_perm visit a Hvisit) as Hperm.
  assert (Hcons' := Hcons).
  destruct Hcons' as [[(Hbc & Hav & Hbc8) Hbufs _] [Hids Hsum]].
  unfold InitializeVacuum.
  destruct (Z.eqb_spec (total_segment_count a) 0) as [ | _ ]; [ done | ].
  rewrite bool_decide_eq_true_2 by done. cbn [D_ASSERT mbind outcome_bind].
  rewrite InitializeVacuum_visit_fold; cycle 1.
  { lia. }
  { intros e He. by destruct (visit_entries visit a e Hcons Hvisit He) as (_ & ? & ?). }
  { lia. }
  { rewrite (Hvisit (buffers a)), length_map_to_list.
    unfold BLOCK_SIZE in Hbc8. change Word.modulus with (2 ^ 32 * 2 ^ 32).
    change (2 ^ 32) with 4294967296 in *. nia. }
  rewrite (clear_flags_visit visit a Hvisit).
  fold (vacuum_candidates visit a).
  assert (0 + sumZ (fun e => available_segments_per_buffer a - segment_count e.2)
                (visit (buffers a)) =
          Z.of_nat (size (buffers a)) * available_segments_per_buffer a -
          total_segment_count a) as ->.
  { rewrite (sumZ_perm _ _ _ (Hvisit (buffers a))), sumZ_free_slots.
    rewrite length_map_to_list, Hsum, sum_counts_sumZ. lia. }
  fold (excess_buffers a).
  destruct (vacuum_candidates visit a) as [ | e temp ] eqn:Etemp.
  { cbn [length] in Hlen. lia. }
  rewrite <- Etemp in *. clear Etemp e temp.
  destruct (Z.eqb_spec (available_segments_per_buffer a) 0) as [ | _ ]; [ lia | ].
  rewrite Hlen.
  destruct (Z.ltb_spec (excess_buffers a) (Z.of_nat (size (buffers a)))) as [ _ | ];
    [ | lia ].
  cbn [D_ASSERT mbind outcome_bind].
  destruct (below_threshold _ _).
  { unfold vacuum_marked. rewrite difference_empty_L, Hvac. done. }
  destruct (Z.leb_spec (excess_buffers a) (Z.of_nat (size (buffers a)))) as [ _ | ];
    [ | lia ].
  rewrite flag_buffers_size.
  destruct (Z.leb_spec (Z.of_nat (size (buffers a))) (Z.of_nat (size (buffers a))))
    as [ _ | ]; [ | lia ].
  cbn [D_ASSERT mbind outcome_bind].
  rewrite InitializeVacuum_trim_spec by lia.
  fold (vacuum_kept visit a).
  assert (forall e, e ∈ vacuum_kept visit a -> is_Some (buffers a !! e.2)) as Hkept.
  { intros e He. unfold vacuum_kept in He.
    apply (subseteq_drop _ _ e) in He. rewrite Hperm in He.
    apply list_elem_of_fmap in He as ([k buffer] & -> & He).
    apply elem_of_map_to_list in He. cbn. by rewrite He. }
  cbn [mbind outcome_bind].
  destruct (InitializeVacuum_mark_fold (vacuum_kept visit a)
              (flag_buffers ∅ (buffers a)) (buffers_with_free_space a))
    as (m' & -> & Hlook).
  { intros e He. rewrite flag_buffers_lookup, fmap_is_Some. by apply Hkept. }
  cbn [mbind outcome_bind]. rewrite vacuum_buffers_fold, Hvac.
  unfold vacuum_marked. rewrite (left_id_L ∅ (∪)).
  f_equal. f_equal. f_equal.
  apply map_eq. intros k. rewrite Hlook, !flag_buffers_lookup.
  rewrite bool_decide_eq_false_2 by set_solver.
  destruct (decide (k ∈ (vacuum_kept visit a).*2)) as [Hk | Hk].
  - rewrite bool_decide_eq_true_2 by (by apply elem_of_list_to_set).
    by destruct (buffers a !! k).
  - rewrite bool_decide_eq_false_2 by (by rewrite elem_of_list_to_set).
    done.
Qed.

(** ** The buffers [InitializeVacuum] marks *)

Lemma vacuum_entry_ids a (l : list (Z * FixedSizeBuffer)) :
  (map (vacuum_entry a) l).*2 = l.*1.
Proof. induction l as [ | e l IH ]; cbn; [ done | ]. by rewrite <- IH. Qed.

Lemma vacuum_candidates_NoDup visit a :
  visit_ok visit -> NoDup (vacuum_candidates visit a).*2.
Proof.
  intros Hvisit. rewrite (vacuum_candidates_perm visit a Hvisit), vacuum_entry_ids.
  apply NoDup_fst_map_to_list.
Qed.

Lemma vacuum_candidates_ascending visit a : ascending (vacuum_candidates visit a).
Proof. by apply emplace_all_ascending. Qed.

Lemma vacuum_candidates_elem visit a x :
  visit_ok visit ->
  x ∈ vacuum_candidates visit a <->
  exists buffer, buffers a !! x.2 = Some buffer /\
    x.1 = available_segments_per_buffer a - segment_count buffer.
Proof.
  intros Hvisit. rewrite (vacuum_candidates_perm visit a Hvisit).
  change (map (vacuum_entry a) (map_to_list (buffers a)))
    with (vacuum_entry a <$> map_to_list (buffers a)).
  rewrite list_elem_of_fmap. split.
  - intros ([k buffer] & -> & He). apply elem_of_map_to_list in He.
    exists buffer. by split.
  - intros (buffer & Hb & Hx). exists (x.2, buffer). split.
    + destruct x as [x1 x2]. cbn in *. unfold vacuum_entry. cbn. by rewrite Hx.
    + by apply elem_of_map_to_list.
Qed.

Lemma vacuum_kept_split visit a :
  vacuum_candidates visit a =
    take (length (vacuum_candidates visit a) - Z.to_nat (excess_buffers a))
         (vacuum_candidates visit a) ++ vacuum_kept visit a.
Proof. unfold vacuum_kept. cbn zeta. by rewrite take_drop. Qed.

Lemma vacuum_kept_length visit a :
  consistent a -> visit_ok visit -> total_segment_count a <> 0 ->
  Z.of_nat (length (vacuum_kept visit a)) = excess_buffers a.
Proof.
  intros Hcons Hvisit Hne.
  pose proof (excess_buffers_bounds a Hcons Hne) as Hex.
  pose proof (vacuum_candidates_length visit a Hvisit) as Hlen.
  unfold vacuum_kept. cbn zeta. rewrite length_drop. lia.
Qed.

Lemma vacuum_kept_dom visit a :
  visit_ok visit ->
  (list_to_set (vacuum_kept visit a).*2 : gset Z) ⊆ dom (buffers a).
Proof.
  intros Hvisit v Hv. apply elem_of_list_to_set, list_elem_of_fmap in Hv as (x & -> & Hx).
  unfold vacuum_kept in Hx. apply (subseteq_drop _ _ x) in Hx.
  apply (vacuum_candidates_elem visit a x Hvisit) in Hx as (buffer & Hb & _).
  apply elem_of_dom. by rewrite Hb.
Qed.

Lemma vacuum_kept_size visit a :
  consistent a -> visit_ok visit -> total_segment_count a <> 0 ->
  Z.of_nat (size (list_to_set (vacuum_kept visit a).*2 : gset Z)) = excess_buffers a.
Proof.
  intros Hcons Hvisit Hne.
  rewrite size_list_to_set.
  - rewrite length_fmap. by apply vacuum_kept_length.
  - unfold vacuum_kept. cbn zeta. rewrite fmap_drop.
    eapply sublist_NoDup; [ by apply vacuum_candidates_NoDup | apply sublist_drop ].
Qed.

(** An entry in front of the kept ones belongs to a buffer that is not
    marked. *)
Lemma vacuum_taken_unmarked visit a x :
  visit_ok visit ->
  x ∈ take (length (vacuum_candidates visit a) - Z.to_nat (excess_buffers a))
           (vacuum_candidates visit a) ->
  x.2 ∉ (list_to_set (vacuum_kept visit a).*2 : gset Z).
Proof.
  intros Hvisit Hx Hin. apply elem_of_list_to_set in Hin.
  pose proof (vacuum_candidates_NoDup visit a Hvisit) as Hnd.
  rewrite (vacuum_kept_split visit a), fmap_app in Hnd.
  apply NoDup_app in Hnd as (_ & Hdisj & _).
  apply (Hdisj x.2); [ | done ]. by apply list_elem_of_fmap_2.
Qed.

Lemma vacuum_unmarked_taken visit a b buffer :
  visit_ok visit -> buffers a !! b = Some buffer ->
  b ∉ (list_to_set (vacuum_kept visit a).*2 : gset Z) ->
  (available_segments_per_buffer a - segment_count buffer, b)
    ∈ take (length (vacuum_candidates visit a) - Z.to_nat (excess_buffers a))
           (vacuum_candidates visit a).
Proof.
  intros Hvisit Hb Hnotin.
  assert ((available_segments_per_buffer a - segment_count buffer, b)
            ∈ vacuum_candidates visit a) as Hx.
  { apply vacuum_candidates_elem; [ done | ]. exists buffer. by split. }
  rewrite (vacuum_kept_split visit a) in Hx. apply elem_of_app in Hx as [Hx | Hx]; [ done | ].
  exfalso. apply Hnotin. apply elem_of_list_to_set.
  by apply (list_elem_of_fmap_2 snd) in Hx.
Qed.

Lemma vacuum_kept_emptiest visit a v u buffer_v buffer_u :
  visit_ok visit ->
  v ∈ (list_to_set (vacuum_kept visit a).*2 : gset Z) ->
  u ∉ (list_to_set (vacuum_kept visit a).*2 : gset Z) ->
  buffers a !! v = Some buffer_v -> buffers a !! u = Some buffer_u ->
  segment_count buffer_v <= segment_count buffer_u.
Proof.
  intros Hvisit Hv Hu Hbv Hbu.
  apply elem_of_list_to_set, list_elem_of_fmap in Hv as (x & -> & Hx).
  pose proof (vacuum_unmarked_taken visit a u buffer_u Hvisit Hbu Hu) as Hy.
  pose proof (vacuum_candidates_ascending visit a) as Hasc.
  rewrite (vacuum_kept_split visit a) in Hasc.
  pose proof (ascending_app _ _ Hasc _ _ Hy Hx) as Hle. cbn [fst] in Hle.
  assert (x ∈ vacuum_candidates visit a) as Hx'.
  { unfold vacuum_kept in Hx. by apply (subseteq_drop _ _ x) in Hx. }
  apply (vacuum_candidates_elem visit a x Hvisit) in Hx' as (buffer & Hb & Hx1).
  rewrite Hbv in Hb. injection Hb as <-. lia.
Qed.

Lemma vacuum_kept_room visit a :
  consistent a -> visit_ok visit -> total_segment_count a <> 0 ->
  let V : gset Z := list_to_set (vacuum_kept visit a).*2 in
  live_segments_in V (buffers a) <= free_slots_outside a V.
Proof.
  intros Hcons Hvisit Hne V.
  pose proof (excess_buffers_bounds a Hcons Hne) as Hex.
  pose proof (vacuum_kept_length visit a Hcons Hvisit Hne) as Hlen.
  pose proof (vacuum_candidates_perm visit a Hvisit) as Hperm.
  destruct Hcons as [[(Hbc & Hav & Hbc8) Hbufs _] [Hids Hsum]].
  set (avail := available_segments_per_buffer a) in *.
  set (taken := take (length (vacuum_candidates visit a) - Z.to_nat (excess_buffers a))
                     (vacuum_candidates visit a)).
  assert (live_segments_in V (buffers a) =
          sumZ (fun x => avail - x.1) (vacuum_kept visit a)) as ->.
  { unfold live_segments_in.
    transitivity (sumZ (fun x : Z * Z => if decide (x.2 ∈ V) then avail - x.1 else 0)
                       (vacuum_candidates visit a)).
    - rewrite (sumZ_perm _ _ _ Hperm), sumZ_map. apply sumZ_ext.
      intros e _. cbn [vacuum_entry fst snd]. fold avail.
      destruct (decide (e.1 ∈ V)); lia.
    - rewrite (vacuum_kept_split visit a) at 1. rewrite sumZ_app.
      rewrite (sumZ_zero _ taken).
      + rewrite Z.add_0_l. apply sumZ_ext. intros x Hx.
        rewrite decide_True; [ done | ].
        apply elem_of_list_to_set. by apply list_elem_of_fmap_2.
      + intros x Hx. rewrite decide_False; [ done | ].
        by apply vacuum_taken_unmarked. }
  assert (free_slots_outside a V = sumZ (fun x => x.1) taken) as ->.
  { unfold free_slots_outside. fold avail.
    transitivity (sumZ (fun x : Z * Z => if decide (x.2 ∈ V) then 0 else x.1)
                       (vacuum_candidates visit a)).
    - rewrite (sumZ_perm _ _ _ Hperm), sumZ_map. apply sumZ_ext.
      intros e _. cbn [vacuum_entry fst snd]. done.
    - rewrite (vacuum_kept_split visit a) at 1. rewrite sumZ_app.
      rewrite (sumZ_zero _ (vacuum_kept visit a)).
      + rewrite Z.add_0_r. apply sumZ_ext. intros x Hx.
        rewrite decide_False; [ done | ]. by apply vacuum_taken_unmarked.
      + intros x Hx. rewrite decide_True; [ done | ].
        apply elem_of_list_to_set. by apply list_elem_of_fmap_2. }
  assert (sumZ (fun x => x.1) taken + sumZ (fun x => x.1) (vacuum_kept visit a) =
          Z.of_nat (size (buffers a)) * avail - total_segment_count a) as Hall.
  { rewrite <- sumZ_app. fold taken in Hlen. unfold taken.
    rewrite <- (vacuum_kept_split visit a).
    rewrite (sumZ_perm _ _ _ Hperm), sumZ_map.
    cbn [vacuum_entry fst]. fold avail. rewrite sumZ_free_slots.
    rewrite length_map_to_list, Hsum, sum_counts_sumZ. done. }
  assert (sumZ (fun x : Z * Z => avail - x.1) (vacuum_kept visit a) =
          excess_buffers a * avail - sumZ (fun x => x.1) (vacuum_kept visit a)) as ->.
  { rewrite <- Hlen. clear.
    induction (vacuum_kept visit a) as [ | x l IH ]; cbn [length]; [ done | ].
    unfold sumZ in *. cbn [foldr]. rewrite IH. lia. }
  assert (0 < avail) as Hpos by lia.
  pose proof (Z.mul_div_le (Z.of_nat (size (buffers a)) * avail - total_segment_count a)
                avail Hpos) as Hdiv.
  change (excess_buffers a)
    with ((Z.of_nat (size (buffers a)) * avail - total_segment_count a) / avail).
  lia.
Qed.

(** ** Sums over the entries of a map *)

Lemma sumZ_map_insert_new (f : Z * FixedSizeBuffer -> Z) (m : gmap Z FixedSizeBuffer) k v :
  m !! k = None ->
  sumZ f (map_to_list (<[k := v]> m)) = f (k, v) + sumZ f (map_to_list m).
Proof. intros Hk. by rewrite (sumZ_perm _ _ _ (map_to_list_insert m k v Hk)). Qed.

Lemma sumZ_map_delete (f : Z * FixedSizeBuffer -> Z) (m : gmap Z FixedSizeBuffer) k v :
  m !! k = Some v ->
  sumZ f (map_to_list (delete k m)) = sumZ f (map_to_list m) - f (k, v).
Proof.
  intros Hk. rewrite <- (sumZ_perm _ _ _ (map_to_list_delete m k v Hk)).
  unfold sumZ. cbn [foldr]. lia.
Qed.

Lemma sumZ_map_insert (f : Z * FixedSizeBuffer -> Z) (m : gmap Z FixedSizeBuffer) k v v' :
  m !! k = Some v ->
  sumZ f (map_to_list (<[k := v']> m)) = sumZ f (map_to_list m) - f (k, v) + f (k, v').
Proof.
  intros Hk. rewrite <- (insert_delete_eq m k v').
  rewrite sumZ_map_insert_new by apply lookup_delete_eq.
  rewrite (sumZ_map_delete f m k v Hk). lia.
Qed.

Lemma sumZ_pos_elem {A} (f : A -> Z) (l : list A) :
  0 < sumZ f l -> exists x, x ∈ l /\ 0 < f x.
Proof.
  induction l as [ | x l IH ]; unfold sumZ in *; cbn [foldr]; intros Hpos; [ lia | ].
  destruct (Z.lt_ge_cases 0 (f x)) as [Hx | Hx].
  - exists x. split; [ by left | done ].
  - destruct IH as (y & Hy & Hfy); [ lia | ]. exists y. split; [ by right | done ].
Qed.

(** ** [FinalizeVacuum] *)

Lemma FinalizeVacuum_erase_fold (l : list Z) : forall m : gmap Z FixedSizeBuffer,
  NoDup l ->
  (forall b, b ∈ l -> exists buffer, m !! b = Some buffer /\ InMemory buffer = true) ->
  foldl FinalizeVacuum_erase (Ok m) l = Ok (filter (fun e => e.1 ∉ l) m).
Proof.
  induction l as [ | b l IH ]; intros m Hnd Hl; cbn [foldl].
  - f_equal. symmetry. apply map_filter_id. intros i x _. cbn. apply not_elem_of_nil.
  - apply NoDup_cons in Hnd as [Hb Hnd].
    destruct (Hl b ltac:(by left)) as (buffer & Hlook & Hmem).
    unfold FinalizeVacuum_erase at 2. cbn [mbind outcome_bind].
    unfold find_buffer. rewrite Hlook. cbn [mbind outcome_bind].
    rewrite Hmem. cbn [D_ASSERT mbind outcome_bind].
    rewrite IH; [ | done | ].
    + f_equal. apply map_eq. intros k. apply option_eq. intros x.
      rewrite !map_lookup_filter_Some, lookup_delete_Some. cbn [fst].
      rewrite not_elem_of_cons.
      split; [ intros [[? ?] ?] | intros [? [? ?]] ]; repeat split; congruence.
    + intros b' Hb'. destruct (Hl b' ltac:(by right)) as (buffer' & Hlook' & Hmem').
      exists buffer'. split; [ | done ].
      rewrite lookup_delete_ne; [ done | ]. intros ->. done.
Qed.

Lemma FinalizeVacuum_erase_stuck (l : list Z) msg :
  foldl FinalizeVacuum_erase (InternalException msg) l = InternalException msg.
Proof. induction l as [ | b l IH ]; cbn [foldl]; [ done | ]. exact IH. Qed.

Lemma FinalizeVacuum_erase_throws (l : list Z) : forall m : gmap Z FixedSizeBuffer,
  NoDup l ->
  (exists b, b ∈ l /\
     ~ exists buffer, m !! b = Some buffer /\ InMemory buffer = true) ->
  throws (foldl FinalizeVacuum_erase (Ok m) l).
Proof.
  induction l as [ | b l IH ]; intros m Hnd (b0 & Hb0 & Hbad); cbn [foldl].
  - by apply elem_of_nil in Hb0.
  - apply NoDup_cons in Hnd as [Hb Hnd].
    unfold FinalizeVacuum_erase at 2. cbn [mbind outcome_bind]. unfold find_buffer.
    destruct (m !! b) as [buffer | ] eqn:Hlook; cbn [mbind outcome_bind].
    2:{ rewrite FinalizeVacuum_erase_stuck. by eexists. }
    destruct (InMemory buffer) eqn:Hmem; cbn [D_ASSERT mbind outcome_bind].
    2:{ rewrite FinalizeVacuum_erase_stuck. by eexists. }
    apply IH; [ done | ]. exists b0.
    apply elem_of_cons in Hb0 as [-> | Hb0].
    + exfalso. apply Hbad. by exists buffer.
    + split; [ done | ]. rewrite lookup_delete_ne; [ done | ]. intros ->. done.
Qed.

Lemma FinalizeVacuum_Ok a :
  marked_in_memory a ->
  FinalizeVacuum a =
    Ok (MkFixedSizeAllocator (segment_size a) (bitmask_count a) (bitmask_offset a)
          (available_segments_per_buffer a) (total_segment_count a)
          (unmarked_buffers a) (buffers_with_free_space a) ∅).
Proof.
  intros Hall. unfold FinalizeVacuum.
  rewrite FinalizeVacuum_erase_fold.
  - cbn [mbind outcome_bind]. f_equal. f_equal. unfold unmarked_buffers.
    apply map_filter_ext. intros i x _. cbn [fst]. by rewrite elem_of_elements.
  - apply NoDup_elements.
  - intros b Hb. apply Hall. by apply elem_of_elements.
Qed.

Lemma FinalizeVacuum_throws a :
  ~ marked_in_memory a -> throws (FinalizeVacuum a).
Proof.
  intros Hnot. unfold FinalizeVacuum.
  assert (exists b, b ∈ elements (vacuum_buffers a) /\
            ~ exists buffer, buffers a !! b = Some buffer /\ InMemory buffer = true) as Hbad.
  { assert (Decision (Forall (fun b => match buffers a !! b with
                                       | Some buffer => InMemory buffer = true
                                       | None => False
                                       end) (elements (vacuum_buffers a)))) as [Hall | Hex].
    { apply Forall_dec. intros b. destruct (buffers a !! b); [ | right; tauto ].
      solve_decision. }
    - exfalso. apply Hnot. intros b Hb. rewrite Forall_forall in Hall.
      specialize (Hall b ltac:(by apply elem_of_elements)).
      destruct (buffers a !! b) as [buffer | ]; [ | done ]. by exists buffer.
    - apply not_Forall_Exists in Hex; [ | intros b; destruct (buffers a !! b);
                                           [ solve_decision | right; tauto ] ].
      apply Exists_exists in Hex as (b & Hb & Hbad). exists b. split; [ done | ].
      intros (buffer & Hlook & Hmem). apply Hbad. by rewrite Hlook. }
  destruct (FinalizeVacuum_erase_throws _ (buffers a) (NoDup_elements _) Hbad) as [msg ->].
  by exists msg.
Qed.

(** The segment counts of the buffers [FinalizeVacuum] keeps. *)
Lemma sum_counts_unmarked (V : gset Z) (bufs : gmap Z FixedSizeBuffer) :
  sum_counts (filter (fun e => e.1 ∉ V) bufs) = sum_counts bufs - live_segments_in V bufs.
Proof.
  unfold live_segments_in.
  induction bufs as [ | k buffer bufs Hk IH ] using map_ind.
  - rewrite map_filter_empty, map_to_list_empty, sum_counts_empty. done.
  - rewrite sumZ_map_insert_new by done. rewrite (sum_counts_insert_new bufs) by done.
    cbn [fst snd]. destruct (decide (k ∈ V)) as [Hin | Hout].
    + rewrite map_filter_insert_not by (intros y; cbn; tauto). lia.
    + rewrite map_filter_insert_True by done.
      rewrite sum_counts_insert_new; [ lia | ].
      apply map_lookup_filter_None. by left.
Qed.

(** ** While a vacuum runs *)

Lemma consistent_vacuuming a :
  consistent a -> vacuum_buffers a = ∅ -> vacuuming a.
Proof.
  intros Hcons Hvac. pose proof (consistent_total_bounds a Hcons) as Htot.
  destruct Hcons as [[Hlay Hbufs Hfree] [Hids Hsum]].
  split; try done.
  - intros b. rewrite Hfree, Hvac. split; [ | tauto ].
    intros H. split; [ apply not_elem_of_empty | done ].
  - rewrite Hvac. apply empty_subseteq.
  - unfold Word.ok, Word.modulus. lia.
Qed.

Lemma vacuuming_marked_in_memory a : vacuuming a -> marked_in_memory a.
Proof.
  intros Hvac b Hb. apply (vac_marked a Hvac), elem_of_dom in Hb as [buffer Hlook].
  exists buffer. split; [ done | ].
  destruct (vac_buffers a Hvac b buffer Hlook) as (blk & Hmem & _).
  unfold InMemory. by rewrite Hmem.
Qed.

Lemma New_add_buffer_vacuuming a :
  vacuuming a -> buffers_with_free_space a = ∅ ->
  Z.of_nat (size (buffers a)) < 2 ^ 32 ->
  exists id fresh,
    buffers a !! id = None /\ segment_count fresh = 0 /\
    New_add_buffer a =
      Ok (with_state a (total_segment_count a) (<[id := fresh]> (buffers a)) {[id]}) /\
    vacuuming (with_state a (total_segment_count a) (<[id := fresh]> (buffers a)) {[id]}).
Proof.
  intros [Hlay Hbufs Hfree Hids Hmarked Htot] Hempty Hsize. unfold New_add_buffer.
  rewrite decide_True by done.
  destruct (GetAvailableBufferId_spec (buffers a)) as (id & -> & Hid & Hnone & _).
  cbn [mbind outcome_bind]. unfold map_insert_new. rewrite Hnone.
  unfold find_buffer. rewrite lookup_insert_eq. cbn [mbind outcome_bind].
  pose proof Hlay as (Hbc & Hav & Hbc8).
  unfold Get_block.
  destruct (memory (FixedSizeBuffer_fresh (bitmask_count a))) as [blk | ] eqn:Hblk; [ | done ].
  cbn [of_option mbind outcome_bind].
  destruct (fresh_buffer_ok _ _ Hbc Hav blk Hblk) as (Hok & Hcount & _).
  set (fresh := set_bitmap _ _) in *.
  rewrite insert_insert_eq, Hempty, (left_id_L ∅ (∪)).
  exists id, fresh. split; [ done | ]. split; [ done | ]. split; [ done | ].
  assert (id ∉ vacuum_buffers a) as Hidv.
  { intros Hin. apply Hmarked, elem_of_dom in Hin as [? Hin]. congruence. }
  split; cbn [with_state buffers buffers_with_free_space vacuum_buffers bitmask_count
              available_segments_per_buffer total_segment_count]; try done.
  - intros b buffer0 Hb. destruct (decide (b = id)) as [-> | Hbid].
    + rewrite lookup_insert_eq in Hb. by injection Hb as <-.
    + rewrite lookup_insert_ne in Hb by done. by eapply Hbufs.
  - intros b. rewrite elem_of_singleton. split.
    + intros ->. split; [ done | ]. exists fresh. rewrite lookup_insert_eq.
      split; [ done | lia ].
    + intros (Hbv & buffer0 & Hb & Hlt).
      destruct (decide (b = id)) as [-> | Hbid]; [ done | ].
      rewrite lookup_insert_ne in Hb by done.
      assert (b ∈ buffers_with_free_space a) as Hin by (apply Hfree; eauto).
      rewrite Hempty in Hin. by apply not_elem_of_empty in Hin.
  - intros b Hb. destruct (decide (b = id)) as [-> | Hbid]; [ lia | ].
    rewrite lookup_insert_ne in Hb by done. by apply Hids.
  - intros b Hb. rewrite dom_insert. apply elem_of_union. right. by apply Hmarked.
Qed.

Lemma New_pointer_vacuuming begin a :
  vacuuming a -> begin_ok begin -> buffers_with_free_space a <> ∅ ->
  exists b row buffer buffer',
    b ∈ buffers_with_free_space a /\ buffers a !! b = Some buffer /\
    segment_count buffer' = segment_count buffer + 1 /\
    0 <= row < available_segments_per_buffer a /\
    New_pointer begin a =
      Ok (with_state a (Word.add (total_segment_count a) 1)
            (<[b := buffer']> (buffers a))
            (if segment_count buffer + 1 =? available_segments_per_buffer a
             then buffers_with_free_space a ∖ {[b]}
             else buffers_with_free_space a),
          MkIndexPointer b row) /\
    vacuuming (with_state a (Word.add (total_segment_count a) 1)
                 (<[b := buffer']> (buffers a))
                 (if segment_count buffer + 1 =? available_segments_per_buffer a
                  then buffers_with_free_space a ∖ {[b]}
                  else buffers_with_free_space a)).
Proof.
  intros [Hlay Hbufs Hfree Hids Hmarked Htot] Hbegin Hne. unfold New_pointer.
  rewrite bool_decide_eq_true_2 by done. cbn [D_ASSERT mbind outcome_bind].
  pose proof (Hbegin _ Hne) as Hin.
  set (b := begin (buffers_with_free_space a)) in *.
  pose proof Hin as Hin'. apply Hfree in Hin' as (Hbv & buffer & Hb & Hlt).
  assert (0 <= b < 2 ^ 32) as Hb32 by (apply Hids; by rewrite Hb).
  rewrite (u32_small b Hb32).
  unfold find_buffer. rewrite Hb. cbn [mbind outcome_bind].
  pose proof (Hbufs b buffer Hb) as Hok.
  pose proof Hok as (blk & Hmem & _).
  unfold Get_block. rewrite Hmem. cbn [of_option mbind outcome_bind].
  destruct (GetOffset_total a buffer blk Hlay Hok Hmem Hlt) as (mask' & offset & Hoff).
  rewrite Hoff. cbn [mbind outcome_bind].
  apply GetOffset_Ok in Hoff as (row & Hvalid & Hset & ->).
  pose proof Hlay as (Hbc & Hav & Hbc8).
  assert (0 <= available_segments_per_buffer a) as Hav0 by lia.
  destruct (buffer_ok_allocate _ _ _ _ _ _ Hav0 Hok Hmem Hvalid Hset)
    as (Hrow & _ & Hok').
  pose proof (buffer_ok_count _ _ _ Hav0 Hok) as Hcb.
  assert (Word.add (segment_count buffer) 1 = segment_count buffer + 1) as Hadd.
  { apply wrap_small. unfold Word.modulus, BLOCK_SIZE in *. lia. }
  rewrite Hadd.
  set (buffer' := set_segment_count (set_bitmap buffer mask') (segment_count buffer + 1)) in *.
  assert (Word.u32 row = row) as Hrow32.
  { apply u32_small. unfold BLOCK_SIZE in *. lia. }
  exists b, row, buffer, buffer'.
  split; [ done | ]. split; [ done | ]. split; [ done | ]. split; [ done | ].
  split.
  { unfold IndexPointer_new. by rewrite (u32_small b Hb32), !Hrow32. }
  split; cbn [with_state buffers buffers_with_free_space vacuum_buffers bitmask_count
              available_segments_per_buffer total_segment_count]; try done.
  - intros b0 buffer0 Hb0. destruct (decide (b0 = b)) as [-> | Hneq].
    + rewrite lookup_insert_eq in Hb0. by injection Hb0 as <-.
    + rewrite lookup_insert_ne in Hb0 by done. by eapply Hbufs.
  - intros b0. destruct (decide (b0 = b)) as [-> | Hneq].
    + rewrite lookup_insert_eq.
      destruct (Z.eqb_spec (segment_count buffer + 1) (available_segments_per_buffer a))
        as [Hfull | Hnf].
      * split.
        -- intros Hd. apply elem_of_difference in Hd as [_ Hd].
           exfalso. apply Hd. by apply elem_of_singleton.
        -- intros (_ & buffer0 & [= <-] & Hlt0). unfold buffer' in Hlt0. cbn in Hlt0. lia.
      * split.
        -- intros _. split; [ done | ]. exists buffer'. split; [ done | ].
           unfold buffer'. cbn. lia.
        -- intros _. done.
    + rewrite lookup_insert_ne by done. rewrite <- Hfree.
      destruct (segment_count buffer + 1 =? available_segments_per_buffer a); [ | done ].
      rewrite elem_of_difference, elem_of_singleton. tauto.
  - intros b0 Hb0. destruct (decide (b0 = b)) as [-> | Hneq]; [ done | ].
    rewrite lookup_insert_ne in Hb0 by done. by apply Hids.
  - intros b0 Hb0. rewrite dom_insert. apply elem_of_union. right. by apply Hmarked.
  - unfold Word.ok, Word.add, Word.wrap. apply Z.mod_pos_bound. done.
Qed.

(** [New] while a vacuum runs: it takes a slot of a buffer that is not
    marked. *)
Lemma New_vacuuming begin a :
  vacuuming a -> begin_ok begin ->
  buffers_with_free_space a <> ∅ \/ Z.of_nat (size (buffers a)) < 2 ^ 32 ->
  exists a' b row buffer',
    New begin a = Ok (a', MkIndexPointer b row) /\
    vacuuming a' /\ same_layout a a' /\
    vacuum_buffers a' = vacuum_buffers a /\
    total_segment_count a' = Word.add (total_segment_count a) 1 /\
    buffers a' = <[b := buffer']> (buffers a) /\
    (b ∉ vacuum_buffers a) /\
    0 <= row < available_segments_per_buffer a /\
    segment_count buffer' =
      match buffers a !! b with Some buffer => segment_count buffer | None => 0 end + 1 /\
    (buffers_with_free_space a <> ∅ -> is_Some (buffers a !! b)).
Proof.
  intros Hvac Hbegin Hroom. unfold New.
  destruct (decide (buffers_with_free_space a = ∅)) as [Hempty | Hne].
  - destruct Hroom as [ | Hsize ]; [ done | ].
    destruct (New_add_buffer_vacuuming a Hvac Hempty Hsize)
      as (id & fresh & Hnone & Hcount & -> & Hvac1).
    cbn [mbind outcome_bind].
    destruct (New_pointer_vacuuming begin _ Hvac1 Hbegin)
      as (b & row & buffer & buffer' & Hin & Hb & Hcount' & Hrow & -> & Hvac').
    { cbn. apply non_empty_singleton_L. }
    cbn [with_state buffers buffers_with_free_space vacuum_buffers bitmask_count
              available_segments_per_buffer total_segment_count] in *.
    apply elem_of_singleton in Hin as ->.
    rewrite lookup_insert_eq in Hb. injection Hb as <-.
    eexists _, id, row, buffer'. split; [ reflexivity | ].
    split; [ exact Hvac' | ]. split; [ done | ]. split; [ done | ]. split; [ done | ].
    split; [ cbn; by rewrite insert_insert_eq | ].
    split.
    { intros Hin. apply (vac_marked a Hvac), elem_of_dom in Hin as [? Hin]. congruence. }
    split; [ done | ]. split; [ rewrite Hnone; lia | done ].
  - assert (New_add_buffer a = Ok a) as ->.
    { unfold New_add_buffer. by rewrite decide_False. }
    cbn [mbind outcome_bind].
    destruct (New_pointer_vacuuming begin a Hvac Hbegin Hne)
      as (b & row & buffer & buffer' & Hin & Hb & Hcount' & Hrow & -> & Hvac').
    eexists _, b, row, buffer'. split; [ reflexivity | ].
    split; [ exact Hvac' | ]. split; [ done | ]. split; [ done | ]. split; [ done | ].
    split; [ done | ].
    split; [ by apply (vac_free a Hvac) in Hin as [? _] | ].
    split; [ done | ]. rewrite Hb. split; [ done | ]. intros _. by eexists.
Qed.

(** ** [VacuumPointer] *)

Lemma copy_bytes_lookup (src : gmap Z Z) (src_address dst_address n : Z) :
  forall (dst : gmap Z Z) (i : Z), 0 <= i < n ->
  copy_bytes src src_address dst_address n dst !! (dst_address + i) =
    src !! (src_address + i).
Proof.
  unfold copy_bytes. intros dst i Hi.
  assert (forall (k : nat) (dst : gmap Z Z), 0 <= i < Z.of_nat k ->
    foldl (fun m i =>
             match src !! (src_address + i) with
             | Some byte => <[dst_address + i := byte]> m
             | None => delete (dst_address + i) m
             end) dst (seqZ 0 (Z.of_nat k)) !! (dst_address + i) =
    src !! (src_address + i)) as Hgen.
  { clear. intros k. induction k as [ | k IH ]; intros dst Hi; [ lia | ].
    rewrite seqZ_S, foldl_app. cbn [foldl].
    rewrite Z.add_0_l.
    destruct (decide (i = Z.of_nat k)) as [-> | Hne].
    - destruct (src !! (src_address + Z.of_nat k)) as [byte | ].
      + by rewrite lookup_insert_eq.
      + by rewrite lookup_delete_eq.
    - destruct (src !! (src_address + Z.of_nat k)) as [byte | ].
      + rewrite lookup_insert_ne by lia. apply IH. lia.
      + rewrite lookup_delete_ne by lia. apply IH. lia. }
  rewrite <- (Z2Nat.id n) by lia. apply Hgen. lia.
Qed.

Lemma segment_address_in_block a row :
  segments_in_block a -> 0 <= row < available_segments_per_buffer a ->
  forall b, segment_address a (MkIndexPointer b row) =
              bitmask_offset a + row * segment_size a /\
            segment_address a (MkIndexPointer b row) + segment_size a <= BLOCK_SIZE.
Proof.
  intros (Hs & Hoff & Hfit) Hrow b. unfold segment_address. cbn [GetOffsetOf].
  assert (0 <= row * segment_size a /\
          row * segment_size a + segment_size a <=
          available_segments_per_buffer a * segment_size a) as [H1 H2] by nia.
  unfold Word.add, Word.mul.
  rewrite (wrap_small (row * segment_size a))
    by (unfold Word.modulus, BLOCK_SIZE in *; lia).
  rewrite wrap_small by (unfold Word.modulus, BLOCK_SIZE in *; lia).
  split; [ done | lia ].
Qed.

Lemma VacuumPointer_step begin ptr a :
  vacuuming a -> segments_in_block a -> begin_ok begin ->
  buffers_with_free_space a <> ∅ \/ Z.of_nat (size (buffers a)) < 2 ^ 32 ->
  GetBufferId ptr ∈ vacuum_buffers a ->
  0 <= GetOffsetOf ptr < available_segments_per_buffer a ->
  exists a' b row buffer',
    VacuumPointer begin ptr a = Ok (a', MkIndexPointer b row) /\
    vacuuming a' /\ same_layout a a' /\
    vacuum_buffers a' = vacuum_buffers a /\
    total_segment_count a' = total_segment_count a /\
    buffers a' = <[b := buffer']> (buffers a) /\
    (b ∉ vacuum_buffers a) /\
    0 <= row < available_segments_per_buffer a /\
    segment_count buffer' =
      match buffers a !! b with Some buffer => segment_count buffer | None => 0 end + 1 /\
    (buffers_with_free_space a <> ∅ -> is_Some (buffers a !! b)) /\
    (~ slot_used a (MkIndexPointer b row) /\ slot_used a' (MkIndexPointer b row) /\
     forall q, q <> MkIndexPointer b row -> slot_used a' q <-> slot_used a q) /\
    exists blk' buffer blk,
      memory buffer' = Some blk' /\
      buffers a !! GetBufferId ptr = Some buffer /\ memory buffer = Some blk /\
      forall i, 0 <= i < segment_size a ->
        payload blk' !! (segment_address a (MkIndexPointer b row) + i) =
          payload blk !! (segment_address a ptr + i).
Proof.
  intros Hvac Hfit Hbegin Hroom Hptr Hoff. unfold VacuumPointer.
  destruct (New_vacuuming begin a Hvac Hbegin Hroom)
    as (a1 & b & row & buffer1 & Hnew & Hvac1 & Hlay1 & Hvb1 & Htot1 & Hbufs1 & Hbv & Hrow
        & Hcount1 & Hsome).
  assert (well_formed a) as Hwf by (split; [ apply Hvac | apply (vac_buffers a Hvac) ]).
  destruct (New_slots begin a a1 _ Hwf Hnew) as (_ & Hunused & Hused & Hframe).
  rewrite Hnew. clear Hnew.
  cbn [mbind outcome_bind].
  destruct a1 as [ss bc bo av tot bufs free vb].
  destruct Hlay1 as (Hss & Hbc & Hbo & Hav).
  cbn [segment_size bitmask_count bitmask_offset available_segments_per_buffer
       total_segment_count buffers buffers_with_free_space vacuum_buffers] in *.
  subst ss bc bo av tot bufs vb.
  pose proof (vac_buffers _ Hvac1 b buffer1 (lookup_insert_eq _ _ _)) as Hok1.
  cbn [bitmask_count available_segments_per_buffer] in Hok1.
  pose proof Hok1 as (blk1 & Hmem1 & Hrest1).
  pose proof Hptr as Hptr'.
  apply (vac_marked a Hvac), elem_of_dom in Hptr' as [old Hold].
  pose proof (vac_buffers a Hvac _ old Hold) as (blk & Hmem & _).
  assert (b <> GetBufferId ptr) as Hneq by (intros ->; done).
  unfold memcpy_segment, with_state.
  cbn [segment_size bitmask_count bitmask_offset available_segments_per_buffer
       total_segment_count buffers buffers_with_free_space vacuum_buffers GetBufferId].
  unfold find_buffer. rewrite lookup_insert_eq. cbn [mbind outcome_bind].
  unfold Get_block. rewrite Hmem1. cbn [of_option mbind outcome_bind].
  rewrite lookup_insert_ne by done. rewrite Hold. cbn [mbind outcome_bind].
  rewrite Hmem. cbn [of_option mbind outcome_bind].
  set (a1 := MkFixedSizeAllocator _ _ _ _ (Word.sub _ 1) _ _ _).
  assert (forall q, segment_address a1 q = segment_address a q) as Haddr by done.
  rewrite !Haddr.
  destruct (segment_address_in_block a row Hfit Hrow b) as [Hdst Hdst_in].
  destruct ptr as [pb prow]. cbn [GetBufferId GetOffsetOf] in *.
  destruct (segment_address_in_block a prow Hfit Hoff pb) as [Hsrc Hsrc_in].
  destruct (Z.eqb_spec b pb) as [ | _ ]; [ done | ].
  cbn [andb negb].
  destruct (Z.leb_spec (segment_address a (MkIndexPointer b row) + segment_size a) BLOCK_SIZE);
    [ | lia ].
  destruct (Z.leb_spec (segment_address a (MkIndexPointer pb prow) + segment_size a) BLOCK_SIZE);
    [ | lia ].
  cbn [andb]. rewrite insert_insert_eq.
  set (buffer' := set_payload buffer1 blk1 _).
  assert (Word.sub (Word.add (total_segment_count a) 1) 1 = total_segment_count a) as Htot.
  { pose proof (vac_total a Hvac) as Hok. unfold Word.ok in Hok.
    unfold Word.sub, Word.add, Word.wrap.
    rewrite Zminus_mod_idemp_l. replace (total_segment_count a + 1 - 1)
      with (total_segment_count a) by lia.
    by apply Z.mod_small. }
  subst a1. rewrite Htot.
  eexists _, b, row, buffer'. split; [ reflexivity | ].
  destruct Hvac1 as [Hlay1 Hb1 Hfree1 Hids1 Hmarked1 _].
  cbn [segment_size bitmask_count bitmask_offset available_segments_per_buffer
       total_segment_count buffers buffers_with_free_space vacuum_buffers] in *.
  split.
  { split; cbn [segment_size bitmask_count bitmask_offset available_segments_per_buffer
       total_segment_count buffers buffers_with_free_space vacuum_buffers].
    - done.
    - intros b0 buffer0 Hb0. destruct (decide (b0 = b)) as [-> | Hne0].
      + rewrite lookup_insert_eq in Hb0. injection Hb0 as <-.
        exists (MkBlock (bitmap blk1)
                  (copy_bytes (payload blk) (segment_address a (MkIndexPointer pb prow))
                     (segment_address a (MkIndexPointer b row)) (segment_size a)
                     (payload blk1))).
        split; [ done | ]. exact Hrest1.
      + rewrite lookup_insert_ne in Hb0 by done.
        apply (Hb1 b0). by rewrite lookup_insert_ne.
    - intros b0. rewrite Hfree1. destruct (decide (b0 = b)) as [-> | Hne0].
      + rewrite !lookup_insert_eq. split.
        * intros (? & buffer0 & [= <-] & Hlt). split; [ done | ]. by exists buffer'.
        * intros (? & buffer0 & [= <-] & Hlt). split; [ done | ]. by exists buffer1.
      + by rewrite !lookup_insert_ne.
    - intros b0 Hb0. apply Hids1. destruct (decide (b0 = b)) as [-> | Hne0].
      + by rewrite lookup_insert_eq.
      + rewrite lookup_insert_ne by done. by rewrite lookup_insert_ne in Hb0.
    - intros b0 Hb0. rewrite dom_insert. apply elem_of_union. right.
      by apply (vac_marked a Hvac).
    - apply (vac_total a Hvac). }
  split; [ done | ]. split; [ done | ]. split; [ done | ]. split; [ done | ].
  split; [ done | ]. split; [ done | ]. split; [ done | ]. split; [ done | ].
  split.
  { assert (forall q, slot_used
               (MkFixedSizeAllocator (segment_size a) (bitmask_count a) (bitmask_offset a)
                  (available_segments_per_buffer a) (total_segment_count a)
                  (<[b := buffer']> (buffers a)) free (vacuum_buffers a)) q <->
             slot_used
               (MkFixedSizeAllocator (segment_size a) (bitmask_count a) (bitmask_offset a)
                  (available_segments_per_buffer a) (Word.add (total_segment_count a) 1)
                  (<[b := buffer1]> (buffers a)) free (vacuum_buffers a)) q) as Hsame.
    { intros q. unfold slot_used. cbn [buffers available_segments_per_buffer].
      destruct (decide (GetBufferId q = b)) as [-> | Hq].
      - rewrite !lookup_insert_eq. split.
        + intros (buffer0 & blk0 & [= <-] & [= <-] & Hq1 & Hq2). by exists buffer1, blk1.
        + intros (buffer0 & blk0 & [= <-] & Hm0 & Hq1 & Hq2).
          rewrite Hmem1 in Hm0. injection Hm0 as <-. by eexists buffer', _.
      - by rewrite !lookup_insert_ne. }
    split; [ done | ]. split; [ by apply Hsame | ].
    intros q Hq. rewrite Hsame. by apply Hframe. }
  eexists _, old, blk. split; [ reflexivity | ]. split; [ done | ]. split; [ done | ].
  intros i Hi. cbn [payload]. by apply copy_bytes_lookup.
Qed.

(** ** From [InitializeVacuum] to [FinalizeVacuum] *)

Lemma flag_buffers_empty V : flag_buffers V ∅ = ∅.
Proof. apply map_eq. intros k. by rewrite flag_buffers_lookup, !lookup_empty. Qed.

Lemma flag_buffers_insert V bufs k buffer :
  flag_buffers V (<[k := buffer]> bufs) =
    <[k := set_vacuum buffer (bool_decide (k ∈ V))]> (flag_buffers V bufs).
Proof.
  apply map_eq. intros k'. rewrite flag_buffers_lookup.
  destruct (decide (k' = k)) as [-> | Hne].
  - by rewrite !lookup_insert_eq.
  - rewrite !lookup_insert_ne by done. by rewrite flag_buffers_lookup.
Qed.

Lemma sumZ_flag_buffers (f : Z * FixedSizeBuffer -> Z) V bufs :
  (forall k buffer v, f (k, set_vacuum buffer v) = f (k, buffer)) ->
  sumZ f (map_to_list (flag_buffers V bufs)) = sumZ f (map_to_list bufs).
Proof.
  intros Hf. induction bufs as [ | k buffer bufs Hk IH ] using map_ind.
  - by rewrite flag_buffers_empty.
  - rewrite flag_buffers_insert, !sumZ_map_insert_new, IH, Hf; [ done | done | ].
    by rewrite flag_buffers_lookup, Hk.
Qed.

Lemma sum_counts_flag_buffers V bufs : sum_counts (flag_buffers V bufs) = sum_counts bufs.
Proof. rewrite !sum_counts_sumZ. by apply sumZ_flag_buffers. Qed.

Lemma live_segments_flag_buffers V V' bufs :
  live_segments_in V (flag_buffers V' bufs) = live_segments_in V bufs.
Proof. unfold live_segments_in. by apply sumZ_flag_buffers. Qed.

Lemma free_slots_vacuum_marked a V V' :
  free_slots_outside (vacuum_marked a V') V = free_slots_outside a V.
Proof. unfold free_slots_outside. cbn. by apply sumZ_flag_buffers. Qed.

(** An accepted vacuum: the state it leaves. *)
Lemma InitializeVacuum_accepted visit a a1 :
  consistent a -> vacuum_buffers a = ∅ -> visit_ok visit ->
  InitializeVacuum visit a = Ok (a1, true) ->
  total_segment_count a <> 0 /\
  a1 = vacuum_marked a (list_to_set (vacuum_kept visit a).*2).
Proof.
  intros Hcons Hvac Hvisit Hrun.
  destruct (decide (total_segment_count a = 0)) as [Hzero | Hne].
  { unfold InitializeVacuum in Hrun. rewrite Hzero in Hrun. cbn in Hrun. done. }
  split; [ done | ].
  rewrite (InitializeVacuum_run visit a Hcons Hvac Hvisit Hne) in Hrun.
  destruct (below_threshold _ _); [ done | ]. by injection Hrun as <-.
Qed.

Lemma vacuum_marked_vacuuming a (V : gset Z) :
  consistent a -> V ⊆ dom (buffers a) -> vacuuming (vacuum_marked a V).
Proof.
  intros Hcons Hsub. pose proof (consistent_total_bounds a Hcons) as Htot.
  destruct Hcons as [[Hlay Hbufs Hfree] [Hids Hsum]].
  split; cbn [vacuum_marked segment_size bitmask_count bitmask_offset
              available_segments_per_buffer total_segment_count buffers
              buffers_with_free_space vacuum_buffers].
  - done.
  - intros b buffer Hb. rewrite flag_buffers_lookup in Hb.
    destruct (buffers a !! b) as [buffer0 | ] eqn:Hb0; [ | done ].
    cbn in Hb. injection Hb as <-.
    destruct (Hbufs b buffer0 Hb0) as (blk & Hmem & Hrest).
    exists blk. split; [ done | exact Hrest ].
  - intros b. rewrite elem_of_difference, Hfree, flag_buffers_lookup. split.
    + intros [(buffer & Hb & Hlt) Hv]. split; [ done | ].
      exists (set_vacuum buffer (bool_decide (b ∈ V))). rewrite Hb. by split.
    + intros [Hv (buffer & Hb & Hlt)]. split; [ | done ].
      destruct (buffers a !! b) as [buffer0 | ]; [ | done ].
      cbn in Hb. injection Hb as <-. by exists buffer0.
  - intros b Hb. apply Hids. rewrite flag_buffers_lookup, fmap_is_Some in Hb. done.
  - intros b Hb. apply elem_of_dom. rewrite flag_buffers_lookup, fmap_is_Some.
    apply elem_of_dom. by apply Hsub.
  - unfold Word.ok, Word.modulus. lia.
Qed.

(** While free slots are left outside the marked buffers, some buffer
    is in the free set. *)
Lemma free_slots_outside_pos a :
  vacuuming a -> 0 < free_slots_outside a (vacuum_buffers a) ->
  buffers_with_free_space a <> ∅.
Proof.
  intros Hvac Hpos. apply sumZ_pos_elem in Hpos as ([b buffer] & Hin & Hf).
  apply elem_of_map_to_list in Hin. cbn [fst snd] in Hf.
  destruct (decide (b ∈ vacuum_buffers a)) as [ | Hout ]; [ lia | ].
  assert (b ∈ buffers_with_free_space a) as Hb.
  { apply (vac_free a Hvac). split; [ done | ]. exists buffer. split; [ done | lia ]. }
  intros Hempty. rewrite Hempty in Hb. by apply not_elem_of_empty in Hb.
Qed.

Lemma IndexPointer_eq_dec (p q : IndexPointer) : {p = q} + {p <> q}.
Proof. decide equality; apply Z.eq_dec. Qed.

Lemma VacuumPointer_all_run begin (ptrs : list IndexPointer) : forall a,
  vacuuming a -> segments_in_block a -> begin_ok begin ->
  Forall (marked_pointer a) ptrs ->
  Z.of_nat (length ptrs) <= free_slots_outside a (vacuum_buffers a) ->
  exists a' new_ptrs,
    VacuumPointer_all begin ptrs a = Ok (a', new_ptrs) /\
    vacuuming a' /\ same_layout a a' /\
    vacuum_buffers a' = vacuum_buffers a /\
    total_segment_count a' = total_segment_count a /\
    dom (buffers a') = dom (buffers a) /\
    sum_counts (buffers a') = sum_counts (buffers a) + Z.of_nat (length ptrs) /\
    live_segments_in (vacuum_buffers a) (buffers a') =
      live_segments_in (vacuum_buffers a) (buffers a) /\
    length new_ptrs = length ptrs /\
    NoDup new_ptrs /\
    Forall (fun p => (GetBufferId p ∉ vacuum_buffers a) /\ ~ slot_used a p) new_ptrs /\
    forall q, slot_used a' q <-> slot_used a q \/ q ∈ new_ptrs.
Proof.
  induction ptrs as [ | ptr ptrs IH ]; intros a Hvac Hfit Hbegin Hptrs Hroom.
  - exists a, []. cbn [VacuumPointer_all length].
    split; [ done | ]. split; [ done | ]. split; [ done | ]. split; [ done | ].
    split; [ done | ]. split; [ done | ]. split; [ cbn; lia | ].
    split; [ done | ]. split; [ done | ]. split; [ constructor 1 | ].
    split; [ constructor 1 | ].
    intros q. split; [ by left | ]. intros [ | Hq ]; [ done | ].
    by apply elem_of_nil in Hq.
  - apply Forall_cons in Hptrs as [[Hptr Hoff] Hptrs]. cbn [length] in Hroom.
    assert (buffers_with_free_space a <> ∅) as Hne.
    { apply free_slots_outside_pos; [ done | lia ]. }
    destruct (VacuumPointer_step begin ptr a Hvac Hfit Hbegin (or_introl Hne) Hptr Hoff)
      as (a1 & b & row & buffer' & Hrun & Hvac1 & Hlay1 & Hvb1 & Htot1 & Hbufs1 & Hbv & Hrow
          & Hcount & Hsome & (Hunused & Hused & Hframe) & _).
    destruct (Hsome Hne) as [buffer Hb]. rewrite Hb in Hcount.
    pose proof Hlay1 as (Hss & Hbc & Hbo & Hav).
    assert (free_slots_outside a1 (vacuum_buffers a1) =
            free_slots_outside a (vacuum_buffers a) - 1) as Hroom1.
    { unfold free_slots_outside. rewrite Hbufs1, Hvb1, Hav.
      rewrite (sumZ_map_insert _ _ _ _ _ Hb). cbn [fst snd].
      destruct (decide (b ∈ vacuum_buffers a)); [ done | lia ]. }
    destruct (IH a1) as (a' & new_ptrs & Hrun' & Hvac' & Hlay' & Hvb' & Htot' & Hdom' & Hsum'
                         & Hlive' & Hlen' & Hnd' & Hnew' & Hslots'); try done.
    { destruct Hfit as (? & ? & ?). unfold segments_in_block.
      rewrite Hss, Hbo, Hav. done. }
    { eapply Forall_impl; [ exact Hptrs | ]. intros q [Hq1 Hq2].
      unfold marked_pointer. by rewrite Hvb1, Hav. }
    { lia. }
    set (p := MkIndexPointer b row) in *.
    assert (forall q, slot_used a1 q <-> slot_used a q \/ q = p) as Hstep.
    { intros q. destruct (IndexPointer_eq_dec q p) as [-> | Hq].
      - split; [ by right | done ].
      - rewrite (Hframe q Hq). split; [ by left | ]. intros [ | ]; done. }
    exists a', (p :: new_ptrs).
    cbn [VacuumPointer_all]. rewrite Hrun. cbn [mbind outcome_bind].
    rewrite Hrun'. cbn [mbind outcome_bind].
    split; [ done | ]. split; [ done | ].
    split. { destruct Hlay' as (? & ? & ? & ?). repeat split; congruence. }
    split; [ congruence | ]. split; [ congruence | ].
    split.
    { rewrite Hdom', Hbufs1, dom_insert_L.
      apply subseteq_union_1_L, singleton_subseteq_l, elem_of_dom. by rewrite Hb. }
    split.
    { rewrite Hsum', Hbufs1, (sum_counts_insert _ _ _ _ Hb). cbn [length]. lia. }
    split.
    { rewrite <- Hvb1, Hlive', Hvb1, Hbufs1. unfold live_segments_in.
      rewrite (sumZ_map_insert _ _ _ _ _ Hb). cbn [fst snd].
      destruct (decide (b ∈ vacuum_buffers a)); [ done | lia ]. }
    split; [ cbn [length]; by rewrite Hlen' | ].
    rewrite Forall_forall in Hnew'.
    split.
    { apply NoDup_cons. split; [ | done ].
      intros Hin. destruct (Hnew' p Hin) as [_ Hnot]. by apply Hnot. }
    split.
    { constructor 2; [ by split | ]. apply Forall_forall. intros q Hq.
      destruct (Hnew' q Hq) as [Hq1 Hq2]. split; [ by rewrite <- Hvb1 | ].
      intros Hq3. apply Hq2, Hstep. by left. }
    intros q. rewrite Hslots', Hstep, elem_of_cons. tauto.
Qed.

(** [FinalizeVacuum] after all live segments of the marked buffers were
    moved. *)
Lemma FinalizeVacuum_consistent a :
  vacuuming a ->
  total_segment_count a + live_segments_in (vacuum_buffers a) (buffers a) =
    sum_counts (buffers a) ->
  exists a', FinalizeVacuum a = Ok a' /\ consistent a' /\ same_layout a a' /\
    vacuum_buffers a' = ∅ /\
    total_segment_count a' = total_segment_count a /\
    buffers a' = unmarked_buffers a /\
    buffers_with_free_space a' = buffers_with_free_space a.
Proof.
  intros Hvac Hsum. rewrite (FinalizeVacuum_Ok a (vacuuming_marked_in_memory a Hvac)).
  eexists. split; [ reflexivity | ].
  destruct Hvac as [Hlay Hbufs Hfree Hids Hmarked Htot].
  split; [ | done ].
  split; split; cbn [segment_size bitmask_count bitmask_offset
              available_segments_per_buffer total_segment_count buffers
              buffers_with_free_space vacuum_buffers].
  - done.
  - intros b buffer Hb. apply map_lookup_filter_Some in Hb as [Hb _]. by eapply Hbufs.
  - intros b. rewrite Hfree. unfold unmarked_buffers. split.
    + intros (Hv & buffer & Hb & Hlt). exists buffer. split; [ | done ].
      by apply map_lookup_filter_Some.
    + intros (buffer & Hb & Hlt). apply map_lookup_filter_Some in Hb as [Hb Hv].
      split; [ done | ]. by exists buffer.
  - intros b [buffer Hb]. apply map_lookup_filter_Some in Hb as [Hb _].
    apply Hids. by rewrite Hb.
  - unfold unmarked_buffers. rewrite sum_counts_unmarked. lia.
Qed.

Lemma unmarked_buffers_dom a :
  dom (unmarked_buffers a) = dom (buffers a) ∖ vacuum_buffers a.
Proof.
  apply set_eq. intros b. rewrite elem_of_difference, !elem_of_dom. unfold unmarked_buffers.
  split.
  - intros [buffer Hb]. apply map_lookup_filter_Some in Hb as [Hb Hv].
    split; [ by rewrite Hb | done ].
  - intros [[buffer Hb] Hv]. exists buffer. by apply map_lookup_filter_Some.
Qed.

Lemma slot_used_vacuum_marked a V q : slot_used (vacuum_marked a V) q <-> slot_used a q.
Proof.
  unfold slot_used. cbn [vacuum_marked buffers available_segments_per_buffer].
  rewrite flag_buffers_lookup. split.
  - intros (buffer & blk & Hb & Hmem & Hq).
    destruct (buffers a !! GetBufferId q) as [buffer0 | ]; [ | done ].
    cbn in Hb. injection Hb as <-. by exists buffer0, blk.
  - intros (buffer & blk & Hb & Hmem & Hq). rewrite Hb.
    by eexists _, blk.
Qed.

Lemma slot_used_unmarked a a' q :
  buffers a' = unmarked_buffers a ->
  available_segments_per_buffer a' = available_segments_per_buffer a ->
  slot_used a' q <-> slot_used a q /\ GetBufferId q ∉ vacuum_buffers a.
Proof.
  intros Hbufs Hav. unfold slot_used, unmarked_buffers in *. rewrite Hbufs, Hav. split.
  - intros (buffer & blk & Hb & Hmem & Hq).
    apply map_lookup_filter_Some in Hb as [Hb Hv]. split; [ by exists buffer, blk | done ].
  - intros [(buffer & blk & Hb & Hmem & Hq) Hv]. exists buffer, blk.
    split; [ by apply map_lookup_filter_Some | done ].
Qed.

(** ** [GetMemoryUsage] *)

Lemma GetMemoryUsage_fold (l : list (Z * FixedSizeBuffer)) : forall acc,
  0 <= acc -> acc + Z.of_nat (length l) * BLOCK_SIZE < Word.modulus ->
  foldl (fun memory_usage (entry : Z * FixedSizeBuffer) =>
           if InMemory entry.2 then Word.add memory_usage BLOCK_SIZE else memory_usage)
        acc l =
  acc + sumZ (fun e => if InMemory e.2 then BLOCK_SIZE else 0) l.
Proof.
  induction l as [ | e l IH ]; intros acc Hacc Hbound; cbn [foldl length] in *.
  - cbn. lia.
  - unfold sumZ. cbn [foldr]. fold (sumZ (fun e : Z * FixedSizeBuffer =>
                                            if InMemory e.2 then BLOCK_SIZE else 0) l).
    unfold BLOCK_SIZE in *.
    destruct (InMemory e.2).
    + rewrite IH.
      * unfold Word.add. rewrite wrap_small by lia. lia.
      * unfold Word.add. rewrite wrap_small by lia. lia.
      * unfold Word.add. rewrite wrap_small by lia. lia.
    + rewrite IH by lia. lia.
Qed.

(** ** [InitializeVacuum] declines *)

Lemma InitializeVacuum_visit_fold_disk a (l : list (Z * FixedSizeBuffer)) : forall m s t,
  (forall e, e ∈ l -> InMemory e.2 = false) ->
  foldl (InitializeVacuum_visit a) (m, s, t) l = (clear_flags m l, s, t).
Proof.
  induction l as [ | e l IH ]; intros m s t Hl; cbn [foldl]; [ done | ].
  unfold InitializeVacuum_visit at 2.
  replace (InMemory (set_vacuum e.2 false)) with false
    by (symmetry; apply (Hl e); by left).
  rewrite IH by (intros; apply Hl; by right). done.
Qed.

Lemma vacuuming_consistent a :
  vacuuming a -> vacuum_buffers a = ∅ ->
  total_segment_count a = sum_counts (buffers a) -> consistent a.
Proof.
  intros [Hlay Hbufs Hfree Hids Hmarked Htot] Hvac Hsum. split; split; try done.
  intros b. rewrite Hfree, Hvac. split; [ tauto | ].
  intros H. split; [ apply not_elem_of_empty | done ].
Qed.

Lemma Reset_consistent a : layout_ok a -> consistent (Reset a).
Proof.
  intros Hlay. split; split; cbn.
  - done.
  - intros b buffer Hb. by rewrite lookup_empty in Hb.
  - intros b. split.
    + intros Hb. by apply not_elem_of_empty in Hb.
    + intros (buffer & Hb & _). by rewrite lookup_empty in Hb.
  - intros b [buffer Hb]. by rewrite lookup_empty in Hb.
  - by rewrite sum_counts_empty.
Qed.

Lemma flag_buffers_no_vacuum bufs :
  (forall b buffer, bufs !! b = Some buffer -> vacuum buffer = false) ->
  flag_buffers ∅ bufs = bufs.
Proof.
  intros Hno. apply map_eq. intros k. rewrite flag_buffers_lookup.
  destruct (bufs !! k) as [buffer | ] eqn:Hb; [ | done ].
  cbn. rewrite bool_decide_eq_false_2 by apply not_elem_of_empty.
  specialize (Hno k buffer Hb). destruct buffer. cbn in *. by subst.
Qed.

Lemma vacuum_marked_none a : no_vacuum a -> vacuum_marked a ∅ = a.
Proof.
  intros [Hvac Hno]. unfold vacuum_marked.
  rewrite flag_buffers_no_vacuum, difference_empty_L, <- Hvac by done.
  by destruct a.
Qed.

(** [InitializeVacuum] on a consistent allocator with no vacuum pending:
    the cases of its result. *)
Lemma InitializeVacuum_cases visit a :
  consistent a -> vacuum_buffers a = ∅ -> visit_ok visit ->
  InitializeVacuum visit a = Ok (Reset a, false) /\ total_segment_count a = 0 \/
  InitializeVacuum visit a = Ok (vacuum_marked a ∅, false) /\ total_segment_count a <> 0 \/
  InitializeVacuum visit a =
    Ok (vacuum_marked a (list_to_set (vacuum_kept visit a).*2), true) /\
  total_segment_count a <> 0.
Proof.
  intros Hcons Hvac Hvisit.
  destruct (decide (total_segment_count a = 0)) as [Hzero | Hne].
  - left. split; [ | done ]. unfold InitializeVacuum. by rewrite Hzero.
  - right. rewrite (InitializeVacuum_run visit a Hcons Hvac Hvisit Hne).
    destruct (below_threshold _ _); [ left | right ]; done.
Qed.

Lemma marked_in_memory_dec a : {marked_in_memory a} + {~ marked_in_memory a}.
Proof.
  assert (forall b, Decision (match buffers a !! b with
                              | Some buffer => InMemory buffer = true
                              | None => False
                              end)) as Hdec.
  { intros b. destruct (buffers a !! b); [ solve_decision | right; tauto ]. }
  destruct (@Forall_dec _ (fun b => match buffers a !! b with
                                     | Some buffer => InMemory buffer = true
                                     | None => False
                                     end) Hdec (elements (vacuum_buffers a)))
    as [Hall | Hex].
  - left. intros b Hb. rewrite Forall_forall in Hall.
    specialize (Hall b ltac:(by apply elem_of_elements)).
    destruct (buffers a !! b) as [buffer | ]; [ | done ]. by exists buffer.
  - right. intros Hall. apply Hex. apply Forall_forall. intros b Hb.
    apply elem_of_elements in Hb. destruct (Hall b Hb) as (buffer & -> & Hmem). done.
Qed.

(** ** Reachable allocators *)

Lemma New_times_reachable s begin (n : nat) : forall a a' ps,
  reachable s a -> begin_ok begin -> New_times begin n a = Ok (a', ps) ->
  reachable s a'.
Proof.
  induction n as [ | n IH ]; intros a a' ps Hr Hbegin; cbn [New_times].
  - by intros [= <- _].
  - destruct (New begin a) as [[a1 p] | | ] eqn:Hnew; cbn [mbind outcome_bind]; try done.
    destruct (New_times begin n a1) as [[a2 ps'] | | ] eqn:Htimes;
      cbn [mbind outcome_bind]; try done.
    intros [= <- _]. eapply IH; [ | done | exact Htimes ].
    by eapply reach_New.
Qed.

(** ** What [InitializeVacuum] leaves as it is *)

Lemma no_slot_used_when_empty a q :
  consistent a -> total_segment_count a = 0 -> ~ slot_used a q.
Proof.
  intros [[(Hbc & Hav & Hbc8) Hbufs _] [_ Hsum]] Hzero
         (buffer & blk & Hb & Hmem & Hoff & Hclear).
  assert (0 <= available_segments_per_buffer a) as Hav0 by lia.
  assert (segment_count buffer = 0) as Hcount.
  { assert (0 <= sum_counts (delete (GetBufferId q) (buffers a))) as Hrest.
    { apply sum_counts_nonneg. intros k buffer0 Hk.
      apply lookup_delete_Some in Hk as [_ Hk].
      apply (buffer_ok_count _ _ _ Hav0 (Hbufs _ _ Hk)). }
    pose proof (sum_counts_insert_new (delete (GetBufferId q) (buffers a))
                  (GetBufferId q) buffer (lookup_delete_eq _ _)) as Hins.
    rewrite insert_delete_id in Hins by done.
    pose proof (buffer_ok_count _ _ _ Hav0 (Hbufs _ _ Hb)). lia. }
  destruct (Hbufs _ _ Hb) as (blk' & Hmem' & _ & _ & _ & Hused).
  rewrite Hmem in Hmem'. injection Hmem' as <-.
  rewrite Hcount in Hused. symmetry in Hused.
  rewrite (count_clear_zero _ _ Hused) in Hclear by lia. done.
Qed.

Lemma InitializeVacuum_marks visit a a' :
  consistent a -> vacuum_buffers a = ∅ -> visit_ok visit ->
  InitializeVacuum visit a = Ok (a', true) ->
  a' = vacuum_marked a (vacuum_buffers a') /\
  vacuum_buffers a' ⊆ dom (buffers a) /\
  Z.of_nat (size (vacuum_buffers a')) = excess_buffers a /\
  (forall v u buffer_v buffer_u,
     v ∈ vacuum_buffers a' -> u ∉ vacuum_buffers a' ->
     buffers a !! v = Some buffer_v -> buffers a !! u = Some buffer_u ->
     segment_count buffer_v <= segment_count buffer_u) /\
  live_segments_in (vacuum_buffers a') (buffers a) <=
    free_slots_outside a (vacuum_buffers a').
Proof.
  intros Hcons Hvac Hvisit Hrun.
  destruct (InitializeVacuum_accepted visit a a' Hcons Hvac Hvisit Hrun) as [Hne ->].
  cbn [vacuum_marked vacuum_buffers].
  split; [ done | ]. split; [ by apply vacuum_kept_dom | ].
  split; [ by apply vacuum_kept_size | ].
  split.
  - intros v u buffer_v buffer_u. by apply vacuum_kept_emptiest.
  - by apply vacuum_kept_room.
Qed.

Lemma InitializeVacuum_vacuuming visit a a1 :
  consistent a -> vacuum_buffers a = ∅ -> visit_ok visit ->
  InitializeVacuum visit a = Ok (a1, true) ->
  vacuuming a1 /\ total_segment_count a1 = sum_counts (buffers a1).
Proof.
  intros Hcons Hvac Hvisit Hrun.
  destruct (InitializeVacuum_accepted visit a a1 Hcons Hvac Hvisit Hrun) as [Hne ->].
  split.
  - apply vacuum_marked_vacuuming; [ done | by apply vacuum_kept_dom ].
  - cbn. rewrite sum_counts_flag_buffers. apply Hcons.
Qed.

(** ** The first loop of [InitializeVacuum] with buffers on disk *)

Lemma emplace_all_length a l : forall t,
  length (emplace_all a t l) = (length t + length l)%nat.
Proof.
  intros t. rewrite (emplace_all_perm a l t), length_app, length_map. done.
Qed.

Lemma InitializeVacuum_visit_fold_mixed a l :
  0 <= available_segments_per_buffer a ->
  forall m s t,
  (forall e, e ∈ l -> InMemory e.2 = true -> segment_count e.2 = 0) ->
  0 <= s -> s + Z.of_nat (length l) * available_segments_per_buffer a < Word.modulus ->
  foldl (InitializeVacuum_visit a) (m, s, t) l =
    (clear_flags m l,
     s + Z.of_nat (length (filter (fun e => InMemory e.2 = true) l)) *
         available_segments_per_buffer a,
     emplace_all a t (filter (fun e => InMemory e.2 = true) l)).
Proof.
  intros Hav. induction l as [ | e l IH ]; intros m s t Hl Hs Hbound.
  - cbn. f_equal. f_equal. lia.
  - cbn [foldl length] in *.
    unfold InitializeVacuum_visit at 2.
    replace (InMemory (set_vacuum e.2 false)) with (InMemory e.2) by done.
    cbn [set_vacuum segment_count].
    destruct (InMemory e.2) eqn:Hmem.
    + rewrite (Hl e ltac:(by left) Hmem).
      assert (Word.sub (available_segments_per_buffer a) 0 =
              available_segments_per_buffer a) as ->.
      { unfold Word.sub. rewrite Z.sub_0_r. apply wrap_small. nia. }
      assert (Word.add s (available_segments_per_buffer a) =
              s + available_segments_per_buffer a) as ->.
      { apply wrap_small. nia. }
      rewrite IH; [ | intros; apply Hl; [ by right | done ] | lia | nia ].
      rewrite filter_cons_True by done. cbn [length].
      unfold clear_flags, emplace_all. cbn [foldl vacuum_entry fst snd].
      rewrite (Hl e ltac:(by left) Hmem), Z.sub_0_r.
      f_equal. f_equal. lia.
    + rewrite IH; [ | intros; apply Hl; [ by right | done ] | lia | nia ].
      rewrite filter_cons_False by (rewrite Hmem; done). done.
Qed.

(** * The claims *)

(** ** C1. The constructor *)

(** C1 fails at segment size 262135 = BLOCK_SIZE - 9.  The first round
    leaves one byte; the second round adds a bitmap word because 64 is a
    multiple of 1, the byte count passes [BLOCK_SIZE], the unsigned
    [BLOCK_SIZE - byte_count] wraps around and 64 more segments are
    counted.  The constructor sets 65 segments per buffer where one
    segment is all that fits. *)
Theorem constructor_overcounts :
  exists a, FixedSizeAllocator_new 262135 = Ok a /\
            available_segments_per_buffer a = 65 /\
            bitmask_count a = 2 /\
            ~ fits 262135 65 /\ is_max_fit 262135 1.
Proof.
  eexists. split; [ vm_compute; reflexivity | ].
  cbn [available_segments_per_buffer bitmask_count].
  split; [ reflexivity | ]. split; [ reflexivity | ].
  unfold is_max_fit, fits, BLOCK_SIZE. split.
  - change ((65 + 63) / 64) with 2. lia.
  - split; [ lia | ]. split.
    + change ((1 + 63) / 64) with 1. lia.
    + intros n Hn Hfit.
      assert (0 <= (n + 63) / 64) by (apply Z.div_pos; lia). nia.
Qed.

(** A segment size above [BLOCK_SIZE - 8] makes the constructor throw. *)
Lemma constructor_rejects (s : Z) :
  BLOCK_SIZE - 8 < s ->
  FixedSizeAllocator_new s = InternalException max_segment_size_msg.
Proof.
  intros Hs. unfold FixedSizeAllocator_new.
  change (Word.sub BLOCK_SIZE sizeof_validity_t) with (BLOCK_SIZE - 8).
  destruct (Z.gtb_spec s (BLOCK_SIZE - 8)); [ done | lia ].
Qed.

(** ** C2. The bit-scan ladder *)

(** C2. For every non-zero 64-bit word [x] the six-level mask/shift ladder
    of [GetOffset] over [BASE] and [SHIFT] ends with the index of the
    rightmost set bit of [x]: that bit is set and no bit below it is. *)
Theorem find_rightmost_set_correct (x : Z) :
  0 <= x < 2 ^ 64 -> x <> 0 ->
  is_rightmost_set x (find_rightmost_set x).
Proof.
  intros Hx Hnz. unfold find_rightmost_set.
  destruct (rightmost_ladder_spec BASE x BASE_ok ltac:(lia)) as (e & _ & _ & _ & H).
  exact H.
Qed.

Lemma find_rightmost_set_witness :
  0 <= 40 < 2 ^ 64 /\ 40 <> 0 /\ is_rightmost_set 40 (find_rightmost_set 40).
Proof.
  split; [ lia | ]. split; [ lia | ].
  apply (find_rightmost_set_correct 40); lia.
Defined.

(** ** C3. The scenario: ten [New], one [Free], two [New] *)

(** When a single buffer has free space, [begin()] has no choice. *)
Lemma New_one_choice begin a a1 b :
  begin_ok begin -> New_add_buffer a = Ok a1 ->
  buffers_with_free_space a1 = {[b]} ->
  New begin a = New_pointer (fun _ => b) a1.
Proof.
  intros Hbegin Hadd Hfree. unfold New. rewrite Hadd. cbn [mbind outcome_bind].
  unfold New_pointer. rewrite Hfree.
  assert (begin ({[b]} : gset Z) ∈ ({[b]} : gset Z)) as Hin
    by apply Hbegin, non_empty_singleton_L.
  apply elem_of_singleton in Hin. by rewrite Hin.
Qed.

(** Evaluates the first call of [New] in the goal, on an allocator given
    in full in which buffer 0 is the only one with free space. *)
Ltac run_New Hbegin :=
  match goal with
  | |- context [ New ?bg ?a ] =>
      let r := eval vm_compute in (New_add_buffer a) in
      match r with
      | Ok ?a1 =>
          let r2 := eval vm_compute in (New_pointer (fun _ => 0) a1) in
          replace (New bg a) with r2;
          [ cbn [mbind outcome_bind]
          | symmetry; rewrite (New_one_choice bg a a1 0 Hbegin);
            [ vm_compute; reflexivity | vm_compute; reflexivity | vm_compute; reflexivity ] ]
      end
  end.

(** C3 fails: the call of [New] after the [Free] returns offset 4, not
    10, and the call after that returns 10, not 4. *)
Lemma scenario_free_offset_4_not_as_stated :
  ~ exists n2 n3 size4,
      scenario_free_offset_4 begin_min =
        Ok (first_ten_pointers, (n2, MkIndexPointer 0 10), (n3, MkIndexPointer 0 4), size4).
Proof.
  intros (n2 & n3 & size4 & H). revert H.
  assert (scenario_free_offset_4 begin_min =
    Ok (first_ten_pointers, (9, MkIndexPointer 0 4), (10, MkIndexPointer 0 10), 1%nat)) as ->
    by (vm_compute; reflexivity).
  intros H. discriminate H.
Qed.

(** C3, amended. From a fresh allocator of segment size 16, ten calls of
    [New] return offsets 0 to 9 of buffer 0; [Free] of the pointer of
    offset 4 takes the segment count of the buffer back to 9, so the next
    [New] finds the bit at [segment_count] = 9 clear, scans for the
    rightmost set bit and returns offset 4; the [New] after that finds the
    bit at [segment_count] = 10 set and returns offset 10.  One buffer is
    in use throughout, whatever element [begin()] takes. *)
Theorem scenario_free_offset_4_runs (begin : gset Z -> Z) :
  begin_ok begin ->
  scenario_free_offset_4 begin =
    Ok (first_ten_pointers, (9, MkIndexPointer 0 4), (10, MkIndexPointer 0 10), 1%nat).
Proof.
  intros Hbegin. unfold scenario_free_offset_4.
  replace (FixedSizeAllocator_new 16) with (Ok fresh16) by (vm_compute; reflexivity).
  cbn [mbind outcome_bind New_times].
  do 10 run_New Hbegin.
  match goal with
  | |- context [ find ?f ?l ] =>
      replace (find f l) with (Some (MkIndexPointer 0 4)) by (vm_compute; reflexivity)
  end.
  cbn [of_option mbind outcome_bind].
  match goal with
  | |- context [ Free ?p ?a ] =>
      let r := eval vm_compute in (Free p a) in
      replace (Free p a) with r by (vm_compute; reflexivity)
  end.
  cbn [mbind outcome_bind].
  match goal with
  | |- context [ find_buffer ?m ?k ] =>
      let r := eval vm_compute in (find_buffer m k) in
      replace (find_buffer m k) with r by (vm_compute; reflexivity)
  end.
  cbn [mbind outcome_bind].
  run_New Hbegin.
  match goal with
  | |- context [ find_buffer ?m ?k ] =>
      let r := eval vm_compute in (find_buffer m k) in
      replace (find_buffer m k) with r by (vm_compute; reflexivity)
  end.
  cbn [mbind outcome_bind].
  run_New Hbegin.
  vm_compute. reflexivity.
Qed.

Lemma scenario_free_offset_4_witness :
  begin_ok begin_min /\
  scenario_free_offset_4 begin_min =
    Ok (first_ten_pointers, (9, MkIndexPointer 0 4), (10, MkIndexPointer 0 10), 1%nat).
Proof.
  split; [ exact begin_min_ok | ].
  exact (scenario_free_offset_4_runs begin_min begin_min_ok).
Defined.

(** ** C4. Free-space bookkeeping *)

(** C4. After every sequence of [New] and [Free] calls on a fresh
    allocator, [buffers_with_free_space] holds exactly the ids [b] that
    are keys of [buffers] with
    [buffers[b].segment_count < available_segments_per_buffer]. *)
Theorem free_space_exact (s : Z) (a : FixedSizeAllocator) :
  reachable s a ->
  forall b, b ∈ buffers_with_free_space a <->
    exists buffer, buffers a !! b = Some buffer /\
      segment_count buffer < available_segments_per_buffer a.
Proof.
  intros Hr. apply reachable_consistent in Hr as [Hcoh _].
  apply (coh_free a Hcoh).
Qed.

Lemma free_space_exact_witness :
  reachable 16 one16 /\
  (0 ∈ buffers_with_free_space one16 <->
   exists buffer, buffers one16 !! 0 = Some buffer /\
     segment_count buffer < available_segments_per_buffer one16).
Proof.
  split; [ exact reachable_one16 | ].
  apply (free_space_exact 16 one16 reachable_one16).
Defined.

(** ** C5. Serialize and Deserialize *)

(** C5 fails: after [New] and [Free] of the pointer, the allocator holds
    a buffer without segments and [Serialize] throws. *)
Lemma Serialize_empty_buffer_throws :
  exists a,
    Free (MkIndexPointer 0 0) one16 = Ok a /\ reachable 16 a /\
    Serialize a (MkStorage [] []) = InternalException empty_buffer_msg.
Proof.
  eexists. split; [ vm_compute; reflexivity | ]. split.
  - eapply (reach_Free 16 (MkIndexPointer 0 0) one16).
    + exact reachable_one16.
    + vm_compute. split; [ discriminate | reflexivity ].
    + vm_compute. reflexivity.
  - vm_compute. reflexivity.
Qed.

(** C5, amended. For an allocator reached by [New], [Free] and stores,
    in which every buffer holds a segment, and whose layout is tight:
    [Serialize] succeeds, and [Deserialize] of what it wrote, into a fresh
    allocator of the same segment size, succeeds and yields the same
    [segment_size], [total_segment_count], [buffers_with_free_space] and
    per-buffer [segment_count]s; the bytes of every live segment are read
    back as they were.  The layout is tight unless the constructor has
    added a bitmap word it did not need or counted segments past the end
    of the block ([constructor_layout]); below 7944 bytes per segment it
    always is ([layout_tight_small]). *)
Theorem Serialize_Deserialize_roundtrip (s : Z) (a a0 : FixedSizeAllocator)
    (st : Storage) :
  reachable s a ->
  FixedSizeAllocator_new s = Ok a0 ->
  layout_tight a0 ->
  map_Forall (fun _ buffer => 1 <= segment_count buffer) (buffers a) ->
  exists a1 st1 pointer a2,
    Serialize a st = Ok (a1, st1, pointer) /\
    Deserialize a0 st1 pointer = Ok a2 /\
    segment_size a2 = segment_size a /\
    total_segment_count a2 = total_segment_count a /\
    buffers_with_free_space a2 = buffers_with_free_space a /\
    (forall b, segment_count <$> buffers a2 !! b = segment_count <$> buffers a !! b) /\
    (forall b offset buffer blk,
       buffers a !! b = Some buffer -> memory buffer = Some blk ->
       0 <= offset < available_segments_per_buffer a ->
       mask_bit (bitmap blk) offset = false ->
       exists bytes,
         segment_bytes a st (MkIndexPointer b offset) = Ok bytes /\
         segment_bytes a2 st1 (MkIndexPointer b offset) = Ok bytes).
Proof.
  intros Hreach Hnew [Htight Hfit] Hfull.
  pose proof (reachable_size _ _ Hreach) as Hs.
  pose proof (reachable_consistent _ _ Hreach) as Hcons.
  pose proof (consistent_total_bounds _ Hcons) as Htb.
  destruct (reachable_layout _ _ _ Hreach Hnew) as (Hsz & Hbc & Hoff & Hav).
  destruct (FixedSizeAllocator_new_Ok s a0 ltac:(lia) Hnew)
    as (Hvalid & _ & Hsz0 & _ & Hbufs0 & Hfree0).
  destruct (FixedSizeAllocator_new_total s Hvalid) as (a0' & Hnew' & _ & _ & _ & _ & Hoff0 & _).
  rewrite Hnew in Hnew'. injection Hnew' as <-.
  destruct Hcons as [[Hlay Hbufs Hfs] [Hids Htot]].
  assert (layout_tight a) as Htight_a.
  { split; [ by rewrite Hbc, Hav | by rewrite Hbc, Hav, Hsz ]. }
  assert (bitmask_offset a = 8 * bitmask_count a) as Hoff_a by congruence.
  assert (0 <= segment_size a) as Hsz_a by lia.
  (* the buffers are written *)
  destruct (Serialize_buffers_spec a Hlay Htight_a Hoff_a Hsz_a
              (map_to_list (buffers a)) st (buffers a))
    as (stS & bufs & HS & Hmeta & _ & Hother & Hin).
  { apply NoDup_fst_map_to_list. }
  { intros [k buffer] He. apply elem_of_map_to_list in He. cbn [snd].
    split; [ by eapply Hbufs | by eapply Hfull ]. }
  assert (forall k, buffers a !! k = None -> bufs !! k = None) as Hnone.
  { intros k Hk. rewrite Hother; [ done | ].
    intros Hin'. apply list_elem_of_fmap in Hin' as ([k' v] & -> & He).
    apply elem_of_map_to_list in He. cbn [fst] in Hk. congruence. }
  assert (forall k buffer, buffers a !! k = Some buffer ->
            exists buffer', bufs !! k = Some buffer' /\ persisted a stS buffer buffer')
    as Hsome.
  { intros k buffer Hk. apply Hin. by apply elem_of_map_to_list. }
  assert (forall k, segment_count <$> bufs !! k = segment_count <$> buffers a !! k)
    as Hcounts.
  { intros k. destruct (buffers a !! k) as [buffer | ] eqn:E.
    - destruct (Hsome k buffer E) as (buffer' & -> & (blk & m & p & _ & _ & _ & -> & _)).
      done.
    - by rewrite (Hnone k E). }
  unfold Serialize. rewrite HS. cbn [mbind outcome_bind]. rewrite Hmeta.
  eexists _, _, _, _. split; [ reflexivity | ].
  split; [ by apply Deserialize_spec | ].
  cbn [segment_size total_segment_count buffers_with_free_space buffers].
  split; [ done | ]. split.
  { rewrite (sum_counts_ext bufs (buffers a) Hcounts), <- Htot.
    apply wrap_small. unfold Word.modulus. lia. }
  split; [ done | ]. split.
  { intros b. rewrite lookup_fmap, <- Hcounts. by destruct (bufs !! b). }
  intros b offset buffer blk Hb Hmem Hoffset Hclear.
  destruct (Hsome b buffer Hb)
    as (buffer' & Hb' & (blk' & m & p & Hmem' & Hm & Hcov & -> & Hblock)).
  rewrite Hmem in Hmem'. injection Hmem' as <-.
  eexists. split.
  - unfold segment_bytes, find_buffer. cbn [GetBufferId]. rewrite Hb.
    cbn [mbind outcome_bind]. unfold Load. rewrite Hmem. cbn [mbind outcome_bind].
    reflexivity.
  - unfold segment_bytes, find_buffer. cbn [GetBufferId buffers].
    rewrite lookup_fmap, Hb'. cbn [fmap option_fmap option_map mbind outcome_bind].
    unfold Load, restored_of, FixedSizeBuffer_restored.
    cbn [memory block_pointer default from_option]. unfold id.
    destruct (Z.ltb_spec (Z.of_nat p) 0); [ lia | ].
    rewrite Nat2Z.id. cbn [blocks]. rewrite Hblock.
    cbn [of_option mbind outcome_bind segment_size]. f_equal.
    unfold segment_address.
    cbn [bitmask_offset segment_size GetOffsetOf]. rewrite <- Hoff.
    destruct Hlay as (Hbc1 & Hav1 & Hbc8).
    assert (Word.add (bitmask_offset a) (Word.mul offset (segment_size a)) =
            bitmask_offset a + offset * segment_size a) as ->.
    { unfold Word.add, Word.mul. unfold BLOCK_SIZE in *.
      rewrite (wrap_small (offset * segment_size a)) by (unfold Word.modulus; nia).
      apply wrap_small. unfold Word.modulus. nia. }
    apply map_ext_in. intros i Hi.
    cbn [payload block_prefix].
    apply filter_lookup_below.
    specialize (Hcov offset Hoffset Hclear).
    assert (0 <= i < segment_size a) as Hi'.
    { apply list_elem_of_In in Hi. apply elem_of_seqZ in Hi. lia. }
    nia.
Qed.

Lemma Serialize_Deserialize_roundtrip_witness :
  reachable 16 stored16 /\
  FixedSizeAllocator_new 16 = Ok fresh16 /\
  layout_tight fresh16 /\
  map_Forall (fun _ buffer => 1 <= segment_count buffer) (buffers stored16) /\
  exists a1 st1 pointer a2,
    Serialize stored16 (MkStorage [] []) = Ok (a1, st1, pointer) /\
    Deserialize fresh16 st1 pointer = Ok a2 /\
    segment_size a2 = segment_size stored16 /\
    total_segment_count a2 = total_segment_count stored16 /\
    buffers_with_free_space a2 = buffers_with_free_space stored16 /\
    (forall b, segment_count <$> buffers a2 !! b =
               segment_count <$> buffers stored16 !! b) /\
    (forall b offset buffer blk,
       buffers stored16 !! b = Some buffer -> memory buffer = Some blk ->
       0 <= offset < available_segments_per_buffer stored16 ->
       mask_bit (bitmap blk) offset = false ->
       exists bytes,
         segment_bytes stored16 (MkStorage [] []) (MkIndexPointer b offset) = Ok bytes /\
         segment_bytes a2 st1 (MkIndexPointer b offset) = Ok bytes).
Proof.
  assert (FixedSizeAllocator_new 16 = Ok fresh16) as Hnew by (vm_compute; reflexivity).
  assert (layout_tight fresh16) as Htight.
  { split; vm_compute; discriminate. }
  assert (map_Forall (fun _ buffer => 1 <= segment_count buffer) (buffers stored16))
    as Hfull.
  { apply (bool_decide_unpack _). vm_compute. exact I. }
  split; [ exact reachable_stored16 | ]. split; [ exact Hnew | ].
  split; [ exact Htight | ]. split; [ exact Hfull | ].
  exact (Serialize_Deserialize_roundtrip 16 stored16 fresh16 (MkStorage [] [])
           reachable_stored16 Hnew Htight Hfull).
Defined.

(** ** C6. [GetMaxOffset] *)

Lemma bits_from_to_sound mask lo n v :
  bits_from_to mask lo n v = true ->
  forall k, Z.of_nat lo <= k < Z.of_nat lo + Z.of_nat n -> mask_bit mask k = v.
Proof.
  unfold bits_from_to. rewrite forallb_forall. intros Hall k Hk.
  specialize (Hall (Z.to_nat k)). rewrite Z2Nat.id in Hall by lia.
  apply Bool.eqb_prop, Hall, in_seq. lia.
Qed.

(** C6 fails at segment size 8191.  The constructor leaves 32 segments
    per buffer and, 64 being a multiple of 32, two bitmap words.  After
    one [New] slot 0 is the only used slot, yet [GetMaxOffset] forces the
    bits from 32 on in the second word, finds bit 31 of that word clear
    and returns 96 instead of 1. *)
Theorem GetMaxOffset_overshoots :
  FixedSizeAllocator_new 8191 = Ok fresh8191 /\
  New begin_min fresh8191 = Ok (one8191, MkIndexPointer 0 0) /\
  bitmask_count one8191 = 2 /\ available_segments_per_buffer one8191 = 32 /\
  (exists buffer blk, buffers one8191 !! 0 = Some buffer /\
                      memory buffer = Some blk /\ bitmap blk = one8191_bitmap) /\
  largest_used_slot one8191_bitmap (available_segments_per_buffer one8191) 0 /\
  GetMaxOffset one8191 one8191_bitmap = Ok 96.
Proof.
  split; [ vm_compute; reflexivity | ]. split; [ vm_compute; reflexivity | ].
  split; [ reflexivity | ]. split; [ reflexivity | ]. split.
  { eexists _, _. split; [ vm_compute; reflexivity | ]. split; reflexivity. }
  split; [ | vm_compute; reflexivity ].
  split; [ vm_compute; split; [ discriminate | reflexivity ] | ].
  split; [ vm_compute; reflexivity | ].
  intros k Hk. change (available_segments_per_buffer one8191) with 32 in Hk.
  apply (bits_from_to_sound one8191_bitmap 1 31 true); [ vm_compute; reflexivity | lia ].
Qed.

(** There, a buffer without a used slot is not refused either. *)
Lemma GetMaxOffset_accepts_empty :
  exists a, Free (MkIndexPointer 0 0) one8191 = Ok a /\
    exists buffer blk, buffers a !! 0 = Some buffer /\ memory buffer = Some blk /\
      no_used_slot (bitmap blk) (available_segments_per_buffer a) /\
      GetMaxOffset a (bitmap blk) = Ok 96.
Proof.
  eexists. split; [ vm_compute; reflexivity | ].
  eexists _, _. split; [ vm_compute; reflexivity | ]. split; [ reflexivity | ].
  split; [ | vm_compute; reflexivity ].
  intros k Hk. cbn [available_segments_per_buffer with_state one8191] in Hk.
  apply (bits_from_to_sound _ 0 32 true); [ vm_compute; reflexivity | lia ].
Qed.

(** The second bitmap word holds no slot; whatever its bits,
    [GetMaxOffset] returns at least 64 where one slot is in use. *)
Lemma GetMaxOffset_overshoots_any_spare_word (spare : Z) :
  Word.ok spare ->
  exists m, GetMaxOffset one8191 (<[1%nat := spare]> one8191_bitmap) = Ok m /\ 64 <= m.
Proof.
  intros Hspare.
  change (<[1%nat := spare]> one8191_bitmap) with [4294967294; spare].
  assert (Forall Word.ok [4294967294; spare]) as Hwords.
  { constructor 2; [ unfold Word.ok, Word.modulus; lia | ].
    constructor 2; [ done | constructor 1 ]. }
  assert (64 * bitmask_count one8191 < 2 ^ 32) as Hsmall by (vm_compute; done).
  rewrite (GetMaxOffset_unfold one8191 [4294967294; spare] ltac:(vm_compute; discriminate) Hsmall).
  change (Z.to_nat (bitmask_count one8191)) with 2%nat.
  destruct (GetMaxOffset_scan_spec one8191 [4294967294; spare] Hsmall eq_refl Hwords
              2 ltac:(vm_compute; discriminate))
    as [[_ Hall] | (J & -> & HJ & _ & Habove)].
  - specialize (Hall 63 ltac:(lia)). vm_compute in Hall. discriminate.
  - exists (J + 1). split; [ done | ].
    destruct (Z.le_gt_cases 63 J) as [ | Hlt ]; [ lia | exfalso ].
    specialize (Habove 63 ltac:(lia)). vm_compute in Habove. discriminate.
Qed.

(** ** C7. [Merge] *)

(** C7. [Merge] does not leave [other] empty.  Take two allocators of
    segment size 16 that each hold one segment in buffer 0.  [Merge] does
    to [self] what the claim says and clears the buffers and the ids with
    free space of [other], but it leaves [other.total_segment_count] at
    1, where [Reset] sets the count to 0 with the same two clears.  So
    [other] is neither empty nor consistent, and the next [New] on it
    counts two segments where one is live. *)
Theorem Merge_keeps_count_of_other :
  exists a' other',
    Merge one16 one16 = Ok (a', other') /\
    Merge_moved one16 one16 a' /\
    buffers other' = ∅ /\ buffers_with_free_space other' = ∅ /\
    total_segment_count other' = 1 /\
    ~ allocator_empty other' /\ allocator_empty (Reset one16) /\
    ~ Merge_as_stated one16 one16 a' other' /\
    ~ consistent other' /\
    exists other2 p,
      New begin_min other' = Ok (other2, p) /\
      total_segment_count other2 = 2 /\ sum_counts (buffers other2) = 1.
Proof.
  assert (consistent one16) as Hcons by exact (reachable_consistent 16 one16 reachable_one16).
  destruct (Merge_moved_consistent one16 one16 Hcons Hcons eq_refl)
    as (a' & Hmerge & Hmoved).
  assert (total_segment_count one16 <> 0) as Hne by (vm_compute; discriminate).
  destruct (Merge_other_not_empty _ _ _ _ Hmerge Hne) as [Hnot_empty Hnot_stated].
  exists a', (with_state one16 (total_segment_count one16) ∅ ∅).
  split; [ done | ]. split; [ done | ]. split; [ done | ]. split; [ done | ].
  split; [ done | ]. split; [ done | ]. split; [ apply Reset_empty | ].
  split; [ done | ]. split.
  - intros [_ [_ Hsum]]. cbn in Hsum. rewrite sum_counts_empty in Hsum. done.
  - eexists _, _. split; [ vm_compute; reflexivity | ].
    split; vm_compute; reflexivity.
Qed.

(** ** C8. [Free] *)

(** C8. In an allocator reached by [New] and [Free] calls, for a buffer
    [b] and a slot [offset] of it: when the bit of the slot is set (the
    slot is free), [Free] on the pointer fails with an internal error;
    when the bit is clear (the slot is live), [Free] sets the bit, inserts
    [b] into [buffers_with_free_space] and takes one off
    [total_segment_count] and off the buffer's [segment_count]. *)
Theorem Free_slot (s : Z) (a : FixedSizeAllocator) (b offset : Z)
    (buffer : FixedSizeBuffer) :
  reachable s a ->
  buffers a !! b = Some buffer ->
  0 <= offset < available_segments_per_buffer a ->
  exists blk, memory buffer = Some blk /\
    (mask_bit (bitmap blk) offset = true ->
       throws (Free (MkIndexPointer b offset) a)) /\
    (mask_bit (bitmap blk) offset = false ->
       exists mask',
         ValidityMask.SetValid (bitmap blk) offset = Ok mask' /\
         mask_bit mask' offset = true /\
         (forall j, 0 <= j -> j <> offset -> mask_bit mask' j = mask_bit (bitmap blk) j) /\
         Free (MkIndexPointer b offset) a =
           Ok (with_state a (total_segment_count a - 1)
                 (<[b := set_segment_count (set_bitmap buffer mask')
                           (segment_count buffer - 1)]> (buffers a))
                 (buffers_with_free_space a ∪ {[b]}))).
Proof.
  intros Hr Hb Hoff. apply reachable_consistent in Hr as Hcons.
  pose proof Hcons as [[Hlay Hbufs _] _].
  destruct (Hbufs b buffer Hb) as (blk & Hmem & Hlen & _ & _ & _).
  destruct Hlay as (Hbc & Hav & _).
  exists blk. split; [ done | ]. split.
  - intros Hset. unfold Free, find_buffer. cbn [GetBufferId GetOffsetOf].
    rewrite Hb. cbn [mbind outcome_bind]. unfold Get_block. rewrite Hmem.
    cbn [of_option mbind outcome_bind].
    rewrite RowIsValid_in_range by lia. rewrite Hset.
    cbn [mbind outcome_bind negb D_ASSERT]. by eexists.
  - intros Hclear.
    destruct (Free_live a b offset buffer blk Hcons Hb Hmem Hoff Hclear)
      as (mask' & Hset & _ & _ & Hfree & _).
    exists mask'. split; [ done | ].
    destruct (SetValid_Ok _ _ _ Hset ltac:(lia)) as [_ Hbits].
    split; [ | split; [ | done ] ].
    + rewrite Hbits by lia. by rewrite decide_True.
    + intros j Hj Hne. rewrite Hbits by lia. by rewrite decide_False.
Qed.

Lemma Free_slot_witness :
  reachable 16 one16 /\
  buffers one16 !! 0 = Some one16_buffer /\
  0 <= 0 < available_segments_per_buffer one16 /\
  exists blk,
    memory one16_buffer = Some blk /\
    (mask_bit (bitmap blk) 0 = true -> throws (Free (MkIndexPointer 0 0) one16)) /\
    (mask_bit (bitmap blk) 0 = false ->
       exists mask',
         ValidityMask.SetValid (bitmap blk) 0 = Ok mask' /\
         mask_bit mask' 0 = true /\
         (forall j, 0 <= j -> j <> 0 -> mask_bit mask' j = mask_bit (bitmap blk) j) /\
         Free (MkIndexPointer 0 0) one16 =
           Ok (with_state one16 (total_segment_count one16 - 1)
                 (<[0 := set_segment_count (set_bitmap one16_buffer mask')
                           (segment_count one16_buffer - 1)]> (buffers one16))
                 (buffers_with_free_space one16 ∪ {[0]}))).
Proof.
  assert (buffers one16 !! 0 = Some one16_buffer) as Hb by (vm_compute; reflexivity).
  assert (0 <= 0 < available_segments_per_buffer one16) as Hoff
    by (vm_compute; split; [ discriminate | reflexivity ]).
  split; [ exact reachable_one16 | ]. split; [ exact Hb | ]. split; [ exact Hoff | ].
  exact (Free_slot 16 one16 0 0 one16_buffer reachable_one16 Hb Hoff).
Defined.

(** ** C9. [GetAvailableBufferId] *)

(** C9 fails: with the single key 2, the loop starts at 1, finds it
    unused and returns it, although 0 is unused and smaller. *)
Lemma GetAvailableBufferId_not_smallest :
  GetAvailableBufferId buffers_after_vacuum = Ok 1 /\
  ~ smallest_unused_id buffers_after_vacuum 1.
Proof.
  split; [ vm_compute; reflexivity | ].
  intros (_ & _ & Hbelow).
  destruct (Hbelow 0 ltac:(lia)) as [buffer Hb].
  vm_compute in Hb. discriminate.
Qed.

(** C9, amended. For every [buffers] map, [GetAvailableBufferId] returns
    the largest integer in [0, |buffers|] that is not a key of [buffers]:
    an unused id, every id between it and [|buffers|] being in use. *)
Theorem GetAvailableBufferId_largest_unused (bufs : gmap Z FixedSizeBuffer) :
  exists id, GetAvailableBufferId bufs = Ok id /\
             largest_unused_id_upto_size bufs id.
Proof.
  destruct (GetAvailableBufferId_spec bufs) as (id & Heq & Hr & Hnone & Habove).
  exists id. split; [ exact Heq | ]. repeat split; try done; lia.
Qed.

(** When the keys are [0 .. |buffers| - 1], as they are as long as no
    buffer was dropped, the id returned is also the smallest unused one. *)
Lemma GetAvailableBufferId_dense (bufs : gmap Z FixedSizeBuffer) :
  (forall j, 0 <= j < Z.of_nat (size bufs) -> is_Some (bufs !! j)) ->
  exists id, GetAvailableBufferId bufs = Ok id /\ smallest_unused_id bufs id /\
             id = Z.of_nat (size bufs).
Proof.
  intros Hdense.
  destruct (GetAvailableBufferId_spec bufs) as (id & Heq & Hr & Hnone & Habove).
  assert (id = Z.of_nat (size bufs)) as Hid.
  { destruct (Z.eq_dec id (Z.of_nat (size bufs))) as [ | Hne ]; [ done | ].
    destruct (Hdense id ltac:(lia)) as [buffer Hb]. congruence. }
  exists id. split; [ done | ]. split; [ | done ].
  split; [ lia | ]. split; [ done | ]. intros j Hj. apply Hdense. lia.
Qed.

(** ** C10. The first pointer *)

(** C10. On a freshly constructed allocator the first [New] returns the
    pointer with buffer id 0 and offset 0: a live pointer (its slot is
    marked used and counted) whose two fields are those of the null
    pointer. *)
Theorem first_pointer_is_zero (s : Z) (begin : gset Z -> Z) (a : FixedSizeAllocator) :
  0 <= s < Word.modulus -> FixedSizeAllocator_new s = Ok a -> begin_ok begin ->
  exists a' buffer blk,
    New begin a = Ok (a', MkIndexPointer 0 0) /\
    GetBufferId (MkIndexPointer 0 0) = GetBufferId null_pointer /\
    GetOffsetOf (MkIndexPointer 0 0) = GetOffsetOf null_pointer /\
    buffers a' !! 0 = Some buffer /\ memory buffer = Some blk /\
    mask_bit (bitmap blk) 0 = false /\
    segment_count buffer = 1 /\ total_segment_count a' = 1.
Proof.
  intros Hs Hnew Hbegin.
  destruct (FixedSizeAllocator_new_Ok s a ltac:(lia) Hnew)
    as (Hvalid & Hcons & _ & Htot & Hbufs & Hfree).
  pose proof Hcons as [[(Hbc & Hav & Hbc8) _ _] _].
  (* the buffer that is added *)
  assert (exists buffer0,
    New_add_buffer a = Ok (with_state a 0 {[0 := buffer0]} {[0]}) /\
    buffer_ok (bitmask_count a) (available_segments_per_buffer a) buffer0 /\
    segment_count buffer0 = 0 /\
    exists blk0, memory buffer0 = Some blk0 /\ mask_bit (bitmap blk0) 0 = true)
    as (buffer0 & Hadd & Hok0 & Hcount0 & blk0 & Hmem0 & Hbit0).
  { unfold New_add_buffer. rewrite decide_True by done.
    unfold GetAvailableBufferId. rewrite Hbufs, map_size_empty.
    cbn [GetAvailableBufferId_from]. rewrite lookup_empty.
    cbn [mbind outcome_bind]. unfold map_insert_new. rewrite lookup_empty.
    unfold find_buffer. rewrite lookup_insert_eq. cbn [mbind outcome_bind].
    unfold Get_block.
    destruct (memory (FixedSizeBuffer_fresh (bitmask_count a))) as [blk | ] eqn:Hblk; [ | done ].
    cbn [of_option mbind outcome_bind].
    destruct (fresh_buffer_ok _ _ Hbc Hav blk Hblk) as (Hok & Hcount & Hbits).
    eexists. split; [ | split; [ exact Hok | split; [ exact Hcount | ] ] ].
    - rewrite insert_insert_eq, Hfree, (left_id_L ∅ (∪)), Htot. reflexivity.
    - specialize (Hbits 0 ltac:(lia)).
      destruct (memory (set_bitmap _ _)) as [blk' | ]; [ | done ].
      exists blk'. split; [ done | ]. rewrite Hbits.
      destruct (Z.ltb_spec 0 (available_segments_per_buffer a)); [ done | lia ]. }
  assert (begin {[0]} = 0) as Hpick.
  { assert (begin ({[0]} : gset Z) ∈ ({[0]} : gset Z)) as Hin
      by apply Hbegin, non_empty_singleton_L.
    by apply elem_of_singleton in Hin. }
  pose proof Hok0 as (blk & Hmem & Hlen & Hwords & Hhigh & Hused).
  rewrite Hmem in Hmem0. injection Hmem0 as <-.
  destruct (SetInvalid_in_range (bitmap blk) 0 ltac:(lia)) as [mask' Hset].
  destruct (SetInvalid_Ok _ _ _ Hset ltac:(lia)) as [_ Hbits'].
  eexists _, _, _. split.
  - unfold New. rewrite Hadd. cbn [mbind outcome_bind]. unfold New_pointer.
    cbn [buffers_with_free_space with_state buffers total_segment_count
         available_segments_per_buffer].
    rewrite bool_decide_true by apply non_empty_singleton_L.
    cbn [D_ASSERT mbind outcome_bind]. rewrite Hpick.
    change (Word.u32 0) with 0. unfold find_buffer. rewrite lookup_singleton_eq.
    cbn [mbind outcome_bind]. unfold Get_block. rewrite Hmem.
    cbn [of_option mbind outcome_bind]. unfold GetOffset.
    rewrite Hcount0. rewrite RowIsValid_in_range by lia. rewrite Hbit0.
    cbn [mbind outcome_bind]. rewrite Hset. cbn [mbind outcome_bind].
    change (Word.u32 0) with 0. unfold IndexPointer_new. change (Word.u32 0) with 0.
    reflexivity.
  - split; [ done | ]. split; [ done | ]. cbn.
    rewrite lookup_insert_eq. split; [ reflexivity | ].
    unfold set_bitmap. rewrite Hmem. cbn. split; [ reflexivity | ]. cbn.
    split; [ | done ]. rewrite Hbits' by lia. by rewrite decide_True.
Qed.

Lemma first_pointer_is_zero_witness :
  0 <= 16 < Word.modulus /\ FixedSizeAllocator_new 16 = Ok fresh16 /\
  begin_ok begin_min /\
  exists a' buffer blk,
    New begin_min fresh16 = Ok (a', MkIndexPointer 0 0) /\
    GetBufferId (MkIndexPointer 0 0) = GetBufferId null_pointer /\
    GetOffsetOf (MkIndexPointer 0 0) = GetOffsetOf null_pointer /\
    buffers a' !! 0 = Some buffer /\ memory buffer = Some blk /\
    mask_bit (bitmap blk) 0 = false /\
    segment_count buffer = 1 /\ total_segment_count a' = 1.
Proof.
  assert (0 <= 16 < Word.modulus) as Hs by (unfold Word.modulus; lia).
  assert (FixedSizeAllocator_new 16 = Ok fresh16) as Hnew by (vm_compute; reflexivity).
  split; [ exact Hs | ]. split; [ exact Hnew | ]. split; [ exact begin_min_ok | ].
  exact (first_pointer_is_zero 16 begin_min fresh16 Hs Hnew begin_min_ok).
Defined.

(** * Further properties *)

(** ** Helpers of the examples *)

Lemma visit_ok_map_to_list : visit_ok map_to_list.
Proof. intros bufs. done. Qed.

Lemma reachable_freed16 : reachable 16 freed16.
Proof.
  apply (reach_Free 16 (MkIndexPointer 0 0) one16 freed16).
  - exact reachable_one16.
  - vm_compute. split; [ discriminate | reflexivity ].
  - vm_compute. reflexivity.
Defined.

Lemma reachable_sparse100000 : reachable 100000 sparse100000.
Proof.
  apply (reach_Free 100000 (MkIndexPointer 0 0) three100000 sparse100000).
  - apply (New_times_reachable 100000 begin_min 3 fresh100000 three100000
             [MkIndexPointer 0 0; MkIndexPointer 0 1; MkIndexPointer 1 0]).
    + apply reach_new; [ unfold Word.modulus; lia | vm_compute; reflexivity ].
    + apply begin_min_ok.
    + vm_compute. reflexivity.
  - vm_compute. split; [ discriminate | reflexivity ].
  - vm_compute. reflexivity.
Defined.

(** ** The constructor *)

(** X1. For every admissible segment size outside the eleven sizes of
    [overcounted_sizes] the constructor succeeds, puts the segments right
    behind the bitmap, counts the largest number of segments that fit
    with their bitmap in a block, and every segment lies inside the
    block. *)
Theorem constructor_layout_in_block (s : Z) :
  1 <= s <= BLOCK_SIZE - 8 -> ~ In s overcounted_sizes ->
  exists a, FixedSizeAllocator_new s = Ok a /\ segment_size a = s /\
    bitmask_offset a = 8 * bitmask_count a /\
    is_max_fit s (available_segments_per_buffer a) /\
    segments_in_block a.
Proof.
  intros Hs Hnot.
  destruct (FixedSizeAllocator_new_total s Hs)
    as (a & Hnew & Hss & Hbc & Hav & Hbc8 & Hbo & _).
  destruct (constructor_layout s Hs) as (a' & Hnew' & _ & Hcase).
  rewrite Hnew in Hnew'. injection Hnew' as <-.
  exists a. split; [ done | ]. split; [ done | ]. split; [ done | ].
  unfold segments_in_block. rewrite Hss, Hbo.
  destruct Hcase as [(_ & Hmax & _ & Htight) | [(Hspare & Hover & Hbc2 & Hr & Hmax)
                                              | (Hover & _)]].
  - split; [ done | ]. split; [ lia | ]. split; [ lia | ]. by rewrite Hss in Htight.
  - split; [ done | ]. split; [ lia | ]. split; [ lia | ].
    rewrite Hbc2, Hr. unfold overcounts in Hover.
    destruct (Z.lt_ge_cases BLOCK_SIZE (16 + (BLOCK_SIZE - 8) / s * s)); [ | lia ].
    exfalso. apply Hover. by split.
  - exfalso. apply Hnot. by apply overcounts_sizes.
Qed.

Lemma constructor_layout_in_block_witness :
  1 <= 16 <= BLOCK_SIZE - 8 /\ ~ In 16 overcounted_sizes /\
  exists a, FixedSizeAllocator_new 16 = Ok a /\ segment_size a = 16 /\
    bitmask_offset a = 8 * bitmask_count a /\
    is_max_fit 16 (available_segments_per_buffer a) /\
    segments_in_block a.
Proof.
  assert (1 <= 16 <= BLOCK_SIZE - 8) as Hs by (unfold BLOCK_SIZE; lia).
  assert (~ In 16 overcounted_sizes) as Hnot.
  { cbn. intros H. repeat (destruct H as [H | H]; [ discriminate H | ]). exact H. }
  split; [ exact Hs | ]. split; [ exact Hnot | ].
  exact (constructor_layout_in_block 16 Hs Hnot).
Defined.

(** ** [GetOffset] *)

(** X2. On a bitmap of [bitmask_count] 64-bit words, [GetOffset] with a
    segment count [count] below the bitmap's bits: if bit [count] is set
    it clears that bit and returns [count]; otherwise it clears the
    lowest set bit of the bitmap and returns its index, or throws
    "Invalid bitmask for FixedSizeAllocator" when no bit is set.  No
    other bit changes. *)
Theorem GetOffset_takes_first_free (a : FixedSizeAllocator) (mask : list Z) (count : Z) :
  Forall Word.ok mask -> Z.of_nat (length mask) = bitmask_count a ->
  64 * bitmask_count a <= 2 ^ 32 -> 0 <= count < 64 * bitmask_count a ->
  if mask_bit mask count
  then exists mask', takes_slot mask mask' count /\
         GetOffset a mask count = Ok (mask', count)
  else (no_free_slot mask /\
        GetOffset a mask count = InternalException invalid_bitmask_msg) \/
       (exists j mask', first_free_slot mask j /\ takes_slot mask mask' j /\
          GetOffset a mask count = Ok (mask', j)).
Proof. exact (GetOffset_spec a mask count). Qed.

Lemma GetOffset_takes_first_free_witness :
  if mask_bit one16_bitmap 1
  then exists mask', takes_slot one16_bitmap mask' 1 /\
         GetOffset one16 one16_bitmap 1 = Ok (mask', 1)
  else (no_free_slot one16_bitmap /\
        GetOffset one16 one16_bitmap 1 = InternalException invalid_bitmask_msg) \/
       (exists j mask', first_free_slot one16_bitmap j /\ takes_slot one16_bitmap mask' j /\
          GetOffset one16 one16_bitmap 1 = Ok (mask', j)).
Proof.
  apply (GetOffset_takes_first_free one16 one16_bitmap 1).
  - unfold Word.ok. apply (bool_decide_unpack _). vm_compute. exact I.
  - vm_compute. reflexivity.
  - vm_compute. discriminate.
  - vm_compute. split; [ discriminate | reflexivity ].
Defined.

(** ** [New] *)

(** X3. When the buffers agree with the layout, a successful [New]
    returns a pointer to a slot that was not in use, marks exactly that
    slot as used, and leaves every other slot as it was. *)
Theorem New_takes_unused_slot (begin : gset Z -> Z) (a a' : FixedSizeAllocator)
    (p : IndexPointer) :
  well_formed a -> New begin a = Ok (a', p) ->
  well_formed a' /\
  ~ slot_used a p /\ slot_used a' p /\
  (forall q, q <> p -> slot_used a' q <-> slot_used a q).
Proof. exact (New_slots begin a a' p). Qed.

Lemma New_takes_unused_slot_witness :
  well_formed fresh16 /\
  New begin_min fresh16 = Ok (one16, MkIndexPointer 0 0) /\
  well_formed one16 /\
  ~ slot_used fresh16 (MkIndexPointer 0 0) /\ slot_used one16 (MkIndexPointer 0 0) /\
  (forall q, q <> MkIndexPointer 0 0 -> slot_used one16 q <-> slot_used fresh16 q).
Proof.
  assert (well_formed fresh16) as Hwf.
  { apply coherent_well_formed.
    apply (reachable_consistent 16 fresh16).
    apply reach_new; [ unfold Word.modulus; lia | vm_compute; reflexivity ]. }
  assert (New begin_min fresh16 = Ok (one16, MkIndexPointer 0 0)) as Hnew
    by (vm_compute; reflexivity).
  split; [ exact Hwf | ]. split; [ exact Hnew | ].
  exact (New_takes_unused_slot begin_min fresh16 one16 (MkIndexPointer 0 0) Hwf Hnew).
Defined.

(** X4. On a consistent allocator with fewer than [2^32] buffers [New]
    succeeds, whichever buffer with free space [begin()] picks. *)
Theorem New_succeeds (begin : gset Z -> Z) (a : FixedSizeAllocator) :
  consistent a -> begin_ok begin -> Z.of_nat (size (buffers a)) < 2 ^ 32 ->
  exists a' p, New begin a = Ok (a', p).
Proof.
  intros [Hcoh [Hids _]] Hbegin Hsize. unfold New.
  destruct (New_add_buffer_total a) as [a1 Hadd]. rewrite Hadd.
  cbn [mbind outcome_bind].
  destruct (New_add_buffer_Ok _ _ Hcoh Hadd) as (Hcoh1 & _ & Hcase).
  apply New_pointer_total; [ done | done | | ].
  - destruct Hcase as [[Hne ->] | (_ & id & fresh & _ & _ & _ & _ & ->)]; [ done | ].
    cbn. apply non_empty_singleton_L.
  - intros b Hb.
    destruct Hcase as [[Hne ->] | (_ & id & fresh & _ & Hid & _ & _ & ->)].
    + apply Hids. apply (coh_free _ Hcoh) in Hb as (buffer & -> & _). done.
    + cbn in Hb. apply elem_of_singleton in Hb as ->. lia.
Qed.

Lemma New_succeeds_witness :
  consistent one16 /\ begin_ok begin_min /\ Z.of_nat (size (buffers one16)) < 2 ^ 32 /\
  exists a' p, New begin_min one16 = Ok (a', p).
Proof.
  assert (consistent one16) as Hcons by exact (reachable_consistent 16 one16 reachable_one16).
  assert (Z.of_nat (size (buffers one16)) < 2 ^ 32) as Hsize by (vm_compute; reflexivity).
  split; [ exact Hcons | ]. split; [ exact begin_min_ok | ]. split; [ exact Hsize | ].
  exact (New_succeeds begin_min one16 Hcons begin_min_ok Hsize).
Defined.

(** X5. A successful [New] keeps a consistent allocator consistent and
    adds one to [total_segment_count]. *)
Theorem New_keeps_consistent (begin : gset Z -> Z) (a a' : FixedSizeAllocator)
    (p : IndexPointer) :
  consistent a -> begin_ok begin -> New begin a = Ok (a', p) ->
  consistent a' /\ total_segment_count a' = total_segment_count a + 1.
Proof. exact (New_Ok begin a a' p). Qed.

Lemma New_keeps_consistent_witness :
  consistent fresh16 /\ begin_ok begin_min /\
  New begin_min fresh16 = Ok (one16, MkIndexPointer 0 0) /\
  consistent one16 /\ total_segment_count one16 = total_segment_count fresh16 + 1.
Proof.
  assert (consistent fresh16) as Hcons.
  { apply (reachable_consistent 16 fresh16).
    apply reach_new; [ unfold Word.modulus; lia | vm_compute; reflexivity ]. }
  assert (New begin_min fresh16 = Ok (one16, MkIndexPointer 0 0)) as Hnew
    by (vm_compute; reflexivity).
  split; [ exact Hcons | ]. split; [ exact begin_min_ok | ]. split; [ exact Hnew | ].
  exact (New_keeps_consistent begin_min fresh16 one16 (MkIndexPointer 0 0)
           Hcons begin_min_ok Hnew).
Defined.

(** X6. On a fresh allocator the first [n] calls of [New], for [n] up
    to [available_segments_per_buffer], return the pointers
    [(0, 0), (0, 1), ..., (0, n - 1)] in this order; once buffer 0 is
    full, the next call returns [(1, 0)]. *)
Theorem New_fills_buffer_in_order (s : Z) (begin : gset Z -> Z)
    (a0 : FixedSizeAllocator) (n : nat) :
  0 <= s -> FixedSizeAllocator_new s = Ok a0 -> begin_ok begin ->
  Z.of_nat n <= available_segments_per_buffer a0 ->
  exists a, New_times begin n a0 =
              Ok (a, map (MkIndexPointer 0) (seqZ 0 (Z.of_nat n))) /\
    (Z.of_nat n = available_segments_per_buffer a0 ->
     exists a', New begin a = Ok (a', MkIndexPointer 1 0)).
Proof.
  intros Hs Hnew Hbegin Hn.
  destruct (FixedSizeAllocator_new_Ok s a0 Hs Hnew)
    as (_ & [[Hlay _ _] _] & _ & _ & Hbufs & Hfree).
  destruct n as [ | m ].
  - exists a0. split; [ done | ]. destruct Hlay as (_ & Hav & _). lia.
  - destruct (New_add_buffer_first a0 Hlay Hbufs Hfree) as (a1 & Hadd & Hfill1 & Hsame1 & _).
    pose proof (same_layout_ok _ _ Hsame1 Hlay) as Hlay1.
    destruct Hsame1 as (Hs1 & Hb1 & Ho1 & Hav1).
    destruct (New_pointer_filled begin a1 0 Hlay1 Hbegin Hfill1) as (a2 & Hptr & Hfill2 & Hsame2).
    { destruct Hlay1 as (_ & Hav & _). lia. }
    pose proof (same_layout_ok _ _ Hsame2 Hlay1) as Hlay2.
    destruct Hsame2 as (Hs2 & Hb2 & Ho2 & Hav2).
    destruct (New_times_filled begin m Hbegin a2 1 Hlay2 Hfill2 ltac:(lia) ltac:(lia))
      as (a & Htimes & Hfill & Hsame).
    destruct Hsame as (Hs3 & Hb3 & Ho3 & Hav3).
    exists a. split.
    + cbn [New_times]. unfold New. rewrite Hadd. cbn [mbind outcome_bind].
      rewrite Hptr. cbn [mbind outcome_bind]. rewrite Htimes. cbn [mbind outcome_bind].
      rewrite (seqZ_cons 0 (Z.of_nat (S m))) by lia. cbn [map].
      replace (Z.pred (Z.of_nat (S m))) with (Z.of_nat m) by lia. done.
    + intros Hfull. apply New_next_buffer; [ | done | ].
      * unfold layout_ok. rewrite Hb3, Hav3. exact Hlay2.
      * replace (available_segments_per_buffer a) with (1 + Z.of_nat m); [ done | ].
        lia.
Qed.

Lemma New_fills_buffer_in_order_witness :
  exists a, New_times begin_min 2 fresh100000 =
              Ok (a, map (MkIndexPointer 0) (seqZ 0 (Z.of_nat 2))) /\
    (Z.of_nat 2 = available_segments_per_buffer fresh100000 ->
     exists a', New begin_min a = Ok (a', MkIndexPointer 1 0)).
Proof.
  apply (New_fills_buffer_in_order 100000 begin_min fresh100000 2).
  - lia.
  - vm_compute. reflexivity.
  - exact begin_min_ok.
  - vm_compute. discriminate.
Defined.

(** ** [Free] *)

(** X7. A successful [Free] of a pointer whose offset is below
    [available_segments_per_buffer] releases a slot that was in use,
    leaves it unused, and leaves every other slot as it was. *)
Theorem Free_releases_slot (ptr : IndexPointer) (a a' : FixedSizeAllocator) :
  0 <= GetOffsetOf ptr < available_segments_per_buffer a ->
  Free ptr a = Ok a' ->
  slot_used a ptr /\ ~ slot_used a' ptr /\
  (forall q, q <> ptr -> slot_used a' q <-> slot_used a q).
Proof. exact (Free_slots ptr a a'). Qed.

Lemma Free_releases_slot_witness :
  0 <= GetOffsetOf (MkIndexPointer 0 0) < available_segments_per_buffer one16 /\
  Free (MkIndexPointer 0 0) one16 = Ok freed16 /\
  slot_used one16 (MkIndexPointer 0 0) /\ ~ slot_used freed16 (MkIndexPointer 0 0) /\
  (forall q, q <> MkIndexPointer 0 0 -> slot_used freed16 q <-> slot_used one16 q).
Proof.
  assert (0 <= GetOffsetOf (MkIndexPointer 0 0) < available_segments_per_buffer one16)
    as Hoff by (vm_compute; split; [ discriminate | reflexivity ]).
  assert (Free (MkIndexPointer 0 0) one16 = Ok freed16) as Hfree
    by (vm_compute; reflexivity).
  split; [ exact Hoff | ]. split; [ exact Hfree | ].
  exact (Free_releases_slot (MkIndexPointer 0 0) one16 freed16 Hoff Hfree).
Defined.

(** X8. A successful [Free] of a pointer whose offset is below
    [available_segments_per_buffer] keeps a consistent allocator
    consistent and takes one from [total_segment_count]. *)
Theorem Free_keeps_consistent (ptr : IndexPointer) (a a' : FixedSizeAllocator) :
  consistent a ->
  0 <= GetOffsetOf ptr < available_segments_per_buffer a ->
  Free ptr a = Ok a' ->
  consistent a' /\ total_segment_count a' = total_segment_count a - 1.
Proof. exact (Free_Ok ptr a a'). Qed.

Lemma Free_keeps_consistent_witness :
  consistent one16 /\
  0 <= GetOffsetOf (MkIndexPointer 0 0) < available_segments_per_buffer one16 /\
  Free (MkIndexPointer 0 0) one16 = Ok freed16 /\
  consistent freed16 /\ total_segment_count freed16 = total_segment_count one16 - 1.
Proof.
  assert (consistent one16) as Hcons by exact (reachable_consistent 16 one16 reachable_one16).
  assert (0 <= GetOffsetOf (MkIndexPointer 0 0) < available_segments_per_buffer one16)
    as Hoff by (vm_compute; split; [ discriminate | reflexivity ]).
  assert (Free (MkIndexPointer 0 0) one16 = Ok freed16) as Hfree
    by (vm_compute; reflexivity).
  split; [ exact Hcons | ]. split; [ exact Hoff | ]. split; [ exact Hfree | ].
  exact (Free_keeps_consistent (MkIndexPointer 0 0) one16 freed16 Hcons Hoff Hfree).
Defined.

(** X9. Freeing a pointer a second time, right after a successful
    [Free] of it, fails the assertion [!mask.RowIsValid(offset)]. *)
Theorem Free_twice_throws (ptr : IndexPointer) (a a' : FixedSizeAllocator) :
  Free ptr a = Ok a' ->
  Free ptr a' = InternalException "!mask.RowIsValid(offset)".
Proof.
  intros Hfree.
  destruct (Free_inv _ _ _ Hfree) as (buffer & blk & mask' & Hb & Hmem & Hvalid & Hset & ->).
  apply RowIsValid_Ok in Hvalid as [Hrange _].
  destruct (SetValid_Ok _ _ _ Hset ltac:(lia)) as [Hlen Hbits].
  unfold Free, find_buffer. cbn [with_state buffers].
  rewrite lookup_insert_eq. cbn [mbind outcome_bind].
  unfold Get_block. cbn [memory set_segment_count].
  rewrite (set_bitmap_memory _ _ _ Hmem). cbn [of_option mbind outcome_bind bitmap].
  rewrite RowIsValid_in_range by (rewrite Hlen; lia).
  rewrite Hbits by lia. rewrite decide_True by done.
  reflexivity.
Qed.

Lemma Free_twice_throws_witness :
  Free (MkIndexPointer 0 0) one16 = Ok freed16 /\
  Free (MkIndexPointer 0 0) freed16 = InternalException "!mask.RowIsValid(offset)".
Proof.
  assert (Free (MkIndexPointer 0 0) one16 = Ok freed16) as Hfree
    by (vm_compute; reflexivity).
  split; [ exact Hfree | ].
  exact (Free_twice_throws (MkIndexPointer 0 0) one16 freed16 Hfree).
Defined.

(** X10. [Free] of the pointer that [New] just returned succeeds and
    undoes the allocation: the allocator is consistent again,
    [total_segment_count] is what it was, and the same slots are in use
    as before the [New]. *)
Theorem New_then_Free_restores (begin : gset Z -> Z) (a a1 : FixedSizeAllocator)
    (p : IndexPointer) :
  consistent a -> begin_ok begin -> New begin a = Ok (a1, p) ->
  exists a2, Free p a1 = Ok a2 /\ consistent a2 /\
    total_segment_count a2 = total_segment_count a /\
    forall q, slot_used a2 q <-> slot_used a q.
Proof.
  intros Hcons Hbegin Hnew.
  destruct (New_Ok _ _ _ _ Hcons Hbegin Hnew) as [Hcons1 Htot1].
  destruct (New_slots _ _ _ _ (coherent_well_formed _ (proj1 Hcons)) Hnew)
    as (_ & Hfree & Hused & Hframe).
  pose proof Hused as (buffer & blk & Hb & Hmem & Hoff & Hclear).
  destruct (Free_live a1 _ _ _ _ Hcons1 Hb Hmem Hoff Hclear)
    as (mask' & _ & _ & _ & Heq & Hcons2).
  destruct p as [b offset]. cbn [GetBufferId GetOffsetOf] in *.
  eexists. split; [ exact Heq | ]. split; [ done | ].
  split; [ cbn; lia | ].
  destruct (Free_slots (MkIndexPointer b offset) _ _ Hoff Heq) as (_ & Hnot & Hframe2).
  intros q.
  assert (q = MkIndexPointer b offset \/ q <> MkIndexPointer b offset) as [-> | Hq].
  { destruct q as [bq oq].
    destruct (decide (bq = b)) as [-> | ]; [ | right; congruence ].
    destruct (decide (oq = offset)) as [-> | ]; [ by left | right; congruence ]. }
  - split; intros H; [ by apply Hnot in H | by apply Hfree in H ].
  - by rewrite Hframe2, Hframe.
Qed.

Lemma New_then_Free_restores_witness :
  consistent fresh16 /\ begin_ok begin_min /\
  New begin_min fresh16 = Ok (one16, MkIndexPointer 0 0) /\
  exists a2, Free (MkIndexPointer 0 0) one16 = Ok a2 /\ consistent a2 /\
    total_segment_count a2 = total_segment_count fresh16 /\
    forall q, slot_used a2 q <-> slot_used fresh16 q.
Proof.
  assert (consistent fresh16) as Hcons.
  { apply (reachable_consistent 16 fresh16).
    apply reach_new; [ unfold Word.modulus; lia | vm_compute; reflexivity ]. }
  assert (New begin_min fresh16 = Ok (one16, MkIndexPointer 0 0)) as Hnew
    by (vm_compute; reflexivity).
  split; [ exact Hcons | ]. split; [ exact begin_min_ok | ]. split; [ exact Hnew | ].
  exact (New_then_Free_restores begin_min fresh16 one16 (MkIndexPointer 0 0)
           Hcons begin_min_ok Hnew).
Defined.

(** ** The counts *)

(** X11. After any sequence of [New], [Free] and writes to segments on
    a fresh allocator, [total_segment_count] is the sum of the buffers'
    segment counts, and the segment count of every buffer is the number
    of clear bits among the first [available_segments_per_buffer] bits of
    its bitmap. *)
Theorem counts_are_exact (s : Z) (a : FixedSizeAllocator) :
  reachable s a ->
  total_segment_count a = sum_counts (buffers a) /\
  forall b buffer, buffers a !! b = Some buffer ->
    exists blk, memory buffer = Some blk /\
      segment_count buffer =
        used_slots (bitmap blk) (available_segments_per_buffer a) /\
      0 <= segment_count buffer <= available_segments_per_buffer a.
Proof.
  intros Hr. destruct (reachable_consistent s a Hr) as [[Hlay Hbufs _] [_ Hsum]].
  split; [ done | ]. intros b buffer Hb.
  pose proof (Hbufs b buffer Hb) as Hok.
  destruct Hlay as (_ & Hav & _).
  assert (0 <= available_segments_per_buffer a) as Hav0 by lia.
  pose proof (buffer_ok_count _ _ _ Hav0 Hok) as Hcount.
  destruct Hok as (blk & Hmem & _ & _ & _ & Hused).
  exists blk. done.
Qed.

Lemma counts_are_exact_witness :
  reachable 100000 sparse100000 /\
  total_segment_count sparse100000 = sum_counts (buffers sparse100000) /\
  forall b buffer, buffers sparse100000 !! b = Some buffer ->
    exists blk, memory buffer = Some blk /\
      segment_count buffer =
        used_slots (bitmap blk) (available_segments_per_buffer sparse100000) /\
      0 <= segment_count buffer <= available_segments_per_buffer sparse100000.
Proof.
  split; [ exact reachable_sparse100000 | ].
  exact (counts_are_exact 100000 sparse100000 reachable_sparse100000).
Defined.

(** ** [Reset] *)

(** X12. [Reset] after any sequence of [New], [Free] and writes gives
    back the allocator the constructor built. *)
Theorem Reset_gives_fresh (s : Z) (a a0 : FixedSizeAllocator) :
  reachable s a -> FixedSizeAllocator_new s = Ok a0 -> Reset a = a0.
Proof.
  intros Hreach Hnew.
  destruct (reachable_layout _ _ _ Hreach Hnew) as (Hs & Hbc & Hoff & Hav).
  destruct (reachable_no_vacuum _ _ Hreach) as [Hvac _].
  pose proof (reachable_size _ _ Hreach) as Hsize.
  destruct (FixedSizeAllocator_new_Ok s a0 ltac:(lia) Hnew) as (Hvalid & _).
  destruct (FixedSizeAllocator_new_total s Hvalid)
    as (a0' & Heq & _ & _ & _ & _ & _ & Htot & Hbufs & Hfree & Hvac0).
  rewrite Hnew in Heq. injection Heq as <-.
  unfold Reset, with_state. destruct a0. cbn in *. congruence.
Qed.

Lemma Reset_gives_fresh_witness :
  reachable 16 one16 /\ FixedSizeAllocator_new 16 = Ok fresh16 /\ Reset one16 = fresh16.
Proof.
  assert (FixedSizeAllocator_new 16 = Ok fresh16) as Hnew by (vm_compute; reflexivity).
  split; [ exact reachable_one16 | ]. split; [ exact Hnew | ].
  exact (Reset_gives_fresh 16 one16 fresh16 reachable_one16 Hnew).
Defined.

(** ** [GetMemoryUsage] *)

(** X13. As long as the sum does not pass 64 bits, [GetMemoryUsage] is
    [BLOCK_SIZE] times the number of buffers that are in memory; a
    buffer that is only on disk adds nothing. *)
Theorem GetMemoryUsage_counts_blocks (bufs : gmap Z FixedSizeBuffer) :
  Z.of_nat (size bufs) * BLOCK_SIZE < Word.modulus ->
  GetMemoryUsage bufs = Z.of_nat (size (buffers_in_memory bufs)) * BLOCK_SIZE.
Proof.
  intros Hbound. unfold GetMemoryUsage.
  rewrite GetMemoryUsage_fold; [ | done | by rewrite length_map_to_list ].
  rewrite Z.add_0_l. clear Hbound. unfold buffers_in_memory.
  induction bufs as [ | k buffer bufs Hk IH ] using map_ind.
  - by rewrite map_filter_empty, map_to_list_empty, map_size_empty.
  - rewrite sumZ_map_insert_new by done. cbn [snd]. rewrite IH.
    destruct (InMemory buffer) eqn:Hmem.
    + rewrite map_filter_insert_True by done.
      rewrite map_size_insert_None; [ lia | ].
      apply map_lookup_filter_None. by left.
    + rewrite map_filter_insert_False by (cbn; congruence).
      rewrite delete_id by done. lia.
Qed.

Lemma GetMemoryUsage_counts_blocks_witness :
  Z.of_nat (size (buffers sparse100000)) * BLOCK_SIZE < Word.modulus /\
  GetMemoryUsage (buffers sparse100000) =
    Z.of_nat (size (buffers_in_memory (buffers sparse100000))) * BLOCK_SIZE.
Proof.
  assert (Z.of_nat (size (buffers sparse100000)) * BLOCK_SIZE < Word.modulus) as Hsize
    by (vm_compute; reflexivity).
  split; [ exact Hsize | ].
  exact (GetMemoryUsage_counts_blocks (buffers sparse100000) Hsize).
Defined.

(** ** [GetUpperBoundBufferId] and [Merge] *)

(** X14. When every buffer id is below [2^64 - 1],
    [GetUpperBoundBufferId] is above every buffer id, and it is 0 or one
    more than a buffer id. *)
Theorem GetUpperBoundBufferId_above_ids (bufs : gmap Z FixedSizeBuffer) :
  map_Forall (fun k _ => 0 <= k < Word.modulus - 1) bufs ->
  (forall k, is_Some (bufs !! k) -> k < GetUpperBoundBufferId bufs) /\
  (GetUpperBoundBufferId bufs = 0 \/
   is_Some (bufs !! (GetUpperBoundBufferId bufs - 1))).
Proof.
  intros Hkeys. rewrite (GetUpperBoundBufferId_spec _ Hkeys).
  destruct (max_key_plus_one_spec bufs) as (_ & Hub & Hmax). done.
Qed.

Lemma GetUpperBoundBufferId_above_ids_witness :
  map_Forall (fun k _ => 0 <= k < Word.modulus - 1) (buffers sparse100000) /\
  (forall k, is_Some (buffers sparse100000 !! k) ->
     k < GetUpperBoundBufferId (buffers sparse100000)) /\
  (GetUpperBoundBufferId (buffers sparse100000) = 0 \/
   is_Some (buffers sparse100000 !! (GetUpperBoundBufferId (buffers sparse100000) - 1))).
Proof.
  assert (map_Forall (fun k _ => 0 <= k < Word.modulus - 1) (buffers sparse100000))
    as Hkeys by (apply (bool_decide_unpack _); vm_compute; exact I).
  split; [ exact Hkeys | ].
  exact (GetUpperBoundBufferId_above_ids (buffers sparse100000) Hkeys).
Defined.

(** X15. [Merge] of two consistent allocators of the same layout, when
    the shifted buffer ids of the other allocator stay below [2^32],
    succeeds and leaves a consistent allocator whose
    [total_segment_count] is the sum of the two; the other allocator is
    left without buffers. *)
Theorem Merge_keeps_consistent (a other : FixedSizeAllocator) :
  consistent a -> consistent other ->
  segment_size a = segment_size other ->
  bitmask_count other = bitmask_count a ->
  available_segments_per_buffer other = available_segments_per_buffer a ->
  (forall id, is_Some (buffers other !! id) ->
     id + max_key_plus_one (buffers a) < 2 ^ 32) ->
  exists a' other',
    Merge a other = Ok (a', other') /\ consistent a' /\
    total_segment_count a' = total_segment_count a + total_segment_count other /\
    buffers other' = ∅ /\ buffers_with_free_space other' = ∅.
Proof.
  intros Hcons Hcons_o Hsize Hbc Hav Hfit.
  pose proof (consistent_total_bounds _ Hcons) as Htb.
  pose proof (consistent_total_bounds _ Hcons_o) as Htb_o.
  destruct Hcons as [[Hlay Hbufs Hfree] [Hids Htot]].
  destruct Hcons_o as [[Hlay_o Hbufs_o Hfree_o] [Hids_o Htot_o]].
  destruct (max_key_plus_one_spec (buffers a)) as (Hup0 & Hub & _).
  set (upper := max_key_plus_one (buffers a)) in *.
  destruct (Merge_Ok a other Hsize) as (a' & Hmerge & Hsame & Htot' & Hlook & Hfs & Hsum).
  { intros k buffer Hk. specialize (Hids k ltac:(by rewrite Hk)).
    unfold Word.modulus. lia. }
  { split.
    - intros id buffer Hid. cbn beta.
      specialize (Hids_o id ltac:(by rewrite Hid)).
      specialize (Hfit id ltac:(by rewrite Hid)). fold upper.
      unfold Word.modulus. lia.
    - intros id Hid. cbn beta.
      apply Hfree_o in Hid as (buffer & Hid & _).
      specialize (Hids_o id ltac:(by rewrite Hid)).
      specialize (Hfit id ltac:(by rewrite Hid)). fold upper.
      unfold Word.modulus. lia. }
  fold upper in Hlook, Hfs.
  destruct Hsame as (Hs' & Hbc' & Hoff' & Hav').
  assert (forall k, is_Some (buffers a !! k) -> buffers other !! (k - upper) = None) as Hdisj.
  { intros k Hk. specialize (Hub k Hk).
    destruct (buffers other !! (k - upper)) as [b' | ] eqn:E; [ | done ].
    specialize (Hids_o (k - upper) ltac:(by rewrite E)). lia. }
  exists a', (with_state other (total_segment_count other) ∅ ∅).
  split; [ done | ]. split; [ | split; [ | done ] ].
  - split; split.
    + unfold layout_ok. by rewrite Hbc', Hav'.
    + intros k buffer. rewrite Hlook, Hbc', Hav'.
      destruct (buffers other !! (k - upper)) as [b' | ] eqn:E.
      * intros [= <-]. rewrite <- Hbc, <- Hav. by eapply Hbufs_o.
      * by apply Hbufs.
    + intros k. rewrite Hfs, Hlook, Hav'. split.
      * intros [Hin | (id & Hid & ->)].
        -- apply Hfree in Hin as (buffer & Hk & Hlt).
           rewrite (Hdisj k) by (by rewrite Hk). by exists buffer.
        -- apply Hfree_o in Hid as (buffer & Hid & Hlt).
           replace (id + upper - upper) with id by lia. rewrite Hid.
           exists buffer. split; [ done | lia ].
      * destruct (buffers other !! (k - upper)) as [b' | ] eqn:E.
        -- intros (buffer & [= <-] & Hlt). right. exists (k - upper).
           split; [ | lia ]. apply Hfree_o. exists b'. split; [ done | lia ].
        -- intros (buffer & Hk & Hlt). left. apply Hfree. by exists buffer.
    + intros k. rewrite Hlook.
      destruct (buffers other !! (k - upper)) as [b' | ] eqn:E.
      * intros _. specialize (Hids_o (k - upper) ltac:(by rewrite E)).
        specialize (Hfit (k - upper) ltac:(by rewrite E)). lia.
      * apply Hids.
    + rewrite Htot', Hsum, <- Htot, <- Htot_o.
      apply wrap_small. unfold Word.modulus. lia.
  - rewrite Htot'. apply wrap_small. unfold Word.modulus. lia.
Qed.

Lemma Merge_keeps_consistent_witness :
  exists a' other',
    Merge one16 one16 = Ok (a', other') /\ consistent a' /\
    total_segment_count a' = total_segment_count one16 + total_segment_count one16 /\
    buffers other' = ∅ /\ buffers_with_free_space other' = ∅.
Proof.
  assert (consistent one16) as Hcons by exact (reachable_consistent 16 one16 reachable_one16).
  apply (Merge_keeps_consistent one16 one16 Hcons Hcons eq_refl eq_refl eq_refl).
  assert (map_Forall (fun id _ => id + max_key_plus_one (buffers one16) < 2 ^ 32)
            (buffers one16)) as Hids
    by (apply (bool_decide_unpack _); vm_compute; exact I).
  intros id [buffer Hb]. exact (Hids id buffer Hb).
Defined.

(** ** [InitializeVacuum] *)

(** X16. On a consistent allocator with no vacuum pending
    [InitializeVacuum] never fails.  It keeps the layout,
    [total_segment_count] and the slots in use; when it returns false
    the allocator is consistent and no buffer is marked. *)
Theorem InitializeVacuum_never_fails
    (visit : gmap Z FixedSizeBuffer -> list (Z * FixedSizeBuffer))
    (a : FixedSizeAllocator) :
  consistent a -> vacuum_buffers a = ∅ -> visit_ok visit ->
  exists a' r,
    InitializeVacuum visit a = Ok (a', r) /\ same_layout a a' /\
    total_segment_count a' = total_segment_count a /\
    (forall q, slot_used a' q <-> slot_used a q) /\
    (r = false -> consistent a' /\ vacuum_buffers a' = ∅).
Proof.
  intros Hcons Hvac Hvisit.
  destruct (InitializeVacuum_cases visit a Hcons Hvac Hvisit)
    as [[-> Hzero] | [[-> Hne] | [-> Hne]]].
  - exists (Reset a), false. split; [ done | ]. split; [ done | ].
    split; [ by rewrite Hzero | ]. split.
    + intros q. split.
      * intros (buffer & blk & Hb & _). cbn in Hb. by rewrite lookup_empty in Hb.
      * intros Hq. by apply (no_slot_used_when_empty a q) in Hq.
    + intros _. split; [ apply Reset_consistent, Hcons | done ].
  - exists (vacuum_marked a ∅), false. split; [ done | ]. split; [ done | ].
    split; [ done | ]. split; [ intros q; apply slot_used_vacuum_marked | ].
    intros _. split; [ | done ].
    apply vacuuming_consistent; [ | done | ].
    + apply vacuum_marked_vacuuming; [ done | apply empty_subseteq ].
    + cbn. rewrite sum_counts_flag_buffers. apply Hcons.
  - eexists _, true. split; [ done | ]. split; [ done | ].
    split; [ done | ]. split; [ intros q; apply slot_used_vacuum_marked | done ].
Qed.

Lemma InitializeVacuum_never_fails_witness :
  consistent sparse100000 /\ vacuum_buffers sparse100000 = ∅ /\ visit_ok map_to_list /\
  exists a' r,
    InitializeVacuum map_to_list sparse100000 = Ok (a', r) /\
    same_layout sparse100000 a' /\
    total_segment_count a' = total_segment_count sparse100000 /\
    (forall q, slot_used a' q <-> slot_used sparse100000 q) /\
    (r = false -> consistent a' /\ vacuum_buffers a' = ∅).
Proof.
  assert (consistent sparse100000) as Hcons
    by exact (reachable_consistent 100000 sparse100000 reachable_sparse100000).
  split; [ exact Hcons | ]. split; [ reflexivity | ]. split; [ exact visit_ok_map_to_list | ].
  exact (InitializeVacuum_never_fails map_to_list sparse100000 Hcons eq_refl
           visit_ok_map_to_list).
Defined.

(** X17. After any sequence of [New], [Free] and writes on a fresh
    allocator, an [InitializeVacuum] that returns false has changed
    nothing, unless no segment is live: then it has reset the
    allocator. *)
Theorem InitializeVacuum_declined_unchanged
    (visit : gmap Z FixedSizeBuffer -> list (Z * FixedSizeBuffer))
    (s : Z) (a a' : FixedSizeAllocator) :
  reachable s a -> visit_ok visit ->
  InitializeVacuum visit a = Ok (a', false) ->
  a' = if total_segment_count a =? 0 then Reset a else a.
Proof.
  intros Hr Hvisit Hrun.
  pose proof (reachable_consistent s a Hr) as Hcons.
  pose proof (reachable_no_vacuum s a Hr) as Hno.
  destruct (InitializeVacuum_cases visit a Hcons (proj1 Hno) Hvisit)
    as [[Heq Hzero] | [[Heq Hne] | [Heq Hne]]]; rewrite Heq in Hrun.
  - injection Hrun as <-. by rewrite Hzero.
  - injection Hrun as <-. destruct (Z.eqb_spec (total_segment_count a) 0); [ done | ].
    by apply vacuum_marked_none.
  - done.
Qed.

Lemma InitializeVacuum_declined_unchanged_witness :
  reachable 16 one16 /\ visit_ok map_to_list /\
  InitializeVacuum map_to_list one16 = Ok (one16, false) /\
  one16 = if total_segment_count one16 =? 0 then Reset one16 else one16.
Proof.
  assert (InitializeVacuum map_to_list one16 = Ok (one16, false)) as Hrun
    by (vm_compute; reflexivity).
  split; [ exact reachable_one16 | ]. split; [ exact visit_ok_map_to_list | ].
  split; [ exact Hrun | ].
  exact (InitializeVacuum_declined_unchanged map_to_list 16 one16 one16
           reachable_one16 visit_ok_map_to_list Hrun).
Defined.

(** X18. When [InitializeVacuum] returns true on a consistent allocator
    with no vacuum pending, it has marked exactly [excess_buffers]
    buffers: the number of whole buffers that the free slots of all
    buffers add up to.  The marked buffers are buffers of the allocator;
    their flag is set and every other flag is cleared, they are taken out
    of the free set and entered in [vacuum_buffers], and nothing else
    changes. *)
Theorem InitializeVacuum_marks_excess
    (visit : gmap Z FixedSizeBuffer -> list (Z * FixedSizeBuffer))
    (a a' : FixedSizeAllocator) :
  consistent a -> vacuum_buffers a = ∅ -> visit_ok visit ->
  InitializeVacuum visit a = Ok (a', true) ->
  a' = vacuum_marked a (vacuum_buffers a') /\
  vacuum_buffers a' ⊆ dom (buffers a) /\
  Z.of_nat (size (vacuum_buffers a')) = excess_buffers a.
Proof.
  intros Hcons Hvac Hvisit Hrun.
  destruct (InitializeVacuum_marks visit a a' Hcons Hvac Hvisit Hrun)
    as (H1 & H2 & H3 & _).
  done.
Qed.

Lemma InitializeVacuum_marks_excess_witness :
  consistent sparse100000 /\ vacuum_buffers sparse100000 = ∅ /\ visit_ok map_to_list /\
  InitializeVacuum map_to_list sparse100000 = Ok (marked100000, true) /\
  marked100000 = vacuum_marked sparse100000 (vacuum_buffers marked100000) /\
  vacuum_buffers marked100000 ⊆ dom (buffers sparse100000) /\
  Z.of_nat (size (vacuum_buffers marked100000)) = excess_buffers sparse100000.
Proof.
  assert (consistent sparse100000) as Hcons
    by exact (reachable_consistent 100000 sparse100000 reachable_sparse100000).
  assert (InitializeVacuum map_to_list sparse100000 = Ok (marked100000, true)) as Hrun
    by (vm_compute; reflexivity).
  split; [ exact Hcons | ]. split; [ reflexivity | ]. split; [ exact visit_ok_map_to_list | ].
  split; [ exact Hrun | ].
  exact (InitializeVacuum_marks_excess map_to_list sparse100000 marked100000 Hcons eq_refl
           visit_ok_map_to_list Hrun).
Defined.

(** X19. The buffers [InitializeVacuum] marks are the emptiest ones: no
    marked buffer holds more live segments than a buffer that is not
    marked. *)
Theorem InitializeVacuum_marks_emptiest
    (visit : gmap Z FixedSizeBuffer -> list (Z * FixedSizeBuffer))
    (a a' : FixedSizeAllocator) (v u : Z) (buffer_v buffer_u : FixedSizeBuffer) :
  consistent a -> vacuum_buffers a = ∅ -> visit_ok visit ->
  InitializeVacuum visit a = Ok (a', true) ->
  v ∈ vacuum_buffers a' -> u ∉ vacuum_buffers a' ->
  buffers a !! v = Some buffer_v -> buffers a !! u = Some buffer_u ->
  segment_count buffer_v <= segment_count buffer_u.
Proof.
  intros Hcons Hvac Hvisit Hrun.
  destruct (InitializeVacuum_marks visit a a' Hcons Hvac Hvisit Hrun)
    as (_ & _ & _ & Hle & _).
  apply Hle.
Qed.

Lemma InitializeVacuum_marks_emptiest_witness :
  exists buffer_v buffer_u,
    buffers sparse100000 !! 0 = Some buffer_v /\
    buffers sparse100000 !! 1 = Some buffer_u /\
    0 ∈ vacuum_buffers marked100000 /\ (1 ∉ vacuum_buffers marked100000) /\
    segment_count buffer_v <= segment_count buffer_u.
Proof.
  assert (consistent sparse100000) as Hcons
    by exact (reachable_consistent 100000 sparse100000 reachable_sparse100000).
  assert (InitializeVacuum map_to_list sparse100000 = Ok (marked100000, true)) as Hrun
    by (vm_compute; reflexivity).
  assert (0 ∈ vacuum_buffers marked100000) as Hv
    by (apply (bool_decide_unpack _); vm_compute; exact I).
  assert (1 ∉ vacuum_buffers marked100000) as Hu
    by (apply (bool_decide_unpack _); vm_compute; exact I).
  destruct (buffers sparse100000 !! 0) as [buffer_v | ] eqn:Hbv;
    [ | vm_compute in Hbv; discriminate Hbv ].
  destruct (buffers sparse100000 !! 1) as [buffer_u | ] eqn:Hbu;
    [ | vm_compute in Hbu; discriminate Hbu ].
  exists buffer_v, buffer_u.
  split; [ reflexivity | ]. split; [ reflexivity | ]. split; [ exact Hv | ].
  split; [ exact Hu | ].
  exact (InitializeVacuum_marks_emptiest map_to_list sparse100000 marked100000 0 1
           buffer_v buffer_u Hcons eq_refl visit_ok_map_to_list Hrun Hv Hu Hbv Hbu).
Defined.

(** X20. The buffers that are not marked have room for what the marked
    buffers hold: the live segments of the marked buffers are at most the
    free slots of the other buffers. *)
Theorem InitializeVacuum_leaves_room
    (visit : gmap Z FixedSizeBuffer -> list (Z * FixedSizeBuffer))
    (a a' : FixedSizeAllocator) :
  consistent a -> vacuum_buffers a = ∅ -> visit_ok visit ->
  InitializeVacuum visit a = Ok (a', true) ->
  live_segments_in (vacuum_buffers a') (buffers a) <=
    free_slots_outside a (vacuum_buffers a').
Proof.
  intros Hcons Hvac Hvisit Hrun.
  destruct (InitializeVacuum_marks visit a a' Hcons Hvac Hvisit Hrun)
    as (_ & _ & _ & _ & Hroom).
  exact Hroom.
Qed.

Lemma InitializeVacuum_leaves_room_witness :
  live_segments_in (vacuum_buffers marked100000) (buffers sparse100000) <=
    free_slots_outside sparse100000 (vacuum_buffers marked100000).
Proof.
  apply (InitializeVacuum_leaves_room map_to_list sparse100000 marked100000).
  - exact (reachable_consistent 100000 sparse100000 reachable_sparse100000).
  - reflexivity.
  - exact visit_ok_map_to_list.
  - vm_compute. reflexivity.
Defined.

(** X21. When segments are live but no buffer is in memory,
    [InitializeVacuum] clears the flags of the buffers and returns false
    without marking a buffer. *)
Theorem InitializeVacuum_nothing_in_memory
    (visit : gmap Z FixedSizeBuffer -> list (Z * FixedSizeBuffer))
    (a : FixedSizeAllocator) :
  visit_ok visit -> total_segment_count a <> 0 -> vacuum_buffers a = ∅ ->
  (forall b buffer, buffers a !! b = Some buffer -> InMemory buffer = false) ->
  InitializeVacuum visit a = Ok (vacuum_marked a ∅, false).
Proof.
  intros Hvisit Hne Hvac Hdisk. unfold InitializeVacuum.
  destruct (Z.eqb_spec (total_segment_count a) 0) as [ | _ ]; [ done | ].
  rewrite bool_decide_eq_true_2 by done. cbn [D_ASSERT mbind outcome_bind].
  rewrite InitializeVacuum_visit_fold_disk.
  - rewrite (clear_flags_visit visit a Hvisit).
    unfold vacuum_marked. by rewrite difference_empty_L, Hvac.
  - intros [k buffer] He. rewrite (Hvisit (buffers a)) in He.
    apply elem_of_map_to_list in He. by apply (Hdisk k).
Qed.

Lemma InitializeVacuum_nothing_in_memory_witness :
  InitializeVacuum map_to_list disk16 = Ok (vacuum_marked disk16 ∅, false).
Proof.
  apply (InitializeVacuum_nothing_in_memory map_to_list disk16).
  - exact visit_ok_map_to_list.
  - vm_compute. discriminate.
  - reflexivity.
  - assert (map_Forall (fun _ buffer => InMemory buffer = false) (buffers disk16)) as Hall
      by (apply (bool_decide_unpack _); vm_compute; exact I).
    exact Hall.
Defined.

(** X22. When segments are live, some buffer is in memory and no buffer
    in memory holds a segment, [InitializeVacuum] fails the assertion
    [excess_buffer_count < temporary_vacuum_buffers.size()]: the free
    slots of the buffers in memory make up all of them. *)
Theorem InitializeVacuum_asserts_on_empty_memory
    (visit : gmap Z FixedSizeBuffer -> list (Z * FixedSizeBuffer))
    (a : FixedSizeAllocator) :
  visit_ok visit -> total_segment_count a <> 0 -> vacuum_buffers a = ∅ ->
  1 <= available_segments_per_buffer a ->
  Z.of_nat (size (buffers a)) * available_segments_per_buffer a < Word.modulus ->
  (exists b buffer, buffers a !! b = Some buffer /\ InMemory buffer = true) ->
  (forall b buffer, buffers a !! b = Some buffer -> InMemory buffer = true ->
     segment_count buffer = 0) ->
  InitializeVacuum visit a =
    InternalException "excess_buffer_count < temporary_vacuum_buffers.size()".
Proof.
  intros Hvisit Hne Hvac Hav Hbound (b & buffer & Hb & Hmem) Hempty.
  unfold InitializeVacuum.
  destruct (Z.eqb_spec (total_segment_count a) 0) as [ | _ ]; [ done | ].
  rewrite bool_decide_eq_true_2 by done. cbn [D_ASSERT mbind outcome_bind].
  rewrite InitializeVacuum_visit_fold_mixed; cycle 1.
  { lia. }
  { intros [k buffer0] He. rewrite (Hvisit (buffers a)) in He.
    apply elem_of_map_to_list in He. by apply (Hempty k). }
  { lia. }
  { by rewrite (Hvisit (buffers a)), length_map_to_list. }
  set (kept := filter (fun e : Z * FixedSizeBuffer => InMemory e.2 = true)
                      (visit (buffers a))).
  assert ((b, buffer) ∈ kept) as Hin.
  { apply list_elem_of_filter. split; [ done | ].
    rewrite (Hvisit (buffers a)). by apply elem_of_map_to_list. }
  pose proof (emplace_all_length a kept []) as Hlen. cbn [length] in Hlen.
  destruct (emplace_all a [] kept) as [ | e temp ] eqn:Etemp.
  { destruct kept; [ by apply elem_of_nil in Hin | cbn in Hlen; lia ]. }
  rewrite <- Etemp in *. clear Etemp e temp.
  destruct (Z.eqb_spec (available_segments_per_buffer a) 0) as [ | _ ]; [ lia | ].
  rewrite Z.add_0_l, Z.div_mul by lia. rewrite Hlen, Nat.add_0_l.
  rewrite Z.ltb_irrefl. done.
Qed.

Lemma InitializeVacuum_asserts_on_empty_memory_witness :
  InitializeVacuum map_to_list mixed16 =
    InternalException "excess_buffer_count < temporary_vacuum_buffers.size()".
Proof.
  apply (InitializeVacuum_asserts_on_empty_memory map_to_list mixed16).
  - exact visit_ok_map_to_list.
  - vm_compute. discriminate.
  - reflexivity.
  - vm_compute. discriminate.
  - vm_compute. reflexivity.
  - exists 0. eexists. split; vm_compute; reflexivity.
  - assert (map_Forall (fun _ buffer => InMemory buffer = true -> segment_count buffer = 0)
              (buffers mixed16)) as Hall
      by (apply (bool_decide_unpack _); vm_compute; exact I).
    exact Hall.
Defined.

(** ** [VacuumPointer] *)

(** X23. While a vacuum runs and the segments of the layout lie inside
    a block, [VacuumPointer] of a pointer into a marked buffer succeeds
    as long as a buffer has free space or fewer than [2^32] buffers
    exist.  The pointer it returns is to a slot of a buffer that is not
    marked; that slot was unused and is used afterwards, every other slot
    is as it was (the old slot stays in use), and the new segment holds
    the bytes of the old one.  [total_segment_count] is unchanged, while
    the segment counts of the buffers add up to one more than before. *)
Theorem VacuumPointer_moves_segment (begin : gset Z -> Z) (ptr : IndexPointer)
    (a : FixedSizeAllocator) :
  vacuuming a -> segments_in_block a -> begin_ok begin ->
  buffers_with_free_space a <> ∅ \/ Z.of_nat (size (buffers a)) < 2 ^ 32 ->
  GetBufferId ptr ∈ vacuum_buffers a ->
  0 <= GetOffsetOf ptr < available_segments_per_buffer a ->
  exists a' p,
    VacuumPointer begin ptr a = Ok (a', p) /\
    vacuuming a' /\ same_layout a a' /\
    vacuum_buffers a' = vacuum_buffers a /\
    total_segment_count a' = total_segment_count a /\
    sum_counts (buffers a') = sum_counts (buffers a) + 1 /\
    (GetBufferId p ∉ vacuum_buffers a) /\
    ~ slot_used a p /\ slot_used a' p /\
    (forall q, q <> p -> slot_used a' q <-> slot_used a q) /\
    exists buffer' blk' buffer blk,
      buffers a' !! GetBufferId p = Some buffer' /\ memory buffer' = Some blk' /\
      buffers a !! GetBufferId ptr = Some buffer /\ memory buffer = Some blk /\
      forall i, 0 <= i < segment_size a ->
        payload blk' !! (segment_address a p + i) =
          payload blk !! (segment_address a ptr + i).
Proof.
  intros Hvac Hfit Hbegin Hroom Hptr Hoff.
  destruct (VacuumPointer_step begin ptr a Hvac Hfit Hbegin Hroom Hptr Hoff)
    as (a' & b & row & buffer' & Hrun & Hvac' & Hlay & Hvb & Htot & Hbufs & Hbv & Hrow
        & Hcount & Hsome & (Hunused & Hused & Hframe)
        & (blk' & buffer & blk & Hmem' & Hb & Hmem & Hcopy)).
  exists a', (MkIndexPointer b row).
  split; [ done | ]. split; [ done | ]. split; [ done | ]. split; [ done | ].
  split; [ done | ].
  split.
  { rewrite Hbufs. destruct (buffers a !! b) as [buffer0 | ] eqn:Hb0.
    - rewrite (sum_counts_insert _ _ _ _ Hb0). lia.
    - rewrite sum_counts_insert_new by done. lia. }
  split; [ done | ]. split; [ done | ]. split; [ done | ]. split; [ done | ].
  exists buffer', blk', buffer, blk.
  split; [ rewrite Hbufs; apply lookup_insert_eq | ]. done.
Qed.

Lemma VacuumPointer_moves_segment_witness :
  vacuuming marked100000 /\ segments_in_block marked100000 /\
  GetBufferId (MkIndexPointer 0 1) ∈ vacuum_buffers marked100000 /\
  exists a' p,
    VacuumPointer begin_min (MkIndexPointer 0 1) marked100000 = Ok (a', p) /\
    vacuuming a' /\ same_layout marked100000 a' /\
    vacuum_buffers a' = vacuum_buffers marked100000 /\
    total_segment_count a' = total_segment_count marked100000 /\
    sum_counts (buffers a') = sum_counts (buffers marked100000) + 1 /\
    (GetBufferId p ∉ vacuum_buffers marked100000) /\
    ~ slot_used marked100000 p /\ slot_used a' p /\
    (forall q, q <> p -> slot_used a' q <-> slot_used marked100000 q) /\
    exists buffer' blk' buffer blk,
      buffers a' !! GetBufferId p = Some buffer' /\ memory buffer' = Some blk' /\
      buffers marked100000 !! GetBufferId (MkIndexPointer 0 1) = Some buffer /\
      memory buffer = Some blk /\
      forall i, 0 <= i < segment_size marked100000 ->
        payload blk' !! (segment_address marked100000 p + i) =
          payload blk !! (segment_address marked100000 (MkIndexPointer 0 1) + i).
Proof.
  assert (consistent sparse100000) as Hcons
    by exact (reachable_consistent 100000 sparse100000 reachable_sparse100000).
  assert (InitializeVacuum map_to_list sparse100000 = Ok (marked100000, true)) as Hrun
    by (vm_compute; reflexivity).
  destruct (InitializeVacuum_vacuuming map_to_list sparse100000 marked100000 Hcons eq_refl
              visit_ok_map_to_list Hrun) as [Hvac _].
  assert (segments_in_block marked100000) as Hfit.
  { vm_compute. repeat split; discriminate. }
  assert (GetBufferId (MkIndexPointer 0 1) ∈ vacuum_buffers marked100000) as Hptr
    by (apply (bool_decide_unpack _); vm_compute; exact I).
  split; [ exact Hvac | ]. split; [ exact Hfit | ]. split; [ exact Hptr | ].
  apply (VacuumPointer_moves_segment begin_min (MkIndexPointer 0 1) marked100000 Hvac Hfit
           begin_min_ok).
  - right. vm_compute. reflexivity.
  - exact Hptr.
  - vm_compute. split; [ discriminate | reflexivity ].
Defined.

(** ** [FinalizeVacuum] *)

(** X24. [FinalizeVacuum] succeeds exactly when every marked buffer
    exists and is in memory; otherwise it fails an assertion.  When it
    succeeds it has erased the marked buffers and emptied
    [vacuum_buffers]; the other buffers, the free set and
    [total_segment_count] are as they were. *)
Theorem FinalizeVacuum_drops_marked (a : FixedSizeAllocator) :
  (marked_in_memory a /\
   FinalizeVacuum a =
     Ok (MkFixedSizeAllocator (segment_size a) (bitmask_count a) (bitmask_offset a)
           (available_segments_per_buffer a) (total_segment_count a)
           (unmarked_buffers a) (buffers_with_free_space a) ∅)) \/
  (~ marked_in_memory a /\ throws (FinalizeVacuum a)).
Proof.
  destruct (marked_in_memory_dec a) as [Hall | Hnot].
  - left. split; [ done | ]. by apply FinalizeVacuum_Ok.
  - right. split; [ done | ]. by apply FinalizeVacuum_throws.
Qed.

(** X25. [FinalizeVacuum] does not look at what the marked buffers
    hold: after it, the buffers' segment counts add up to the sum before
    less the live segments of the marked buffers, and the allocator is
    consistent exactly when [total_segment_count] did not count those
    segments. *)
Theorem FinalizeVacuum_counts_left (a a' : FixedSizeAllocator) :
  vacuuming a -> FinalizeVacuum a = Ok a' ->
  sum_counts (buffers a') =
    sum_counts (buffers a) - live_segments_in (vacuum_buffers a) (buffers a) /\
  (consistent a' <->
   total_segment_count a + live_segments_in (vacuum_buffers a) (buffers a) =
     sum_counts (buffers a)).
Proof.
  intros Hvac Hfin.
  rewrite (FinalizeVacuum_Ok a (vacuuming_marked_in_memory a Hvac)) in Hfin.
  injection Hfin as <-. cbn [buffers total_segment_count].
  unfold unmarked_buffers. rewrite sum_counts_unmarked. split; [ done | ]. split.
  - intros [_ [_ Hsum]]. cbn [buffers total_segment_count] in Hsum.
    unfold unmarked_buffers in Hsum. rewrite sum_counts_unmarked in Hsum. lia.
  - intros Hsum.
    destruct (FinalizeVacuum_consistent a Hvac Hsum) as (a'' & Hfin & Hcons & _).
    rewrite (FinalizeVacuum_Ok a (vacuuming_marked_in_memory a Hvac)) in Hfin.
    injection Hfin as <-. exact Hcons.
Qed.

Lemma FinalizeVacuum_counts_left_witness :
  vacuuming marked100000 /\ FinalizeVacuum marked100000 = Ok dropped100000 /\
  sum_counts (buffers dropped100000) =
    sum_counts (buffers marked100000) -
    live_segments_in (vacuum_buffers marked100000) (buffers marked100000) /\
  (consistent dropped100000 <->
   total_segment_count marked100000 +
   live_segments_in (vacuum_buffers marked100000) (buffers marked100000) =
     sum_counts (buffers marked100000)).
Proof.
  assert (consistent sparse100000) as Hcons
    by exact (reachable_consistent 100000 sparse100000 reachable_sparse100000).
  assert (InitializeVacuum map_to_list sparse100000 = Ok (marked100000, true)) as Hrun
    by (vm_compute; reflexivity).
  destruct (InitializeVacuum_vacuuming map_to_list sparse100000 marked100000 Hcons eq_refl
              visit_ok_map_to_list Hrun) as [Hvac _].
  assert (FinalizeVacuum marked100000 = Ok dropped100000) as Hfin
    by (vm_compute; reflexivity).
  split; [ exact Hvac | ]. split; [ exact Hfin | ].
  exact (FinalizeVacuum_counts_left marked100000 dropped100000 Hvac Hfin).
Defined.

(** ** A whole vacuum *)

(** X26. A whole vacuum compacts the allocator.  Let [InitializeVacuum]
    return true on a consistent allocator whose segments lie inside a
    block, let [VacuumPointer] be called once for each of as many
    pointers into marked buffers as those buffers hold live segments, and
    let [FinalizeVacuum] follow.  Then every call succeeds and no buffer
    is added; the allocator is consistent again with the same
    [total_segment_count]; its buffers are the old ones without the
    marked ones, [excess_buffers] fewer; the new pointers are pairwise
    distinct slots that were unused, and the slots in use are the new
    pointers and the old slots of the buffers that were not marked. *)
Theorem vacuum_round_compacts
    (visit : gmap Z FixedSizeBuffer -> list (Z * FixedSizeBuffer))
    (begin : gset Z -> Z) (a a1 : FixedSizeAllocator) (ptrs : list IndexPointer) :
  consistent a -> vacuum_buffers a = ∅ -> segments_in_block a ->
  visit_ok visit -> begin_ok begin ->
  InitializeVacuum visit a = Ok (a1, true) ->
  Forall (marked_pointer a1) ptrs ->
  Z.of_nat (length ptrs) = live_segments_in (vacuum_buffers a1) (buffers a) ->
  exists a2 new_ptrs a3,
    VacuumPointer_all begin ptrs a1 = Ok (a2, new_ptrs) /\
    FinalizeVacuum a2 = Ok a3 /\
    consistent a3 /\ vacuum_buffers a3 = ∅ /\ same_layout a a3 /\
    total_segment_count a3 = total_segment_count a /\
    dom (buffers a3) = dom (buffers a) ∖ vacuum_buffers a1 /\
    Z.of_nat (size (buffers a3)) = Z.of_nat (size (buffers a)) - excess_buffers a /\
    length new_ptrs = length ptrs /\ NoDup new_ptrs /\
    Forall (fun p => ~ slot_used a p) new_ptrs /\
    forall q, slot_used a3 q <->
      (slot_used a q \/ q ∈ new_ptrs) /\ GetBufferId q ∉ vacuum_buffers a1.
Proof.
  intros Hcons Hvac Hfit Hvisit Hbegin Hinit Hptrs Hlen.
  destruct (InitializeVacuum_accepted visit a a1 Hcons Hvac Hvisit Hinit) as [Hne Ha1].
  set (V := list_to_set (vacuum_kept visit a).*2 : gset Z) in *.
  pose proof (vacuum_kept_dom visit a Hvisit) as Hdom. fold V in Hdom.
  pose proof (vacuum_kept_size visit a Hcons Hvisit Hne) as Hsize. fold V in Hsize.
  pose proof (vacuum_kept_room visit a Hcons Hvisit Hne) as Hroom.
  cbn zeta in Hroom. fold V in Hroom.
  pose proof (vacuum_marked_vacuuming a V Hcons Hdom) as Hvac1.
  subst a1. cbn [vacuum_marked vacuum_buffers] in Hlen, Hptrs |- *.
  destruct (VacuumPointer_all_run begin ptrs (vacuum_marked a V) Hvac1)
    as (a2 & new_ptrs & Hrun & Hvac2 & Hlay2 & Hvb2 & Htot2 & Hdom2 & Hsum2 & Hlive2
        & Hlen2 & Hnd2 & Hnew2 & Hslots2); try done.
  { rewrite free_slots_vacuum_marked. cbn [vacuum_marked vacuum_buffers]. lia. }
  cbn [vacuum_marked vacuum_buffers total_segment_count buffers] in *.
  rewrite sum_counts_flag_buffers in Hsum2.
  rewrite live_segments_flag_buffers in Hlive2.
  destruct (FinalizeVacuum_consistent a2 Hvac2)
    as (a3 & Hfin & Hcons3 & Hlay3 & Hvb3 & Htot3 & Hbufs3 & Hfree3).
  { rewrite Hvb2, Hlive2, Htot2, Hsum2. destruct Hcons as [_ [_ Hsum]]. lia. }
  exists a2, new_ptrs, a3.
  split; [ done | ]. split; [ done | ]. split; [ done | ]. split; [ done | ].
  split.
  { destruct Hlay2 as (? & ? & ? & ?), Hlay3 as (? & ? & ? & ?).
    cbn [vacuum_marked segment_size bitmask_count bitmask_offset
         available_segments_per_buffer] in *. repeat split; congruence. }
  split; [ congruence | ].
  assert (dom (buffers a3) = dom (buffers a) ∖ V) as Hdom3.
  { rewrite Hbufs3, unmarked_buffers_dom, Hvb2, Hdom2. f_equal.
    apply set_eq. intros k. by rewrite !elem_of_dom, flag_buffers_lookup, fmap_is_Some. }
  split; [ done | ].
  split.
  { rewrite <- (size_dom (buffers a3)), Hdom3, size_difference by done.
    rewrite size_dom.
    assert (size V <= size (dom (buffers a)))%nat as Hle by (by apply subseteq_size).
    rewrite size_dom in Hle. lia. }
  split; [ done | ]. split; [ done | ].
  split.
  { eapply Forall_impl; [ exact Hnew2 | ]. cbn. intros p [_ Hp] Hused.
    apply Hp. by apply slot_used_vacuum_marked. }
  intros q. rewrite (slot_used_unmarked a2 a3 q Hbufs3), Hvb2, Hslots2.
  - by rewrite slot_used_vacuum_marked.
  - by destruct Hlay3 as (_ & _ & _ & ?).
Qed.

Lemma vacuum_round_compacts_witness :
  consistent sparse100000 /\ segments_in_block sparse100000 /\
  InitializeVacuum map_to_list sparse100000 = Ok (marked100000, true) /\
  Forall (marked_pointer marked100000) [MkIndexPointer 0 1] /\
  exists a2 new_ptrs a3,
    VacuumPointer_all begin_min [MkIndexPointer 0 1] marked100000 = Ok (a2, new_ptrs) /\
    FinalizeVacuum a2 = Ok a3 /\
    consistent a3 /\ vacuum_buffers a3 = ∅ /\ same_layout sparse100000 a3 /\
    total_segment_count a3 = total_segment_count sparse100000 /\
    dom (buffers a3) = dom (buffers sparse100000) ∖ vacuum_buffers marked100000 /\
    Z.of_nat (size (buffers a3)) =
      Z.of_nat (size (buffers sparse100000)) - excess_buffers sparse100000 /\
    length new_ptrs = length [MkIndexPointer 0 1] /\ NoDup new_ptrs /\
    Forall (fun p => ~ slot_used sparse100000 p) new_ptrs /\
    forall q, slot_used a3 q <->
      (slot_used sparse100000 q \/ q ∈ new_ptrs) /\
      GetBufferId q ∉ vacuum_buffers marked100000.
Proof.
  assert (consistent sparse100000) as Hcons
    by exact (reachable_consistent 100000 sparse100000 reachable_sparse100000).
  assert (segments_in_block sparse100000) as Hfit.
  { vm_compute. repeat split; discriminate. }
  assert (InitializeVacuum map_to_list sparse100000 = Ok (marked100000, true)) as Hrun
    by (vm_compute; reflexivity).
  assert (Forall (marked_pointer marked100000) [MkIndexPointer 0 1]) as Hptrs.
  { constructor 2; [ | constructor 1 ]. split.
    - apply (bool_decide_unpack _). vm_compute. exact I.
    - vm_compute. split; [ discriminate | reflexivity ]. }
  split; [ exact Hcons | ]. split; [ exact Hfit | ]. split; [ exact Hrun | ].
  split; [ exact Hptrs | ].
  apply (vacuum_round_compacts map_to_list begin_min sparse100000 marked100000
           [MkIndexPointer 0 1] Hcons eq_refl Hfit visit_ok_map_to_list begin_min_ok
           Hrun Hptrs).
  vm_compute. reflexivity.
Defined.

(** ** [GetMaxOffset] *)

(** X27. In a layout without a spare bitmap word, on the bitmap of a
    buffer of a coherent allocator, [GetMaxOffset] returns one more than
    the largest slot in use, and throws "tried to serialize empty buffer"
    when no slot is in use. *)
Theorem GetMaxOffset_exact_without_spare_word (a : FixedSizeAllocator) (b : Z)
    (buffer : FixedSizeBuffer) (blk : Block) :
  coherent a ->
  64 * (bitmask_count a - 1) <= available_segments_per_buffer a ->
  buffers a !! b = Some buffer -> memory buffer = Some blk ->
  (forall j, largest_used_slot (bitmap blk) (available_segments_per_buffer a) j ->
             GetMaxOffset a (bitmap blk) = Ok (j + 1)) /\
  (no_used_slot (bitmap blk) (available_segments_per_buffer a) ->
   GetMaxOffset a (bitmap blk) = InternalException empty_buffer_msg).
Proof.
  intros [(Hbc & Hav & Hbc8) Hbufs _] Htight Hb Hmem.
  destruct (Hbufs b buffer Hb) as (blk' & Hmem' & Hlen & Hwords & Hhigh & _).
  rewrite Hmem in Hmem'. injection Hmem' as <-.
  apply GetMaxOffset_exact; try done.
  - unfold BLOCK_SIZE in Hbc8. lia.
  - lia.
Qed.

Lemma GetMaxOffset_exact_without_spare_word_witness :
  coherent one16 /\
  64 * (bitmask_count one16 - 1) <= available_segments_per_buffer one16 /\
  buffers one16 !! 0 = Some one16_buffer /\
  memory one16_buffer = Some (MkBlock one16_bitmap ∅) /\
  (forall j, largest_used_slot one16_bitmap (available_segments_per_buffer one16) j ->
             GetMaxOffset one16 one16_bitmap = Ok (j + 1)) /\
  (no_used_slot one16_bitmap (available_segments_per_buffer one16) ->
   GetMaxOffset one16 one16_bitmap = InternalException empty_buffer_msg).
Proof.
  assert (coherent one16) as Hcoh
    by exact (proj1 (reachable_consistent 16 one16 reachable_one16)).
  assert (64 * (bitmask_count one16 - 1) <= available_segments_per_buffer one16) as Htight
    by (vm_compute; discriminate).
  assert (buffers one16 !! 0 = Some one16_buffer) as Hb by (vm_compute; reflexivity).
  assert (memory one16_buffer = Some (MkBlock one16_bitmap ∅)) as Hmem
    by (vm_compute; reflexivity).
  split; [ exact Hcoh | ]. split; [ exact Htight | ]. split; [ exact Hb | ].
  split; [ exact Hmem | ].
  exact (GetMaxOffset_exact_without_spare_word one16 0 one16_buffer
           (MkBlock one16_bitmap ∅) Hcoh Htight Hb Hmem).
Defined.
